(* ===== verification/_CoqProject ===== *)
-Q . S2P
Prelude.v
OrdMap.v
Schema.v
SchemaFacts.v
SchemaTermination.v
StoragePlan.v
Planner.v
PlannerFacts.v
PlannerPlan.v
Value.v
PathWalker.v
WalkerTyping.v
Kv.v
MemKv.v
MemKvIsolation.v
Backend.v
Sqlite.v
Foundation.v
VmValue.v
Bytecode.v
Typeck.v
F64.v
Exec.v
ValueTyping.v
NodeSound.v
GraphSound.v
TypeckSound.v
TypeckWf.v
RunGraph.v
BackendSound.v
SeqEval.v
SeqSched.v
Serialize.v
SerializeFacts.v
Query.v
QueryCache.v
AsmAst.v
Codegen.v
CodegenFacts.v
CodegenTypes.v
Visualize.v
Pipeline.v
Playground.v
SourceSem.v
SourceRun.v
SourceLaws.v
ServerEnv.v
System.v
ControlPlane.v
HttpApi.v
ServerMain.v
SetKeys.v
ControlFacts.v
Words.v
Confined.v
Session.v
Client.v
Limits.v
Demo.v
DemoScript.v
SystemScript.v
DemoPipeline.v
DemoBackends.v
SystemDemo.v
SchemaProperties.v
StoreProperties.v
ScriptProperties.v
QueryProperties.v
CodegenProperties.v
ServerProperties.v
PlaygroundProperties.v
ClientProperties.v
