(* ===== verification/Prelude.v ===== *)
(** * RefineDB: a model of the database and its server

    RefineDB compiles a schema of typed tables and sets to a storage plan, compiles
    scripts to dataflow graphs, checks them against the schema and runs them on a
    transactional key-value store.  A server keeps schemas, plans and scripts in
    tables of its own and answers queries over HTTP; a command line client deploys
    schemas and scripts to it, and a playground runs scripts inside an editor.  This
    library models the analyzer (crate [rdb-analyzer]), the server ([rdb-server]), the
    client ([rdbctl]) and the playground ([rdb-pgsvc]) and proves that their parts do
    what their callers rely on.

    ** The parts and how they interact

    - Schema compiler, [schema/compile.rs]: files [Schema] (the AST, [compile]),
      [SchemaFacts] (what a compiled schema satisfies, [wf_schema]),
      [SchemaTermination] (when compiling returns).
    - Storage plans, [storage_plan/]: [StoragePlan] ([mod.rs], [conversion.rs]),
      [Planner] ([planner.rs]), [PlannerFacts] (the plan of one field: keys,
      conformance to the type, replaying against itself), [PlannerPlan] (whole
      plans).
    - Keys, [data/value.rs] and [data/pathwalker.rs]: [Value] (primitive values
      and their key encoding), [PathWalker] (walking a plan and the key of a
      position), [WalkerTyping] ([plan_ok]: a plan that conforms to a schema;
      [walker_typed]: a walker that stands for a type; entering preserves it).
    - Key-value stores, [data/kv.rs]: [Kv] is the interface, the traits as type
      classes with the laws their clients rely on.  [MemKv] is the in-memory MVCC
      store ([data/mock_kv.rs]; [rdb-pgsvc/src/memkv.rs] is the same store again),
      and [MemKvIsolation] relates any interleaving of its transactions to an
      abstract machine of snapshot isolation.  [Sqlite] and [Foundation] are the
      back ends of the server ([rdb-server/src/kv_backend/]), over the calls they
      make of SQLite and of the FoundationDB client; [Backend] is what they share.
      Each store discharges the classes of [Kv].
    - Scripts, [data/treewalker/]: [AsmAst] and [Codegen] ([asm/]: the syntax tree
      and its lowering to graphs), [VmValue] ([vm_value.rs]), [Bytecode]
      ([bytecode.rs], [vm.rs]), [Typeck] ([typeck.rs]), [F64] (doubles as bits),
      [Exec] ([exec.rs]), [Serialize] ([serialize.rs]: arguments and results).
    - Soundness: [ValueTyping] (a run-time value of a type), [NodeSound] (each
      arm of [run_node] against its arm of the checker), [GraphSound] (the
      scheduler of one graph, and the tree of calls), [TypeckSound] (what the
      checker's result says of every node, and the step from it to soundness),
      [TypeckWf] (the types it infers are well formed),
      [RunGraph] (the retry loop, against the store interface, and its instance
      on the in-memory store), [BackendSound] (its instances on the server's back
      ends), [SetKeys] (what deletes and scans of a set do to its keys),
      [SerializeFacts] (decoded values have their types; round trips), [Words]
      (integers keep their width), [Confined] (what a run writes, and that it stays
      in the data of its namespace).
    - Meaning: [SeqEval] and [SeqSched] (a read-only graph means what evaluating
      its nodes in order gives, whatever the schedule), [CodegenFacts] (the
      invariants of code generation), [CodegenTypes] (the constants and types of
      generated code), [SourceSem], [SourceRun] and [SourceLaws] (a
      semantics of the syntax tree, which generated code agrees with).
    - Queries, [rdb-server/src/]: [Query] ([exec_core.rs], [exec.rs]: loading a
      script, answering a call), [Pipeline] (from a schema and a script in source
      form to its queries), [QueryCache] ([query_cache.rs]), [HttpApi]
      ([httpapi.rs]: a query through the cache).
    - The server, [rdb-server/src/]: [ServerEnv] (the crates it calls, what a
      request meets at run time, its stores: [state.rs], [main.rs]), [System]
      ([system.rs]: the start, with the migration of the server's own schema),
      [ControlPlane] ([server.rs], [sysquery.rs]: every call of the service) and
      [ControlFacts], [ServerMain] ([main.rs], [opt.rs]: selecting a back end and
      starting on it), [Session] (everything that happens to a running server, as a
      step relation), [SystemScript] (the script [sys.rasm] and the schema
      [system_schema.rschema] as syntax trees).
    - The client, [rdbctl/src/]: [Client] ([main.rs], [diff.rs]: every subcommand, over
      an interface of remote calls that the handlers of [ControlPlane] implement).
    - The playground, [rdb-pgsvc/src/]: [Playground] ([main.rs], [query.rs]: the C
      interface, example queries, running queries) and [Visualize] ([dfvis.rs]).
    - Samples: [Demo] and [DemoScript] are a deployment and a script, compiled,
      planned, checked and run inside the model; [DemoPipeline] is the script again,
      from its syntax tree; [DemoBackends] are an SQLite and a
      FoundationDB on lists; [SystemDemo] is a server that starts, takes a
      deployment and a script, and answers a query; [Limits] has scripts on which the
      guarantees end.
    - [SchemaProperties], [StoreProperties], [ScriptProperties],
      [CodegenProperties], [QueryProperties], [ServerProperties],
      [PlaygroundProperties] and [ClientProperties] state the theorems and instantiate
      them on the samples.

    ** Conventions

    Fallible code returns an [outcome]: [Ok], [Err] with the error type of the
    source, [Panic] for a failed [unwrap], [assert] or [unreachable], [NoFuel]
    for a recursion that ran out of the fuel of the model.  In the executor the
    panics are values of [Err (XPanic site)], so that a theorem can say which
    panics remain.  A run returns its outcome and, in every case, the store it
    leaves; a handler of the server is a function of the database that returns an
    outcome and the database it leaves ([computation]).  Machine integers are [Z] with
    explicit wrap-around, strings are sequences of bytes, a [BTreeMap] or persistent
    red-black tree is a sorted association list ([bt_*] in [OrdMap]), hash maps and
    sets are [gmap] and [gset].  Indices ([u32]) are [nat].

    ** Fuel and bounds

    [compile] takes the depth of the recursion of [resolve_type_expr];
    [schema_fuel] is enough for every schema without generics, and no fuel is
    enough for some schemas with generics ([compile_diverges]).  The server takes
    the depth as a function of the syntax tree.  The planner takes the depth of its
    recursion; [plan_fuel], twice the number of types plus two, is enough for every
    well-formed schema ([plan_returns]).  The loop of a graph takes the number of
    completions; [loop_fuel] is enough for every checked graph
    ([checked_script_runs_safely] excludes [NoFuel]).  A FoundationDB scan takes one
    more than the number of keys of the database, which is enough
    ([fdb_scan_pages]).  Calls are bounded by the code's own limit of 128 levels,
    walkers by 64.

    ** What the theorems show

    - A compiled schema is well formed; compiling schemas without generics
      returns.
    - Planning returns; the plan conforms to the schema; planning again changes
      nothing; keys of a fresh plan are distinct; a kept field keeps its key.
    - Key encodings preserve the order of values and are injective; walkers can
      enter whatever the schema declares, up to the depth limit.
    - The in-memory store is snapshot isolation with the first committer winning;
      a transaction of the SQLite back end is serial; a FoundationDB scan lists
      what its transaction read at its start, however it is cut into batches.
    - Deleting a set member and scanning a range of a set touch exactly the keys
      of the members concerned.
    - The code generator does not panic and emits well-formed scripts; a checked
      script that does not write means what its syntax tree says, whatever the
      order in which its nodes complete.
    - A checked script does not get stuck and leaves the data well typed, for scripts
      that do not use covariance between different map types across calls; [run_graph]
      inherits this through its retries and succeeds once others let it be.
    - A deployment serves its queries: from a schema and scripts in source form, after
      any sequence of queries, answered, failed or timed out, every call answers and
      the data stay well typed; arguments and results survive the wire; integers stay
      64-bit integers.
    - The cache answers what was put, and a query over HTTP runs the script the
      system store has; a query, even of an unchecked script, changes nothing outside
      the data of its namespace.
    - A restarted server finds its plan; there is no migration without the hash; the
      tables of a running server stay well typed under any traffic, so the system
      script answers all calls of the control plane, whose handlers do not panic; a
      deployment is accepted exactly for plans that conform; deleting a namespace
      deletes its data and no other.
    - What the client submits is accepted; a migration changes the plan only with
      consent; deploying the same schema again changes nothing.
    - The playground answers every query of a checked script, can run the examples it
      shows, and draws every compiled script.
    - The last lemmas of each file are about behaviour at the edges: schemas on
      which the compiler diverges, renames that alias storage, recursive sets,
      string keys with zero bytes, accepted scripts that panic, and requests that
      fail with the wrong error.

    ** Parameters

    The two generated parsers, the clock, uuids and random bytes ([Entropy],
    [Circumstances]), base64, the printing of doubles, the MessagePack, Snappy, JSON
    and YAML codecs, the line difference of texts ([TextDiff]), the files and the
    prompt of the client, the strongly connected components of the call graph
    ([kosaraju_scc] of petgraph), the iteration order of hash maps, the persistent
    map under the in-memory store, SQLite and the FoundationDB client (classes
    [Sqlite] and [Fdb], with laws from their documentation), the LRU map ([Lru]),
    the pending node that completes next ([schedule]), the other clients of the
    store ([others]) and whether a timeout fires and after how many attempts.  Every class of laws has an
    instance on concrete data.

    ** What is not modelled

    The generated parsers and the JSON form of values; the parsing of command lines,
    HTTP routing and status codes; the text form of schemas; log output and terminal
    colours; the allocation of C strings and the release of boxes.  Asynchronous calls
    are single steps: a node that was chosen runs to its end, so effects of two pending
    nodes of one graph interleave only between nodes, and a handler of the server runs
    to its end, other clients acting only between the attempts of a transaction.
    [yield_fn] and [sleep_fn] have no effect on the results.  The playground's store
    [MemKv] is the code of the in-memory store under other names and is modelled
    once.

    ** Planned

    Handlers of one server that interleave with each other; the well-typedness of the
    data of a namespace across the migrations of its deployments.

    This first file is the prelude: the error monad, machine words, bytes, orders
    and the lemmas shared by all components. *)
From stdpp Require Import prelude gmap strings list.
From Stdlib Require Import Strings.Byte ZArith NArith Sorted.

(** ** Outcomes of Rust code

    A call returns [Ok], returns [Err] (the [Err] of a [Result]), panics
    ([unwrap], [expect], [unreachable!], an index out of range, [assert!]) or,
    in a model with fuel, runs out of it. *)
Inductive outcome (E A : Type) : Type :=
| Ok (a : A)
| Err (e : E)
| Panic
| NoFuel.
Arguments Ok {E A} _.
Arguments Err {E A} _.
Arguments Panic {E A}.
Arguments NoFuel {E A}.

Definition obind {E A B} (c : outcome E A) (k : A -> outcome E B) : outcome E B :=
  match c with
  | Ok a => k a
  | Err e => Err e
  | Panic => Panic
  | NoFuel => NoFuel
  end.

Definition omap_ok {E A B} (f : A -> B) (c : outcome E A) : outcome E B :=
  obind c (fun a => Ok (f a)).

(** [ok_or_else], and [unwrap] on an option. *)
Definition ok_or {E A} (o : option A) (e : E) : outcome E A :=
  match o with Some a => Ok a | None => Err e end.

Definition unwrap {E A} (o : option A) : outcome E A :=
  match o with Some a => Ok a | None => Panic end.

(** [map_err]. *)
Definition map_err {E F A} (f : E -> F) (c : outcome E A) : outcome F A :=
  match c with
  | Ok a => Ok a
  | Err e => Err (f e)
  | Panic => Panic
  | NoFuel => NoFuel
  end.

Definition is_ok {E A} (c : outcome E A) : bool :=
  match c with Ok _ => true | _ => false end.

(** The call comes back with a [Result]: no panic, and enough fuel. *)
Definition returns {E A} (c : outcome E A) : Prop :=
  match c with Ok _ | Err _ => True | Panic | NoFuel => False end.

(** The same, with the errors it may come back with. *)
Definition returns_with {E A} (P : E -> Prop) (c : outcome E A) : Prop :=
  match c with Ok _ => True | Err e => P e | Panic | NoFuel => False end.

Declare Scope rust_scope.
Delimit Scope rust_scope with rust.
Notation "'let?' x := c 'in' k" := (obind c (fun x => k))
  (at level 10, x pattern, c at level 200, k at level 200,
   format "'[v' 'let?'  x  :=  c  'in' '/' k ']'") : rust_scope.
Open Scope rust_scope.
Open Scope string_scope.
Open Scope list_scope.

(** [iter().map(f).collect::<Result<Vec<_>>>()]: stops at the first failure. *)
Fixpoint mapM_o {E A B} (f : A -> outcome E B) (l : list A) : outcome E (list B) :=
  match l with
  | [] => Ok []
  | x :: l => let? y := f x in let? ys := mapM_o f l in Ok (y :: ys)
  end.

(** A [for] loop that threads a state and may return early with [?]. *)
Fixpoint foldM_o {E A S} (f : S -> A -> outcome E S) (s : S) (l : list A) : outcome E S :=
  match l with
  | [] => Ok s
  | x :: l => let? s' := f s x in foldM_o f s' l
  end.

(** ** Machine integers, as [Z] with the wrap-around written out *)
Definition u64_wrap (z : Z) : Z := Z.modulo z (2 ^ 64).
Definition i64_wrap (z : Z) : Z := (Z.modulo (z + 2 ^ 63) (2 ^ 64) - 2 ^ 63)%Z.
Definition is_u64 (z : Z) : Prop := (0 <= z < 2 ^ 64)%Z.
Definition is_i64 (z : Z) : Prop := (- 2 ^ 63 <= z < 2 ^ 63)%Z.

(** ** Bytes *)
#[global] Instance byte_eq_dec : EqDecision byte := Byte.byte_eq_dec.
#[global] Program Instance byte_countable : Countable byte :=
  inj_countable Byte.to_N Byte.of_N _.
Next Obligation. exact Byte.of_to_N. Qed.

Definition u8 (b : byte) : Z := Z.of_N (Byte.to_N b).

(** The byte of the low eight bits ([as u8]). *)
Definition to_u8 (z : Z) : byte :=
  match Byte.of_N (Z.to_N (Z.modulo z 256)) with Some b => b | None => x00 end.

Abbreviation bytes := (list byte).

(** The [n] low bytes of [z], most significant first. *)
Fixpoint be_bytes (n : nat) (z : Z) : bytes :=
  match n with
  | O => []
  | S n => to_u8 (Z.shiftr z (8 * Z.of_nat n)) :: be_bytes n z
  end.

(** A string as its bytes ([as_bytes]); a Rust string is UTF-8, and an [ascii]
    of the model is one byte of it. *)
Fixpoint as_bytes (s : string) : bytes :=
  match s with
  | EmptyString => []
  | String c s => Ascii.byte_of_ascii c :: as_bytes s
  end.

(** The string of these bytes. *)
Fixpoint of_bytes (b : bytes) : string :=
  match b with
  | [] => EmptyString
  | c :: b => String (Ascii.ascii_of_byte c) (of_bytes b)
  end.

(** ** Total orders *)
Class Ord (K : Type) := cmp : K -> K -> comparison.

Class OrdLaws (K : Type) `{Ord K} : Prop := {
  cmp_eq : forall x y : K, cmp x y = Eq <-> x = y;
  cmp_anti : forall x y : K, cmp y x = CompOpp (cmp x y);
  cmp_trans : forall x y z : K, cmp x y = Lt -> cmp y z = Lt -> cmp x z = Lt
}.

#[global] Instance byte_ord : Ord byte := fun x y => N.compare (Byte.to_N x) (Byte.to_N y).

Fixpoint lex_cmp {A} `{Ord A} (l1 l2 : list A) : comparison :=
  match l1, l2 with
  | [], [] => Eq
  | [], _ :: _ => Lt
  | _ :: _, [] => Gt
  | x :: l1, y :: l2 =>
      match cmp x y with Eq => lex_cmp l1 l2 | c => c end
  end.

#[global] Instance list_ord {A} `{Ord A} : Ord (list A) := lex_cmp.

(** [Ord for str] compares the bytes. *)
Fixpoint str_cmp (s1 s2 : string) : comparison :=
  match s1, s2 with
  | EmptyString, EmptyString => Eq
  | EmptyString, String _ _ => Lt
  | String _ _, EmptyString => Gt
  | String x s1, String y s2 =>
      match N.compare (Ascii.N_of_ascii x) (Ascii.N_of_ascii y) with
      | Eq => str_cmp s1 s2
      | c => c
      end
  end.

#[global] Instance string_ord : Ord string := str_cmp.

Definition oltb {K} `{Ord K} (x y : K) : bool :=
  match cmp x y with Lt => true | _ => false end.

Definition oleb {K} `{Ord K} (x y : K) : bool :=
  match cmp x y with Gt => false | _ => true end.

(** ** Lemmas on orders *)
Create HintDb rdb discriminated.

Section OrdFacts.
Context {K : Type} `{OrdLaws K}.

Lemma cmp_refl (x : K) : cmp x x = Eq.
Proof. by apply cmp_eq. Qed.

Lemma cmp_gt_lt (x y : K) : cmp x y = Gt <-> cmp y x = Lt.
Proof. rewrite (cmp_anti x y). by destruct (cmp x y). Qed.

Lemma cmp_lt_irrefl (x : K) : cmp x x <> Lt.
Proof. by rewrite cmp_refl. Qed.

Lemma cmp_lt_ne (x y : K) : cmp x y = Lt -> x <> y.
Proof. intros Hlt ->. by apply cmp_lt_irrefl in Hlt. Qed.

Lemma oltb_lt (x y : K) : oltb x y = true <-> cmp x y = Lt.
Proof. unfold oltb. by destruct (cmp x y). Qed.

Lemma oleb_le (x y : K) : oleb x y = true <-> cmp x y <> Gt.
Proof. unfold oleb. by destruct (cmp x y). Qed.

Lemma cmp_lt_asym (x y : K) : cmp x y = Lt -> cmp y x <> Lt.
Proof. rewrite (cmp_anti x y). by intros ->. Qed.

Lemma oleb_lt_trans (x y z : K) : oleb x y = true -> cmp y z = Lt -> cmp x z = Lt.
Proof.
  unfold oleb. destruct (cmp x y) eqn:E; [|intros _; by apply cmp_trans|done].
  apply cmp_eq in E as ->. done.
Qed.

Lemma cmp_eq_dec (x y : K) : {x = y} + {x <> y}.
Proof.
  destruct (cmp x y) eqn:E.
  - left. by apply cmp_eq.
  - right. by apply cmp_lt_ne.
  - right. intros ->. by rewrite cmp_refl in E.
Defined.
End OrdFacts.

#[global] Instance byte_ord_laws : OrdLaws byte.
Proof.
  split; unfold cmp, byte_ord.
  - intros x y. rewrite N.compare_eq_iff. split; [|by intros ->].
    intros E%(f_equal Byte.of_N). rewrite !Byte.of_to_N in E. congruence.
  - intros x y. apply N.compare_antisym.
  - intros x y z. rewrite !N.compare_lt_iff. lia.
Qed.

#[global] Instance list_ord_laws {A} `{OrdLaws A} : OrdLaws (list A).
Proof.
  split; unfold cmp, list_ord.
  - induction x as [|a x IH]; intros [|b y]; simpl; try done.
    destruct (cmp a b) eqn:E.
    + apply cmp_eq in E as ->. rewrite IH. split; congruence.
    + split; [done|]. injection 1 as -> ->. by apply cmp_lt_irrefl in E.
    + split; [done|]. injection 1 as -> ->. by rewrite cmp_refl in E.
  - induction x as [|a x IH]; intros [|b y]; simpl; try done.
    rewrite (cmp_anti a b). destruct (cmp a b); simpl; auto.
  - induction x as [|a x IH]; intros [|b y] [|c z]; simpl; try done.
    destruct (cmp a b) eqn:Eab; try done; destruct (cmp b c) eqn:Ebc; try done; intros.
    + apply cmp_eq in Eab as ->. apply cmp_eq in Ebc as ->. rewrite cmp_refl. eauto.
    + apply cmp_eq in Eab as ->. by rewrite Ebc.
    + apply cmp_eq in Ebc as ->. by rewrite Eab.
    + by rewrite (cmp_trans _ _ _ Eab Ebc).
Qed.

Lemma N_of_ascii_inj (x y : Ascii.ascii) : Ascii.N_of_ascii x = Ascii.N_of_ascii y -> x = y.
Proof. intros E%(f_equal Ascii.ascii_of_N). by rewrite !Ascii.ascii_N_embedding in E. Qed.

#[global] Instance string_ord_laws : OrdLaws string.
Proof.
  split; unfold cmp, string_ord.
  - induction x as [|a x IH]; intros [|b y]; simpl; try done.
    destruct (N.compare_spec (Ascii.N_of_ascii a) (Ascii.N_of_ascii b)) as [E|E|E].
    + apply N_of_ascii_inj in E as ->. rewrite IH. split; congruence.
    + split; [done|]. injection 1 as -> ->. lia.
    + split; [done|]. injection 1 as -> ->. lia.
  - induction x as [|a x IH]; intros [|b y]; simpl; try done.
    rewrite (N.compare_antisym (Ascii.N_of_ascii a)).
    destruct (N.compare (Ascii.N_of_ascii a) _); simpl; auto.
  - induction x as [|a x IH]; intros [|b y] [|c z]; simpl; try done.
    destruct (N.compare_spec (Ascii.N_of_ascii a) (Ascii.N_of_ascii b)) as [E|E|E]; try done;
    destruct (N.compare_spec (Ascii.N_of_ascii b) (Ascii.N_of_ascii c)) as [E'|E'|E']; try done; intros.
    + rewrite E, E', N.compare_refl. eauto.
    + rewrite E. by apply N.compare_lt_iff in E' as ->.
    + rewrite <- E'. by apply N.compare_lt_iff in E as ->.
    + assert (Ascii.N_of_ascii a < Ascii.N_of_ascii c)%N as ->%N.compare_lt_iff by lia. done.
Qed.

(** ** Lemmas on outcomes *)
Lemma obind_ok {E A B} (c : outcome E A) (k : A -> outcome E B) b :
  obind c k = Ok b <-> exists a, c = Ok a /\ k a = Ok b.
Proof.
  destruct c; simpl; split; try done; [eauto| |..]; intros (? & ? & ?); congruence.
Qed.

Lemma obind_no_fuel {E A B} (c : outcome E A) (k : A -> outcome E B) :
  c <> NoFuel -> (forall a, c = Ok a -> k a <> NoFuel) -> obind c k <> NoFuel.
Proof. destruct c; simpl; naive_solver. Qed.

Lemma obind_returns {E A B} (c : outcome E A) (k : A -> outcome E B) :
  returns c -> (forall a, c = Ok a -> returns (k a)) -> returns (obind c k).
Proof. destruct c; simpl; auto. Qed.

Lemma ok_or_returns {E A} (o : option A) (e : E) : returns (ok_or o e).
Proof. by destruct o. Qed.

Lemma unwrap_returns {E A} (o : option A) : is_Some o -> returns (unwrap (E:=E) o).
Proof. by intros [x ->]. Qed.

Lemma mapM_o_returns {E A B} (f : A -> outcome E B) l :
  Forall (fun x => returns (f x)) l -> returns (mapM_o f l).
Proof.
  induction 1 as [|x l Hx Hl IH]; simpl; [done|].
  apply obind_returns; [done|]. intros y _. by apply obind_returns.
Qed.

(** A loop returns when every turn returns under an invariant. *)
Lemma foldM_o_returns {E A S} (f : S -> A -> outcome E S) (P : S -> Prop) l s :
  P s -> (forall s x, x ∈ l -> P s -> returns (f s x)) ->
  (forall s x s', x ∈ l -> P s -> f s x = Ok s' -> P s') ->
  returns (foldM_o f s l).
Proof.
  revert s. induction l as [|x l IH]; simpl; intros s Hs Hr Hp; [done|].
  apply obind_returns; [apply Hr; [left|done]|]. intros s' Hs'. apply IH.
  - eapply Hp; [left|exact Hs|done].
  - intros. apply Hr; [by right|done].
  - intros. eapply Hp; [by right|done|done].
Qed.

Lemma obind_returns_with {E A B} (P : E -> Prop) (c : outcome E A) (k : A -> outcome E B) :
  returns_with P c -> (forall a, c = Ok a -> returns_with P (k a)) -> returns_with P (obind c k).
Proof. destruct c; simpl; auto. Qed.

Lemma foldM_o_returns_with {E A S} (Q : E -> Prop) (f : S -> A -> outcome E S) (P : S -> Prop) l s :
  P s -> (forall s x, x ∈ l -> P s -> returns_with Q (f s x)) ->
  (forall s x s', x ∈ l -> P s -> f s x = Ok s' -> P s') ->
  returns_with Q (foldM_o f s l).
Proof.
  revert s. induction l as [|x l IH]; simpl; intros s Hs Hr Hp; [done|].
  apply obind_returns_with; [apply Hr; [left|done]|]. intros s' Hs'. apply IH.
  - eapply Hp; [left|exact Hs|done].
  - intros. apply Hr; [by right|done].
  - intros. eapply Hp; [by right|done|done].
Qed.

#[export] Hint Resolve ok_or_returns : rdb.

(** Split every successful [let?] among the hypotheses. *)
Ltac inv_ok :=
  repeat match goal with
  | H : obind _ _ = Ok _ |- _ => apply obind_ok in H as (? & ? & ?)
  | H : Ok _ = Ok _ |- _ => injection H as H
  | H : Err _ = Ok _ |- _ => discriminate H
  | H : Panic = Ok _ |- _ => discriminate H
  | H : NoFuel = Ok _ |- _ => discriminate H
  | p : (_ * _)%type |- _ => destruct p
  end; simplify_eq/=.

Lemma ok_or_ok {E A} (o : option A) (e : E) a : ok_or o e = Ok a <-> o = Some a.
Proof. destruct o; simpl; naive_solver. Qed.

Lemma mapM_o_ok {E A B} (f : A -> outcome E B) l ys :
  mapM_o f l = Ok ys <-> Forall2 (fun x y => f x = Ok y) l ys.
Proof.
  revert ys. induction l as [|x l IH]; intros ys; simpl.
  - split; [intros [= <-]; constructor|]. by inversion 1.
  - split.
    + intros. inv_ok. constructor; [done|]. by apply IH.
    + inversion 1 as [|? y ? ys' Hx Hl]; subst. rewrite Hx. simpl.
      apply IH in Hl. by rewrite Hl.
Qed.

(** The same, with the look-ups among the steps as equations. *)
Ltac tc := repeat match goal with
  | Hx : obind _ _ = Ok _ |- _ => apply obind_ok in Hx as (? & ? & ?)
  | Hx : omap_ok _ _ = Ok _ |- _ => apply obind_ok in Hx as (? & ? & ?)
  | Hx : ok_or _ _ = Ok _ |- _ => apply ok_or_ok in Hx
  | Hx : unwrap _ = Ok _ |- _ => unfold unwrap in Hx
  | Hx : Ok _ = Ok _ |- _ => injection Hx as Hx; subst
  | Hx : Err _ = Ok _ |- _ => discriminate Hx
  | Hx : Panic = Ok _ |- _ => discriminate Hx
  end.

(** Invariant rule for [foldM_o]. *)
Lemma foldM_o_inv {E A S} (f : S -> A -> outcome E S) (P : S -> Prop) l s s' :
  P s -> (forall s x s', x ∈ l -> P s -> f s x = Ok s' -> P s') ->
  foldM_o f s l = Ok s' -> P s'.
Proof.
  revert s. induction l as [|x l IH]; simpl; intros s Hs Hf Hr; inv_ok; [done|].
  eapply IH; [..|done].
  - eapply Hf; [|exact Hs|done]. left.
  - intros. eapply Hf; [|done|done]. by right.
Qed.

Lemma foldM_o_app {E A S} (f : S -> A -> outcome E S) s l1 l2 :
  foldM_o f s (l1 ++ l2) = let? s' := foldM_o f s l1 in foldM_o f s' l2.
Proof.
  revert s. induction l1 as [|x l1 IH]; intros s; simpl; [done|].
  destruct (f s x); simpl; auto.
Qed.

(** ** What a computation yields *)
Definition yields {E A} (Q : A -> Prop) (c : outcome E A) : Prop := forall a, c = Ok a -> Q a.

Lemma yields_bind {E A B} (P : A -> Prop) (Q : B -> Prop) (c : outcome E A) (k : A -> outcome E B) :
  yields P c -> (forall a, P a -> yields Q (k a)) -> yields Q (obind c k).
Proof. intros Hc Hk b (a & Ha & Hb)%obind_ok. by eapply Hk; [apply Hc|]. Qed.

Lemma yields_any {E A} (c : outcome E A) : yields (fun _ => True) c.
Proof. done. Qed.

Lemma yields_ok {E A} (Q : A -> Prop) a : Q a -> yields (E := E) Q (Ok a).
Proof. by intros HQ ? [= <-]. Qed.

Lemma yields_err {E F A} (Q : A -> Prop) (f : E -> F) (c : outcome E A) : yields Q c -> yields Q (map_err f c).
Proof. intros Hc a Ha. destruct c; try done. injection Ha as <-. by apply Hc. Qed.

Lemma yields_foldM {E A S} (P : A -> Prop) (Q : S -> Prop) (f : S -> A -> outcome E S) l s :
  Forall P l -> Q s -> (forall s x, P x -> Q s -> yields Q (f s x)) -> yields Q (foldM_o f s l).
Proof.
  intros Hl. revert s. induction Hl as [|x l Hx _ IH]; intros s Hs Hf; [by apply yields_ok|].
  cbn [foldM_o]. eapply yields_bind; [by apply Hf|]. intros s' Hs'. by apply IH.
Qed.

Lemma yields_mapM {E A B} (P : A -> Prop) (Q : B -> Prop) (f : A -> outcome E B) l :
  Forall P l -> (forall x, P x -> yields Q (f x)) -> yields (Forall Q) (mapM_o f l).
Proof.
  intros Hl Hf. induction Hl as [|x l Hx _ IH]; [by apply yields_ok|]. cbn [mapM_o].
  eapply yields_bind; [by apply Hf|]. intros y Hy. eapply yields_bind; [exact IH|]. intros ys Hys. apply yields_ok. by constructor.
Qed.

(** ** Lemmas on bytes and big-endian words *)
Lemma u8_range b : (0 <= u8 b < 256)%Z.
Proof. unfold u8. pose proof (Byte.to_N_bounded b). lia. Qed.

Lemma u8_to_u8 z : u8 (to_u8 z) = Z.modulo z 256.
Proof.
  unfold u8, to_u8. pose proof (Z.mod_pos_bound z 256 eq_refl) as Hb.
  destruct (Byte.of_N (Z.to_N (z mod 256))) as [b|] eqn:E.
  - apply Byte.to_of_N in E. rewrite E. lia.
  - apply Byte.of_N_None_iff in E. lia.
Qed.

Lemma cmp_u8 x y : cmp x y = Z.compare (u8 x) (u8 y).
Proof. unfold cmp, byte_ord, u8. by rewrite N2Z.inj_compare. Qed.

Lemma length_be_bytes n z : length (be_bytes n z) = n.
Proof. induction n; simpl; auto. Qed.

Lemma shiftr_div z n : (0 <= n)%Z -> Z.shiftr z n = (z / 2 ^ n)%Z.
Proof. intros. by rewrite Z.shiftr_div_pow2. Qed.

(** Big-endian encoding preserves the order of [n]-byte integers. *)
Lemma be_bytes_cmp n x y :
  (0 <= x < 2 ^ (8 * Z.of_nat n))%Z -> (0 <= y < 2 ^ (8 * Z.of_nat n))%Z ->
  lex_cmp (be_bytes n x) (be_bytes n y) = Z.compare x y.
Proof.
  assert (Hgen : forall x y, (0 <= x)%Z -> (0 <= y)%Z ->
    lex_cmp (be_bytes n x) (be_bytes n y)
    = Z.compare (x mod 2 ^ (8 * Z.of_nat n)) (y mod 2 ^ (8 * Z.of_nat n))).
  { clear. induction n as [|n IH]; intros x y Hx Hy.
    - simpl. by rewrite !Z.mod_1_r.
    - cbn [be_bytes lex_cmp]. rewrite cmp_u8, !u8_to_u8, !shiftr_div by lia.
      set (p := (2 ^ (8 * Z.of_nat n))%Z) in *.
      assert (Hp : (0 < p)%Z) by (apply Z.pow_pos_nonneg; lia).
      replace (2 ^ (8 * Z.of_nat (S n)))%Z with (p * 256)%Z
        by (unfold p; rewrite <- (Z.pow_add_r 2 _ 8) by lia; f_equal; lia).
      rewrite !Z.rem_mul_r by lia.
      pose proof (Z.mod_pos_bound x p Hp). pose proof (Z.mod_pos_bound y p Hp).
      destruct (Z.compare_spec ((x / p) mod 256) ((y / p) mod 256)) as [E|E|E].
      + rewrite IH, E by done.
        destruct (Z.compare_spec (x mod p) (y mod p)); symmetry;
          [apply Z.compare_eq_iff|apply Z.compare_lt_iff|apply Z.compare_gt_iff]; nia.
      + symmetry. apply Z.compare_lt_iff. nia.
      + symmetry. apply Z.compare_gt_iff. nia. }
  intros Hx Hy. rewrite Hgen by lia. by rewrite !Z.mod_small by done.
Qed.

Lemma be_bytes_inj n x y :
  (0 <= x < 2 ^ (8 * Z.of_nat n))%Z -> (0 <= y < 2 ^ (8 * Z.of_nat n))%Z ->
  be_bytes n x = be_bytes n y -> x = y.
Proof.
  intros Hx Hy E. apply Z.compare_eq_iff. rewrite <- (be_bytes_cmp n) by done.
  rewrite E. apply (cmp_refl (be_bytes n y)).
Qed.

Lemma byte_of_ascii_inj x y : Ascii.byte_of_ascii x = Ascii.byte_of_ascii y -> x = y.
Proof. intros E%(f_equal Ascii.ascii_of_byte). by rewrite !Ascii.ascii_of_byte_of_ascii in E. Qed.

Lemma as_bytes_of_bytes b : as_bytes (of_bytes b) = b.
Proof. induction b as [|c b IH]; simpl; [done|]. by rewrite Ascii.byte_of_ascii_of_byte, IH. Qed.

Lemma of_bytes_as_bytes s : of_bytes (as_bytes s) = s.
Proof. induction s as [|c s IH]; simpl; [done|]. by rewrite Ascii.ascii_of_byte_of_ascii, IH. Qed.

Lemma as_bytes_inj s t : as_bytes s = as_bytes t -> s = t.
Proof.
  revert t. induction s as [|a s IH]; intros [|b t]; simpl; try done.
  injection 1 as Hab Hst. f_equal; [by apply byte_of_ascii_inj|by apply IH].
Qed.

Lemma N_of_ascii_to_N c : Byte.to_N (Ascii.byte_of_ascii c) = Ascii.N_of_ascii c.
Proof.
  destruct c as [b0 b1 b2 b3 b4 b5 b6 b7].
  destruct b0, b1, b2, b3, b4, b5, b6, b7; vm_compute; reflexivity.
Qed.

(** The order of strings is the order of their bytes. *)
Lemma as_bytes_cmp s t : cmp (as_bytes s) (as_bytes t) = cmp s t.
Proof.
  revert t. induction s as [|a s IH]; intros [|b t]; try done.
  unfold cmp, list_ord, string_ord. simpl. unfold cmp, byte_ord.
  rewrite !N_of_ascii_to_N. destruct (N.compare _ _); [|done..]. apply IH.
Qed.

(** ** Sorted lists *)
Lemma StronglySorted_snoc {A} (R : A -> A -> Prop) l x :
  StronglySorted R l -> Forall (fun y => R y x) l -> StronglySorted R (l ++ [x]).
Proof.
  induction 1 as [|y l _ IH Hy]; simpl; [by repeat constructor|]. intros [Hyx Hl]%Forall_cons. constructor; [by apply IH|].
  apply Forall_app. by repeat constructor.
Qed.

Lemma StronglySorted_reverse {A} (R : A -> A -> Prop) l :
  StronglySorted (fun x y => R y x) l -> StronglySorted R (reverse l).
Proof.
  induction 1 as [|x l _ IH Hx]; [constructor|]. rewrite reverse_cons. apply StronglySorted_snoc; [done|].
  by apply Forall_reverse.
Qed.

(** ** Keys with a common prefix *)
Lemma lex_app_prefix (p l1 l2 : bytes) : lex_cmp (p ++ l1) (p ++ l2) = lex_cmp l1 l2.
Proof. induction p as [|a p IH]; simpl; [done|]. by rewrite (cmp_refl a). Qed.

Lemma cmp_app_same (k a b : bytes) : cmp (k ++ a) (k ++ b) = cmp a b.
Proof. apply lex_app_prefix. Qed.

Lemma oleb_app_prefix (k a : bytes) : oleb k (k ++ a) = true.
Proof.
  apply oleb_le. rewrite <- (app_nil_r k) at 1. rewrite cmp_app_same. by destruct a.
Qed.

Lemma prefix_of_range (q : bytes) (b b' : byte) (k : bytes) :
  (u8 b' = u8 b + 1)%Z -> oleb (q ++ [b]) k = true -> oltb k (q ++ [b']) = true ->
  exists r, k = (q ++ [b]) ++ r.
Proof.
  intros Hb. rewrite oleb_le, oltb_lt. revert k. induction q as [|a q IH]; intros [|c k]; simpl; try done.
  - unfold cmp, list_ord. simpl. rewrite !cmp_u8. intros H1 H2. exists k.
    assert (u8 c = u8 b) as Hc.
    { destruct (Z.compare_spec (u8 b) (u8 c)), (Z.compare_spec (u8 c) (u8 b')); destruct k; try done; try lia; by destruct H1. }
    f_equal. assert (Hcmp : cmp c b = Eq) by (rewrite cmp_u8, Hc; apply Z.compare_refl).
    by apply cmp_eq in Hcmp.
  - unfold cmp, list_ord. simpl. intros H1 H2.
    assert (Hac : cmp a c = Eq).
    { rewrite (cmp_anti c a). rewrite (cmp_anti c a) in H1. by destruct (cmp c a). }
    rewrite Hac in H1. apply cmp_eq in Hac as ->. rewrite cmp_refl in H2.
    destruct (IH k H1 H2) as [r ->]. by exists r.
Qed.

Lemma oleb_app_same (p a b : bytes) : oleb (p ++ a) (p ++ b) = oleb a b.
Proof. unfold oleb. by rewrite cmp_app_same. Qed.

Lemma oltb_app_same (p a b : bytes) : oltb (p ++ a) (p ++ b) = oltb a b.
Proof. unfold oltb. by rewrite cmp_app_same. Qed.

(** A key between two keys with a common prefix has the prefix. *)
Lemma between_prefix (p lo hi k : bytes) :
  oleb (p ++ lo) k = true -> oltb k (p ++ hi) = true -> exists r, k = p ++ r.
Proof.
  revert k. induction p as [|b p IH]; intros k Hlo Hhi; [by exists k|].
  destruct k as [|c k]; [discriminate Hlo|]. unfold oleb, oltb, cmp, list_ord in Hlo, Hhi. simpl in Hlo, Hhi.
  rewrite (cmp_anti b c) in Hhi. destruct (cmp b c) eqn:E1; [|done..].
  apply cmp_eq in E1 as ->. destruct (IH k Hlo Hhi) as [r ->]. by exists r.
Qed.

#[global] Arguments be_bytes : simpl never.
