(* ===== verification/OrdMap.v ===== *)
(** * Ordered maps

    [BTreeMap] is modelled by its contents in iteration order: an association
    list sorted by key ([bt_sorted]), so that a [for] loop over the map is a
    fold over the list and nested maps are ordinary nested inductive types.
    [OrderedMap] is the interface the key-value stores rely on (persistent
    ordered maps of the [rpds] crate); [btree] is an implementation of it. *)
From stdpp Require Import prelude list sorting.
From Stdlib Require Import Sorted.
From S2P Require Import Prelude.

(** ** Lists of keys in order *)
Section Keys.
Context {K : Type} `{OrdLaws K}.

Lemma sorted_keys_nodup (l : list K) : StronglySorted (fun x y => cmp x y = Lt) l -> NoDup l.
Proof.
  induction 1 as [|k l _ IH Hk]; [constructor|]. constructor; [|done]. intros Hin.
  rewrite Forall_forall in Hk. by apply Hk, cmp_lt_irrefl in Hin.
Qed.

Lemma sorted_keys_ext (l1 l2 : list K) :
  StronglySorted (fun x y => cmp x y = Lt) l1 -> StronglySorted (fun x y => cmp x y = Lt) l2 ->
  (forall k, k ∈ l1 <-> k ∈ l2) -> l1 = l2.
Proof.
  intros H1 H2 He. eapply StronglySorted_unique_strong; [|exact H1|exact H2|].
  - intros x y _ _ Hxy Hyx. by apply cmp_lt_asym in Hxy.
  - apply NoDup_Permutation; [by apply sorted_keys_nodup..|done].
Qed.
End Keys.

Section BTree.
Context {K : Type} `{OrdLaws K} {V : Type}.

(** [BTreeMap::get]. *)
Fixpoint bt_get (k : K) (m : list (K * V)) : option V :=
  match m with
  | [] => None
  | (k', v) :: m => match cmp k k' with Eq => Some v | _ => bt_get k m end
  end.

(** [BTreeMap::insert]. *)
Fixpoint bt_insert (k : K) (v : V) (m : list (K * V)) : list (K * V) :=
  match m with
  | [] => [(k, v)]
  | (k', v') :: m' =>
      match cmp k k' with
      | Lt => (k, v) :: m
      | Eq => (k, v) :: m'
      | Gt => (k', v') :: bt_insert k v m'
      end
  end.

(** [BTreeMap::remove]. *)
Fixpoint bt_remove (k : K) (m : list (K * V)) : list (K * V) :=
  match m with
  | [] => []
  | (k', v') :: m => match cmp k k' with Eq => bt_remove k m | _ => (k', v') :: bt_remove k m end
  end.

(** [BTreeMap::contains_key]. *)
Definition bt_contains (k : K) (m : list (K * V)) : bool :=
  match bt_get k m with Some _ => true | None => false end.

(** [BTreeMap::range(lo..hi)]. *)
Definition bt_range (lo hi : K) (m : list (K * V)) : list (K * V) :=
  List.filter (fun p => oleb lo p.1 && oltb p.1 hi) m.

(** [collect::<BTreeMap<_, _>>()] of an iterator of pairs. *)
Definition bt_collect (l : list (K * V)) : list (K * V) :=
  foldl (fun m p => bt_insert p.1 p.2 m) [] l.

Definition key_lt (p q : K * V) : Prop := cmp p.1 q.1 = Lt.

(** The invariant of a map: keys strictly increasing. *)
Definition bt_sorted (m : list (K * V)) : Prop := StronglySorted key_lt m.

Fixpoint bt_sortedb (m : list (K * V)) : bool :=
  match m with
  | [] => true
  | (k, _) :: m' => forallb (fun p => oltb k p.1) m' && bt_sortedb m'
  end.

Lemma bt_sortedb_spec m : bt_sortedb m = true <-> bt_sorted m.
Proof.
  unfold bt_sorted. induction m as [|[k v] m IH]; simpl.
  - split; [constructor|done].
  - rewrite andb_true_iff, IH, forallb_forall. split.
    + intros [Hf Hs]. constructor; [done|]. apply List.Forall_forall.
      intros p Hp. by apply oltb_lt, Hf.
    + inversion 1 as [|? ? Hs Hf]; subst. split; [|done].
      rewrite List.Forall_forall in Hf. intros p Hp. by apply oltb_lt, Hf.
Qed.

Lemma bt_sorted_nil : bt_sorted [].
Proof. constructor. Qed.

Lemma bt_sorted_cons k v m :
  bt_sorted ((k, v) :: m) <-> bt_sorted m /\ Forall (fun p => cmp k p.1 = Lt) m.
Proof.
  split; [inversion 1; done|]. intros [? ?]. by constructor.
Qed.

Lemma bt_get_lt_none k m : Forall (fun p => cmp k p.1 = Lt) m -> bt_get k m = None.
Proof.
  induction 1 as [|[k' v'] m Hk Hm IH]; simpl in *; [done|]. by rewrite Hk.
Qed.

Lemma bt_insert_forall (P : K * V -> Prop) k v m :
  P (k, v) -> Forall P m -> Forall P (bt_insert k v m).
Proof.
  intros Hk Hm. induction Hm as [|[k' v'] m Hk' Hm IH]; simpl; [by constructor|].
  destruct (cmp k k'); repeat constructor; auto.
Qed.

Lemma bt_insert_sorted k v m : bt_sorted m -> bt_sorted (bt_insert k v m).
Proof.
  induction m as [|[k' v'] m IH]; simpl.
  - intros _. apply bt_sorted_cons. split; [constructor|by constructor].
  - rewrite bt_sorted_cons. intros [Hm Hk']. destruct (cmp k k') eqn:E.
    + apply cmp_eq in E as ->. by apply bt_sorted_cons.
    + apply bt_sorted_cons. split; [by apply bt_sorted_cons|]. constructor; [done|].
      eapply Forall_impl; [exact Hk'|]. simpl. intros p Hp. by eapply cmp_trans.
    + apply bt_sorted_cons. split; [auto|]. apply bt_insert_forall; [|done].
      by apply cmp_gt_lt.
Qed.

Lemma bt_remove_forall (P : K * V -> Prop) k m : Forall P m -> Forall P (bt_remove k m).
Proof.
  induction 1 as [|[k' v'] m Hk' Hm IH]; simpl; [constructor|].
  destruct (cmp k k'); auto.
Qed.

Lemma bt_remove_sorted k m : bt_sorted m -> bt_sorted (bt_remove k m).
Proof.
  induction m as [|[k' v'] m IH]; simpl; [done|].
  rewrite bt_sorted_cons. intros [Hm Hk']. destruct (cmp k k') eqn:E; [auto| |];
    apply bt_sorted_cons; (split; [auto|]); by apply bt_remove_forall.
Qed.

Lemma bt_get_insert_eq k v m : bt_get k (bt_insert k v m) = Some v.
Proof.
  induction m as [|[k' v'] m IH]; simpl; [by rewrite cmp_refl|].
  destruct (cmp k k') eqn:E; simpl; rewrite ?cmp_refl, ?E; done.
Qed.

Lemma bt_get_insert_ne k k' v m : k' <> k -> bt_get k (bt_insert k' v m) = bt_get k m.
Proof.
  intros Hne. induction m as [|[k1 v1] m IH]; simpl.
  - destruct (cmp k k') eqn:E; [|done..]. by apply cmp_eq in E as ->.
  - destruct (cmp k' k1) eqn:E; simpl.
    + apply cmp_eq in E as ->. destruct (cmp k k1) eqn:E; [|done..]. by apply cmp_eq in E as ->.
    + destruct (cmp k k') eqn:E'; [by apply cmp_eq in E' as ->|done..].
    + by rewrite IH.
Qed.

Lemma bt_get_remove_eq k m : bt_get k (bt_remove k m) = None.
Proof.
  induction m as [|[k' v'] m IH]; simpl; [done|].
  destruct (cmp k k') eqn:E; simpl; rewrite ?E; done.
Qed.

Lemma bt_get_remove_ne k k' m : k' <> k -> bt_get k (bt_remove k' m) = bt_get k m.
Proof.
  intros Hne. induction m as [|[k1 v1] m IH]; simpl; [done|].
  destruct (cmp k' k1) eqn:E; simpl; rewrite IH; [|done..].
  apply cmp_eq in E as ->. destruct (cmp k k1) eqn:E; [|done..]. by apply cmp_eq in E as ->.
Qed.

Lemma bt_get_elem k v m : bt_get k m = Some v -> (k, v) ∈ m.
Proof.
  induction m as [|[k' v'] m IH]; simpl; [done|].
  destruct (cmp k k') eqn:E.
  - intros [= ->]. apply cmp_eq in E as ->. left.
  - right. auto.
  - right. auto.
Qed.

Lemma bt_elem_get k v m : bt_sorted m -> (k, v) ∈ m -> bt_get k m = Some v.
Proof.
  induction m as [|[k' v'] m IH]; simpl; [by intros _ ?%elem_of_nil|].
  rewrite bt_sorted_cons. intros [Hm Hk']. rewrite elem_of_cons. intros [[= -> ->]|Hin].
  - by rewrite cmp_refl.
  - rewrite Forall_forall in Hk'. specialize (Hk' _ Hin). simpl in Hk'.
    apply cmp_gt_lt in Hk' as ->. auto.
Qed.

Lemma bt_get_forall (P : K * V -> Prop) k v m :
  Forall P m -> bt_get k m = Some v -> P (k, v).
Proof. intros Hm Hg. rewrite Forall_forall in Hm. by apply Hm, bt_get_elem. Qed.

(** Two maps with the same lookups are equal. *)
Lemma bt_ext m1 m2 :
  bt_sorted m1 -> bt_sorted m2 -> (forall k, bt_get k m1 = bt_get k m2) -> m1 = m2.
Proof.
  revert m2. induction m1 as [|[k1 v1] m1 IH]; intros m2 H1 H2 Heq.
  - destruct m2 as [|[k2 v2] m2]; [done|]. specialize (Heq k2). simpl in Heq.
    by rewrite cmp_refl in Heq.
  - apply bt_sorted_cons in H1 as [Hs1 Hf1].
    destruct m2 as [|[k2 v2] m2].
    { specialize (Heq k1). simpl in Heq. by rewrite cmp_refl in Heq. }
    apply bt_sorted_cons in H2 as [Hs2 Hf2].
    assert (k1 = k2) as ->.
    { destruct (cmp k1 k2) eqn:E.
      - by apply cmp_eq.
      - specialize (Heq k1). simpl in Heq. rewrite cmp_refl, E in Heq.
        rewrite bt_get_lt_none in Heq; [done|]. eapply Forall_impl; [exact Hf2|].
        simpl. intros p Hp. by eapply cmp_trans.
      - apply cmp_gt_lt in E. specialize (Heq k2). simpl in Heq. rewrite cmp_refl, E in Heq.
        rewrite bt_get_lt_none in Heq; [done|]. eapply Forall_impl; [exact Hf1|].
        simpl. intros p Hp. by eapply cmp_trans. }
    assert (v1 = v2) as ->.
    { specialize (Heq k2). simpl in Heq. rewrite cmp_refl in Heq. congruence. }
    f_equal. apply IH; [done..|]. intros k. specialize (Heq k). simpl in Heq.
    destruct (cmp k k2) eqn:E; [|done..]. apply cmp_eq in E as ->.
    by rewrite !bt_get_lt_none.
Qed.

Lemma bt_range_elem lo hi m k v :
  bt_sorted m ->
  (k, v) ∈ bt_range lo hi m <->
  oleb lo k = true /\ oltb k hi = true /\ bt_get k m = Some v.
Proof.
  intros Hs. unfold bt_range. rewrite list_elem_of_In, filter_In, <- list_elem_of_In.
  simpl. rewrite andb_true_iff. split.
  - intros [Hin [? ?]]. eauto using bt_elem_get.
  - intros (? & ? & ?). eauto using bt_get_elem.
Qed.

Lemma bt_filter_sorted (f : K * V -> bool) m : bt_sorted m -> bt_sorted (List.filter f m).
Proof.
  induction m as [|[k v] m IH]; simpl; [done|]. rewrite bt_sorted_cons. intros [Hm Hk].
  destruct (f (k, v)); [|auto]. apply bt_sorted_cons. split; [auto|].
  rewrite List.Forall_forall in *. intros p Hp. apply Hk. by apply filter_In in Hp as [? ?].
Qed.

Lemma bt_sorted_keys m : bt_sorted m <-> StronglySorted (fun x y : K => cmp x y = Lt) m.*1.
Proof.
  induction m as [|[k v] m IH]; simpl.
  - split; constructor.
  - rewrite bt_sorted_cons, IH. split.
    + intros [Hm Hk]. constructor; [done|]. by apply Forall_fmap.
    + inversion 1 as [|? ? Hm Hk]; subst. split; [done|]. by apply Forall_fmap in Hk.
Qed.

Lemma bt_sorted_nodup m : bt_sorted m -> NoDup m.*1.
Proof.
  induction m as [|[k v] m IH]; simpl; [constructor|]. rewrite bt_sorted_cons. intros [Hm Hk].
  constructor; [|auto]. rewrite list_elem_of_fmap. intros ([k' v'] & Hkk & Hin). simpl in Hkk.
  subst k'. rewrite Forall_forall in Hk. specialize (Hk _ Hin).
  by apply cmp_lt_irrefl in Hk.
Qed.

Lemma bt_get_none_keys k m : bt_get k m = None <-> k ∉ m.*1.
Proof.
  induction m as [|[k' v'] m IH]; simpl.
  - split; [intros _; apply not_elem_of_nil|done].
  - rewrite not_elem_of_cons, <- IH. destruct (cmp k k') eqn:E.
    + apply cmp_eq in E as ->. naive_solver.
    + apply cmp_lt_ne in E. naive_solver.
    + apply cmp_gt_lt in E. apply cmp_lt_ne in E. naive_solver.
Qed.

Lemma bt_insert_keys k v m k' : k' ∈ (bt_insert k v m).*1 <-> k' = k \/ k' ∈ m.*1.
Proof.
  induction m as [|[k1 v1] m IH]; simpl.
  - rewrite list_elem_of_singleton, elem_of_nil. naive_solver.
  - destruct (cmp k k1) eqn:E; simpl; rewrite !elem_of_cons, ?IH.
    + apply cmp_eq in E as ->. naive_solver.
    + naive_solver.
    + naive_solver.
Qed.

Lemma bt_insert_overwrite k v v' m : bt_insert k v (bt_insert k v' m) = bt_insert k v m.
Proof.
  induction m as [|[k1 v1] m IH]; simpl; [by rewrite cmp_refl|].
  destruct (cmp k k1) eqn:E; simpl; rewrite ?cmp_refl, ?E; try done. by rewrite IH.
Qed.

(** Inserting a key above all others appends. *)
Lemma bt_insert_last k v m :
  Forall (fun p => cmp p.1 k = Lt) m -> bt_insert k v m = m ++ [(k, v)].
Proof.
  induction 1 as [|[k1 v1] m Hk Hm IH]; simpl in *; [done|].
  apply cmp_gt_lt in Hk as ->. by rewrite IH.
Qed.
End BTree.

#[export] Hint Resolve bt_sorted_nil bt_insert_sorted bt_remove_sorted : rdb.

(** Mapping the values keeps the keys. *)
Lemma bt_get_fmap {K V W} `{OrdLaws K} (f : V -> W) k (m : list (K * V)) :
  bt_get k ((fun p => (p.1, f p.2)) <$> m) = f <$> bt_get k m.
Proof.
  induction m as [|[k' v'] m IH]; simpl; [done|]. by destruct (cmp k k').
Qed.

Lemma bt_sorted_same_keys {K V W} `{OrdLaws K} (m1 : list (K * V)) (m2 : list (K * W)) :
  m1.*1 = m2.*1 -> bt_sorted m1 -> bt_sorted m2.
Proof. rewrite !bt_sorted_keys. by intros ->. Qed.

(** ** The interface of a persistent ordered map

    What the stores use of [rpds::RedBlackTreeMapSync].  What [om_range] yields
    is specified when the bounds are in order; it never yields a key outside
    of them. *)
Class OrderedMap (K : Type) `{Ord K} (M : Type -> Type) := {
  om_empty : forall {V}, M V;
  om_get : forall {V}, K -> M V -> option V;
  om_insert : forall {V}, K -> V -> M V -> M V;
  om_range : forall {V}, K -> K -> M V -> list (K * V)
}.

Class OrderedMapLaws (K : Type) (M : Type -> Type) `{OrderedMap K M} : Prop := {
  om_get_empty : forall V (k : K), om_get k (om_empty : M V) = None;
  om_get_insert_eq : forall V (k : K) (v : V) m, om_get k (om_insert k v m) = Some v;
  om_get_insert_ne : forall V (k k' : K) (v : V) m,
    k' <> k -> om_get k (om_insert k' v m) = om_get k m;
  om_range_sorted : forall V (lo hi : K) (m : M V),
    oleb lo hi = true -> bt_sorted (om_range lo hi m);
  om_range_elem : forall V (lo hi k : K) (v : V) (m : M V),
    oleb lo hi = true ->
    (k, v) ∈ om_range lo hi m <->
    oleb lo k = true /\ oltb k hi = true /\ om_get k m = Some v;
  om_range_bounds : forall V (lo hi k : K) (v : V) (m : M V),
    (k, v) ∈ om_range lo hi m -> oleb lo k = true /\ oltb k hi = true
}.

(** Sorted association lists implement it. *)
Record btree (K : Type) `{Ord K} (V : Type) := MkBTree {
  bt_list : list (K * V);
  bt_ok : bt_sortedb bt_list = true
}.
Arguments MkBTree {K _ V} _ _.
Arguments bt_list {K _ V} _.
Arguments bt_ok {K _ V} _.

Section BTreeInstance.
Context {K : Type} `{OrdLaws K}.

Lemma bt_insert_ok {V} k (v : V) (m : btree K V) : bt_sortedb (bt_insert k v (bt_list m)) = true.
Proof. apply bt_sortedb_spec, bt_insert_sorted, bt_sortedb_spec, bt_ok. Qed.

#[export] Instance btree_ordered_map : OrderedMap K (btree K) := {
  om_empty V := MkBTree [] eq_refl;
  om_get V k m := bt_get k (bt_list m);
  om_insert V k v m := MkBTree (bt_insert k v (bt_list m)) (bt_insert_ok k v m);
  om_range V lo hi m := bt_range lo hi (bt_list m)
}.

#[export] Instance btree_ordered_map_laws : OrderedMapLaws K (btree K).
Proof.
  split; simpl; intros.
  - done.
  - apply bt_get_insert_eq.
  - by apply bt_get_insert_ne.
  - apply bt_filter_sorted, bt_sortedb_spec, bt_ok.
  - apply bt_range_elem, bt_sortedb_spec, bt_ok.
  - apply list_elem_of_In, filter_In in H1 as [_ H1]. by apply andb_true_iff in H1.
Qed.
End BTreeInstance.
