(* ===== verification/Schema.v ===== *)
(** * Schemas: [rdb-analyzer/src/schema]

    The syntax tree the parser builds ([grammar/ast.rs]), the compiled schema
    and the compiler ([compile.rs]): specialization of generic types with a
    memo table of resolved types, and the validation of fields. *)
From stdpp Require Import prelude gmap strings list.
From S2P Require Import Prelude OrdMap.

(** ** Syntax tree: [schema/grammar/ast.rs] *)
Inductive Literal :=
| LitInteger (z : Z)
| LitString (s : string)
| LitBytes (b : bytes).

Record Annotation := MkAnnotation { ann_name : string; ann_args : list Literal }.

Inductive TypeExpr :=
| TUnit (id : string)
| TSpecialize (id : string) (args : list TypeExpr).

Record TypeField := MkTypeField {
  tf_annotations : list Annotation;
  tf_location : nat;
  tf_name : string;
  tf_value : TypeExpr
}.

Record TypeItem := MkTypeItem {
  ti_annotations : list Annotation;
  ti_location : nat;
  ti_name : string;
  ti_generics : list string;
  ti_fields : list TypeField
}.

Record ExportItem := MkExportItem {
  ex_location : nat;
  ex_ty : TypeExpr;
  ex_table_name : string
}.

Inductive SchemaItem :=
| ItemType (x : TypeItem)
| ItemExport (x : ExportItem).

Record AstSchema := MkAstSchema { items : list SchemaItem }.

(** ** Compiled schemas: [schema/compile.rs] *)
Inductive SchemaCompileError :=
| DuplicateType (s : string)
| DuplicateExport (s : string)
| DuplicateField (field ty : string)
| RecursiveTypes
| MissingType (s : string)
| ArgCountMismatch (expected_args : nat) (ty : string) (got_args : nat)
| CannotSpecializeTypeParameter (s : string)
| CannotSpecializePrimitiveType (s : string)
| BadSetTypeParameter
| UnknownAnnotationOnField (field ty ann : string)
| IndexOnNonPrimitiveField (field ty : string)
| MultiplePrimaryKeys (s : string)
| TypeNameMustStartWithUpperCaseLetter (s : string).

Inductive PrimitiveType := Int64 | Double | String_ | Bytes_.

#[export] Instance PrimitiveType_eq_dec : EqDecision PrimitiveType.
Proof. solve_decision. Defined.

Definition fmt_primitive_type (p : PrimitiveType) : string :=
  match p with
  | Int64 => "int64"
  | Double => "double"
  | String_ => "string"
  | Bytes_ => "bytes"
  end.

(** [PRIMITIVE_TYPES.get]. *)
Definition PRIMITIVE_TYPES (id : string) : option PrimitiveType :=
  if decide (id = "int64") then Some Int64
  else if decide (id = "double") then Some Double
  else if decide (id = "string") then Some String_
  else if decide (id = "bytes") then Some Bytes_
  else None.

Inductive FieldType :=
| FTable (name : string)
| FPrimitive (p : PrimitiveType)
| FSet (member : FieldType).

#[export] Instance FieldType_eq_dec : EqDecision FieldType.
Proof. solve_decision. Defined.

Fixpoint fmt_field_type (t : FieldType) : string :=
  match t with
  | FTable x => x
  | FPrimitive x => fmt_primitive_type x
  | FSet x => "set<" +:+ fmt_field_type x +:+ ">"
  end.

Inductive FieldAnnotation :=
| PrimaryKey
| Unique
| Index
| RenameFrom (x : string).

#[export] Instance FieldAnnotation_eq_dec : EqDecision FieldAnnotation.
Proof. solve_decision. Defined.

Definition ann_is_index (a : FieldAnnotation) : bool :=
  match a with Index => true | _ => false end.
Definition ann_is_unique (a : FieldAnnotation) : bool :=
  match a with Unique => true | _ => false end.
Definition ann_is_primary (a : FieldAnnotation) : bool :=
  match a with PrimaryKey => true | _ => false end.

(** [FieldAnnotationList for &[FieldAnnotation]]. *)
Definition is_primary (l : list FieldAnnotation) : bool := existsb ann_is_primary l.
Definition is_unique (l : list FieldAnnotation) : bool := existsb ann_is_unique l.
Definition is_index (l : list FieldAnnotation) : bool := existsb ann_is_index l.

Abbreviation FieldMap := (list (string * (FieldType * list FieldAnnotation))).

Record SpecializedType := MkSpecializedType {
  st_name : string;
  st_fields : FieldMap
}.

Record CompiledSchema := MkCompiledSchema {
  types : list (string * SpecializedType);
  exports : list (string * FieldType)
}.

(** [CompiledSchema::default]. *)
Definition empty_schema : CompiledSchema := MkCompiledSchema [] [].

Record IndexedField := MkIndexedField {
  if_ty : FieldType;
  if_annotations : list FieldAnnotation;
  if_is_unique : bool
}.

Definition lookup_indexed_field (t : SpecializedType) (name : string) : option IndexedField :=
  match bt_get name (st_fields t) with
  | Some (ty, anns) =>
      if is_primary anns || is_unique anns || is_index anns
      then Some (MkIndexedField ty anns (is_unique anns))
      else None
  | None => None
  end.

(** ** The compiler *)
Abbreviation Resolved := (list (string * SpecializedType)).
Abbreviation cres := (outcome SchemaCompileError).

(** [Vec<String>::join]. *)
Fixpoint join (sep : string) (l : list string) : string :=
  match l with
  | [] => ""
  | [x] => x
  | x :: l => x +:+ sep +:+ join sep l
  end.

Definition starts_with_upper (s : string) : bool :=
  match s with
  | EmptyString => false
  | String c _ => (65 <=? Ascii.N_of_ascii c)%N && (Ascii.N_of_ascii c <=? 90)%N
  end.

(** [TypeResolutionContext::new]: the type items by name. *)
Definition collect_type_item (m : gmap string TypeItem) (i : SchemaItem)
  : cres (gmap string TypeItem) :=
  match i with
  | ItemType x =>
      if decide (is_Some (m !! ti_name x)) then Err (DuplicateType (ti_name x))
      else if negb (starts_with_upper (ti_name x))
      then Err (TypeNameMustStartWithUpperCaseLetter (ti_name x))
      else Ok (<[ti_name x := x]> m)
  | ItemExport _ => Ok m
  end.

Definition type_resolution_context_new (s : AstSchema) : cres (gmap string TypeItem) :=
  foldM_o collect_type_item ∅ (items s).

(** One annotation of a field. *)
Definition compile_annotation (field repr : string) (a : Annotation) : cres FieldAnnotation :=
  match ann_args a with
  | [] =>
      if decide (ann_name a = "primary") then Ok PrimaryKey
      else if decide (ann_name a = "unique") then Ok Unique
      else if decide (ann_name a = "index") then Ok Index
      else Err (UnknownAnnotationOnField field repr (ann_name a))
  | [LitString x] =>
      if decide (ann_name a = "rename_from") then Ok (RenameFrom x)
      else Err (UnknownAnnotationOnField field repr (ann_name a))
  | _ => Err (UnknownAnnotationOnField field repr (ann_name a))
  end.

Definition type_repr (id : string) (args : list FieldType) : string :=
  id +:+ "<" +:+ join ", " (fmt_field_type <$> args) +:+ ">".

Definition primary_key_count (fields : FieldMap) : nat :=
  length (List.filter (fun f => is_primary f.2.2) fields).

Definition expr_id (e : TypeExpr) : string :=
  match e with TUnit x => x | TSpecialize x _ => x end.
Definition expr_args (e : TypeExpr) : list TypeExpr :=
  match e with TUnit _ => [] | TSpecialize _ args => args end.

(** The new local context: type parameters to their arguments. *)
Definition local_context (generics : list string) (args : list FieldType)
  : gmap string FieldType :=
  foldl (fun m p => <[p.1 := p.2]> m) ∅ (zip generics args).

Section ResolveLoops.
Context (rec : gmap string FieldType -> TypeExpr -> Resolved -> cres (FieldType * Resolved)).

(** The arguments of a type expression, left to right. *)
Fixpoint resolve_args (ctx : gmap string FieldType) (l : list TypeExpr) (r : Resolved)
  : cres (list FieldType * Resolved) :=
  match l with
  | [] => Ok ([], r)
  | x :: l =>
      let? (t, r) := rec ctx x r in
      let? (ts, r) := resolve_args ctx l r in
      Ok (t :: ts, r)
  end.

(** One turn of the loop over the fields of a type. *)
Definition resolve_field (ctx : gmap string FieldType) (ty_name repr : string)
  (s : FieldMap * Resolved) (x : TypeField) : cres (FieldMap * Resolved) :=
  let '(fields, r) := s in
  if bt_contains (tf_name x) fields then Err (DuplicateField (tf_name x) ty_name)
  else
    let? (field_ty, r) := rec ctx (tf_value x) r in
    let? annotations := mapM_o (compile_annotation (tf_name x) repr) (tf_annotations x) in
    let? _ :=
      (if existsb (fun a => ann_is_primary a || ann_is_unique a || ann_is_index a) annotations
       then match field_ty with
            | FPrimitive _ => Ok tt
            | _ => Err (IndexOnNonPrimitiveField (tf_name x) ty_name)
            end
       else Ok tt) in
    Ok (bt_insert (tf_name x) (field_ty, annotations) fields, r).
End ResolveLoops.

(** [TypeResolutionContext::resolve_type_expr]. The recursion of the source is
    not bounded by the syntax (a field of a type is resolved in the context of
    the arguments), so each call takes one unit of fuel. *)
Fixpoint resolve_type_expr (fuel : nat) (unresolved : gmap string TypeItem)
  (ctx : gmap string FieldType) (e : TypeExpr) (r : Resolved) {struct fuel}
  : cres (FieldType * Resolved) :=
  match fuel with
  | O => NoFuel
  | S fuel =>
      let id := expr_id e in
      let? (args, r) := resolve_args (resolve_type_expr fuel unresolved) ctx (expr_args e) r in
      match ctx !! id with
      | Some x =>
          if decide (length args <> 0) then Err (CannotSpecializeTypeParameter id)
          else Ok (x, r)
      | None =>
      match PRIMITIVE_TYPES id with
      | Some ty =>
          if decide (length args <> 0) then Err (CannotSpecializePrimitiveType id)
          else Ok (FPrimitive ty, r)
      | None =>
      if decide (id = "set") then
        match args with
        | [FTable x] => Ok (FSet (FTable x), r)
        | _ => Err BadSetTypeParameter
        end
      else
        let? ty := ok_or (unresolved !! id) (MissingType id) in
        if decide (length (ti_generics ty) <> length args)
        then Err (ArgCountMismatch (length (ti_generics ty)) id (length args))
        else
          let repr := type_repr id args in
          if bt_contains repr r then Ok (FTable repr, r)
          else
            let r := bt_insert repr (MkSpecializedType repr []) r in
            let ctx' := local_context (ti_generics ty) args in
            let? (fields, r) :=
              foldM_o (resolve_field (resolve_type_expr fuel unresolved) ctx' (ti_name ty) repr)
                ([], r) (ti_fields ty) in
            if decide (1 < primary_key_count fields)
            then Err (MultiplePrimaryKeys (ti_name ty))
            else
              let? t := unwrap (bt_get repr r) in
              Ok (FTable repr, bt_insert repr (MkSpecializedType (st_name t) fields) r)
      end
      end
  end.

(** One turn of the loop over the items in [compile]. *)
Definition compile_item (fuel : nat) (unresolved : gmap string TypeItem)
  (s : list (string * FieldType) * Resolved) (i : SchemaItem)
  : cres (list (string * FieldType) * Resolved) :=
  match i with
  | ItemExport x =>
      let '(exps, r) := s in
      if bt_contains (ex_table_name x) exps then Err (DuplicateExport (ex_table_name x))
      else
        let? (ty, r) := resolve_type_expr fuel unresolved ∅ (ex_ty x) r in
        Ok (bt_insert (ex_table_name x) ty exps, r)
  | ItemType _ => Ok s
  end.

Definition compile (fuel : nat) (input : AstSchema) : cres CompiledSchema :=
  let? unresolved := type_resolution_context_new input in
  let? (exps, r) := foldM_o (compile_item fuel unresolved) ([], []) (items input) in
  Ok (MkCompiledSchema r exps).
