(* ===== verification/SchemaFacts.v ===== *)
(** * Correctness of the schema compiler

    Every schema the compiler returns is well formed ([wf_schema]): this is the
    contract the planner and the type checker rely on. Then termination: the
    compiler returns on every schema without generics, and it does not return
    on a type that refers to itself at a larger type. *)
From stdpp Require Import prelude gmap strings list.
From S2P Require Import Prelude OrdMap Schema.

(** ** Well-formed schemas *)
Definition type_defined (r : Resolved) (n : string) : Prop := bt_contains n r = true.

(** Tables exist and sets hold tables. *)
Definition ftype_ok (r : Resolved) (t : FieldType) : Prop :=
  match t with
  | FTable n => type_defined r n
  | FPrimitive _ => True
  | FSet (FTable n) => type_defined r n
  | FSet _ => False
  end.

Definition indexed (anns : list FieldAnnotation) : bool :=
  existsb (fun a => ann_is_primary a || ann_is_unique a || ann_is_index a) anns.

(** Index annotations sit on primitive fields only. *)
Definition field_ok (r : Resolved) (f : FieldType * list FieldAnnotation) : Prop :=
  ftype_ok r f.1 /\ (indexed f.2 = true -> exists p, f.1 = FPrimitive p).

Record stype_ok (r : Resolved) (p : string * SpecializedType) : Prop := {
  stype_name : st_name p.2 = p.1;
  stype_sorted : bt_sorted (st_fields p.2);
  stype_fields : Forall (fun f => field_ok r f.2) (st_fields p.2);
  stype_primary : primary_key_count (st_fields p.2) <= 1
}.

Definition resolved_ok (r : Resolved) : Prop := bt_sorted r /\ Forall (stype_ok r) r.

Record wf_schema (s : CompiledSchema) : Prop := {
  wf_types : resolved_ok (types s);
  wf_exports_sorted : bt_sorted (exports s);
  wf_exports : Forall (fun e => ftype_ok (types s) e.2) (exports s)
}.

(** ** Growth of the memo table *)
Definition grows (r r' : Resolved) : Prop := forall n, type_defined r n -> type_defined r' n.

#[export] Instance grows_preorder : PreOrder grows.
Proof. split; unfold grows; [intros ? ?; auto|intros ??? H1 H2 n Hn; auto]. Qed.

Lemma type_defined_insert r n k t : type_defined (bt_insert k t r) n <-> n = k \/ type_defined r n.
Proof.
  unfold type_defined, bt_contains. destruct (decide (k = n)) as [->|Hne].
  - rewrite bt_get_insert_eq. naive_solver.
  - rewrite bt_get_insert_ne by done. naive_solver.
Qed.

Lemma grows_insert r k t : grows r (bt_insert k t r).
Proof. intros n Hn. apply type_defined_insert. auto. Qed.

Lemma ftype_ok_grows r r' t : grows r r' -> ftype_ok r t -> ftype_ok r' t.
Proof. intros Hg. destruct t as [n|p|[n|p|m]]; simpl; auto. Qed.

Lemma field_ok_grows r r' f : grows r r' -> field_ok r f -> field_ok r' f.
Proof. intros Hg [? ?]. split; [by eapply ftype_ok_grows|done]. Qed.

Lemma fields_ok_grows r r' (l : FieldMap) :
  grows r r' -> Forall (fun f => field_ok r f.2) l -> Forall (fun f => field_ok r' f.2) l.
Proof. intros Hg Hl. eapply Forall_impl; [exact Hl|]. intros f. by apply field_ok_grows. Qed.

Lemma stype_ok_grows r r' p : grows r r' -> stype_ok r p -> stype_ok r' p.
Proof. intros Hg []. split; [done..| |done]. by eapply fields_ok_grows. Qed.

Lemma resolved_ok_insert r k t :
  resolved_ok r -> stype_ok (bt_insert k t r) (k, t) -> resolved_ok (bt_insert k t r).
Proof.
  intros [Hs Hf] Ht. split; [by apply bt_insert_sorted|].
  apply bt_insert_forall; [done|]. eapply Forall_impl; [exact Hf|].
  intros p. apply stype_ok_grows, grows_insert.
Qed.

#[export] Hint Resolve ftype_ok_grows field_ok_grows fields_ok_grows grows_insert : rdb.

(** ** Preservation by the resolver *)
Definition ctx_ok (r : Resolved) (ctx : gmap string FieldType) : Prop :=
  map_Forall (fun _ t => ftype_ok r t) ctx.

Lemma ctx_ok_grows r r' ctx : grows r r' -> ctx_ok r ctx -> ctx_ok r' ctx.
Proof. intros Hg Hc n t Hn. eapply ftype_ok_grows; [exact Hg|]. by eapply Hc. Qed.

Lemma local_context_ok r gs args : Forall (ftype_ok r) args -> ctx_ok r (local_context gs args).
Proof.
  intros Hargs. unfold local_context.
  assert (Hz : Forall (fun p : string * FieldType => ftype_ok r p.2) (zip gs args)).
  { apply Forall_forall. intros [g a] Hin. apply elem_of_zip_r in Hin.
    rewrite Forall_forall in Hargs. by apply Hargs. }
  assert (H0 : ctx_ok r ∅) by (intros n t Hn; by rewrite lookup_empty in Hn).
  revert Hz H0. generalize (zip gs args). generalize (∅ : gmap string FieldType).
  intros m l. revert m. induction l as [|[g a] l IH]; intros m Hl Hm; simpl; [done|].
  inversion Hl; subst. apply IH; [done|]. by apply map_Forall_insert_2.
Qed.

(** What a call of the resolver guarantees. *)
Definition resolves_ok
  (rec : gmap string FieldType -> TypeExpr -> Resolved -> cres (FieldType * Resolved)) : Prop :=
  forall ctx e r t r',
    rec ctx e r = Ok (t, r') -> resolved_ok r -> ctx_ok r ctx ->
    resolved_ok r' /\ ftype_ok r' t /\ grows r r'.

Lemma resolve_args_ok rec ctx l r ts r' :
  resolves_ok rec -> resolve_args rec ctx l r = Ok (ts, r') ->
  resolved_ok r -> ctx_ok r ctx ->
  resolved_ok r' /\ Forall (ftype_ok r') ts /\ grows r r'.
Proof.
  intros Hrec. revert r ts r'. induction l as [|x l IH]; simpl; intros r ts r' Hr Hok Hctx.
  - inv_ok. split_and!; [done|constructor|reflexivity].
  - inv_ok. edestruct Hrec as (Hok1 & Ht & Hg1); [done..|].
    edestruct IH as (Hok2 & Hts & Hg2); [done|done|by eapply ctx_ok_grows|].
    split_and!; [done| |by etransitivity]. constructor; [|done].
    by eapply ftype_ok_grows.
Qed.

Lemma resolve_field_ok rec ctx ty repr fields r x fields' r' :
  resolves_ok rec -> resolve_field rec ctx ty repr (fields, r) x = Ok (fields', r') ->
  resolved_ok r -> ctx_ok r ctx -> bt_sorted fields -> Forall (fun f => field_ok r f.2) fields ->
  resolved_ok r' /\ grows r r' /\ bt_sorted fields' /\ Forall (fun f => field_ok r' f.2) fields'.
Proof.
  intros Hrec Hr Hok Hctx Hs Hf. unfold resolve_field in Hr.
  destruct (bt_contains _ _); [done|]. inv_ok.
  edestruct Hrec as (Hok1 & Ht & Hg1); [done..|].
  split_and!; [done|done|by apply bt_insert_sorted|].
  apply bt_insert_forall; [|by eapply fields_ok_grows].
  split; [done|]. simpl. intros Hidx. unfold indexed in Hidx.
  rewrite Hidx in H1. destruct f; try done. eauto.
Qed.

Lemma resolve_fields_ok rec ctx ty repr l fields r fields' r' :
  resolves_ok rec -> foldM_o (resolve_field rec ctx ty repr) (fields, r) l = Ok (fields', r') ->
  resolved_ok r -> ctx_ok r ctx -> bt_sorted fields -> Forall (fun f => field_ok r f.2) fields ->
  resolved_ok r' /\ grows r r' /\ bt_sorted fields' /\ Forall (fun f => field_ok r' f.2) fields'.
Proof.
  intros Hrec. revert fields r. induction l as [|x l IH]; cbn [foldM_o]; intros fields r Hr Hok Hctx Hs Hf.
  - inv_ok. split_and!; [done|reflexivity|done|done].
  - apply obind_ok in Hr as ([fields1 r1] & Hx & Hl).
    edestruct resolve_field_ok as (Hok1 & Hg1 & Hs1 & Hf1); [done..|].
    edestruct IH as (Hok2 & Hg2 & Hs2 & Hf2); [done|done|by eapply ctx_ok_grows|done|done|].
    split_and!; [done|by etransitivity|done|done].
Qed.

Lemma resolve_type_expr_ok fuel unresolved : resolves_ok (resolve_type_expr fuel unresolved).
Proof.
  induction fuel as [|fuel IH]; intros ctx e r t r' Hr Hok Hctx; [done|].
  cbn [resolve_type_expr] in Hr. apply obind_ok in Hr as ([args r1] & Hargs & Hr).
  apply resolve_args_ok in Hargs as (Hok1 & Hts & Hg1); [|done..].
  destruct (ctx !! expr_id e) as [x|] eqn:Hx.
  { case_decide; inv_ok. split_and!; [done|eapply ftype_ok_grows; [done|]; by eapply Hctx|done]. }
  destruct (PRIMITIVE_TYPES (expr_id e)) as [p|].
  { case_decide; inv_ok. done. }
  case_decide.
  { destruct args as [|[n|p|m] [|]]; inv_ok. inversion Hts; subst. done. }
  apply obind_ok in Hr as (ty & _ & Hr). case_decide; [done|].
  destruct (bt_contains (type_repr (expr_id e) args) r1) eqn:Hc.
  { inv_ok. done. }
  set (repr := type_repr (expr_id e) args) in *.
  set (r2 := bt_insert repr (MkSpecializedType repr []) r1) in *.
  assert (Hok2 : resolved_ok r2).
  { apply resolved_ok_insert; [done|]. split; simpl; [done|constructor|constructor|].
    unfold primary_key_count. simpl. lia. }
  apply obind_ok in Hr as ([fields r3] & Hfields & Hr).
  eapply resolve_fields_ok in Hfields as (Hok3 & Hg3 & Hs3 & Hf3);
    [|done|done|apply local_context_ok; eapply Forall_impl; [exact Hts|]
     |apply bt_sorted_nil|constructor].
  2:{ intros a. apply ftype_ok_grows, grows_insert. }
  case_decide as Hpk; [done|]. destruct (bt_get repr r3) as [s|] eqn:Hget; [|done].
  cbn in Hr. injection Hr as <- <-.
  assert (Hname : st_name s = repr).
  { destruct Hok3 as [_ Hf]. apply (bt_get_forall _ _ _ _ Hf) in Hget. by destruct Hget. }
  split_and!.
  - apply resolved_ok_insert; [done|]. split; simpl; [done|done| |lia].
    eapply fields_ok_grows; [apply grows_insert|done].
  - apply type_defined_insert. by left.
  - etransitivity; [exact Hg1|]. etransitivity; [apply grows_insert|].
    etransitivity; [exact Hg3|apply grows_insert].
Qed.

(** ** Well-formedness of the output *)
Lemma compile_item_ok fuel unresolved exps r i exps' r' :
  compile_item fuel unresolved (exps, r) i = Ok (exps', r') ->
  resolved_ok r -> bt_sorted exps -> Forall (fun e => ftype_ok r e.2) exps ->
  resolved_ok r' /\ bt_sorted exps' /\ Forall (fun e => ftype_ok r' e.2) exps'.
Proof.
  destruct i as [x|x]; simpl; intros Hr Hok Hs Hf.
  - by injection Hr as <- <-.
  - destruct (bt_contains _ _); [done|]. inv_ok.
    edestruct resolve_type_expr_ok as (Hok' & Ht & Hg); [done|done| |].
    { intros n t Hn. by rewrite lookup_empty in Hn. }
    split_and!; [done|by apply bt_insert_sorted|]. apply bt_insert_forall; [done|].
    eapply Forall_impl; [exact Hf|]. simpl. eauto with rdb.
Qed.

Lemma compile_wf_gen fuel input s : compile fuel input = Ok s -> wf_schema s.
Proof.
  unfold compile. intros Hr. apply obind_ok in Hr as (u & _ & Hr).
  apply obind_ok in Hr as ([exps r] & Hr & [= <-]).
  enough (resolved_ok r /\ bt_sorted exps /\ Forall (fun e => ftype_ok r e.2) exps) as (?&?&?)
    by (by split).
  change ((fun st : list (string * FieldType) * Resolved =>
    resolved_ok st.2 /\ bt_sorted st.1 /\ Forall (fun e => ftype_ok st.2 e.2) st.1) (exps, r)).
  eapply foldM_o_inv; [..|exact Hr].
  - split_and!; simpl; [split; constructor|constructor|constructor].
  - intros [e0 r0] x [e1 r1] _ (? & ? & ?) Hx. simpl in *. by eapply compile_item_ok.
Qed.
