(* ===== verification/SchemaTermination.v ===== *)
(** * Termination of the schema compiler

    Without generics the memo table bounds the recursion, and the compiler
    returns with fuel linear in the schema. With generics it need not: a type
    that mentions itself at a larger argument is specialized for ever. *)
From stdpp Require Import prelude gmap strings list.
From S2P Require Import Prelude OrdMap Schema SchemaFacts.

(** ** Schemas without generics *)
Fixpoint expr_depth (e : TypeExpr) : nat :=
  match e with
  | TUnit _ => 1
  | TSpecialize _ args => S (foldr Nat.max 0 (List.map expr_depth args))
  end.

Definition field_depth (ty : TypeItem) : nat :=
  foldr Nat.max 0 (List.map (fun f => expr_depth (tf_value f)) (ti_fields ty)).

Definition max_field_depth (l : list SchemaItem) : nat :=
  foldr Nat.max 0
    (List.map (fun i => match i with ItemType x => field_depth x | ItemExport _ => 0 end) l).

Definition max_export_depth (l : list SchemaItem) : nat :=
  foldr Nat.max 0
    (List.map (fun i => match i with ItemType _ => 0 | ItemExport x => expr_depth (ex_ty x) end) l).

(** The depth of the call tree is at most this. *)
Definition schema_fuel (s : AstSchema) : nat :=
  max_export_depth (items s) + length (items s) * max_field_depth (items s).

Definition monomorphic (s : AstSchema) : Prop :=
  Forall (fun i => match i with ItemType x => ti_generics x = [] | ItemExport _ => True end)
    (items s).

Lemma foldr_max_le {A} (f : A -> nat) l x : x ∈ l -> f x <= foldr Nat.max 0 (List.map f l).
Proof.
  induction 1 as [x l|x y l Hin IH]; simpl; lia.
Qed.

Lemma expr_depth_pos e : 1 <= expr_depth e.
Proof. destruct e; simpl; lia. Qed.

Lemma expr_depth_arg e x : x ∈ expr_args e -> expr_depth x < expr_depth e.
Proof.
  destruct e as [id|id args]; simpl; [by intros ?%elem_of_nil|].
  intros Hx. apply (foldr_max_le expr_depth) in Hx. lia.
Qed.

Section Mono.
Context (u : gmap string TypeItem) (D : nat).
Context (Hmono : forall id ty, u !! id = Some ty -> ti_generics ty = []).
Context (HD : forall id ty f, u !! id = Some ty -> f ∈ ti_fields ty -> expr_depth (tf_value f) <= D).

(** The types of the schema that are not in the memo table yet. *)
Definition pending (r : Resolved) : gset string :=
  filter (fun id => bt_contains (type_repr id []) r = false) (dom u).

Lemma pending_grows r r' : grows r r' -> size (pending r') <= size (pending r).
Proof.
  intros Hg. apply subseteq_size. intros id. unfold pending. rewrite !elem_of_filter.
  intros [Hf Hd]. split; [|done]. destruct (bt_contains (type_repr id []) r) eqn:E; [|done].
  apply Hg in E. unfold type_defined in E. congruence.
Qed.

Lemma pending_insert r id t :
  is_Some (u !! id) -> bt_contains (type_repr id []) r = false ->
  size (pending (bt_insert (type_repr id []) t r)) < size (pending r).
Proof.
  intros Hid Hc. apply subset_size. split.
  - intros x. unfold pending. rewrite !elem_of_filter. intros [Hf Hd]. split; [|done].
    destruct (bt_contains (type_repr x []) r) eqn:E; [|done].
    assert (type_defined (bt_insert (type_repr id []) t r) (type_repr x [])) as E'.
    { by apply grows_insert. }
    unfold type_defined in E'. congruence.
  - intros Hsub. assert (Hin : id ∈ pending r).
    { unfold pending. rewrite elem_of_filter. split; [done|]. by apply elem_of_dom. }
    apply Hsub in Hin. unfold pending in Hin. rewrite elem_of_filter in Hin.
    destruct Hin as [Hf _].
    assert (type_defined (bt_insert (type_repr id []) t r) (type_repr id [])) as E'.
    { apply type_defined_insert. by left. }
    unfold type_defined in E'. congruence.
Qed.

Lemma ctx_ok_empty r : ctx_ok r ∅.
Proof. intros n t Hn. by rewrite lookup_empty in Hn. Qed.

Lemma resolve_args_returns rec l r :
  resolves_ok rec -> resolved_ok r ->
  (forall e r', e ∈ l -> grows r r' -> resolved_ok r' -> returns (rec ∅ e r')) ->
  returns (resolve_args rec ∅ l r).
Proof.
  intros Hrec. revert r. induction l as [|x l IH]; simpl; intros r Hok Hl; [done|].
  apply obind_returns; [apply Hl; [left|reflexivity|done]|]. intros [t r1] Hx.
  destruct (Hrec _ _ _ _ _ Hx Hok (ctx_ok_empty r)) as (Hok1 & _ & Hg1).
  apply obind_returns; [|by intros []]. apply IH; [done|]. intros e r' He Hg' Hok'.
  apply Hl; [by right|by etransitivity|done].
Qed.

Lemma compile_annotation_returns f repr a : returns (compile_annotation f repr a).
Proof.
  unfold compile_annotation. destruct (ann_args a) as [|[] []]; repeat case_decide; done.
Qed.

Lemma resolve_field_returns rec ctx ty repr s x :
  returns (rec ctx (tf_value x) s.2) -> returns (resolve_field rec ctx ty repr s x).
Proof.
  destruct s as [fields r]. simpl. intros Hrec. destruct (bt_contains _ _); [done|].
  apply obind_returns; [done|]. intros [t r1] _.
  apply obind_returns.
  { apply mapM_o_returns, Forall_forall. intros. apply compile_annotation_returns. }
  intros anns _. apply obind_returns; [|done].
  destruct (existsb _ _); [|done]. by destruct t.
Qed.

Lemma resolve_type_expr_returns fuel e r :
  resolved_ok r -> expr_depth e + size (pending r) * D <= fuel ->
  returns (resolve_type_expr fuel u ∅ e r).
Proof.
  revert e r. induction fuel as [|fuel IH]; intros e r Hok Hfuel.
  { pose proof (expr_depth_pos e). lia. }
  pose proof (expr_depth_pos e) as Hpos.
  pose proof (resolve_type_expr_ok fuel u) as Hrec. cbn [resolve_type_expr].
  apply obind_returns.
  { apply resolve_args_returns; [done|done|]. intros x r' Hx Hg Hok'. apply IH; [done|].
    apply expr_depth_arg in Hx. pose proof (pending_grows _ _ Hg). nia. }
  intros [args r1] Hargs.
  apply resolve_args_ok in Hargs as (Hok1 & Hts & Hg1); [|done|done|apply ctx_ok_empty].
  rewrite lookup_empty. destruct (PRIMITIVE_TYPES _); [by case_decide|].
  case_decide; [by destruct args as [|[] []]|].
  apply obind_returns; [auto with rdb|]. intros ty Hty%ok_or_ok.
  rewrite (Hmono _ _ Hty). case_decide as Hlen; [done|].
  destruct args as [|]; [|by simpl in Hlen].
  set (repr := type_repr (expr_id e) []) in *.
  destruct (bt_contains repr r1) eqn:Hc; [done|].
  set (r2 := bt_insert repr _ r1).
  assert (Hok2 : resolved_ok r2).
  { apply resolved_ok_insert; [done|]. split; simpl; [done|constructor|constructor|].
    unfold primary_key_count. simpl. lia. }
  assert (Hctx : forall r', ctx_ok r' (local_context [] [])) by (intros; apply ctx_ok_empty).
  apply obind_returns.
  - apply foldM_o_returns with (P := fun s => resolved_ok s.2 /\ grows r2 s.2 /\
      bt_sorted s.1 /\ Forall (fun f => field_ok s.2 f.2) s.1).
    + split_and!; [done|reflexivity|constructor|constructor].
    + intros [fs r'] x Hx (Hok' & Hg' & _). apply resolve_field_returns. simpl in *.
      change (local_context [] []) with (∅ : gmap string FieldType). apply IH; [done|].
      pose proof (HD _ _ _ Hty Hx). pose proof (pending_grows _ _ Hg').
      assert (size (pending r2) < size (pending r1)) by (apply pending_insert; [by eexists|done]).
      pose proof (pending_grows _ _ Hg1). nia.
    + intros [fs r'] x [fs' r''] Hx (Hok' & Hg' & Hs' & Hf') Hr. simpl in *.
      eapply resolve_field_ok in Hr as (? & ? & ? & ?); [|done..].
      split_and!; [done|by etransitivity|done|done].
  - intros [fs r3] Hf. eapply resolve_fields_ok in Hf as (Hok3 & Hg3 & _);
      [|done..|constructor|constructor]. case_decide; [done|].
    assert (type_defined r3 repr) as Hd by (apply Hg3, type_defined_insert; by left).
    unfold type_defined, bt_contains in Hd. destruct (bt_get repr r3); [|done]. done.
Qed.
End Mono.

Lemma collect_type_items_spec l m u :
  foldM_o collect_type_item m l = Ok u ->
  (forall id ty, u !! id = Some ty -> m !! id = Some ty \/ ItemType ty ∈ l) /\
  size u <= size m + length l.
Proof.
  revert m. induction l as [|[x|x] l IH]; cbn [foldM_o]; intros m Hr.
  - injection Hr as <-. split; [auto|simpl; lia].
  - apply obind_ok in Hr as (m' & Hx & Hr). apply IH in Hr as [Hin Hsz]. simpl in Hx.
    case_decide as Hd; [done|]. destruct (negb _); [done|]. injection Hx as <-.
    rewrite map_size_insert_None in Hsz by (by apply eq_None_not_Some).
    split; [|simpl; lia]. intros id ty [Hm|Hl]%Hin; [|right; by right].
    rewrite lookup_insert in Hm. case_decide; [|by left]. injection Hm as <-. right. left.
  - apply obind_ok in Hr as (m' & Hx & Hr). apply IH in Hr as [Hin Hsz].
    injection Hx as <-. split; [|simpl; lia]. intros id ty [Hm|Hl]%Hin; [by left|right; by right].
Qed.

Lemma type_resolution_context_returns s : returns (type_resolution_context_new s).
Proof.
  apply foldM_o_returns with (P := fun _ => True); [done| |done].
  intros m [x|x] _ _; simpl; [|done]. case_decide; [done|]. by destruct (negb _).
Qed.

Lemma compile_returns_mono fuel s :
  monomorphic s -> schema_fuel s <= fuel -> returns (compile fuel s).
Proof.
  intros Hmono Hfuel. unfold compile.
  apply obind_returns; [apply type_resolution_context_returns|]. intros u Hu.
  apply collect_type_items_spec in Hu as [Hin Hsz]. rewrite map_size_empty in Hsz.
  apply obind_returns; [|by intros []].
  apply foldM_o_returns with (P := fun st => resolved_ok st.2 /\ bt_sorted st.1 /\
    Forall (fun e => ftype_ok st.2 e.2) st.1).
  - split_and!; simpl; [split; constructor|constructor|constructor].
  - intros [exps r] [x|x] Hx (Hok & _); simpl; [done|]. destruct (bt_contains _ _); [done|].
    apply obind_returns; [|by intros []].
    apply (resolve_type_expr_returns u (max_field_depth (items s))); [..|done|].
    + intros id ty Hty. apply Hin in Hty as [Hty|Hty]; [by rewrite lookup_empty in Hty|].
      unfold monomorphic in Hmono. rewrite Forall_forall in Hmono. by apply (Hmono _ Hty).
    + intros id ty f Hty Hf. apply Hin in Hty as [Hty|Hty]; [by rewrite lookup_empty in Hty|].
      etransitivity; [apply (foldr_max_le (fun f => expr_depth (tf_value f)) _ _ Hf)|].
      apply (foldr_max_le
        (fun i => match i with ItemType x => field_depth x | ItemExport _ => 0 end) _ _ Hty).
    + assert (expr_depth (ex_ty x) <= max_export_depth (items s)).
      { apply (foldr_max_le
          (fun i => match i with ItemType _ => 0 | ItemExport x => expr_depth (ex_ty x) end) _ _ Hx). }
      assert (size (pending u r) <= length (items s)).
      { etransitivity; [|exact Hsz]. rewrite <- size_dom. apply subseteq_size.
        unfold pending. set_solver. }
      unfold schema_fuel in Hfuel. nia.
  - intros [e0 r0] x [e1 r1] _ (? & ? & ?) Hx. simpl in *. by eapply compile_item_ok.
Qed.

(** ** A generic schema on which the compiler does not return

    [type A<T> { x: A<A<T>> }  export A<int64> e;] *)
Definition growing_expr : TypeExpr := TSpecialize "A" [TSpecialize "A" [TUnit "T"]].

Definition growing_item : TypeItem :=
  MkTypeItem [] 0 "A" ["T"] [MkTypeField [] 0 "x" growing_expr].

Definition growing_schema : AstSchema :=
  MkAstSchema [ItemType growing_item;
               ItemExport (MkExportItem 0 (TSpecialize "A" [TUnit "int64"]) "e")].

Definition growing_types : gmap string TypeItem := {["A" := growing_item]}.

(** The arguments [T] takes: [int64], [A<int64>], [A<A<int64>>], ... *)
Fixpoint growing_arg (n : nat) : FieldType :=
  match n with
  | O => FPrimitive Int64
  | S n => FTable (type_repr "A" [growing_arg n])
  end.

Definition growing_name (n : nat) : string := fmt_field_type (growing_arg n).

Lemma growing_name_S n : growing_name (S n) = "A<" +:+ growing_name n +:+ ">".
Proof. done. Qed.

Lemma string_length_app s t : String.length (s +:+ t) = String.length s + String.length t.
Proof. induction s as [|c s IH]; simpl; [done|]. by rewrite IH. Qed.

Lemma growing_name_length n : String.length (growing_name n) = 5 + 3 * n.
Proof.
  induction n as [|n IH]; [done|].
  rewrite growing_name_S, !string_length_app, IH. simpl. lia.
Qed.

Lemma growing_name_inj n m : growing_name n = growing_name m -> n = m.
Proof. intros E%(f_equal String.length). rewrite !growing_name_length in E. lia. Qed.

(** The memo table holds the first [n] instances and no later one. *)
Definition growing_table (n : nat) (r : Resolved) : Prop :=
  type_defined r (growing_name n) /\ forall k, n < k -> ~ type_defined r (growing_name k).

Lemma growing_table_insert n r t :
  growing_table n r -> growing_table (S n) (bt_insert (growing_name (S n)) t r).
Proof.
  intros [Hn Hk]. split; [apply type_defined_insert; by left|].
  intros k Hlt. rewrite type_defined_insert. intros [E|Hd].
  - apply growing_name_inj in E. lia.
  - apply (Hk k); [lia|done].
Qed.

Lemma growing_arg_resolves fuel n r :
  growing_table (S n) r ->
  let c := resolve_type_expr fuel growing_types {["T" := growing_arg n]}
             (TSpecialize "A" [TUnit "T"]) r in
  c = NoFuel \/ c = Ok (growing_arg (S n), r).
Proof.
  intros [Hn _]. destruct fuel as [|[|fuel]]; [by left..|right].
  cbn. rewrite !lookup_singleton_eq. simpl.
  rewrite lookup_singleton_ne by done. cbn.
  unfold type_defined in Hn.
  change (type_repr "A" [growing_arg n]) with (growing_name (S n)).
  by rewrite Hn.
Qed.

(** One new instance: its only field is resolved at the next argument. *)
Lemma growing_step fuel n ctx e r :
  expr_id e = "A" -> ctx !! "A" = None ->
  resolve_args (resolve_type_expr fuel growing_types) ctx (expr_args e) r = Ok ([growing_arg n], r) ->
  bt_contains (growing_name (S n)) r = false ->
  resolve_type_expr fuel growing_types {["T" := growing_arg n]} growing_expr
    (bt_insert (growing_name (S n)) (MkSpecializedType (growing_name (S n)) []) r) = NoFuel ->
  resolve_type_expr (S fuel) growing_types ctx e r = NoFuel.
Proof.
  intros Hid Hctx Hargs Hc Hrec. cbn [resolve_type_expr].
  rewrite Hid, Hargs. cbn [obind length]. rewrite Hctx.
  change (PRIMITIVE_TYPES "A") with (@None PrimitiveType).
  rewrite decide_False by done.
  change (growing_types !! "A") with (Some growing_item).
  cbn [ok_or obind growing_item ti_generics ti_fields ti_name length].
  rewrite decide_False by auto.
  change (type_repr "A" [growing_arg n]) with (growing_name (S n)).
  rewrite Hc. cbn [foldM_o resolve_field bt_contains bt_get tf_name tf_value].
  change (local_context ["T"] [growing_arg n])
    with ({["T" := growing_arg n]} : gmap string FieldType).
  by rewrite Hrec.
Qed.

Lemma growing_table_fresh n r : growing_table n r -> bt_contains (growing_name (S n)) r = false.
Proof.
  intros [_ Hk]. destruct (bt_contains _ r) eqn:E; [|done].
  exfalso. apply (Hk (S n)); [lia|done].
Qed.

Lemma growing_diverges fuel n r :
  growing_table (S n) r ->
  resolve_type_expr fuel growing_types {["T" := growing_arg n]} growing_expr r = NoFuel.
Proof.
  revert n r. induction fuel as [|fuel IH]; intros n r Hr; [done|].
  destruct (growing_arg_resolves fuel n r Hr) as [E|E].
  - cbn [resolve_type_expr growing_expr expr_args resolve_args]. by rewrite E.
  - apply growing_step with (S n); [done|done| |by apply growing_table_fresh|].
    + cbn [growing_expr expr_args resolve_args]. by rewrite E.
    + by apply IH, growing_table_insert.
Qed.

Lemma growing_schema_context : type_resolution_context_new growing_schema = Ok growing_types.
Proof. vm_compute. reflexivity. Qed.

Lemma compile_growing_no_fuel fuel : compile fuel growing_schema = NoFuel.
Proof.
  unfold compile. rewrite growing_schema_context. cbn [obind growing_schema items foldM_o compile_item].
  enough (resolve_type_expr fuel growing_types ∅ (TSpecialize "A" [TUnit "int64"]) [] = NoFuel) as E.
  { cbn. by rewrite E. }
  destruct fuel as [|[|fuel]]; [done|done|].
  apply growing_step with 0; [done|by rewrite lookup_empty|done|done|].
  apply growing_diverges. split; [done|]. intros k Hk.
  rewrite type_defined_insert. intros [E|Hd]; [|done].
  apply (growing_name_inj k 1) in E. lia.
Qed.
