(* ===== verification/StoragePlan.v ===== *)
(** * Storage plans: [rdb-analyzer/src/storage_plan/mod.rs], [conversion.rs]

    The tree of storage nodes that maps a schema onto key prefixes, and its
    conversion to and from the textual form with base64 keys. *)
From stdpp Require Import prelude gmap strings list.
From S2P Require Import Prelude OrdMap.

(** A storage key is an array of twelve bytes; its length is an invariant
    ([key_ok]) of the model. *)
Abbreviation StorageKey := bytes.
Definition key_ok (k : StorageKey) : Prop := length k = 12.

Inductive StorageNode (SK : Type) := MkNode {
  key : SK;
  flattened : bool;
  subspace_reference : option SK;
  node_set : option (StorageNode SK);
  children : list (string * StorageNode SK)
}.
Arguments MkNode {SK} _ _ _ _ _.
Arguments key {SK} _.
Arguments flattened {SK} _.
Arguments subspace_reference {SK} _.
Arguments node_set {SK} _.
Arguments children {SK} _.

Record StoragePlan (SK : Type) := MkPlan { nodes : list (string * StorageNode SK) }.
Arguments MkPlan {SK} _.
Arguments nodes {SK} _.

(** [StoragePlan::default]. *)
Definition empty_plan : StoragePlan StorageKey := MkPlan [].

(** Induction over nodes, with the hypothesis for the set member and for every
    child. *)
Section NodeInd.
Context {SK : Type} (P : StorageNode SK -> Prop).
Context (Hnode : forall k f r s c,
  (forall n, s = Some n -> P n) -> Forall (fun p => P p.2) c -> P (MkNode k f r s c)).

Fixpoint node_ind' (n : StorageNode SK) : P n :=
  match n with
  | MkNode k f r s c =>
      Hnode k f r s c
        (match s return forall n, s = Some n -> P n with
         | Some n' => fun n H => eq_ind n' P (node_ind' n') n (f_equal (from_option id n') H)
         | None => fun n H => match H with end
         end)
        ((fix go (c : list (string * StorageNode SK)) : Forall (fun p => P p.2) c :=
            match c with
            | [] => @List.Forall_nil _ _
            | p :: c => @List.Forall_cons _ _ p c (node_ind' p.2) (go c)
            end) c)
  end.
End NodeInd.

(** All keys of a node, in the order [collect_storage_keys] visits them. *)
Fixpoint node_keys {SK} (n : StorageNode SK) : list SK :=
  key n ::
    match node_set n with Some m => node_keys m | None => [] end ++
    flat_map (fun p => node_keys p.2) (children n).

Definition plan_keys {SK} (p : StoragePlan SK) : list SK :=
  flat_map (fun q => node_keys q.2) (nodes p).

(** Every key and reference of a node satisfies [P]. *)
Fixpoint node_all {SK} (P : SK -> Prop) (n : StorageNode SK) : Prop :=
  P (key n) /\
  match subspace_reference n with Some k => P k | None => True end /\
  match node_set n with Some m => node_all P m | None => True end /\
  (fix go (c : list (string * StorageNode SK)) : Prop :=
     match c with [] => True | p :: c => node_all P p.2 /\ go c end) (children n).

Lemma node_all_children {SK} (P : SK -> Prop) (n : StorageNode SK) :
  node_all P n <->
  P (key n) /\
  (forall k, subspace_reference n = Some k -> P k) /\
  (forall m, node_set n = Some m -> node_all P m) /\
  Forall (fun p => node_all P p.2) (children n).
Proof.
  destruct n as [k f r s c]. simpl.
  assert (Hc : (fix go (c : list (string * StorageNode SK)) : Prop :=
     match c with [] => True | p :: c => node_all P p.2 /\ go c end) c
     <-> Forall (fun p => node_all P p.2) c).
  { induction c as [|p c IH]; [split; [constructor|done]|].
    rewrite IH. split; [intros []; by constructor|inversion 1; done]. }
  rewrite Hc. destruct r, s; naive_solver.
Qed.

(** ** [conversion.rs] *)
Inductive StorageKeyConversionError := Base64Decode.

Section Conversion.
(** The [base64] crate. *)
Context (base64_encode : bytes -> string) (base64_decode : string -> option bytes).

(** [From<&StorageNode<StorageKey>> for StorageNode<String>]. *)
Fixpoint node_to_string (that : StorageNode StorageKey) : StorageNode string :=
  MkNode (base64_encode (key that)) (flattened that)
    (base64_encode <$> subspace_reference that)
    (match node_set that with Some x => Some (node_to_string x) | None => None end)
    (List.map (fun p => (p.1, node_to_string p.2)) (children that)).

(** [From<&StoragePlan<StorageKey>> for StoragePlan<String>]. *)
Definition plan_to_string (that : StoragePlan StorageKey) : StoragePlan string :=
  MkPlan (List.map (fun p => (p.1, node_to_string p.2)) (nodes that)).

(** [base64::decode] followed by [try_into] to [[u8; 12]]. *)
Definition decode_key (s : string) : outcome StorageKeyConversionError StorageKey :=
  match base64_decode s with
  | None => Err Base64Decode
  | Some x => if decide (length x = 12) then Ok x else Err Base64Decode
  end.

(** [transpose]. *)
Definition transpose {E A} (o : option (outcome E A)) : outcome E (option A) :=
  match o with
  | None => Ok None
  | Some c => let? a := c in Ok (Some a)
  end.

(** [TryFrom<&StorageNode<String>> for StorageNode<StorageKey>]. *)
Fixpoint node_try_from (that : StorageNode string)
  : outcome StorageKeyConversionError (StorageNode StorageKey) :=
  let? k := decode_key (key that) in
  let? r := transpose (decode_key <$> subspace_reference that) in
  let? s := match node_set that with
            | Some x => let? m := node_try_from x in Ok (Some m)
            | None => Ok None
            end in
  let? c := (fix go (l : list (string * StorageNode string)) :=
               match l with
               | [] => Ok []
               | p :: l => let? v := node_try_from p.2 in let? vs := go l in Ok ((p.1, v) :: vs)
               end) (children that) in
  Ok (MkNode k (flattened that) r s c).

(** [TryFrom<&StoragePlan<String>> for StoragePlan<StorageKey>]. *)
Definition plan_try_from (that : StoragePlan string)
  : outcome StorageKeyConversionError (StoragePlan StorageKey) :=
  let? ns := mapM_o (fun p => let? v := node_try_from p.2 in Ok (p.1, v)) (nodes that) in
  Ok (MkPlan ns).

(** What was read has keys of the right length. *)
Lemma decode_key_ok x k : decode_key x = Ok k -> key_ok k.
Proof. unfold decode_key. destruct (base64_decode x); [|done]. case_decide; [|done]. by intros [= <-]. Qed.

Lemma node_try_from_ok n m : node_try_from n = Ok m -> node_all key_ok m.
Proof.
  revert m. induction n as [k f r s c Hs Hc] using node_ind'. intros m. cbn [node_try_from key subspace_reference node_set children flattened].
  intros (k' & Hk%decode_key_ok & (r' & Hr & (s' & Hs' & (c' & Hc' & [= <-])%obind_ok)%obind_ok)%obind_ok)%obind_ok.
  rewrite node_all_children. cbn [key subspace_reference node_set children]. split_and!; [done|..].
  - intros x ->. destruct r as [r|]; [|done]. apply obind_ok in Hr as (y & Hy%decode_key_ok & [= <-]). done.
  - intros x ->. destruct s as [s|]; [|done]. apply obind_ok in Hs' as (y & Hy & [= <-]). by eapply Hs.
  - clear Hs. revert c' Hc'. induction Hc as [|p c Hp _ IH]; intros c' Hc'; [injection Hc' as <-; constructor|].
    apply obind_ok in Hc' as (v & Hv & (vs & Hvs & [= <-])%obind_ok). constructor; [by apply Hp|by apply IH].
Qed.

Lemma node_try_from_to_string n :
  (forall b, base64_decode (base64_encode b) = Some b) ->
  node_all key_ok n -> node_try_from (node_to_string n) = Ok n.
Proof.
  intros Hb64. induction n as [k f r s c Hs Hc] using node_ind'.
  rewrite node_all_children. intros (Hk & Hr & Hsn & Hcn). simpl in *.
  assert (Hdec : forall b, key_ok b -> decode_key (base64_encode b) = Ok b).
  { intros b Hb. unfold decode_key. rewrite Hb64. by rewrite decide_True. }
  rewrite (Hdec k Hk). simpl.
  assert (transpose (decode_key <$> (base64_encode <$> r)) = Ok r) as ->.
  { destruct r as [b|]; simpl; [|done]. rewrite Hdec; [done|auto]. }
  simpl.
  assert ((match (match s with Some x => Some (node_to_string x) | None => None end) with
            | Some x => let? m := node_try_from x in Ok (Some m)
            | None => Ok None end) = Ok s) as ->.
  { destruct s as [m|]; [|done]. rewrite Hs by eauto. done. }
  simpl. match goal with |- obind ?x _ = _ => enough (x = Ok c) as -> end; [done|].
  clear -Hc Hcn. induction Hc as [|p c Hp Hc IH]; simpl; [done|].
  inversion Hcn; subst. rewrite Hp by done. simpl. rewrite IH by done. simpl.
  by destruct p.
Qed.

Lemma plan_try_from_to_string p :
  (forall b, base64_decode (base64_encode b) = Some b) ->
  Forall (fun q => node_all key_ok q.2) (nodes p) ->
  plan_try_from (plan_to_string p) = Ok p.
Proof.
  destruct p as [ns]. unfold plan_try_from, plan_to_string. simpl. intros Hb64 Hns.
  enough (mapM_o (fun p => let? v := node_try_from p.2 in Ok (p.1, v))
    (List.map (fun p => (p.1, node_to_string p.2)) ns) = Ok ns) as -> by done.
  apply mapM_o_ok. induction Hns as [|[n x] ns Hx Hns IH]; simpl; constructor; [|done].
  simpl. by rewrite node_try_from_to_string.
Qed.
Lemma plan_try_from_ok t p : plan_try_from t = Ok p -> Forall (fun q => node_all key_ok q.2) (nodes p).
Proof.
  intros (ns & Hns%mapM_o_ok & [= <-])%obind_ok. simpl.
  induction Hns as [|q y l l' Hq _ IH]; constructor; [|exact IH].
  apply obind_ok in Hq as (v & Hv & [= <-]). by eapply node_try_from_ok.
Qed.
End Conversion.

(** ** The stored form, and printing *)
Section Text.
(** [rmp_serde], [snap], [hex] and [base64]. *)
Context (to_vec_named : StoragePlan StorageKey -> outcome string bytes).
Context (from_read : bytes -> outcome string (StoragePlan StorageKey)).
Context (frame_encode : bytes -> outcome string bytes) (frame_decode : bytes -> outcome string bytes).
Context (hex_encode base64_encode : bytes -> string).

Definition serialize_compressed (p : StoragePlan StorageKey) : outcome string bytes :=
  let? serialized := to_vec_named p in frame_encode serialized.

Definition deserialize_compressed (data : bytes) : outcome string (StoragePlan StorageKey) :=
  let? serialized := frame_decode data in from_read serialized.

Lemma compressed_roundtrip p b :
  (forall p b, to_vec_named p = Ok b -> from_read b = Ok p) ->
  (forall x y, frame_encode x = Ok y -> frame_decode y = Ok x) ->
  serialize_compressed p = Ok b -> deserialize_compressed b = Ok p.
Proof.
  intros Hr Hf (x & Hx & Hb)%obind_ok. unfold deserialize_compressed. rewrite (Hf x b Hb). cbn [obind]. by apply Hr.
Qed.

Definition newline : string := String (Ascii.ascii_of_nat 10) EmptyString.

Fixpoint dots (n : nat) : string :=
  match n with O => EmptyString | S n => String.append "." (dots n) end.

(** [StorageNode::display_fmt]. *)
Fixpoint display_fmt (indent : nat) (n : StorageNode StorageKey) : string :=
  String.append " "
    (String.append (hex_encode (key n))
      (String.append
        (match subspace_reference n with
         | Some x => String.append " subspace_reference(" (String.append (base64_encode x) ")")
         | None => EmptyString
         end)
        (String.append (if flattened n then " flattened" else EmptyString)
          (String.append newline
            (match node_set n with
             | Some x => String.append (dots (indent + 1)) (String.append "<set_member>" (display_fmt (indent + 1) x))
             | None =>
                 (fix go (l : list (string * StorageNode StorageKey)) : string :=
                    match l with
                    | [] => EmptyString
                    | p :: l => String.append (dots (indent + 1))
                                  (String.append p.1 (String.append (display_fmt (indent + 1) p.2) (go l)))
                    end) (children n)
             end))))).

(** [Display for StoragePlan]. *)
Definition display_plan (p : StoragePlan StorageKey) : string :=
  foldr (fun q s => String.append "top-level node: " (String.append q.1 (String.append (display_fmt 0 q.2) s)))
    EmptyString (nodes p).
End Text.
