(* ===== verification/Planner.v ===== *)
(** * The planner: [rdb-analyzer/src/storage_plan/planner.rs]

    Assigns storage keys to the nodes of a schema, reusing the keys of an older
    plan where the old tree has a node of the same type. The clock and the
    random generator of [rand_storage_key] are an argument of the model: a
    stream of (milliseconds, 48 random bits) read one element per draw. *)
From stdpp Require Import prelude gmap strings list.
From S2P Require Import Prelude OrdMap Schema StoragePlan.

Inductive PlannerError :=
| PMissingType (s : string)
| SetMemberTypeWithoutPrimaryKey (s : string).

Abbreviation pres := (outcome PlannerError).
Abbreviation Node := (StorageNode StorageKey).
Abbreviation Plan := (StoragePlan StorageKey).

(** What the clock and [thread_rng] return at each draw. *)
Definition Entropy : Type := nat -> Z * Z.

(** [PlanState]; [draws] counts the elements of the stream read so far. The
    old schema is an argument of the functions that use it. *)
Record PlanState := MkPlanState {
  used_storage_keys : gset StorageKey;
  recursive_types : gset string;
  set_member_types : gset string;
  fields_in_stack : gmap string StorageKey;
  draws : nat
}.

Definition set_stack (st : PlanState) (m : gmap string StorageKey) : PlanState :=
  MkPlanState (used_storage_keys st) (recursive_types st) (set_member_types st) m (draws st).

(** ** Storage keys *)
(** The six low bytes of the millisecond clock and six random bytes; the two
    assertions on the high bytes of the clock panic. *)
Definition storage_key_of (d : Z * Z) : option StorageKey :=
  match be_bytes 8 (u64_wrap d.1) with
  | b0 :: b1 :: timebuf =>
      if decide (b0 = Byte.x00 /\ b1 = Byte.x00) then Some (timebuf ++ be_bytes 6 d.2) else None
  | _ => None
  end.

(** The [loop] of [rand_storage_key]: draw until the key is new. *)
Fixpoint rand_loop (fuel : nat) (ent : Entropy) (st : PlanState) : pres (StorageKey * PlanState) :=
  match fuel with
  | O => NoFuel
  | S fuel =>
      let? ret := unwrap (storage_key_of (ent (draws st))) in
      let st' := MkPlanState (used_storage_keys st) (recursive_types st) (set_member_types st)
                   (fields_in_stack st) (S (draws st)) in
      if decide (ret ∈ used_storage_keys st) then rand_loop fuel ent st'
      else Ok (ret, MkPlanState ({[ret]} ∪ used_storage_keys st) (recursive_types st)
                      (set_member_types st) (fields_in_stack st) (S (draws st)))
  end.

(** Among one more candidate than there are used keys, one is new unless the
    stream repeats itself. *)
Definition rand_storage_key (ent : Entropy) (st : PlanState) : pres (StorageKey * PlanState) :=
  rand_loop (S (size (used_storage_keys st))) ent st.

(** ** Points of the old tree *)
Record OldTreePoint := MkOldTreePoint {
  op_name : string;
  op_ty : FieldType;
  op_annotations : list FieldAnnotation;
  op_node : Node
}.

Definition reduce_set (p : OldTreePoint) : option OldTreePoint :=
  match op_ty p with
  | FSet x =>
      match node_set (op_node p) with
      | Some n => Some (MkOldTreePoint (op_name p) x (op_annotations p) n)
      | None => None
      end
  | _ => None
  end.

Definition validate_type (p : OldTreePoint) (expected_ty : FieldType) : option OldTreePoint :=
  if decide (op_ty p <> expected_ty) then None else Some p.

(** [altnames.iter().find_map(...)]. *)
Fixpoint find_child (altnames : list string) (c : list (string * Node)) : option (string * Node) :=
  match altnames with
  | [] => None
  | x :: l => match bt_get x c with Some y => Some (x, y) | None => find_child l c end
  end.

Definition resolve_subfield (old_schema : CompiledSchema) (p : OldTreePoint)
  (altnames : list string) : option OldTreePoint :=
  match find_child altnames (children (op_node p)) with
  | None => None
  | Some (name, child_node) =>
      match op_ty p with
      | FTable type_name =>
          match bt_get type_name (types old_schema) with
          | None => None
          | Some ty =>
              match bt_get name (st_fields ty) with
              | None => None
              | Some child_ty =>
                  Some (MkOldTreePoint name child_ty.1 child_ty.2 child_node)
              end
          end
      | _ => None
      end
  end.

(** The field's own name, then the names it was renamed from. *)
Definition altnames_of (name : string) (anns : list FieldAnnotation) : list string :=
  name :: omap (fun a => match a with RenameFrom x => Some x | _ => None end) anns.

(** ** Special types *)
Record SpecialTypes := MkSpecialTypes {
  sp_state : gset string;
  sp_recursive : gset string;
  sp_set_member : gset string
}.

Fixpoint collect_special_types (fuel : nat) (schema : CompiledSchema) (ty : FieldType)
  (s : SpecialTypes) : pres SpecialTypes :=
  match fuel with
  | O => NoFuel
  | S fuel =>
      match ty with
      | FSet x =>
          let s := match x with
                   | FTable n => MkSpecialTypes (sp_state s) (sp_recursive s)
                                   ({[n]} ∪ sp_set_member s)
                   | _ => s
                   end in
          collect_special_types fuel schema x s
      | FPrimitive _ => Ok s
      | FTable table_name =>
          if decide (table_name ∈ sp_state s) then
            Ok (MkSpecialTypes (sp_state s) ({[table_name]} ∪ sp_recursive s) (sp_set_member s))
          else
            let s := MkSpecialTypes ({[table_name]} ∪ sp_state s) (sp_recursive s)
                       (sp_set_member s) in
            let? specialized_ty := ok_or (bt_get table_name (types schema))
                                     (PMissingType table_name) in
            let? s := foldM_o (fun s f => collect_special_types fuel schema f.2.1 s) s
                        (st_fields specialized_ty) in
            Ok (MkSpecialTypes (sp_state s ∖ {[table_name]}) (sp_recursive s) (sp_set_member s))
      end
  end.

(** [collect_storage_keys]. *)
Fixpoint collect_storage_keys (n : Node) (sink : gset StorageKey) : gset StorageKey :=
  let sink := {[key n]} ∪ sink in
  let sink := match node_set n with Some x => collect_storage_keys x sink | None => sink end in
  (fix go (l : list (string * Node)) (sink : gset StorageKey) : gset StorageKey :=
     match l with
     | [] => sink
     | (_, child) :: l => go l (collect_storage_keys child sink)
     end) (children n) sink.

(** ** Generation *)
(** [old_point.map(|x| x.node.key).unwrap_or_else(|| rand_storage_key(plan_st))]. *)
Definition key_or_rand (ent : Entropy) (old_point : option OldTreePoint) (st : PlanState)
  : pres (StorageKey * PlanState) :=
  match old_point with
  | Some x => Ok (key (op_node x), st)
  | None => rand_storage_key ent st
  end.

Section GenerateLoop.
Context (rec : PlanState -> FieldType -> list FieldAnnotation -> option OldTreePoint ->
               pres (Node * PlanState)).

(** One turn of the loop over the fields of a table: the children so far,
    whether a primary key was seen, and the state. *)
Definition generate_subfield (old_schema : CompiledSchema) (old_point : option OldTreePoint)
  (s : list (string * Node) * bool * PlanState)
  (subfield : string * (FieldType * list FieldAnnotation))
  : pres (list (string * Node) * bool * PlanState) :=
  let '(children, has_primary_key, st) := s in
  let '(name, (ty, annotations)) := subfield in
  let subfield_old_point :=
    p ← old_point;
    q ← resolve_subfield old_schema p (altnames_of name annotations);
    validate_type q ty in
  let? (x, st) := rec st ty annotations subfield_old_point in
  Ok (bt_insert name x children, has_primary_key || is_primary annotations, st).
End GenerateLoop.

Fixpoint generate_field (fuel : nat) (ent : Entropy) (old_schema schema : CompiledSchema)
  (st : PlanState) (field : FieldType) (annotations : list FieldAnnotation)
  (old_point : option OldTreePoint) : pres (Node * PlanState) :=
  match fuel with
  | O => NoFuel
  | S fuel =>
      match field with
      | FTable table_name =>
          match fields_in_stack st !! table_name with
          | Some k =>
              let? (k', st) := key_or_rand ent old_point st in
              Ok (MkNode k' false (Some k) None [], st)
          | None =>
              let? ty := ok_or (bt_get table_name (types schema)) (PMissingType table_name) in
              let? (storage_key, st) := key_or_rand ent old_point st in
              let is_recursive_type := bool_decide (table_name ∈ recursive_types st) in
              let st := if is_recursive_type
                        then set_stack st (<[table_name := storage_key]> (fields_in_stack st))
                        else st in
              let? (children, has_primary_key, st) :=
                foldM_o (generate_subfield (generate_field fuel ent old_schema schema)
                           old_schema old_point)
                  ([], false, st) (st_fields ty) in
              let st := if is_recursive_type
                        then set_stack st (delete table_name (fields_in_stack st))
                        else st in
              if decide (table_name ∈ set_member_types st /\ has_primary_key = false)
              then Err (SetMemberTypeWithoutPrimaryKey (st_name ty))
              else Ok (MkNode storage_key true None None children, st)
          end
      | FPrimitive _ =>
          let? (k, st) := key_or_rand ent old_point st in
          Ok (MkNode k false None None [], st)
      | FSet x =>
          let inner_old_point := p ← old_point; q ← reduce_set p; validate_type q x in
          let? (inner, st) := generate_field fuel ent old_schema schema st x [] inner_old_point in
          let? (k, st) := key_or_rand ent old_point st in
          Ok (MkNode k false None (Some inner) [], st)
      end
  end.

(** Recursive and set-member types reachable from the exports; every export
    starts from an empty path. *)
Definition collect_exports (fuel : nat) (schema : CompiledSchema)
  : pres (gset string * gset string) :=
  foldM_o (fun '(rec, sm) e =>
             let? s := collect_special_types fuel schema e.2 (MkSpecialTypes ∅ rec sm) in
             Ok (sp_recursive s, sp_set_member s))
    (∅, ∅) (exports schema).

(** The point of the old tree where an export possibly exists. *)
Definition export_old_point (old_plan : Plan) (old_schema : CompiledSchema)
  (export_name : string) (export_field : FieldType) : option OldTreePoint :=
  ty ← bt_get export_name (exports old_schema);
  node ← bt_get export_name (nodes old_plan);
  validate_type (MkOldTreePoint export_name ty [] node) export_field.

Definition generate_export (fuel : nat) (ent : Entropy) (old_plan : Plan)
  (old_schema schema : CompiledSchema)
  (s : list (string * Node) * PlanState) (e : string * FieldType)
  : pres (list (string * Node) * PlanState) :=
  let '(ns, st) := s in
  let? (node, st) := generate_field fuel ent old_schema schema st e.2 []
                       (export_old_point old_plan old_schema e.1 e.2) in
  Ok (bt_insert e.1 node ns, st).

Definition old_plan_keys (old_plan : Plan) : gset StorageKey :=
  foldl (fun s p => collect_storage_keys p.2 s) ∅ (nodes old_plan).

(** [generate_plan_for_schema], with the number of draws it made. *)
Definition generate_plan (fuel : nat) (ent : Entropy) (old_plan : Plan)
  (old_schema schema : CompiledSchema) : pres (Plan * nat) :=
  let? (rec, sm) := collect_exports fuel schema in
  let plan_st := MkPlanState (old_plan_keys old_plan) rec sm ∅ 0 in
  let? (ns, st) := foldM_o (generate_export fuel ent old_plan old_schema schema)
                     ([], plan_st) (exports schema) in
  Ok (MkPlan ns, draws st).

Definition generate_plan_for_schema (fuel : nat) (ent : Entropy) (old_plan : Plan)
  (old_schema schema : CompiledSchema) : pres Plan :=
  let? (p, _) := generate_plan fuel ent old_plan old_schema schema in Ok p.

(** Enough fuel for any schema of this size. *)
Definition plan_fuel (schema : CompiledSchema) : nat := 2 * length (types schema) + 2.
