(* ===== verification/PlannerFacts.v ===== *)
(** * Correctness of the planner

    - the loops over fields and exports as chains of calls ([field_chain]);
    - conformance: a generated node has the shape its type asks for
      ([node_for]), with references to enclosing recursive tables;
    - freshness: storage keys drawn for a plan are pairwise distinct and new;
    - stability: planning again from a generated plan changes nothing. *)
From stdpp Require Import prelude gmap strings list.
From S2P Require Import Prelude OrdMap Schema SchemaFacts StoragePlan Planner.

(** ** Drawing keys *)
(** What every step leaves alone, and that used keys only grow. *)
Record st_frame (st st' : PlanState) : Prop := {
  fr_stack : fields_in_stack st' = fields_in_stack st;
  fr_rec : recursive_types st' = recursive_types st;
  fr_sm : set_member_types st' = set_member_types st;
  fr_used : used_storage_keys st ⊆ used_storage_keys st'
}.

#[export] Instance st_frame_preorder : PreOrder st_frame.
Proof.
  split; [done|]. intros s1 s2 s3 [] []. split; [congruence..|set_solver].
Qed.

Lemma storage_key_of_ok d k : storage_key_of d = Some k -> key_ok k.
Proof.
  unfold storage_key_of. pose proof (length_be_bytes 8 (u64_wrap d.1)) as Hl.
  destruct (be_bytes 8 (u64_wrap d.1)) as [|b0 [|b1 t]]; [done|done|].
  case_decide; [|done]. intros E. assert (k = t ++ be_bytes 6 d.2) as -> by congruence.
  unfold key_ok. rewrite length_app, length_be_bytes. simpl in Hl. lia.
Qed.

Lemma rand_loop_spec fuel ent st k st' :
  rand_loop fuel ent st = Ok (k, st') ->
  (k ∉ used_storage_keys st) /\ used_storage_keys st' = {[k]} ∪ used_storage_keys st /\
  st_frame st st' /\ key_ok k.
Proof.
  revert st. induction fuel as [|fuel IH]; intros st Hr; [done|]. cbn [rand_loop] in Hr.
  destruct (storage_key_of (ent (draws st))) as [ret|] eqn:Hk; [|done]. cbn in Hr.
  case_decide as Hin.
  - apply IH in Hr as (? & ? & [] & ?). simpl in *. by repeat split.
  - injection Hr as <- <-. split_and!; [done|done| |by eapply storage_key_of_ok].
    split; simpl; [done..|set_solver].
Qed.

Lemma key_or_rand_spec ent op st k st' :
  key_or_rand ent op st = Ok (k, st') ->
  st_frame st st' /\
  match op with
  | Some p => k = key (op_node p) /\ st' = st
  | None => (k ∉ used_storage_keys st) /\ used_storage_keys st' = {[k]} ∪ used_storage_keys st /\ key_ok k
  end.
Proof.
  unfold key_or_rand. destruct op as [p|].
  - intros [= <- <-]. split; [reflexivity|done].
  - intros (? & ? & ? & ?)%rand_loop_spec. done.
Qed.

(** ** The loop over fields *)
Definition subfield_old_point (old_schema : CompiledSchema) (op : option OldTreePoint)
  (name : string) (f : FieldType * list FieldAnnotation) : option OldTreePoint :=
  p ← op; q ← resolve_subfield old_schema p (altnames_of name f.2); validate_type q f.1.

Section Chain.
Context (rec : PlanState -> FieldType -> list FieldAnnotation -> option OldTreePoint ->
               pres (Node * PlanState)).
Context (old_schema : CompiledSchema) (op : option OldTreePoint).

Inductive field_chain : PlanState -> FieldMap -> list (string * Node) -> PlanState -> Prop :=
| chain_nil st : field_chain st [] [] st
| chain_cons st name f x st1 fs new st2 :
    rec st f.1 f.2 (subfield_old_point old_schema op name f) = Ok (x, st1) ->
    field_chain st1 fs new st2 ->
    field_chain st ((name, f) :: fs) ((name, x) :: new) st2.

Definition any_primary (fs : FieldMap) : bool := existsb (fun f => is_primary f.2.2) fs.

Definition keys_below (cs : list (string * Node)) (fs : FieldMap) : Prop :=
  forall c f, c ∈ cs -> f ∈ fs -> cmp c.1 f.1 = Lt.

Lemma keys_below_step cs name f x fs :
  keys_below cs ((name, f) :: fs) -> bt_sorted ((name, f) :: fs) ->
  bt_insert name x cs = cs ++ [(name, x)] /\ keys_below (cs ++ [(name, x)]) fs /\ bt_sorted fs.
Proof.
  intros Hb Hs. apply bt_sorted_cons in Hs as [Hs Hlt]. split_and!; [| |done].
  - apply bt_insert_last, Forall_forall. intros c Hc. apply (Hb c (name, f)); [done|left].
  - intros c g [Hc|Hc]%elem_of_app Hg.
    + apply Hb; [done|by right].
    + apply list_elem_of_singleton in Hc as ->. rewrite Forall_forall in Hlt. by apply Hlt.
Qed.

Lemma fold_chain cs b st fs cs' b' st' :
  bt_sorted fs -> keys_below cs fs ->
  foldM_o (generate_subfield rec old_schema op) (cs, b, st) fs = Ok (cs', b', st') ->
  exists new, cs' = cs ++ new /\ b' = b || any_primary fs /\ field_chain st fs new st'.
Proof.
  revert cs b st. induction fs as [|[name [ty anns]] fs IH]; intros cs b st Hs Hb Hr.
  - injection Hr as <- <- <-. exists []. rewrite app_nil_r, orb_false_r.
    split_and!; [done|done|constructor].
  - cbn [foldM_o] in Hr. apply obind_ok in Hr as ([[cs1 b1] st1] & Hx & Hr).
    unfold generate_subfield in Hx. apply obind_ok in Hx as ([x st1'] & Hx & [= <- <- <-]).
    destruct (keys_below_step _ _ _ x _ Hb Hs) as (Hins & Hb' & Hs').
    rewrite Hins in Hr. apply IH in Hr as (new & -> & -> & Hc); [|done..].
    exists ((name, x) :: new). split_and!; [by rewrite <- app_assoc| |by econstructor].
    simpl. by rewrite orb_assoc.
Qed.

Lemma chain_fold cs b st fs new st' :
  bt_sorted fs -> keys_below cs fs -> field_chain st fs new st' ->
  foldM_o (generate_subfield rec old_schema op) (cs, b, st) fs
  = Ok (cs ++ new, b || any_primary fs, st').
Proof.
  intros Hs Hb Hc. revert cs b Hs Hb. induction Hc as [st|st name [ty anns] x st1 fs new st2 Hx Hc IH];
    intros cs b Hs Hb.
  - simpl. by rewrite app_nil_r, orb_false_r.
  - destruct (keys_below_step _ _ _ x _ Hb Hs) as (Hins & Hb' & Hs').
    cbn [foldM_o generate_subfield]. unfold subfield_old_point in Hx. cbn [fst snd] in Hx.
    rewrite Hx. cbn [obind]. rewrite Hins, IH by done.
    simpl. by rewrite <- app_assoc, <- orb_assoc.
Qed.

Lemma chain_keys st fs new st' : field_chain st fs new st' -> new.*1 = fs.*1.
Proof. induction 1; simpl; [done|]. by f_equal. Qed.

Lemma chain_sorted st fs new st' : field_chain st fs new st' -> bt_sorted fs -> bt_sorted new.
Proof. intros Hc. apply bt_sorted_same_keys. symmetry. by eapply chain_keys. Qed.

Lemma keys_below_nil fs : keys_below [] fs.
Proof. intros c f Hc. by apply elem_of_nil in Hc. Qed.
End Chain.

#[export] Hint Resolve keys_below_nil : rdb.

(** The frame holds along a chain when every call respects it. *)
Lemma chain_frame rec os op st fs new st' :
  (forall st t a o x st', rec st t a o = Ok (x, st') -> st_frame st st') ->
  field_chain rec os op st fs new st' -> st_frame st st'.
Proof.
  intros Hrec. induction 1 as [|st name f x st1 fs new st2 Hx Hc IH]; [reflexivity|].
  etransitivity; [by eapply Hrec|exact IH].
Qed.

(** ** Inversion of [generate_field] *)
(** The stack inside a table: a recursive type is pushed with its key. *)
Definition push_stack (st : PlanState) (t : string) (k : StorageKey) : PlanState :=
  if bool_decide (t ∈ recursive_types st)
  then set_stack st (<[t := k]> (fields_in_stack st)) else st.

Definition pop_stack (rec : gset string) (st : PlanState) (t : string) : PlanState :=
  if bool_decide (t ∈ rec) then set_stack st (delete t (fields_in_stack st)) else st.

Definition inner_old_point (op : option OldTreePoint) (x : FieldType) : option OldTreePoint :=
  p ← op; q ← reduce_set p; validate_type q x.

(** The four ways [generate_field] succeeds. *)
Inductive gen_case (fuel : nat) (ent : Entropy) (os s : CompiledSchema) (st : PlanState)
  (op : option OldTreePoint) : FieldType -> Node -> PlanState -> Prop :=
| gc_ref t k k' st' :
    fields_in_stack st !! t = Some k ->
    key_or_rand ent op st = Ok (k', st') ->
    gen_case fuel ent os s st op (FTable t) (MkNode k' false (Some k) None []) st'
| gc_table t ty k st1 new st2 :
    fields_in_stack st !! t = None ->
    bt_get t (types s) = Some ty ->
    key_or_rand ent op st = Ok (k, st1) ->
    field_chain (generate_field fuel ent os s) os op (push_stack st1 t k) (st_fields ty) new st2 ->
    ~ (t ∈ set_member_types st2 /\ any_primary (st_fields ty) = false) ->
    gen_case fuel ent os s st op (FTable t) (MkNode k true None None new)
      (pop_stack (recursive_types st1) st2 t)
| gc_prim p k st' :
    key_or_rand ent op st = Ok (k, st') ->
    gen_case fuel ent os s st op (FPrimitive p) (MkNode k false None None []) st'
| gc_set x inner st1 k st' :
    generate_field fuel ent os s st x [] (inner_old_point op x) = Ok (inner, st1) ->
    key_or_rand ent op st1 = Ok (k, st') ->
    gen_case fuel ent os s st op (FSet x) (MkNode k false None (Some inner) []) st'.

Definition schema_sorted (s : CompiledSchema) : Prop :=
  forall t ty, bt_get t (types s) = Some ty -> bt_sorted (st_fields ty).

Lemma wf_schema_sorted s : wf_schema s -> schema_sorted s.
Proof.
  intros [[_ Hf] _ _] t ty Hg. apply (bt_get_forall _ _ _ _ Hf) in Hg. by destruct Hg.
Qed.

Lemma generate_field_inv fuel ent os s st t anns op n st' :
  schema_sorted s ->
  generate_field (S fuel) ent os s st t anns op = Ok (n, st') ->
  gen_case fuel ent os s st op t n st'.
Proof.
  intros Hss Hr. cbn [generate_field] in Hr. destruct t as [t|p|x].
  - destruct (fields_in_stack st !! t) as [k|] eqn:Hst.
    + apply obind_ok in Hr as ([k' st1] & Hk & [= <- <-]). by constructor.
    + apply obind_ok in Hr as (ty & Hty%ok_or_ok & Hr).
      apply obind_ok in Hr as ([k st1] & Hk & Hr).
      apply obind_ok in Hr as ([[cs b] st2] & Hf & Hr).
      apply fold_chain in Hf as (new & -> & -> & Hc); [|by eapply Hss|apply keys_below_nil].
      case_decide as Hd; [done|]. injection Hr as <- <-.
      apply gc_table with ty; [done..|].
      intros [Hsm Hp]. apply Hd. split; [|done].
      by case_match.
  - apply obind_ok in Hr as ([k' st1] & Hk & [= <- <-]). by constructor.
  - apply obind_ok in Hr as ([inner st1] & Hi & Hr).
    apply obind_ok in Hr as ([k st2] & Hk & [= <- <-]). by apply gc_set with st1.
Qed.

Lemma set_stack_id st m : fields_in_stack st = m -> set_stack st m = st.
Proof. intros <-. by destruct st. Qed.

(** The stack is restored, so a call only adds used keys. *)
Lemma generate_field_frame fuel ent os s st t anns op n st' :
  schema_sorted s ->
  generate_field fuel ent os s st t anns op = Ok (n, st') -> st_frame st st'.
Proof.
  intros Hss. revert st t anns op n st'.
  induction fuel as [|fuel IH]; intros st t anns op n st' Hr; [done|].
  apply generate_field_inv in Hr; [|done].
  destruct Hr as [t k k' st' Hst Hk|t ty k st1 new st2 Hst Hty Hk Hc Hd|p k st' Hk
                 |x inner st1 k st' Hi Hk];
    apply key_or_rand_spec in Hk as [Hfr _]; [done| |done|].
  - apply chain_frame in Hc; [|exact IH]. destruct Hfr as [Hf1 Hf2 Hf3 Hf4].
    destruct Hc as [Hc1 Hc2 Hc3 Hc4]. unfold push_stack, pop_stack in *.
    destruct (bool_decide (t ∈ recursive_types st1)); simpl in *.
    + split; simpl; [|by rewrite Hc2|by rewrite Hc3|by etransitivity].
      rewrite Hc1, Hf1. by apply delete_insert_id.
    + split; [by rewrite Hc1|by rewrite Hc2|by rewrite Hc3|by etransitivity].
  - apply IH in Hi. by etransitivity.
Qed.

(** The key of a node is the key of the point of the old tree it stands for. *)
Lemma generate_field_key fuel ent os s st t anns p n st' :
  schema_sorted s ->
  generate_field fuel ent os s st t anns (Some p) = Ok (n, st') -> key n = key (op_node p).
Proof.
  intros Hss. destruct fuel as [|fuel]; [done|]. intros Hr%generate_field_inv; [|done].
  destruct Hr as [? ? ? ? ? Hk|? ? ? ? ? ? ? ? Hk|? ? ? Hk|? ? ? ? ? ? Hk];
    apply key_or_rand_spec in Hk as [_ [-> _]]; done.
Qed.

(** ** Conformance *)
Definition push_key (rec : gset string) (stk : gmap string StorageKey) (t : string)
  (k : StorageKey) : gmap string StorageKey :=
  if bool_decide (t ∈ rec) then <[t := k]> stk else stk.

(** [node_for s rec stk t n]: [n] is a storage node for type [t] inside the
    recursive tables [stk], with [rec] the recursive types. *)
Inductive node_for (s : CompiledSchema) (rec : gset string) (stk : gmap string StorageKey)
  : FieldType -> Node -> Prop :=
| nf_ref t k k' :
    stk !! t = Some k ->
    node_for s rec stk (FTable t) (MkNode k' false (Some k) None [])
| nf_table t ty k cs :
    stk !! t = None ->
    bt_get t (types s) = Some ty ->
    nodes_for s rec (push_key rec stk t k) (st_fields ty) cs ->
    node_for s rec stk (FTable t) (MkNode k true None None cs)
| nf_prim p k : node_for s rec stk (FPrimitive p) (MkNode k false None None [])
| nf_set x k inner :
    node_for s rec stk x inner ->
    node_for s rec stk (FSet x) (MkNode k false None (Some inner) [])
with nodes_for (s : CompiledSchema) (rec : gset string) (stk : gmap string StorageKey)
  : FieldMap -> list (string * Node) -> Prop :=
| nfs_nil : nodes_for s rec stk [] []
| nfs_cons name f fs n cs :
    node_for s rec stk f.1 n -> nodes_for s rec stk fs cs ->
    nodes_for s rec stk ((name, f) :: fs) ((name, n) :: cs).

Scheme node_for_mut := Induction for node_for Sort Prop
  with nodes_for_mut := Induction for nodes_for Sort Prop.

Lemma push_stack_frame st t k :
  fields_in_stack (push_stack st t k)
  = push_key (recursive_types st) (fields_in_stack st) t k /\
  recursive_types (push_stack st t k) = recursive_types st /\
  set_member_types (push_stack st t k) = set_member_types st /\
  used_storage_keys (push_stack st t k) = used_storage_keys st.
Proof. unfold push_stack, push_key. by destruct (bool_decide _). Qed.

Lemma pop_stack_used rec st t : used_storage_keys (pop_stack rec st t) = used_storage_keys st.
Proof. unfold pop_stack. by destruct (bool_decide _). Qed.

Lemma chain_nodes_for rec os op st fs new st' s recs stk :
  (forall st t a o n st', rec st t a o = Ok (n, st') ->
     st_frame st st' /\ node_for s (recursive_types st) (fields_in_stack st) t n) ->
  field_chain rec os op st fs new st' ->
  fields_in_stack st = stk -> recursive_types st = recs ->
  nodes_for s recs stk fs new.
Proof.
  intros Hrec. induction 1 as [|st name f x st1 fs new st2 Hx Hc IH]; intros Hstk Hrecs.
  - constructor.
  - apply Hrec in Hx as [[Hf1 Hf2 _ _] Hn]. constructor; [by rewrite <- Hstk, <- Hrecs|].
    apply IH; congruence.
Qed.

Lemma generate_field_conforms fuel ent os s st t anns op n st' :
  schema_sorted s ->
  generate_field fuel ent os s st t anns op = Ok (n, st') ->
  node_for s (recursive_types st) (fields_in_stack st) t n.
Proof.
  intros Hss. revert st t anns op n st'.
  induction fuel as [|fuel IH]; intros st t anns op n st' Hr; [done|].
  apply generate_field_inv in Hr; [|done].
  destruct Hr as [t k k' st' Hst Hk|t ty k st1 new st2 Hst Hty Hk Hc Hd|p k st' Hk
                 |x inner st1 k st' Hi Hk].
  - by constructor.
  - apply key_or_rand_spec in Hk as [[Hf1 Hf2 _ _] _].
    apply nf_table with ty; [done..|].
    destruct (push_stack_frame st1 t k) as (Hp1 & Hp2 & _ & _).
    eapply chain_nodes_for; [|exact Hc|by rewrite Hp1, Hf1, Hf2|by rewrite Hp2, Hf2].
    intros. split; [by eapply generate_field_frame|by eapply IH].
  - constructor.
  - constructor. by eapply IH.
Qed.

(** ** Freshness *)
(** A list of keys drawn between [st] and [st']. *)
Record fresh_between (st st' : PlanState) (l : list StorageKey) : Prop := {
  fb_nodup : NoDup l;
  fb_new : forall k, k ∈ l -> k ∉ used_storage_keys st;
  fb_used : forall k, k ∈ l -> k ∈ used_storage_keys st';
  fb_lengths : Forall key_ok l
}.

Lemma fresh_nil st st' : fresh_between st st' [].
Proof. split; [constructor|intros k Hk; by apply elem_of_nil in Hk..|constructor]. Qed.

Lemma fresh_app st st1 st2 l1 l2 :
  used_storage_keys st ⊆ used_storage_keys st1 -> used_storage_keys st1 ⊆ used_storage_keys st2 ->
  fresh_between st st1 l1 -> fresh_between st1 st2 l2 -> fresh_between st st2 (l1 ++ l2).
Proof.
  intros Hu1 Hu2 [Hn1 Hw1 Hs1 Hl1] [Hn2 Hw2 Hs2 Hl2]. split; [..|by apply Forall_app].
  - apply NoDup_app. split_and!; [done| |done]. intros k Hk1 Hk2.
    by apply (Hw2 k Hk2), Hs1.
  - intros k [Hk|Hk]%elem_of_app; [by apply Hw1|]. intros Hin. apply (Hw2 k Hk). by apply Hu1.
  - intros k [Hk|Hk]%elem_of_app; [by apply Hu2, Hs1|by apply Hs2].
Qed.

Lemma fresh_perm st st' l l' : l ≡ₚ l' -> fresh_between st st' l -> fresh_between st st' l'.
Proof.
  intros Hp [H1 H2 H3 H4]. split; [by rewrite <- Hp|..|by rewrite <- Hp]; intros k Hk; rewrite <- Hp in Hk; auto.
Qed.

Lemma fresh_same_used st st' st1 st1' l :
  used_storage_keys st = used_storage_keys st1 ->
  used_storage_keys st' = used_storage_keys st1' ->
  fresh_between st st' l -> fresh_between st1 st1' l.
Proof. intros E E' [H1 H2 H3 H4]. split; [done|by rewrite <- E|by rewrite <- E'|done]. Qed.

Lemma fresh_draw ent st k st' :
  key_or_rand ent None st = Ok (k, st') -> fresh_between st st' [k].
Proof.
  intros (Hfr & Hk & Hu & Hl)%key_or_rand_spec. split; [apply NoDup_singleton|..|by constructor];
    intros k' ->%list_elem_of_singleton; [done|]. rewrite Hu. set_solver.
Qed.

Lemma chain_fresh rec os st fs new st' :
  (forall st t a n st', rec st t a None = Ok (n, st') -> fresh_between st st' (node_keys n)) ->
  (forall st t a o n st', rec st t a o = Ok (n, st') -> st_frame st st') ->
  field_chain rec os None st fs new st' ->
  fresh_between st st' (flat_map (fun p => node_keys p.2) new).
Proof.
  intros Hrec Hfr. induction 1 as [|st name f x st1 fs new st2 Hx Hc IH]; [apply fresh_nil|].
  apply fresh_app with st1; [by eapply fr_used, Hfr|by eapply fr_used, chain_frame|by eapply Hrec|done].
Qed.

(** Without an old tree every key of the node is a new draw. *)
Lemma generate_field_fresh fuel ent os s st t anns n st' :
  schema_sorted s ->
  generate_field fuel ent os s st t anns None = Ok (n, st') ->
  fresh_between st st' (node_keys n).
Proof.
  intros Hss. revert st t anns n st'.
  induction fuel as [|fuel IH]; intros st t anns n st' Hr; [done|].
  apply generate_field_inv in Hr; [|done].
  destruct Hr as [t k k' st' Hst Hk|t ty k st1 new st2 Hst Hty Hk Hc Hd|p k st' Hk
                 |x inner st1 k st' Hi Hk]; simpl.
  - by eapply fresh_draw.
  - destruct (push_stack_frame st1 t k) as (_ & _ & _ & Hpu).
    pose proof (key_or_rand_spec _ _ _ _ _ Hk) as [Hfr1 _].
    assert (Hfr2 : st_frame (push_stack st1 t k) st2).
    { eapply chain_frame; [|exact Hc]. intros. by eapply generate_field_frame. }
    apply chain_fresh in Hc; [|exact IH|intros; by eapply generate_field_frame].
    apply (fresh_app st (push_stack st1 t k) _ [k]).
    + rewrite Hpu. by apply fr_used.
    + rewrite pop_stack_used. by apply fr_used.
    + apply fresh_draw in Hk. by eapply fresh_same_used, Hk.
    + eapply fresh_same_used, Hc; [done|by rewrite pop_stack_used].
  - by eapply fresh_draw.
  - rewrite app_nil_r. pose proof (key_or_rand_spec _ _ _ _ _ Hk) as [Hfr _].
    apply fresh_perm with (node_keys inner ++ [k]); [by rewrite Permutation_app_comm|].
    apply fresh_app with st1;
      [by eapply fr_used, generate_field_frame|by apply fr_used|by eapply IH|by eapply fresh_draw].
Qed.

(** ** Stability *)
Lemma find_child_own name anns (c : list (string * Node)) x :
  bt_get name c = Some x -> find_child (altnames_of name anns) c = Some (name, x).
Proof. intros Hx. simpl. by rewrite Hx. Qed.

(** In the plan of the schema itself, a field's old point is its own node. *)
Lemma subfield_old_point_self s t ty p name f x :
  op_ty p = FTable t -> bt_get t (types s) = Some ty -> bt_get name (st_fields ty) = Some f ->
  bt_get name (children (op_node p)) = Some x ->
  subfield_old_point s (Some p) name f = Some (MkOldTreePoint name f.1 f.2 x).
Proof.
  intros Ht Hty Hf Hx. unfold subfield_old_point, resolve_subfield. simpl.
  rewrite Hx, Ht, Hty, Hf. simpl. unfold validate_type. rewrite decide_False by auto. done.
Qed.

(** [replays rec rec2 st2]: what [rec] generated once, [rec2] returns
    unchanged, in state [st2], from the generated node. *)
Definition replays
  (rec rec2 : PlanState -> FieldType -> list FieldAnnotation -> option OldTreePoint ->
              pres (Node * PlanState)) : Prop :=
  forall st st2 t anns anns' op n st' p,
    rec st t anns op = Ok (n, st') ->
    fields_in_stack st2 = fields_in_stack st ->
    recursive_types st2 = recursive_types st ->
    set_member_types st2 = set_member_types st ->
    op_ty p = t -> op_node p = n ->
    rec2 st2 t anns' (Some p) = Ok (n, st2).

Lemma chain_replay rec rec2 os op s t ty p st fs new st' st2 :
  replays rec rec2 ->
  (forall st t a o x st', rec st t a o = Ok (x, st') -> st_frame st st') ->
  field_chain rec os op st fs new st' ->
  fields_in_stack st2 = fields_in_stack st ->
  recursive_types st2 = recursive_types st ->
  set_member_types st2 = set_member_types st ->
  op_ty p = FTable t -> bt_get t (types s) = Some ty ->
  (forall name f, (name, f) ∈ fs -> bt_get name (st_fields ty) = Some f) ->
  (forall name x, (name, x) ∈ new -> bt_get name (children (op_node p)) = Some x) ->
  field_chain rec2 s (Some p) st2 fs new st2.
Proof.
  intros Hrep Hfr Hc. revert st2.
  induction Hc as [|st name f x st1 fs new st3 Hx Hc IH]; intros st2 H1 H2 H3 Ht Hty Hfs Hnew.
  - constructor.
  - apply chain_cons with st2.
    + rewrite (subfield_old_point_self s t ty p name f x); [|done|done|apply Hfs; left|apply Hnew; left].
      by eapply Hrep.
    + apply Hfr in Hx as [Hx1 Hx2 Hx3 _]. apply IH; try congruence.
      * intros. apply Hfs. by right.
      * intros. apply Hnew. by right.
Qed.

Lemma pop_push st t k :
  fields_in_stack st !! t = None ->
  pop_stack (recursive_types st) (push_stack st t k) t = st.
Proof.
  intros Hn. unfold pop_stack, push_stack. destruct (bool_decide _); [|done].
  destruct st. unfold set_stack. simpl in *. by rewrite delete_insert_id.
Qed.

(** The forward reading of the table case. *)
Lemma generate_table_intro fuel ent os s st t anns op ty k st1 new st2 :
  schema_sorted s ->
  fields_in_stack st !! t = None -> bt_get t (types s) = Some ty ->
  key_or_rand ent op st = Ok (k, st1) ->
  field_chain (generate_field fuel ent os s) os op (push_stack st1 t k) (st_fields ty) new st2 ->
  ~ (t ∈ set_member_types st2 /\ any_primary (st_fields ty) = false) ->
  generate_field (S fuel) ent os s st (FTable t) anns op
  = Ok (MkNode k true None None new, pop_stack (recursive_types st1) st2 t).
Proof.
  intros Hss Hst Hty Hk Hc Hd. cbn [generate_field].
  rewrite Hst, Hty. cbn [ok_or obind]. rewrite Hk. cbn [obind].
  fold (push_stack st1 t k).
  rewrite (chain_fold _ _ _ _ _ _ _ _ _ (Hss _ _ Hty) (keys_below_nil _) Hc).
  cbn [obind app orb]. fold (pop_stack (recursive_types st1) st2 t).
  rewrite decide_False; [done|]. intros [Hsm Hp]. apply Hd. split; [|done].
  revert Hsm. unfold pop_stack. by destruct (bool_decide _).
Qed.

Lemma generate_field_replays fuel ent ent' os s :
  schema_sorted s ->
  replays (generate_field fuel ent os s) (generate_field fuel ent' s s).
Proof.
  intros Hss. induction fuel as [|fuel IH]; intros st st2 t anns anns' op n st' p Hr H1 H2 H3 Ht Hn;
    [done|].
  apply generate_field_inv in Hr; [|done].
  destruct Hr as [t k k' st' Hst Hk|t ty k st1 new st3 Hst Hty Hk Hc Hd|q k st' Hk
                 |x inner st1 k st' Hi Hk].
  - cbn [generate_field]. rewrite H1, Hst. cbn. by rewrite Hn.
  - pose proof (key_or_rand_spec _ _ _ _ _ Hk) as [[Hf1 Hf2 Hf3 _] _].
    assert (Hfr : st_frame (push_stack st1 t k) st3).
    { eapply chain_frame; [|exact Hc]. intros. by eapply generate_field_frame. }
    destruct (push_stack_frame st1 t k) as (Hp1 & Hp2 & Hp3 & _).
    destruct (push_stack_frame st2 t k) as (Hq1 & Hq2 & Hq3 & _).
    rewrite (generate_table_intro fuel ent' s s st2 t anns' (Some p) ty k st2 new
      (push_stack st2 t k)); [|done|by rewrite H1|done|cbn; by rewrite Hn| |].
    + by rewrite pop_push by (by rewrite H1).
    + assert (Hsn : bt_sorted new) by (eapply chain_sorted; [exact Hc|by eapply Hss]).
      eapply chain_replay; [exact IH|intros; by eapply generate_field_frame|exact Hc|..]; try done.
      * by rewrite Hq1, Hp1, H1, H2, Hf1, Hf2.
      * by rewrite Hq2, Hp2, H2, Hf2.
      * by rewrite Hq3, Hp3, H3, Hf3.
      * intros name f Hin. apply bt_elem_get; [by eapply Hss|done].
      * intros name y Hin. rewrite Hn. by apply bt_elem_get.
    + destruct Hfr as [_ _ Hg3 _]. rewrite Hq3, H3. rewrite Hg3, Hp3, Hf3 in Hd. exact Hd.
  - cbn. by rewrite Hn.
  - cbn [generate_field]. unfold reduce_set. cbn. rewrite Ht, Hn. cbn.
    unfold validate_type. rewrite decide_False by auto.
    assert (Hfr : st_frame st st1) by (by eapply generate_field_frame).
    rewrite (IH st st2 x [] [] (inner_old_point op x) inner st1); [|done..].
    done.
Qed.
