(* ===== verification/PlannerPlan.v ===== *)
(** * Whole plans: totality, conformance, freshness and stability of
    [generate_plan_for_schema] *)
From stdpp Require Import prelude gmap strings list.
From S2P Require Import Prelude OrdMap Schema SchemaFacts StoragePlan Planner PlannerFacts.

(** ** Special types *)
Lemma collect_frame fuel s t sp sp' :
  collect_special_types fuel s t sp = Ok sp' ->
  sp_state sp' = sp_state sp /\ sp_recursive sp ⊆ sp_recursive sp' /\
  sp_set_member sp ⊆ sp_set_member sp'.
Proof.
  revert t sp sp'. induction fuel as [|fuel IH]; intros t sp sp' Hr; [done|].
  destruct t as [t|p|x]; cbn [collect_special_types] in Hr.
  - case_decide as Hin.
    + injection Hr as <-. simpl. set_solver.
    + apply obind_ok in Hr as (ty & _ & Hr). apply obind_ok in Hr as (sp1 & Hf & [= <-]). simpl.
      eapply (foldM_o_inv _ (fun sp1 => sp_state sp1 = {[t]} ∪ sp_state sp /\
        sp_recursive sp ⊆ sp_recursive sp1 /\ sp_set_member sp ⊆ sp_set_member sp1))
        in Hf as (H1 & H2 & H3); [|done|].
      * split; [|done]. rewrite H1. apply leibniz_equiv. set_solver.
      * intros sp2 f sp3 _ (H1 & H2 & H3) (H4 & H5 & H6)%IH.
        split_and!; [congruence|by etransitivity|by etransitivity].
  - injection Hr as <-. done.
  - apply IH in Hr as (H1 & H2 & H3). destruct x; simpl in *; [|done..].
    split_and!; [done|done|set_solver].
Qed.

Definition type_names (s : CompiledSchema) : gset string := list_to_set (types s).*1.

Definition tdepth (t : FieldType) : nat := match t with FSet _ => 2 | _ => 1 end.

Lemma ftype_ok_depth r t : ftype_ok r t -> tdepth t <= 2.
Proof. destruct t; simpl; lia. Qed.

Lemma type_defined_get r n : type_defined r n <-> is_Some (bt_get n r).
Proof.
  unfold type_defined, bt_contains. destruct (bt_get n r); [by split; eauto|].
  split; [done|by intros []].
Qed.

Lemma type_defined_names s n : type_defined (types s) n -> n ∈ type_names s.
Proof.
  rewrite type_defined_get. intros [ty Hg%bt_get_elem]. unfold type_names.
  rewrite elem_of_list_to_set, list_elem_of_fmap. by exists (n, ty).
Qed.

(** Entering a new table shrinks the set of types still off the path. *)
Lemma measure_step s vis n :
  n ∈ type_names s -> n ∉ vis ->
  size (type_names s ∖ ({[n]} ∪ vis)) < size (type_names s ∖ vis).
Proof. intros Hn Hv. apply subset_size. set_solver. Qed.

Lemma wf_field_ok s n ty f :
  wf_schema s -> bt_get n (types s) = Some ty -> f ∈ st_fields ty -> field_ok (types s) f.2.
Proof.
  intros [[_ Hall] _ _] Hg Hf. apply (bt_get_forall _ _ _ _ Hall) in Hg as [_ _ Hfs _].
  rewrite Forall_forall in Hfs. by apply Hfs.
Qed.

Lemma collect_returns fuel s t sp :
  wf_schema s -> ftype_ok (types s) t ->
  tdepth t + 2 * size (type_names s ∖ sp_state sp) <= fuel ->
  returns_with (fun _ => False) (collect_special_types fuel s t sp).
Proof.
  intros Hwf. revert t sp. induction fuel as [|fuel IH]; intros t sp Ht Hfuel.
  { destruct t; simpl in Hfuel; lia. }
  destruct t as [t|p|x]; cbn [collect_special_types]; [|done|].
  - case_decide as Hin; [done|]. simpl in Ht. pose proof (type_defined_names _ _ Ht) as Hn.
    apply type_defined_get in Ht as [ty Hty]. rewrite Hty. cbn [ok_or obind].
    pose proof (measure_step s _ _ Hn Hin) as Hm. simpl in Hfuel.
    apply obind_returns_with; [|done].
    apply foldM_o_returns_with with (P := fun sp1 => sp_state sp1 = {[t]} ∪ sp_state sp); [done|..].
    + intros sp1 f Hf Hs. pose proof (wf_field_ok _ _ _ _ Hwf Hty Hf) as [Hok _].
      apply IH; [done|]. rewrite Hs. pose proof (ftype_ok_depth _ _ Hok). lia.
    + intros sp1 f sp2 _ Hs (Hs' & _)%collect_frame. congruence.
  - destruct x as [n|p|m]; try done. apply IH; [done|]. simpl in *. lia.
Qed.

(** [covered s R vis t]: every type found again below [t] on a path through
    [vis] is in [R]. *)
Definition covered (s : CompiledSchema) (R vis : gset string) (t : FieldType) : Prop :=
  exists fuel sp sp', collect_special_types fuel s t sp = Ok sp' /\
    sp_state sp = vis /\ sp_recursive sp' ⊆ R.

Lemma covered_seen s R vis t : covered s R vis (FTable t) -> t ∈ vis -> t ∈ R.
Proof.
  intros ([|fuel] & sp & sp' & Hr & <- & Hsub) Hin; [done|]. cbn in Hr.
  rewrite decide_True in Hr by done. injection Hr as <-. simpl in Hsub. set_solver.
Qed.

Lemma covered_set s R vis x : covered s R vis (FSet x) -> covered s R vis x.
Proof.
  intros ([|fuel] & sp & sp' & Hr & <- & Hsub); [done|]. cbn in Hr.
  eexists fuel, _, sp'. split; [exact Hr|]. split; [|done]. by destruct x.
Qed.

Lemma covered_fields s R vis t ty f :
  covered s R vis (FTable t) -> t ∉ vis -> bt_get t (types s) = Some ty ->
  f ∈ st_fields ty -> covered s R ({[t]} ∪ vis) f.2.1.
Proof.
  intros ([|fuel] & sp & sp' & Hr & <- & Hsub) Hin Hty Hf; [done|]. cbn in Hr.
  rewrite decide_False, Hty in Hr by done. cbn [ok_or obind] in Hr.
  apply obind_ok in Hr as (sp1 & Hfold & [= <-]). simpl in Hsub.
  apply list_elem_of_split in Hf as (l1 & l2 & Hl). rewrite Hl, foldM_o_app in Hfold.
  apply obind_ok in Hfold as (spa & Ha & Hfold). cbn [foldM_o] in Hfold.
  apply obind_ok in Hfold as (spb & Hb & Hc).
  assert (Hstate : sp_state spa = {[t]} ∪ sp_state sp).
  { eapply (foldM_o_inv _ (fun x => sp_state x = {[t]} ∪ sp_state sp)) in Ha; [exact Ha|done|].
    intros ? ? ? _ ? (E & _)%collect_frame. congruence. }
  assert (Hmono : sp_recursive spb ⊆ sp_recursive sp1).
  { eapply (foldM_o_inv _ (fun x => sp_recursive spb ⊆ sp_recursive x)) in Hc; [exact Hc|done|].
    intros ? ? ? _ ? (_ & E & _)%collect_frame. by etransitivity. }
  exists fuel, spa, spb. split_and!; [done|done|by etransitivity].
Qed.

(** ** Enough randomness *)
(** The clock stays below 2^48 milliseconds, and no candidate key comes back
    within [cap] draws. *)
Record entropy_ok (cap : nat) (ent : Entropy) : Prop := {
  ent_valid : forall i, is_Some (storage_key_of (ent i));
  ent_window : forall i j, i < j <= i + cap -> storage_key_of (ent i) <> storage_key_of (ent j)
}.

Lemma rand_loop_returns (ent : Entropy) (fuel hi : nat) (st : PlanState) (X : gset StorageKey)
  (P : PlannerError -> Prop) :
  (forall i, is_Some (storage_key_of (ent i))) ->
  (forall i j, draws st <= i < j -> j <= hi -> storage_key_of (ent i) <> storage_key_of (ent j)) ->
  X ⊆ used_storage_keys st ->
  (forall i k, draws st <= i <= hi -> storage_key_of (ent i) = Some k ->
     k ∈ used_storage_keys st -> k ∈ X) ->
  size X < fuel -> draws st + size X <= hi -> returns_with P (rand_loop fuel ent st).
Proof.
  intros Hv. revert st X. induction fuel as [|fuel IH]; intros st X Hi Hsub Hdraw Hsz Hhi; [lia|].
  cbn [rand_loop]. destruct (Hv (draws st)) as [k Hk]. rewrite Hk. cbn [unwrap obind].
  case_decide as Hin; [|done].
  assert (HkX : k ∈ X) by (eapply Hdraw; [|done..]; lia).
  assert (Hsize : size (X ∖ {[k]}) = size X - 1).
  { rewrite size_difference by set_solver. by rewrite size_singleton. }
  assert (Hpos : size X <> 0) by (intros E%size_empty_inv; set_solver).
  apply IH with (X ∖ {[k]}); simpl; try lia.
  - intros i j Hij Hj. apply Hi; lia.
  - set_solver.
  - intros i k' Hle Hk' Hu. apply elem_of_difference. split; [apply (Hdraw i); [lia|done..]|].
    rewrite elem_of_singleton. intros ->. apply (Hi (draws st) i); [lia|lia|congruence].
Qed.

Lemma key_or_rand_returns cap ent op st P :
  entropy_ok cap ent -> size (used_storage_keys st) <= cap -> returns_with P (key_or_rand ent op st).
Proof.
  intros [Hv Hw] Hsz. destruct op; [done|].
  apply rand_loop_returns with (draws st + size (used_storage_keys st)) (used_storage_keys st); auto.
  intros i j ? ?. apply Hw. lia.
Qed.

Lemma key_or_rand_size ent op st k st' :
  key_or_rand ent op st = Ok (k, st') ->
  size (used_storage_keys st') <= S (size (used_storage_keys st)).
Proof.
  intros [_ Hk]%key_or_rand_spec. destruct op as [q|].
  - destruct Hk as [_ ->]. lia.
  - destruct Hk as (_ & -> & _). rewrite size_union_alt, size_singleton.
    pose proof (subseteq_size (used_storage_keys st ∖ {[k]}) (used_storage_keys st) ltac:(set_solver)). lia.
Qed.

(** An upper bound of the number of nodes, and so of the keys, of a type. *)
Fixpoint node_bound (fuel : nat) (s : CompiledSchema) (t : FieldType) : nat :=
  match fuel with
  | O => 0
  | S fuel =>
      match t with
      | FTable n =>
          match bt_get n (types s) with
          | Some ty => S (sum_list_with (fun f => node_bound fuel s f.2.1) (st_fields ty))
          | None => 1
          end
      | FPrimitive _ => 1
      | FSet x => S (node_bound fuel s x)
      end
  end.

Definition plan_bound (fuel : nat) (old_plan : Plan) (s : CompiledSchema) : nat :=
  size (old_plan_keys old_plan) + sum_list_with (fun e => node_bound fuel s e.2) (exports s).

(** A loop whose turns each use up a part of a budget. *)
Lemma foldM_budget {E A S} (f : S -> A -> outcome E S) (cost : A -> nat) (sz : S -> nat)
    (P : S -> Prop) (Q : E -> Prop) (l : list A) (s : S) (cap : nat) :
  P s -> sz s + sum_list_with cost l <= cap ->
  (forall s x, x ∈ l -> P s -> sz s + cost x <= cap -> returns_with Q (f s x)) ->
  (forall s x s', x ∈ l -> P s -> f s x = Ok s' -> P s' /\ sz s' <= sz s + cost x) ->
  returns_with Q (foldM_o f s l).
Proof.
  revert s. induction l as [|x l IH]; intros s Hs Hb Hr Hstep; [done|]. simpl in *.
  apply obind_returns_with; [apply Hr; [left|done|lia]|]. intros s' Hs'.
  destruct (Hstep s x s') as [Hp Hz]; [left|done|done|]. apply IH; [done|lia| |].
  - intros; apply Hr; [by right|done|done].
  - intros; eapply Hstep; [by right|done|done].
Qed.

Lemma foldM_budget_ok {E A S} (f : S -> A -> outcome E S) (cost : A -> nat) (sz : S -> nat)
    (l : list A) (s s' : S) :
  (forall s x s', x ∈ l -> f s x = Ok s' -> sz s' <= sz s + cost x) ->
  foldM_o f s l = Ok s' -> sz s' <= sz s + sum_list_with cost l.
Proof.
  revert s. induction l as [|x l IH]; intros s Hstep Hr; simpl in *; [injection Hr as <-; lia|].
  apply obind_ok in Hr as (s1 & H1 & H2). apply IH in H2; [|intros; eapply Hstep; [by right|done]].
  apply Hstep in H1; [lia|left].
Qed.

Lemma generate_field_size fuel ent os s st t anns op n st' :
  generate_field fuel ent os s st t anns op = Ok (n, st') ->
  size (used_storage_keys st') <= size (used_storage_keys st) + node_bound fuel s t.
Proof.
  revert st t anns op n st'. induction fuel as [|fuel IH]; intros st t anns op n st' Hr; [done|].
  destruct t as [t|p|x]; cbn [generate_field node_bound] in *.
  - destruct (fields_in_stack st !! t) as [k|].
    { apply obind_ok in Hr as ([k1 st1] & Hk & [= <- <-]). apply key_or_rand_size in Hk.
      destruct (bt_get t (types s)); lia. }
    apply obind_ok in Hr as (ty & Hty%ok_or_ok & Hr). rewrite Hty.
    apply obind_ok in Hr as ([k st1] & Hk & Hr). apply key_or_rand_size in Hk.
    fold (push_stack st1 t k) in Hr. apply obind_ok in Hr as ([[cs b] st2] & Hfold & Hr).
    assert (Hu : used_storage_keys st' = used_storage_keys st2).
    { case_decide; [done|]. injection Hr as <- <-. by destruct (bool_decide _). }
    apply (foldM_budget_ok _ (fun f => node_bound fuel s f.2.1) (fun a => size (used_storage_keys a.2))) in Hfold.
    + simpl in Hfold. destruct (push_stack_frame st1 t k) as (_ & _ & _ & E). rewrite E in Hfold. rewrite Hu. lia.
    + intros [[cs1 b1] st3] [name [fty anns']] [[cs2 b2] st4] _ Hx. simpl in *.
      apply obind_ok in Hx as ([y st5] & Hx & [= <- <- <-]). by apply IH in Hx.
  - apply obind_ok in Hr as ([k1 st1] & Hk & [= <- <-]). apply key_or_rand_size in Hk. lia.
  - apply obind_ok in Hr as ([inner st1] & Hi & Hr). apply IH in Hi.
    apply obind_ok in Hr as ([k1 st2] & Hk & [= <- <-]). apply key_or_rand_size in Hk. lia.
Qed.

(** ** Totality *)
Definition missing_primary_key (e : PlannerError) : Prop :=
  match e with SetMemberTypeWithoutPrimaryKey _ => True | PMissingType _ => False end.

(** The stack holds the recursive types of the path and nothing else. *)
Definition stack_matches (st : PlanState) (vis : gset string) : Prop :=
  forall x, is_Some (fields_in_stack st !! x) <-> x ∈ vis /\ x ∈ recursive_types st.

Lemma stack_matches_frame st st' vis :
  st_frame st st' -> stack_matches st vis -> stack_matches st' vis.
Proof. intros [H1 H2 _ _] H x. rewrite H1, H2. apply H. Qed.

Lemma stack_matches_push st vis t k :
  stack_matches st vis -> stack_matches (push_stack st t k) ({[t]} ∪ vis).
Proof.
  unfold stack_matches. intros H x. destruct (push_stack_frame st t k) as (-> & -> & _).
  unfold push_key. case_bool_decide as Hrec.
  - rewrite lookup_insert_is_Some, H. destruct (decide (t = x)) as [->|]; set_solver.
  - rewrite H. split; [set_solver|]. intros [Hx Hr]. split; [|done].
    apply elem_of_union in Hx as [Hx|]; [|done]. apply elem_of_singleton in Hx as ->. done.
Qed.

Lemma generate_field_returns cap fuel ent os s st t anns op vis :
  wf_schema s -> entropy_ok cap ent -> ftype_ok (types s) t ->
  covered s (recursive_types st) vis t -> stack_matches st vis ->
  tdepth t + 2 * size (type_names s ∖ vis) <= fuel ->
  size (used_storage_keys st) + node_bound fuel s t <= cap ->
  returns_with missing_primary_key (generate_field fuel ent os s st t anns op).
Proof.
  intros Hwf He. pose proof (wf_schema_sorted _ Hwf) as Hss. revert st t anns op vis.
  induction fuel as [|fuel IH]; intros st t anns op vis Ht Hcov Hstk Hfuel Hcap.
  { destruct t; simpl in Hfuel; lia. }
  assert (Hkey : forall op', returns_with missing_primary_key (key_or_rand ent op' st)).
  { intros op'. eapply key_or_rand_returns; [done|lia]. }
  destruct t as [t|p|x]; cbn [generate_field node_bound] in *.
  - destruct (fields_in_stack st !! t) as [k|] eqn:Hlk.
    { apply obind_returns_with; [done|]. by intros [] _. }
    assert (Hvis : t ∉ vis).
    { intros Hin. assert (is_Some (fields_in_stack st !! t)) as [k Hk]; [|congruence].
      apply Hstk. split; [done|]. by eapply covered_seen. }
    pose proof (type_defined_names _ _ Ht) as Hn.
    apply type_defined_get in Ht as [ty Hty]. rewrite Hty in Hcap |- *. cbn [ok_or obind].
    apply obind_returns_with; [done|]. intros [k st1] Hk. pose proof (key_or_rand_size _ _ _ _ _ Hk) as Hsz1.
    apply key_or_rand_spec in Hk as [Hfr _].
    pose proof (measure_step s _ _ Hn Hvis) as Hm. simpl in Hfuel.
    fold (push_stack st1 t k). apply obind_returns_with; [|intros [[cs b] st2] _; by case_decide].
    destruct (push_stack_frame st1 t k) as (_ & Hrec1 & _ & Hused1).
    apply (foldM_budget _ (fun f => node_bound fuel s f.2.1) (fun a => size (used_storage_keys a.2))
             (fun a => st_frame (push_stack st1 t k) a.2) _ _ _ cap).
    + reflexivity.
    + simpl. rewrite Hused1. lia.
    + intros [[cs b] st2] [name [fty anns']] Hf Hfr2 Hb. unfold generate_subfield. simpl in Hfr2, Hb.
      apply obind_returns_with; [|by intros [] _].
      pose proof (wf_field_ok _ _ _ _ Hwf Hty Hf) as [Hok _]. simpl in Hok.
      apply (IH _ _ _ _ ({[t]} ∪ vis)); [done| | | |lia].
      * destruct Hfr2 as [_ E _ _]. rewrite E, Hrec1. destruct Hfr as [_ -> _ _].
        by apply (covered_fields s _ vis t ty (name, (fty, anns'))).
      * eapply stack_matches_frame; [exact Hfr2|]. apply stack_matches_push. by eapply stack_matches_frame.
      * pose proof (ftype_ok_depth _ _ Hok). lia.
    + intros [[cs b] st2] [name [fty anns']] [[cs' b'] st3] Hf Hfr2 Hx. simpl in *.
      apply obind_ok in Hx as ([y st4] & Hx & [= <- <- <-]). split.
      * etransitivity; [exact Hfr2|]. by eapply generate_field_frame.
      * by eapply generate_field_size.
  - apply obind_returns_with; [done|]. by intros [] _.
  - apply covered_set in Hcov. simpl in Hfuel. apply obind_returns_with.
    + apply (IH _ _ _ _ vis); [by destruct x|done|done| |lia]. destruct x; simpl in *; [lia|lia|done].
    + intros [inner st1] Hi. apply generate_field_size in Hi.
      apply obind_returns_with; [eapply key_or_rand_returns; [done|lia]|]. by intros [] _.
Qed.

Lemma size_type_names s : size (type_names s) <= length (types s).
Proof.
  unfold type_names. rewrite <- (length_fmap fst). generalize ((types s).*1) as l. clear.
  induction l as [|x l IH]; [by rewrite list_to_set_nil, size_empty|].
  rewrite list_to_set_cons. simpl. rewrite size_union_alt, size_singleton.
  assert (size ((list_to_set l : gset string) ∖ {[x]}) <= size (list_to_set l : gset string))
    by (apply subseteq_size; set_solver). lia.
Qed.

(** ** Whole plans *)
Section Exports.
Context (fuel : nat) (ent : Entropy) (old_plan : Plan) (os s : CompiledSchema).

Inductive export_chain : PlanState -> list (string * FieldType) -> list (string * Node) ->
  PlanState -> Prop :=
| ec_nil st : export_chain st [] [] st
| ec_cons st name t x st1 es new st2 :
    generate_field fuel ent os s st t [] (export_old_point old_plan os name t) = Ok (x, st1) ->
    export_chain st1 es new st2 ->
    export_chain st ((name, t) :: es) ((name, x) :: new) st2.

Lemma fold_exports ns st es ns' st' :
  bt_sorted es -> (forall c e, c ∈ ns -> e ∈ es -> cmp c.1 e.1 = Lt) ->
  foldM_o (generate_export fuel ent old_plan os s) (ns, st) es = Ok (ns', st') ->
  exists new, ns' = ns ++ new /\ export_chain st es new st'.
Proof.
  revert ns st. induction es as [|[name t] es IH]; intros ns st Hs Hb Hr.
  - injection Hr as <- <-. exists []. rewrite app_nil_r. split; [done|constructor].
  - cbn [foldM_o generate_export fst snd] in Hr.
    apply obind_ok in Hr as ([ns1 st1] & Hx & Hr).
    apply obind_ok in Hx as ([x st1'] & Hx & [= <- <-]).
    apply bt_sorted_cons in Hs as [Hs Hlt].
    rewrite bt_insert_last in Hr
      by (apply Forall_forall; intros c Hc; apply (Hb c (name, t)); [done|left]).
    apply IH in Hr as (new & -> & Hc); [|done|].
    + exists ((name, x) :: new). split; [by rewrite <- app_assoc|by econstructor].
    + intros c e [Hc|Hc]%elem_of_app He; [apply Hb; [done|by right]|].
      apply list_elem_of_singleton in Hc as ->. rewrite Forall_forall in Hlt. by apply Hlt.
Qed.

Lemma exports_fold ns st es new st' :
  bt_sorted es -> (forall c e, c ∈ ns -> e ∈ es -> cmp c.1 e.1 = Lt) ->
  export_chain st es new st' ->
  foldM_o (generate_export fuel ent old_plan os s) (ns, st) es = Ok (ns ++ new, st').
Proof.
  intros Hs Hb Hc. revert ns Hs Hb. induction Hc as [|st name t x st1 es new st2 Hx Hc IH];
    intros ns Hs Hb; [simpl; by rewrite app_nil_r|].
  cbn [foldM_o generate_export fst snd]. rewrite Hx. cbn [obind].
  apply bt_sorted_cons in Hs as [Hs Hlt].
  rewrite bt_insert_last
    by (apply Forall_forall; intros c Hc'; apply (Hb c (name, t)); [done|left]).
  rewrite IH; [by rewrite <- app_assoc|done|].
  intros c e [Hc'|Hc']%elem_of_app He; [apply Hb; [done|by right]|].
  apply list_elem_of_singleton in Hc' as ->. rewrite Forall_forall in Hlt. by apply Hlt.
Qed.

Lemma export_chain_frame st es new st' :
  schema_sorted s -> export_chain st es new st' -> st_frame st st'.
Proof.
  intros Hss. induction 1 as [|st name t x st1 es new st2 Hx Hc IH]; [reflexivity|].
  etransitivity; [by eapply generate_field_frame|exact IH].
Qed.

Lemma export_chain_keys st es new st' : export_chain st es new st' -> new.*1 = es.*1.
Proof. induction 1; simpl; [done|by f_equal]. Qed.
End Exports.

(** The steps of a successful run. *)
Lemma generate_plan_inv fuel ent old os s p d :
  wf_schema s -> generate_plan fuel ent old os s = Ok (p, d) ->
  exists rec sm st',
    collect_exports fuel s = Ok (rec, sm) /\
    export_chain fuel ent old os s (MkPlanState (old_plan_keys old) rec sm ∅ 0)
      (exports s) (nodes p) st' /\ d = draws st'.
Proof.
  intros Hwf Hr. apply obind_ok in Hr as ([rec sm] & Hc & Hr).
  apply obind_ok in Hr as ([ns st'] & Hf & [= <- <-]).
  apply fold_exports in Hf as (new & -> & Hch); [|by apply wf_exports_sorted
    |by intros ? ? ?%elem_of_nil]. by exists rec, sm, st'.
Qed.

Lemma export_chain_conforms fuel ent old os s st es new st' :
  schema_sorted s -> export_chain fuel ent old os s st es new st' ->
  Forall2 (fun e n => e.1 = n.1 /\
    node_for s (recursive_types st) (fields_in_stack st) e.2 n.2) es new.
Proof.
  intros Hss. induction 1 as [|st name t x st1 es new st2 Hx Hc IH]; constructor.
  - split; [done|]. by eapply generate_field_conforms.
  - apply generate_field_frame in Hx as [<- <- _ _]; [|done]. exact IH.
Qed.

Lemma export_chain_fresh fuel ent os s st es new st' :
  schema_sorted s -> export_chain fuel ent empty_plan os s st es new st' ->
  fresh_between st st' (flat_map (fun p => node_keys p.2) new).
Proof.
  intros Hss. induction 1 as [|st name t x st1 es new st2 Hx Hc IH]; [apply fresh_nil|].
  assert (export_old_point empty_plan os name t = None) as E
    by (unfold export_old_point; simpl; by destruct (bt_get name (exports os))).
  rewrite E in Hx. apply fresh_app with st1; [..|done].
  - by eapply fr_used, generate_field_frame.
  - by eapply fr_used, export_chain_frame.
  - by eapply generate_field_fresh.
Qed.

Lemma export_chain_replay fuel ent ent' old os s p st es new st' st2 :
  schema_sorted s -> export_chain fuel ent old os s st es new st' ->
  (forall n t, (n, t) ∈ es -> bt_get n (exports s) = Some t) ->
  (forall n x, (n, x) ∈ new -> bt_get n (nodes p) = Some x) ->
  fields_in_stack st2 = fields_in_stack st ->
  recursive_types st2 = recursive_types st ->
  set_member_types st2 = set_member_types st ->
  export_chain fuel ent' p s s st2 es new st2.
Proof.
  intros Hss Hc. revert st2.
  induction Hc as [|st name t x st1 es new st3 Hx Hc IH]; intros st2 Hes Hnew H1 H2 H3.
  - constructor.
  - apply ec_cons with st2.
    + unfold export_old_point. rewrite (Hes name t), (Hnew name x) by left. simpl.
      unfold validate_type. rewrite decide_False by auto.
      by eapply (generate_field_replays fuel ent ent' os s Hss).
    + apply generate_field_frame in Hx as [Hf1 Hf2 Hf3 _]; [|done].
      apply IH; try congruence; intros; [apply Hes|apply Hnew]; by right.
Qed.

Lemma generate_plan_stable fuel ent ent' old os s p d :
  wf_schema s -> generate_plan fuel ent old os s = Ok (p, d) ->
  generate_plan fuel ent' p s s = Ok (p, 0).
Proof.
  intros Hwf Hr. destruct (generate_plan_inv _ _ _ _ _ _ _ Hwf Hr) as (rec & sm & st' & Hc & Hch & _).
  pose proof (wf_schema_sorted _ Hwf) as Hss. pose proof (wf_exports_sorted _ Hwf) as Hse.
  set (st2 := MkPlanState (old_plan_keys p) rec sm ∅ 0).
  unfold generate_plan. rewrite Hc. cbn [obind]. fold st2.
  rewrite (exports_fold fuel ent' p s s [] st2 (exports s) (nodes p) st2); [|done| |].
  - by destruct p.
  - by intros ? ? ?%elem_of_nil.
  - eapply export_chain_replay; [done|exact Hch|..]; try done.
    + intros n t Hin. by apply bt_elem_get.
    + intros n x Hin. apply bt_elem_get; [|done].
      eapply bt_sorted_same_keys; [|exact Hse]. symmetry. by eapply export_chain_keys.
Qed.

Lemma collect_exports_covers fuel s rec sm e :
  collect_exports fuel s = Ok (rec, sm) -> e ∈ exports s -> covered s rec ∅ e.2.
Proof.
  intros Hr Hin. unfold collect_exports in Hr.
  apply list_elem_of_split in Hin as (l1 & l2 & Hl). rewrite Hl, foldM_o_app in Hr.
  apply obind_ok in Hr as ([ra sa] & _ & Hr). cbn [foldM_o] in Hr.
  apply obind_ok in Hr as ([rb sb] & Hx & Hr).
  apply obind_ok in Hx as (sp & Hx & [= <- <-]).
  exists fuel, (MkSpecialTypes ∅ ra sa), sp. split_and!; [done|done|].
  eapply (foldM_o_inv _ (fun x => sp_recursive sp ⊆ x.1)) in Hr; [exact Hr|done|].
  intros [r1 s1] e' [r2 s2] _ Hs He. simpl in *.
  apply obind_ok in He as (sp2 & He & [= <- <-]).
  apply collect_frame in He as (_ & He & _). simpl in He. by etransitivity.
Qed.

Lemma generate_plan_returns fuel ent old os s :
  wf_schema s -> entropy_ok (plan_bound fuel old s) ent -> plan_fuel s <= fuel ->
  returns_with missing_primary_key (generate_plan fuel ent old os s).
Proof.
  intros Hwf He Hfuel. unfold generate_plan. pose proof (wf_schema_sorted _ Hwf) as Hss.
  pose proof (size_type_names s) as Hsz. unfold plan_fuel in Hfuel.
  assert (Hexp : forall e, e ∈ exports s -> ftype_ok (types s) e.2).
  { intros e Hin. pose proof (wf_exports _ Hwf) as Hf. rewrite Forall_forall in Hf. by apply Hf. }
  assert (Hbound : forall t, ftype_ok (types s) t -> tdepth t + 2 * size (type_names s ∖ ∅) <= fuel).
  { intros t Ht. apply ftype_ok_depth in Ht. rewrite difference_empty_L. lia. }
  apply obind_returns_with.
  - unfold collect_exports. apply foldM_o_returns_with with (P := fun _ => True); [done| |done].
    intros [r0 m0] e Hin _. apply obind_returns_with; [|done].
    pose proof (collect_returns fuel s e.2 (MkSpecialTypes ∅ r0 m0) Hwf (Hexp e Hin)
      (Hbound _ (Hexp e Hin))) as Hc.
    by destruct (collect_special_types _ _ _ _).
  - intros [rec sm] Hc. apply obind_returns_with; [|by intros [] _].
    set (st0 := MkPlanState (old_plan_keys old) rec sm ∅ 0).
    apply (foldM_budget _ (fun e => node_bound fuel s e.2) (fun a => size (used_storage_keys a.2))
             (fun a => st_frame st0 a.2) _ _ _ (plan_bound fuel old s)).
    + reflexivity.
    + done.
    + intros [ns st] e Hin Hfr Hb. apply obind_returns_with; [|by intros [] _]. simpl in Hfr, Hb.
      apply (generate_field_returns (plan_bound fuel old s) _ _ _ _ _ _ _ _ ∅);
        [done|done|by apply Hexp| | | |done].
      * destruct Hfr as [_ -> _ _]. by eapply collect_exports_covers.
      * eapply stack_matches_frame; [exact Hfr|]. intros x. simpl. rewrite lookup_empty.
        split; [by intros []|set_solver].
      * by apply Hbound, Hexp.
    + intros [ns st] e [ns' st'] Hin Hfr Hx. simpl in *.
      apply obind_ok in Hx as ([n st1] & Hx & [= <- <-]). split.
      * etransitivity; [exact Hfr|]. by eapply generate_field_frame.
      * by eapply generate_field_size.
Qed.

(** A generated plan has a node per export, which conforms to its type. *)
Lemma generated_plan_conforms fuel ent old os s p d :
  wf_schema s -> generate_plan fuel ent old os s = Ok (p, d) ->
  exists rec, Forall2 (fun e n => e.1 = n.1 /\ node_for s rec ∅ e.2 n.2) (exports s) (nodes p).
Proof.
  intros Hwf Hg. destruct (generate_plan_inv _ _ _ _ _ _ _ Hwf Hg) as (rec & sm & st' & _ & Hc & _).
  exists rec. exact (export_chain_conforms _ _ _ _ _ _ _ _ _ (wf_schema_sorted _ Hwf) Hc).
Qed.

(** ** Lengths of keys *)
(** If the old plan has keys of the right length, so has the new one: its keys are
    the old tree's, draws, or references to keys of the enclosing tables. *)
Definition point_ok (op : option OldTreePoint) : Prop := forall p, op = Some p -> node_all key_ok (op_node p).
Definition stack_ok (st : PlanState) : Prop := forall t k, fields_in_stack st !! t = Some k -> key_ok k.

Lemma validate_type_ok p t : node_all key_ok (op_node p) -> point_ok (validate_type p t).
Proof. intros Hp q. unfold validate_type. case_decide; [done|]. by intros [= <-]. Qed.

Lemma find_child_elem names c x y : find_child names c = Some (x, y) -> (x, y) ∈ c.
Proof.
  induction names as [|n names IH]; simpl; [done|]. destruct (bt_get n c) eqn:E; [|done].
  intros [= <- <-]. by apply bt_get_elem.
Qed.

Lemma subfield_old_point_ok os op name f : point_ok op -> point_ok (subfield_old_point os op name f).
Proof.
  intros Ho q Hq. unfold subfield_old_point in Hq. apply bind_Some in Hq as (p & Hp & Hq).
  apply bind_Some in Hq as (p' & Hp' & Hq). revert q Hq. apply validate_type_ok.
  specialize (Ho p Hp). rewrite node_all_children in Ho. destruct Ho as (_ & _ & _ & Hc).
  unfold resolve_subfield in Hp'. destruct (find_child _ _) as [[n c]|] eqn:Hf; [|done]. apply find_child_elem in Hf.
  repeat case_match; try done. injection Hp' as <-. simpl. rewrite Forall_forall in Hc. exact (Hc _ Hf).
Qed.

Lemma inner_old_point_ok op x : point_ok op -> point_ok (inner_old_point op x).
Proof.
  intros Ho q Hq. unfold inner_old_point in Hq. apply bind_Some in Hq as (p & Hp & Hq).
  apply bind_Some in Hq as (p' & Hp' & Hq). revert q Hq. apply validate_type_ok.
  specialize (Ho p Hp). rewrite node_all_children in Ho. destruct Ho as (_ & _ & Hs & _).
  unfold reduce_set in Hp'. repeat case_match; try done. injection Hp' as <-. simpl. by apply Hs.
Qed.

Lemma key_or_rand_ok ent op st k st' : point_ok op -> key_or_rand ent op st = Ok (k, st') -> key_ok k.
Proof.
  intros Ho [_ Hk]%key_or_rand_spec. destruct op as [p|]; [|by destruct Hk as (_ & _ & ?)].
  destruct Hk as [-> _]. specialize (Ho p eq_refl). rewrite node_all_children in Ho. by destruct Ho.
Qed.

Lemma stack_ok_frame st st' : st_frame st st' -> stack_ok st -> stack_ok st'.
Proof. intros [Hf _ _ _] Hs t k. rewrite Hf. apply Hs. Qed.

Lemma chain_keys_ok fuel ent os s op st fs new st' :
  schema_sorted s ->
  (forall st t a o n st', generate_field fuel ent os s st t a o = Ok (n, st') -> point_ok o -> stack_ok st -> node_all key_ok n) ->
  field_chain (generate_field fuel ent os s) os op st fs new st' -> point_ok op -> stack_ok st ->
  Forall (fun p => node_all key_ok p.2) new.
Proof.
  intros Hss Hrec Hc Ho. induction Hc as [|st name f x st1 fs new st2 Hx Hc IH]; intros Hs; constructor.
  - eapply Hrec; [exact Hx|by apply subfield_old_point_ok|done].
  - apply IH. eapply stack_ok_frame; [by eapply generate_field_frame|done].
Qed.

Lemma generate_field_keys_ok fuel ent os s st t anns op n st' :
  schema_sorted s -> generate_field fuel ent os s st t anns op = Ok (n, st') -> point_ok op -> stack_ok st ->
  node_all key_ok n.
Proof.
  intros Hss. revert st t anns op n st'.
  induction fuel as [|fuel IH]; intros st t anns op n st' Hr Ho Hs; [done|].
  apply generate_field_inv in Hr; [|done].
  destruct Hr as [t k k' st' Hst Hk|t ty k st1 new st2 Hst Hty Hk Hc Hd|p k st' Hk|x inner st1 k st' Hi Hk];
    pose proof (key_or_rand_ok _ _ _ _ _ Ho Hk) as Hkk; rewrite node_all_children; cbn [key subspace_reference node_set children].
  - split_and!; [done|intros k0 [= <-]; by eapply Hs|done|constructor].
  - split_and!; [done..|]. eapply chain_keys_ok; [done|exact IH|exact Hc|done|].
    apply key_or_rand_spec in Hk as [Hfr _]. pose proof (stack_ok_frame _ _ Hfr Hs) as Hs1.
    intros u k'. unfold push_stack. case_bool_decide; [|apply Hs1]. cbn. intros [[_ <-]|[_ Hu]]%lookup_insert_Some; [done|].
    by eapply Hs1.
  - split_and!; [done..|constructor].
  - split_and!; [done..| |constructor]. intros m [= <-]. eapply IH; [exact Hi|by apply inner_old_point_ok|done].
Qed.

Lemma generate_plan_keys_ok fuel ent old os s p d :
  wf_schema s -> generate_plan fuel ent old os s = Ok (p, d) -> Forall (fun q => node_all key_ok q.2) (nodes old) ->
  Forall (fun q => node_all key_ok q.2) (nodes p).
Proof.
  intros Hwf Hg Hold. pose proof (wf_schema_sorted _ Hwf) as Hss.
  destruct (generate_plan_inv _ _ _ _ _ _ _ Hwf Hg) as (rec & sm & st' & _ & Hc & _).
  assert (Hs : stack_ok (MkPlanState (old_plan_keys old) rec sm ∅ 0)) by (intros t k Hk; cbn [fields_in_stack] in Hk; by rewrite lookup_empty in Hk).
  revert Hc Hs. generalize (MkPlanState (old_plan_keys old) rec sm ∅ 0). intros st Hc.
  induction Hc as [|st name t x st1 es new st2 Hx Hc IH]; intros Hs; constructor.
  - eapply generate_field_keys_ok; [done|exact Hx| |done]. intros q Hq.
    unfold export_old_point in Hq. apply bind_Some in Hq as (ty & _ & Hq). apply bind_Some in Hq as (n & Hn & Hq).
    revert q Hq. apply validate_type_ok. apply bt_get_elem in Hn. rewrite Forall_forall in Hold. exact (Hold _ Hn).
  - apply IH. eapply stack_ok_frame; [by eapply generate_field_frame|done].
Qed.
