(* ===== verification/Value.v ===== *)
(** * Primitive values: [rdb-analyzer/src/data/value.rs]

    The values of fields and their encoding as key components. The encoding is
    injective and preserves the order of each type, so that scanning a set by
    key visits its members in primary-key order. *)
From stdpp Require Import prelude gmap strings list.
From Stdlib Require Import Strings.Byte ZArith.
From S2P Require Import Prelude Schema.
Local Open Scope Z_scope.

Inductive PrimitiveValue :=
| VString (s : string)
| VBytes (b : bytes)
| VInt64 (z : Z)
| VDouble (bits : Z).

#[export] Instance PrimitiveValue_eq_dec : EqDecision PrimitiveValue.
Proof. solve_decision. Defined.

(** Integers of the right width. *)
Definition prim_ok (v : PrimitiveValue) : Prop :=
  match v with
  | VInt64 z => is_i64 z
  | VDouble z => is_u64 z
  | _ => True
  end.

Definition TOP_BIT : Z := Z.shiftl 1 63.

Definition get_type (v : PrimitiveValue) : PrimitiveType :=
  match v with
  | VBytes _ => Bytes_
  | VString _ => String_
  | VInt64 _ => Int64
  | VDouble _ => Double
  end.

(** [unwrap_string] panics on anything but a string. *)
Definition unwrap_string {E} (v : PrimitiveValue) : outcome E string :=
  match v with VString x => Ok x | _ => Panic end.

(** A zero byte becomes [00 ff]. *)
Definition escape_byte (x : byte) : bytes :=
  if decide (x = Byte.x00) then [Byte.x00; Byte.xff] else [x].

(** [!x] on [u64]. *)
Definition u64_not (x : Z) : Z := 2 ^ 64 - 1 - x.

Definition serialize_for_key_component (v : PrimitiveValue) : bytes :=
  match v with
  | VBytes x => Byte.x01 :: flat_map escape_byte x ++ [Byte.x00]
  | VString x => Byte.x02 :: as_bytes x
  | VInt64 x => Byte.x03 :: be_bytes 8 (Z.lxor (u64_wrap x) TOP_BIT)
  | VDouble x =>
      Byte.x04 :: be_bytes 8
        (if decide (Z.land x TOP_BIT <> 0) then u64_not x else Z.lxor x TOP_BIT)
  end.

Definition default_value_for_type (ty : PrimitiveType) : PrimitiveValue :=
  match ty with
  | Bytes_ => VBytes []
  | String_ => VString ""
  | Int64 => VInt64 0
  | Double => VDouble 0
  end.

(** ** Bit operations on the top bit *)
Lemma testbit_top n : Z.testbit (2 ^ 63) n = true -> n = 63.
Proof.
  intros H. destruct (Z.eq_dec 63 n) as [|E]; [done|].
  destruct (Z.le_gt_cases 0 n); [|rewrite Z.testbit_neg_r in H by lia; done].
  rewrite (Z.pow2_bits_false 63 n) in H by done. done.
Qed.

Lemma land_top_low x : 0 <= x < 2 ^ 63 -> Z.land x (2 ^ 63) = 0.
Proof.
  intros Hx. apply Z.bits_inj_0. intros n. rewrite Z.land_spec.
  destruct (Z.testbit (2 ^ 63) n) eqn:E; [|by rewrite andb_false_r].
  apply testbit_top in E as ->. rewrite andb_true_r.
  destruct (Z.eq_dec x 0) as [->|]; [by rewrite Z.bits_0|].
  apply Z.bits_above_log2; [lia|]. apply Z.log2_lt_pow2; lia.
Qed.

Lemma lxor_top_low x : 0 <= x < 2 ^ 63 -> Z.lxor x TOP_BIT = x + 2 ^ 63.
Proof.
  intros Hx. change TOP_BIT with (2 ^ 63). symmetry.
  apply Z.add_nocarry_lxor. by apply land_top_low.
Qed.

Lemma lxor_top_high x : 2 ^ 63 <= x < 2 ^ 64 -> Z.lxor x TOP_BIT = x - 2 ^ 63.
Proof.
  intros Hx. assert (E : x = Z.lxor (x - 2 ^ 63) TOP_BIT).
  { rewrite lxor_top_low by lia. lia. }
  rewrite E at 1. rewrite Z.lxor_assoc, Z.lxor_nilpotent, Z.lxor_0_r. done.
Qed.

Lemma land_top x : 0 <= x < 2 ^ 64 -> Z.land x TOP_BIT <> 0 <-> 2 ^ 63 <= x.
Proof.
  intros Hx. change TOP_BIT with (2 ^ 63). split.
  - intros Hne. destruct (Z.le_gt_cases (2 ^ 63) x); [done|].
    destruct Hne. apply land_top_low. lia.
  - intros Hle E. apply (f_equal (fun z => Z.testbit z 63)) in E.
    rewrite Z.land_spec, Z.bits_0, Z.pow2_bits_true, andb_true_r in E by lia.
    assert (Z.testbit x 63 = true); [|congruence].
    assert (Z.log2 x = 63) as <-; [apply Z.log2_unique; lia|]. apply Z.bit_log2. lia.
Qed.

(** The word whose big-endian bytes encode a signed integer: its offset. *)
Lemma int64_key z : is_i64 z -> Z.lxor (u64_wrap z) TOP_BIT = z + 2 ^ 63.
Proof.
  unfold is_i64, u64_wrap. intros Hz. destruct (Z.le_gt_cases 0 z).
  - rewrite Z.mod_small by lia. by rewrite lxor_top_low by lia.
  - rewrite <- (Z.mod_unique z (2 ^ 64) (-1) (z + 2 ^ 64)) by lia.
    rewrite lxor_top_high by lia. lia.
Qed.

(** The word that encodes a double: sign-magnitude made monotone. *)
Definition double_word (x : Z) : Z := if decide (2 ^ 63 <= x) then 2 ^ 64 - 1 - x else x + 2 ^ 63.

Lemma double_key x :
  is_u64 x ->
  (if decide (Z.land x TOP_BIT <> 0) then u64_not x else Z.lxor x TOP_BIT) = double_word x.
Proof.
  unfold is_u64, double_word, u64_not. intros Hx. pose proof (land_top x Hx) as Ht.
  repeat case_decide; try tauto. apply lxor_top_low. lia.
Qed.

Lemma double_word_range x : is_u64 x -> 0 <= double_word x < 2 ^ (8 * Z.of_nat 8).
Proof.
  unfold is_u64, double_word. change (8 * Z.of_nat 8) with 64. intros. case_decide; lia.
Qed.

Lemma int64_word_range z : is_i64 z -> 0 <= z + 2 ^ 63 < 2 ^ (8 * Z.of_nat 8).
Proof. unfold is_i64. change (8 * Z.of_nat 8) with 64. lia. Qed.

(** ** Escaped bytes *)

Lemma cmp_x00_lt (b : byte) : b <> Byte.x00 -> cmp Byte.x00 b = Lt.
Proof.
  intros Hb. rewrite cmp_u8. apply Z.compare_lt_iff. pose proof (u8_range b).
  assert (u8 b <> u8 Byte.x00); [|change (u8 Byte.x00) with 0 in *; lia].
  intros E. apply Hb. apply (cmp_eq b Byte.x00). rewrite cmp_u8. by apply Z.compare_eq_iff.
Qed.

Lemma escape_cons_ne a b x y :
  a <> b ->
  lex_cmp (flat_map escape_byte (a :: x) ++ [Byte.x00]) (flat_map escape_byte (b :: y) ++ [Byte.x00])
  = cmp a b.
Proof.
  intros Hne. simpl. unfold escape_byte at 1 3. repeat case_decide; subst; try done; simpl.
  - by rewrite cmp_x00_lt.
  - assert (cmp a Byte.x00 = Gt) as -> by (apply cmp_gt_lt; by apply cmp_x00_lt). done.
  - destruct (cmp a b) eqn:E; [|done..]. by apply cmp_eq in E.
Qed.

(** Escaping and terminating preserves the order of byte strings. *)
Lemma escape_cmp x y :
  lex_cmp (flat_map escape_byte x ++ [Byte.x00]) (flat_map escape_byte y ++ [Byte.x00])
  = lex_cmp x y.
Proof.
  revert y. induction x as [|a x IH]; intros [|b y]; [done|..].
  - simpl. unfold escape_byte. case_decide; subst; simpl; [done|]. by rewrite cmp_x00_lt.
  - simpl. unfold escape_byte. case_decide; subst; simpl; [done|].
    assert (cmp a Byte.x00 = Gt) as -> by (apply cmp_gt_lt; by apply cmp_x00_lt). done.
  - destruct (decide (a = b)) as [->|Hne].
    + simpl. rewrite <- !app_assoc, lex_app_prefix, (cmp_refl b). apply IH.
    + rewrite escape_cons_ne by done. simpl. destruct (cmp a b) eqn:E; [|done..].
      by apply cmp_eq in E.
Qed.

(** ** Order *)
(** The order of the values of one type. *)
Definition prim_cmp (v w : PrimitiveValue) : option comparison :=
  match v, w with
  | VString s, VString t => Some (cmp s t)
  | VBytes x, VBytes y => Some (cmp x y)
  | VInt64 x, VInt64 y => Some (Z.compare x y)
  | VDouble x, VDouble y => Some (Z.compare (double_word x) (double_word y))
  | _, _ => None
  end.

Lemma serialize_cmp v w c :
  prim_ok v -> prim_ok w -> prim_cmp v w = Some c ->
  cmp (serialize_for_key_component v) (serialize_for_key_component w) = c.
Proof.
  destruct v, w; simpl; intros Hv Hw Hc; try discriminate Hc; injection Hc as <-;
    unfold cmp at 1, list_ord; cbn [lex_cmp].
  - rewrite (cmp_refl Byte.x02). apply as_bytes_cmp.
  - rewrite (cmp_refl Byte.x01). apply escape_cmp.
  - rewrite (cmp_refl Byte.x03), !int64_key by done.
    rewrite be_bytes_cmp by (by apply int64_word_range).
    destruct (Z.compare_spec z z0);
      [apply Z.compare_eq_iff|apply Z.compare_lt_iff|apply Z.compare_gt_iff]; lia.
  - rewrite (cmp_refl Byte.x04), !double_key by done.
    apply be_bytes_cmp; by apply double_word_range.
Qed.

Lemma double_word_inj x y : is_u64 x -> is_u64 y -> double_word x = double_word y -> x = y.
Proof. unfold is_u64, double_word. intros. repeat case_decide; lia. Qed.

Lemma prim_cmp_eq v w : prim_ok v -> prim_ok w -> prim_cmp v w = Some Eq -> v = w.
Proof.
  destruct v, w; simpl; intros Hv Hw E; try discriminate E; injection E as E.
  - apply cmp_eq in E. congruence.
  - apply cmp_eq in E. congruence.
  - apply Z.compare_eq_iff in E. congruence.
  - apply Z.compare_eq_iff, double_word_inj in E; congruence.
Qed.

Lemma serialize_inj v w :
  prim_ok v -> prim_ok w ->
  serialize_for_key_component v = serialize_for_key_component w -> v = w.
Proof.
  intros Hv Hw E. destruct (prim_cmp v w) as [c|] eqn:Hc.
  - apply prim_cmp_eq; [done..|]. rewrite Hc. f_equal.
    rewrite <- (serialize_cmp v w c) by done. rewrite E. apply cmp_refl.
  - destruct v, w; simpl in *; try done; discriminate E.
Qed.

(** ** Prefixes *)
(** [p] followed by a zero byte is never the start of [q] followed by a zero
    byte: the component of one primary key does not extend another's. *)
Definition no_nul (v : PrimitiveValue) : Prop :=
  match v with VString s => Byte.x00 ∉ as_bytes s | _ => True end.

Lemma bytes_nul_prefix (a b r1 r2 : bytes) :
  Byte.x00 ∉ a -> Byte.x00 ∉ b ->
  a ++ Byte.x00 :: r1 = b ++ Byte.x00 :: r2 -> a = b /\ r1 = r2.
Proof.
  revert b. induction a as [|x a IH]; intros [|y b] Ha Hb E; simpl in E.
  - by injection E.
  - injection E as <- _. destruct Hb. left.
  - injection E as -> _. destruct Ha. left.
  - injection E as -> E. apply not_elem_of_cons in Ha as [_ Ha], Hb as [_ Hb].
    apply IH in E as [-> ->]; done.
Qed.

Lemma escape_prefix (x y : bytes) r1 r2 :
  flat_map escape_byte x ++ Byte.x00 :: Byte.x00 :: r1
  = flat_map escape_byte y ++ Byte.x00 :: Byte.x00 :: r2 -> x = y /\ r1 = r2.
Proof.
  revert y. induction x as [|a x IH]; intros [|b y]; simpl.
  - by intros [= ->].
  - unfold escape_byte. case_decide; simpl; [done|]. intros [= <-]. done.
  - unfold escape_byte. case_decide; simpl; [done|]. intros [= ->]. done.
  - unfold escape_byte at 1 3. repeat case_decide; subst; simpl.
    + intros [= E]. apply IH in E as [-> ->]. done.
    + intros [= <-]. done.
    + intros [= ->]. done.
    + intros [= -> E]. apply IH in E as [-> ->]. done.
Qed.

Lemma app_same_length_inv (a b r1 r2 : bytes) :
  length a = length b -> a ++ r1 = b ++ r2 -> a = b /\ r1 = r2.
Proof. intros Hl E. by apply app_inj_1 in E. Qed.

Lemma cons_tail_eq {A} (x y : A) l l' : x :: l = y :: l' -> l = l'.
Proof. congruence. Qed.

Lemma word_prefix x y r1 r2 :
  be_bytes 8 x ++ Byte.x00 :: r1 = be_bytes 8 y ++ Byte.x00 :: r2 ->
  be_bytes 8 x = be_bytes 8 y /\ r1 = r2.
Proof.
  intros E. apply app_same_length_inv in E as [E1 E2]; [|by rewrite !length_be_bytes].
  split; [done|congruence].
Qed.

Lemma serialize_tag v w r1 r2 :
  serialize_for_key_component v ++ r1 = serialize_for_key_component w ++ r2 ->
  get_type v = get_type w.
Proof.
  intros E. apply (f_equal head) in E. destruct v, w; try done; discriminate E.
Qed.

Lemma serialize_prefix_free v w r1 r2 :
  prim_ok v -> prim_ok w -> no_nul v -> no_nul w ->
  serialize_for_key_component v ++ Byte.x00 :: r1
  = serialize_for_key_component w ++ Byte.x00 :: r2 -> v = w /\ r1 = r2.
Proof.
  intros Hv Hw Hnv Hnw E. pose proof (serialize_tag _ _ _ _ E) as Ht.
  destruct v as [s|b|z|d], w as [s'|b'|z'|d']; try discriminate Ht;
    cbn [serialize_for_key_component app] in E; apply cons_tail_eq in E.
  - apply bytes_nul_prefix in E as [E ->]; [|done..]. apply as_bytes_inj in E as ->. done.
  - rewrite <- !app_assoc in E. apply escape_prefix in E as [-> ->]. done.
  - apply word_prefix in E as [E ->]. split; [|done]. apply serialize_inj; [done..|].
    cbn [serialize_for_key_component]. by rewrite E.
  - apply word_prefix in E as [E ->]. split; [|done]. apply serialize_inj; [done..|].
    cbn [serialize_for_key_component]. by rewrite E.
Qed.

(** ** Doubles as numbers *)
(** The value of a finite double, in units of 2^-1074. *)
Definition double_magnitude (m : Z) : Z :=
  if decide (m < 2 ^ 52) then m else (2 ^ 52 + m mod 2 ^ 52) * 2 ^ (m / 2 ^ 52 - 1).

Definition double_value (x : Z) : Z :=
  if decide (2 ^ 63 <= x) then - double_magnitude (x - 2 ^ 63) else double_magnitude x.

Definition double_finite (x : Z) : Prop := is_u64 x /\ x mod 2 ^ 63 < 2047 * 2 ^ 52.

Lemma double_magnitude_mono m n : 0 <= m < n -> double_magnitude m < double_magnitude n.
Proof.
  intros Hmn. unfold double_magnitude.
  pose proof (Z.div_mod m (2 ^ 52) ltac:(lia)) as Em.
  pose proof (Z.div_mod n (2 ^ 52) ltac:(lia)) as En.
  pose proof (Z.mod_pos_bound m (2 ^ 52) ltac:(lia)) as Bm.
  pose proof (Z.mod_pos_bound n (2 ^ 52) ltac:(lia)) as Bn.
  set (em := m / 2 ^ 52) in *. set (en := n / 2 ^ 52) in *.
  set (fm := m mod 2 ^ 52) in *. set (fn := n mod 2 ^ 52) in *.
  assert (Hpn : 0 <= en - 1 -> 1 <= 2 ^ (en - 1)).
  { intros. assert (0 < 2 ^ (en - 1)); [apply Z.pow_pos_nonneg; lia|lia]. }
  repeat case_decide; [lia| |lia|].
  - assert (1 <= en) by lia. specialize (Hpn ltac:(lia)). nia.
  - assert (Hcase : em = en \/ em < en) by lia. destruct Hcase as [Heq|Hlt].
    + rewrite Heq. specialize (Hpn ltac:(lia)). nia.
    + assert (E2 : 2 ^ (en - 1) = 2 ^ (em - 1) * 2 ^ (en - em))
        by (rewrite <- Z.pow_add_r by lia; f_equal; lia).
      assert (2 <= 2 ^ (en - em))
        by (change 2 with (2 ^ 1) at 1; apply Z.pow_le_mono_r; lia).
      assert (0 < 2 ^ (em - 1)) by (apply Z.pow_pos_nonneg; lia).
      assert (Hdbl : 2 ^ (em - 1) * 2 <= 2 ^ (en - 1)) by nia. nia.
Qed.

Lemma double_magnitude_nonneg m : 0 <= m -> 0 <= double_magnitude m.
Proof.
  intros. destruct (Z.eq_dec m 0) as [->|]; [done|].
  pose proof (double_magnitude_mono 0 m ltac:(lia)) as H0. change (double_magnitude 0) with 0 in H0. lia.
Qed.

Lemma double_value_cmp x y :
  is_u64 x -> is_u64 y -> double_value x < double_value y -> double_word x < double_word y.
Proof.
  unfold is_u64, double_value, double_word. intros Hx Hy Hlt. repeat case_decide.
  - destruct (Z.le_gt_cases x y); [|lia]. exfalso.
    destruct (Z.eq_dec x y) as [->|]; [lia|].
    pose proof (double_magnitude_mono (x - 2 ^ 63) (y - 2 ^ 63) ltac:(lia)). lia.
  - lia.
  - pose proof (double_magnitude_nonneg x ltac:(lia)).
    pose proof (double_magnitude_nonneg (y - 2 ^ 63) ltac:(lia)). lia.
  - destruct (Z.lt_ge_cases x y); [lia|]. exfalso.
    destruct (Z.eq_dec x y) as [->|]; [lia|].
    pose proof (double_magnitude_mono y x ltac:(lia)). lia.
Qed.
