(* ===== verification/PathWalker.v ===== *)
(** * Paths into a plan: [rdb-analyzer/src/data/pathwalker.rs]

    A walker is a path from an export down the storage nodes, with a link to
    its parent; its key is the concatenation of the key components on the path
    that are not flattened. [KeyCow] is only about ownership: a component is
    its bytes. *)
From stdpp Require Import prelude gmap strings list.
From S2P Require Import Prelude OrdMap StoragePlan Planner Value.

Inductive PathWalkerError :=
| FieldNotFound (s : string)
| EnterFieldOnSet
| ReferenceNodeNotFound
| NotSet
| PathTooDeep.

Definition MAX_DEPTH : nat := 64.

Inductive PathWalker := MkWalker {
  pw_node : Node;
  pw_key : bytes;
  pw_link : option PathWalker;
  pw_depth : nat;
  pw_should_flatten : bool;
  pw_is_intermediate : bool;
  pw_path_segment : option string
}.

Abbreviation wres := (outcome PathWalkerError).

Definition from_export (plan : Plan) (export_name : string) : wres PathWalker :=
  let? export := ok_or (bt_get export_name (nodes plan)) (FieldNotFound export_name) in
  Ok (MkWalker export (key export) None 1 (flattened export) false (Some export_name)).

(** The components above a link, nearest first: the [while let] loop of
    [generate_key_raw]. *)
Fixpoint components_up (w : PathWalker) : list bytes :=
  (if pw_should_flatten w then [] else [pw_key w]) ++
  match pw_link w with Some x => components_up x | None => [] end.

Definition link_components (l : option PathWalker) : list bytes :=
  match l with Some x => components_up x | None => [] end.

Definition generate_key_raw (w : PathWalker) : list bytes :=
  reverse (pw_key w :: link_components (pw_link w)).

(** [PartialEq for PathWalker]. *)
Definition walker_eqb (w1 w2 : PathWalker) : bool :=
  bool_decide (generate_key_raw w1 = generate_key_raw w2).

Definition check_and_add_depth (w : PathWalker) : wres nat :=
  if decide (MAX_DEPTH <= pw_depth w) then Err PathTooDeep else Ok (S (pw_depth w)).

(** The path segments up to a walker, itself included, nearest first. *)
Fixpoint segments_up (w : PathWalker) : list string :=
  (if pw_is_intermediate w then []
   else [match pw_path_segment w with Some s => s | None => "(selector)" end]) ++
  match pw_link w with Some x => segments_up x | None => [] end.

Definition collect_path_segments (w : PathWalker) : list string := reverse (segments_up w).

Definition generate_key (w : PathWalker) : bytes := concat (generate_key_raw w).

(** [all_non_intermediate_keys_on_path_excluding_self]. *)
Fixpoint non_intermediate_up (w : PathWalker) : list (bytes * list string) :=
  (if pw_is_intermediate w then [] else [(generate_key w, collect_path_segments w)]) ++
  match pw_link w with Some x => non_intermediate_up x | None => [] end.

Definition all_non_intermediate_keys_on_path_excluding_self (w : PathWalker)
  : list (bytes * list string) :=
  match pw_link w with Some x => non_intermediate_up x | None => [] end.

(** Walk up the list for the node a subspace reference names. *)
Fixpoint find_reference (r : StorageKey) (w : PathWalker) : option Node :=
  if decide (key (pw_node w) = r) then Some (pw_node w)
  else match pw_link w with Some x => find_reference r x | None => None end.

Definition enter_field (w : PathWalker) (field_name : string) : wres PathWalker :=
  if decide (is_Some (node_set (pw_node w))) then Err EnterFieldOnSet
  else
    let? node := ok_or (bt_get field_name (children (pw_node w))) (FieldNotFound field_name) in
    match subspace_reference node with
    | Some r =>
        match find_reference r w with
        | Some target =>
            let? d := check_and_add_depth w in
            Ok (MkWalker target (key node) (Some w) d false false (Some field_name))
        | None => Err ReferenceNodeNotFound
        end
    | None =>
        let? d := check_and_add_depth w in
        Ok (MkWalker node (key node) (Some w) d (flattened node) false (Some field_name))
    end.

Definition set_fast_scan_prefix (w : PathWalker) : wres bytes :=
  let? _ := ok_or (node_set (pw_node w)) NotSet in
  Ok (generate_key w ++ [Byte.x01]).

Definition set_data_prefix (w : PathWalker) : wres bytes :=
  let? _ := ok_or (node_set (pw_node w)) NotSet in
  Ok (generate_key w ++ [Byte.x00]).

Definition enter_set_raw (w : PathWalker) (primary_key : bytes) : wres PathWalker :=
  let? set := ok_or (node_set (pw_node w)) NotSet in
  let dynamic_key := Byte.x00 :: primary_key ++ [Byte.x00] in
  let? d := check_and_add_depth w in
  let intermediate := MkWalker set dynamic_key (Some w) d false true None in
  let? d' := check_and_add_depth intermediate in
  Ok (MkWalker set (key set) (Some intermediate) d' true false None).

Definition enter_set (w : PathWalker) (primary_key : PrimitiveValue) : wres PathWalker :=
  enter_set_raw w (serialize_for_key_component primary_key).

(** ** Keys *)
Lemma raw_nonempty w : generate_key_raw w <> [].
Proof. unfold generate_key_raw. rewrite reverse_cons. by destruct (reverse _). Qed.

(** The key of a walker, with its own component split off. *)
Definition parent_key (w : PathWalker) : bytes := concat (reverse (link_components (pw_link w))).

Lemma generate_key_split w : generate_key w = parent_key w ++ pw_key w.
Proof.
  unfold generate_key, generate_key_raw, parent_key. rewrite reverse_cons, concat_app.
  simpl. by rewrite app_nil_r.
Qed.

Lemma link_components_key w :
  concat (reverse (components_up w))
  = if pw_should_flatten w then parent_key w else generate_key w.
Proof.
  rewrite generate_key_split. unfold parent_key, link_components.
  destruct w as [n k l d f i seg]; simpl. destruct f; simpl; [done|].
  rewrite reverse_cons, concat_app. simpl. by rewrite app_nil_r.
Qed.

(** The prefix below a walker: its key, or its parent's when it is flattened. *)
Definition child_prefix (w : PathWalker) : bytes :=
  if pw_should_flatten w then parent_key w else generate_key w.

Lemma enter_field_key w f w' :
  enter_field w f = Ok w' ->
  exists node, bt_get f (children (pw_node w)) = Some node /\
    generate_key w' = child_prefix w ++ key node.
Proof.
  unfold enter_field. case_decide; [done|]. intros Hr.
  apply obind_ok in Hr as (node & Hn%ok_or_ok & Hr). exists node. split; [done|].
  assert (Hk : pw_key w' = key node /\ pw_link w' = Some w).
  { destruct (subspace_reference node); [destruct (find_reference _ _); [|done]|]; inv_ok; done. }
  destruct Hk as [Hk Hl]. rewrite generate_key_split, Hk. f_equal.
  unfold parent_key. rewrite Hl. simpl. rewrite link_components_key. done.
Qed.

(** The data keys of a set member start with the set's data prefix and the
    primary key. *)
Lemma enter_set_raw_key w pk w' :
  pw_should_flatten w = false -> enter_set_raw w pk = Ok w' ->
  exists set, node_set (pw_node w) = Some set /\
    generate_key w' = generate_key w ++ Byte.x00 :: pk ++ Byte.x00 :: key set /\
    child_prefix w' = generate_key w ++ Byte.x00 :: pk ++ [Byte.x00].
Proof.
  intros Hfl. unfold enter_set_raw. intros Hr.
  apply obind_ok in Hr as (set & Hs%ok_or_ok & Hr).
  apply obind_ok in Hr as (d & _ & Hr). apply obind_ok in Hr as (d' & _ & [= <-]).
  exists set. split; [done|].
  set (im := MkWalker set (Byte.x00 :: pk ++ [Byte.x00]) (Some w) d false true None).
  assert (Him : generate_key im = generate_key w ++ Byte.x00 :: pk ++ [Byte.x00]).
  { rewrite generate_key_split. unfold parent_key. simpl. rewrite link_components_key, Hfl. done. }
  set (w' := MkWalker set (key set) (Some im) d' true false None).
  assert (Hp : parent_key w' = generate_key im).
  { unfold parent_key. simpl pw_link. unfold link_components. by rewrite link_components_key. }
  split; [|unfold child_prefix; simpl; by rewrite Hp, Him].
  rewrite generate_key_split, Hp, Him. simpl pw_key.
  rewrite <- app_assoc. simpl. by rewrite <- app_assoc.
Qed.

(** ** Reachable walkers *)
Inductive reaches (plan : Plan) : PathWalker -> Prop :=
| reach_export e w : from_export plan e = Ok w -> reaches plan w
| reach_field w f w' : reaches plan w -> enter_field w f = Ok w' -> reaches plan w'
| reach_set w pk w' : reaches plan w -> enter_set_raw w pk = Ok w' -> reaches plan w'.

Fixpoint chain_length (w : PathWalker) : nat :=
  S (match pw_link w with Some x => chain_length x | None => 0 end).

Lemma check_depth_ok w d : check_and_add_depth w = Ok d -> d = S (pw_depth w) /\ d <= MAX_DEPTH.
Proof. unfold check_and_add_depth. case_decide; [done|]. intros [= <-]. lia. Qed.

Lemma enter_field_shape w f w' :
  enter_field w f = Ok w' ->
  pw_link w' = Some w /\ pw_depth w' = S (pw_depth w) /\ S (pw_depth w) <= MAX_DEPTH.
Proof.
  unfold enter_field. case_decide; [done|]. intros Hr. apply obind_ok in Hr as (node & _ & Hr).
  destruct (subspace_reference node); [destruct (find_reference _ _); [|done]|];
    apply obind_ok in Hr as (d & [-> ?]%check_depth_ok & [= <-]); done.
Qed.

Lemma reaches_depth plan w :
  reaches plan w -> pw_depth w = chain_length w /\ pw_depth w <= MAX_DEPTH.
Proof.
  induction 1 as [e w Hr|w f w' Hw [IH1 IH2] Hr|w pk w' Hw [IH1 IH2] Hr].
  - apply obind_ok in Hr as (n & _ & [= <-]). simpl. unfold MAX_DEPTH. lia.
  - apply enter_field_shape in Hr as (Hl & Hd & Hm). destruct w'; simpl in *. subst. lia.
  - unfold enter_set_raw in Hr. apply obind_ok in Hr as (set & _ & Hr).
    apply obind_ok in Hr as (d & [-> ?]%check_depth_ok & Hr).
    apply obind_ok in Hr as (d' & [-> ?]%check_depth_ok & [= <-]). simpl in *. lia.
Qed.
