(* ===== verification/WalkerTyping.v ===== *)
(** * Walkers follow the types of the schema

    In a plan that conforms to its schema ([plan_ok]) a walker that stands for
    a table can enter every declared field of the table: the storage node is
    there, a subspace reference finds its target among the ancestors, and the
    new walker stands for the type of the field.  The only way to fail is the
    depth limit. *)
From stdpp Require Import prelude gmap strings list.
From S2P Require Import Prelude OrdMap Schema SchemaFacts StoragePlan Planner PlannerFacts PlannerPlan Value PathWalker.

(** ** The nodes of a plan *)
Fixpoint node_subs (n : Node) : list Node :=
  n :: (match node_set n with Some m => node_subs m | None => [] end)
    ++ flat_map (fun p => node_subs p.2) (children n).

Definition plan_subs (p : Plan) : list Node := flat_map (fun e => node_subs e.2) (nodes p).

Lemma node_subs_keys n : key <$> node_subs n = node_keys n.
Proof.
  induction n as [k f r s c Hs Hc] using node_ind'. simpl. f_equal. rewrite fmap_app. f_equal.
  - destruct s as [m|]; [by apply Hs|done].
  - induction Hc as [|[name x] c Hx Hc IH]; simpl; [done|]. rewrite fmap_app. by f_equal.
Qed.

Lemma node_subs_self n : n ∈ node_subs n.
Proof. destruct n. left. Qed.

Lemma node_subs_child n f c : (f, c) ∈ children n -> c ∈ node_subs n.
Proof.
  intros Hc. destruct n as [k fl r s cs]. simpl in *. right. apply elem_of_app. right.
  apply list_elem_of_In, in_flat_map. exists (f, c). split; [by apply list_elem_of_In|].
  apply list_elem_of_In, node_subs_self.
Qed.

Lemma node_subs_set n m : node_set n = Some m -> m ∈ node_subs n.
Proof.
  intros Hm. destruct n as [k fl r s cs]. simpl in *. subst. right. apply elem_of_app. left.
  apply node_subs_self.
Qed.

Lemma node_subs_trans n m x : m ∈ node_subs n -> x ∈ node_subs m -> x ∈ node_subs n.
Proof.
  revert m x. induction n as [k f r s c Hs Hc] using node_ind'. intros m x Hm Hx. simpl in *.
  apply elem_of_cons in Hm as [->|Hm]; [done|]. right. apply elem_of_app in Hm as [Hm|Hm].
  - destruct s as [m0|]; [|by apply not_elem_of_nil in Hm]. apply elem_of_app. left. by eapply Hs.
  - apply elem_of_app. right. apply list_elem_of_In, in_flat_map in Hm as ([name y] & Hy & Hm).
    apply list_elem_of_In, in_flat_map. exists (name, y). split; [done|].
    rewrite Forall_forall in Hc. apply list_elem_of_In in Hy, Hm. apply list_elem_of_In.
    by apply (Hc _ Hy m x).
Qed.

Lemma plan_subs_trans p n x : n ∈ plan_subs p -> x ∈ node_subs n -> x ∈ plan_subs p.
Proof.
  unfold plan_subs. intros Hn Hx. apply list_elem_of_In, in_flat_map in Hn as (e & He & Hn).
  apply list_elem_of_In, in_flat_map. exists e. split; [done|].
  apply list_elem_of_In. eapply node_subs_trans; [by apply list_elem_of_In|done].
Qed.

Lemma plan_subs_keys p : key <$> plan_subs p = plan_keys p.
Proof.
  unfold plan_subs, plan_keys. induction (nodes p) as [|e l IH]; simpl; [done|].
  by rewrite fmap_app, node_subs_keys, IH.
Qed.

Lemma plan_key_inj p n m :
  NoDup (plan_keys p) -> n ∈ plan_subs p -> m ∈ plan_subs p -> key n = key m -> n = m.
Proof.
  rewrite <- plan_subs_keys. intros Hnd Hn Hm Hk.
  apply list_elem_of_lookup in Hn as [i Hi], Hm as [j Hj].
  assert (i = j); [|congruence]. apply (NoDup_lookup (key <$> plan_subs p) i j (key n)); [done|..].
  - by rewrite list_lookup_fmap, Hi.
  - by rewrite list_lookup_fmap, Hj, Hk.
Qed.

(** ** The place of a node *)
(** Under which export, in which field of which node, or as the member of which
    set node. *)
Inductive Place := PExport (e : string) | PField (k : StorageKey) (f : string) | PMember (k : StorageKey).

Fixpoint node_places (pl : Place) (n : Node) : list (Place * Node) :=
  (pl, n) :: (match node_set n with Some m => node_places (PMember (key n)) m | None => [] end)
    ++ flat_map (fun q => node_places (PField (key n) q.1) q.2) (children n).

Definition plan_places (p : Plan) : list (Place * Node) :=
  flat_map (fun e => node_places (PExport e.1) e.2) (nodes p).

Lemma node_places_subs n : forall pl, (node_places pl n).*2 = node_subs n.
Proof.
  induction n as [k f r s c Hs Hc] using node_ind'. intros pl. simpl. f_equal. rewrite fmap_app. f_equal.
  - destruct s as [m|]; [by apply Hs|done].
  - induction Hc as [|[name x] c Hx Hc IH]; simpl; [done|]. rewrite fmap_app. by f_equal.
Qed.

Lemma plan_places_subs p : (plan_places p).*2 = plan_subs p.
Proof.
  unfold plan_places, plan_subs. induction (nodes p) as [|e l IH]; simpl; [done|].
  by rewrite fmap_app, node_places_subs, IH.
Qed.

(** The children of a listed node are listed at their places. *)
Definition place_closed (l : list (Place * Node)) : Prop := forall pl n, (pl, n) ∈ l ->
  (forall f c, (f, c) ∈ children n -> (PField (key n) f, c) ∈ l) /\
  (forall c, node_set n = Some c -> (PMember (key n), c) ∈ l).

Lemma node_places_self pl n : (pl, n) ∈ node_places pl n.
Proof. destruct n. left. Qed.

Lemma place_closed_flat_map {A} (f : A -> list (Place * Node)) l :
  Forall (fun x => place_closed (f x)) l -> place_closed (flat_map f l).
Proof.
  intros Hl pl n (x & Hx & Hn)%list_elem_of_In%in_flat_map. apply list_elem_of_In in Hx, Hn.
  rewrite Forall_forall in Hl. destruct (Hl x Hx pl n Hn) as [H1 H2].
  split; [intros g c Hc|intros c Hc]; apply list_elem_of_In, in_flat_map; exists x; rewrite <- !list_elem_of_In; auto.
Qed.

Lemma node_places_closed n : forall pl, place_closed (node_places pl n).
Proof.
  induction n as [k f r s c Hs Hc] using node_ind'. intros pl.
  assert (Hset : place_closed (match s with Some m => node_places (PMember k) m | None => [] end)).
  { destruct s as [m|]; [by apply Hs|]. intros ? ? ?%elem_of_nil. done. }
  assert (Hch : place_closed (flat_map (fun q => node_places (PField k q.1) q.2) c)).
  { apply place_closed_flat_map. eapply Forall_impl; [exact Hc|]. intros q Hq. apply Hq. }
  intros pl' n Hn. simpl in *. apply elem_of_cons in Hn as [[= -> ->]|[Hn|Hn]%elem_of_app].
  - simpl. split.
    + intros g x Hx. right. apply elem_of_app. right. apply list_elem_of_In, in_flat_map. exists (g, x).
      rewrite <- !list_elem_of_In. split; [done|]. apply node_places_self.
    + intros x ->. right. apply elem_of_app. left. apply node_places_self.
  - destruct (Hset _ _ Hn) as [H1 H2]. split; intros; right; apply elem_of_app; left; auto.
  - destruct (Hch _ _ Hn) as [H1 H2]. split; intros; right; apply elem_of_app; right; auto.
Qed.

Lemma plan_places_closed p : place_closed (plan_places p).
Proof. apply place_closed_flat_map, Forall_forall. intros e _. apply node_places_closed. Qed.

Lemma plan_place_inj p pl pl' n n' :
  NoDup (plan_keys p) -> (pl, n) ∈ plan_places p -> (pl', n') ∈ plan_places p -> key n = key n' -> pl = pl'.
Proof.
  rewrite <- plan_subs_keys, <- plan_places_subs. intros Hnd Hn Hn' Hk.
  apply list_elem_of_lookup in Hn as [i Hi], Hn' as [j Hj].
  assert (i = j); [|congruence]. apply (NoDup_lookup (key <$> (plan_places p).*2) i j (key n)); [done|..].
  - by rewrite !list_lookup_fmap, Hi.
  - by rewrite !list_lookup_fmap, Hj, Hk.
Qed.

(** ** Plans that conform to a schema *)
(** [po_inline] excludes sets whose member is a reference to an enclosing
    table, which [enter_set_raw] does not follow. *)
Record plan_ok (s : CompiledSchema) (p : Plan) (rec : gset string) : Prop := {
  po_conforms : Forall2 (fun e n => e.1 = n.1 /\ node_for s rec ∅ e.2 n.2) (exports s) (nodes p);
  po_keys : NoDup (plan_keys p);
  po_lengths : Forall key_ok (plan_keys p);
  po_inline : forall n m, n ∈ plan_subs p -> node_set n = Some m -> subspace_reference m = None
}.

(** ** Typed walkers *)
(** A walker on the path of another one, itself included. *)
Inductive above : PathWalker -> PathWalker -> Prop :=
| above_refl w : above w w
| above_link x w y : pw_link w = Some y -> above x y -> above x w.

#[export] Hint Constructors above : rdb.

Section Typing.
Context (s : CompiledSchema) (p : Plan) (rec : gset string) (Hp : plan_ok s p rec).

(** The type the schema declares at the place of a node. *)
Inductive declared : Node -> FieldType -> Prop :=
| decl_export e t n : bt_get e (exports s) = Some t -> bt_get e (nodes p) = Some n -> declared n t
| decl_field n t ty f ft c :
    declared n (FTable t) -> bt_get t (types s) = Some ty -> bt_get f (st_fields ty) = Some ft ->
    bt_get f (children n) = Some c -> declared c ft.1
| decl_member n x c : declared n (FSet x) -> node_set n = Some c -> declared c x.

Lemma declared_place n t : declared n t -> exists pl, (pl, n) ∈ plan_places p.
Proof.
  induction 1 as [e t n _ Hn|n t ty f ft c _ [pl Hpl] _ _ Hc|n x c _ [pl Hpl] Hc].
  - exists (PExport e). apply bt_get_elem in Hn. apply list_elem_of_In, in_flat_map. exists (e, n).
    rewrite <- !list_elem_of_In. split; [done|]. apply node_places_self.
  - exists (PField (key n) f). apply bt_get_elem in Hc. by apply (plan_places_closed p _ _ Hpl).
  - exists (PMember (key n)). by apply (plan_places_closed p _ _ Hpl).
Qed.

Lemma declared_in_plan n t : declared n t -> n ∈ plan_subs p.
Proof. intros [pl Hn]%declared_place. rewrite <- plan_places_subs. apply list_elem_of_fmap. by exists (pl, n). Qed.

(** The place of a declared node, and the declaration of the node above. *)
Lemma declared_inv n t : declared n t -> exists pl, (pl, n) ∈ plan_places p /\
  match pl with
  | PExport e => bt_get e (exports s) = Some t
  | PField k f => exists a ta ty ft, key a = k /\ declared a (FTable ta) /\ bt_get ta (types s) = Some ty /\
      bt_get f (st_fields ty) = Some ft /\ t = ft.1
  | PMember k => exists a, key a = k /\ declared a (FSet t)
  end.
Proof.
  intros Hd. destruct Hd as [e t n He Hn|n t ty f ft c Hd Hty Hft Hc|n x c Hd Hc].
  - exists (PExport e). split; [|done]. apply bt_get_elem in Hn. apply list_elem_of_In, in_flat_map. exists (e, n).
    rewrite <- !list_elem_of_In. split; [done|]. apply node_places_self.
  - destruct (declared_place _ _ Hd) as [pl Hpl]. exists (PField (key n) f). apply bt_get_elem in Hc.
    split; [by apply (plan_places_closed p _ _ Hpl)|]. by exists n, t, ty, ft.
  - destruct (declared_place _ _ Hd) as [pl Hpl]. exists (PMember (key n)).
    split; [by apply (plan_places_closed p _ _ Hpl)|]. by exists n.
Qed.

(** A node has one place, so one declared type. *)
Lemma declared_unique n t t' : declared n t -> declared n t' -> t = t'.
Proof.
  intros Hd. revert t'. induction Hd as [e t n He Hn|n t ty f ft c Hd IH Hty Hft Hc|n x c Hd IH Hc]; intros t' Hd'.
  - destruct (declared_inv _ _ (decl_export _ _ _ He Hn)) as (pl & Hpl & Hi).
    destruct (declared_inv _ _ Hd') as (pl' & Hpl' & Hi').
    assert (pl' = PExport e) as ->; [|congruence]. eapply plan_place_inj; [apply (po_keys _ _ _ Hp)|done| |done].
    apply bt_get_elem in Hn. apply list_elem_of_In, in_flat_map. exists (e, n). rewrite <- !list_elem_of_In.
    split; [done|]. apply node_places_self.
  - destruct (declared_place _ _ Hd) as [pl Hpl]. destruct (declared_inv _ _ Hd') as (pl' & Hpl' & Hi').
    apply bt_get_elem in Hc. apply (plan_places_closed p _ _ Hpl) in Hc.
    assert (pl' = PField (key n) f) as -> by (eapply plan_place_inj; [apply (po_keys _ _ _ Hp)|done|exact Hc|done]).
    destruct Hi' as (a & ta & ty' & ft' & Hk & Hda & Hty' & Hft' & ->).
    assert (a = n) as -> by (apply (plan_key_inj p); [apply (po_keys _ _ _ Hp)|by eapply declared_in_plan..|done]).
    apply IH in Hda as [= <-]. congruence.
  - destruct (declared_place _ _ Hd) as [pl Hpl]. destruct (declared_inv _ _ Hd') as (pl' & Hpl' & Hi').
    apply (plan_places_closed p _ _ Hpl) in Hc.
    assert (pl' = PMember (key n)) as -> by (eapply plan_place_inj; [apply (po_keys _ _ _ Hp)|done|exact Hc|done]).
    destruct Hi' as (a & Hk & Hda).
    assert (a = n) as -> by (apply (plan_key_inj p); [apply (po_keys _ _ _ Hp)|by eapply declared_in_plan..|done]).
    by apply IH in Hda as [= <-].
Qed.

(** The storage node of the walker has the shape of type [t], which is declared at
    its place, inside the recursive tables [stk], each of which is on the path.  The
    walker of a primitive ends its key with the key of the node. *)
Inductive wt : PathWalker -> FieldType -> gmap string StorageKey -> Prop :=
| wt_intro w t stk :
    node_for s rec stk t (pw_node w) ->
    subspace_reference (pw_node w) = None ->
    declared (pw_node w) t ->
    match t with FPrimitive _ => pw_key w = key (pw_node w) | _ => True end ->
    (forall t1 k1, stk !! t1 = Some k1 -> exists x stk1,
       above x w /\ key (pw_node x) = k1 /\ wt x (FTable t1) stk1) ->
    wt w t stk.

Definition path_in_plan (w : PathWalker) : Prop := forall x, above x w -> pw_node x ∈ plan_subs p.

Definition walker_typed (w : PathWalker) (t : FieldType) : Prop :=
  path_in_plan w /\ exists stk, wt w t stk.

Lemma above_trans x y z : above x y -> above y z -> above x z.
Proof. induction 2; eauto with rdb. Qed.

Lemma path_in_plan_link w y : path_in_plan w -> pw_link w = Some y -> path_in_plan y.
Proof. intros Hw Hl x Hx. apply Hw. eauto with rdb. Qed.

Lemma path_in_plan_cons w y :
  path_in_plan y -> pw_link w = Some y -> pw_node w ∈ plan_subs p -> path_in_plan w.
Proof.
  intros Hy Hl Hn x Hx. inversion Hx as [|? ? y' Hl' Hx']; subst; [done|].
  rewrite Hl in Hl'. injection Hl' as <-. by apply Hy.
Qed.

(** A reference to a node on the path is found. *)
Lemma find_reference_above x w :
  path_in_plan w -> above x w -> find_reference (key (pw_node x)) w = Some (pw_node x).
Proof.
  intros Hw Hx. assert (Hxp : pw_node x ∈ plan_subs p) by by apply Hw.
  induction Hx as [w|x w y Hl Hx IH].
  - destruct w. simpl. by rewrite decide_True.
  - assert (Hy : path_in_plan y) by by eapply path_in_plan_link. specialize (IH Hy Hxp).
    assert (Hwp : pw_node w ∈ plan_subs p) by (apply Hw; constructor).
    destruct w as [n k l d f i seg]; simpl in *. subst l. case_decide as E; [|done].
    f_equal. apply (plan_key_inj p); [exact (po_keys _ _ _ Hp)|done..].
Qed.

Lemma nodes_for_lookup rc stk fs cs name f :
  nodes_for s rc stk fs cs -> bt_get name fs = Some f ->
  exists n, bt_get name cs = Some n /\ node_for s rc stk f.1 n.
Proof.
  revert cs. induction fs as [|[name' f'] fs IH]; intros cs Hn Hf; [done|].
  inversion Hn as [|? ? ? n cs' Hn1 Hn2]; subst. simpl in *.
  destruct (cmp name name'); [naive_solver|by apply IH..].
Qed.

(** The stack below a table resolves on the path. *)
Lemma push_key_resolves w t stk :
  wt w (FTable t) stk -> forall t1 k1,
  push_key rec stk t (key (pw_node w)) !! t1 = Some k1 -> exists x stk1,
  above x w /\ key (pw_node x) = k1 /\ wt x (FTable t1) stk1.
Proof.
  intros Hw t1 k1. unfold push_key. inversion Hw as [? ? ? Hn Hr Hdecl Hpk Hs]; subst.
  destruct (bool_decide _); [|by apply Hs].
  destruct (decide (t1 = t)) as [->|Hne].
  - rewrite lookup_insert_eq. intros [= <-]. exists w, stk. split; [constructor|done].
  - rewrite lookup_insert_ne by done. apply Hs.
Qed.

Lemma enter_field_typed w t ty name f :
  walker_typed w (FTable t) -> bt_get t (types s) = Some ty ->
  bt_get name (st_fields ty) = Some f ->
  (exists w', enter_field w name = Ok w' /\ walker_typed w' f.1)
  \/ enter_field w name = Err PathTooDeep.
Proof.
  intros [Hpath [stk Hw]] Hty Hf. pose proof (push_key_resolves _ _ _ Hw) as Hstk.
  inversion Hw as [? ? ? Hn Hr Hdecl Hpk Hs]; subst. inversion Hn as [|? ty' k cs _ Hty' Hcs Heq1 Heq2| |]; subst.
  { rewrite <- H1 in Hr. done. }
  assert (ty' = ty) as -> by congruence.
  destruct (nodes_for_lookup _ _ _ _ _ _ Hcs Hf) as (c & Hc & Hnc).
  assert (Hcp : c ∈ plan_subs p).
  { eapply plan_subs_trans; [apply Hpath; constructor|]. eapply node_subs_child. rewrite <- Heq2. simpl.
    by apply bt_get_elem. }
  unfold enter_field. rewrite <- Heq2 in *. cbn [node_set children key] in *.
  rewrite decide_False by (by intros [? ?]). rewrite Hc. cbn [ok_or obind].
  unfold check_and_add_depth. destruct (decide (MAX_DEPTH <= pw_depth w)) as [Hd|Hd].
  { destruct (subspace_reference c) as [r|] eqn:Er; [|by right]. right.
    inversion Hnc as [t1 k1 k' Hst| | |]; subst; try done. simpl in Er. injection Er as <-.
    destruct (Hstk _ _ Hst) as (x & stk1 & Hx & Hk & _).
    rewrite <- Hk, (find_reference_above x w); done. }
  left. destruct (subspace_reference c) as [r|] eqn:Er.
  - inversion Hnc as [t1 k1 k' Hst Ht Hceq| | |]; subst; try done. simpl in Er. injection Er as <-.
    destruct (Hstk _ _ Hst) as (x & stk1 & Hx & Hk & Hwx).
    rewrite <- Hk, (find_reference_above x w) by done. eexists. split; [done|]. split.
    + eapply path_in_plan_cons; [exact Hpath|done|]. simpl. by apply Hpath.
    + exists stk1. inversion Hwx as [? ? ? Hnx Hrx Hdx Hkx Hsx]; subst. constructor; [done|done|done|done|].
      intros t2 k2 (y & stk2 & Hy & ?)%Hsx. exists y, stk2. split; [|done].
      eapply above_link; [done|]. by eapply above_trans.
  - eexists. split; [done|]. split.
    + eapply path_in_plan_cons; [exact Hpath|done|done].
    + eexists. constructor; [exact Hnc|done|by eapply decl_field|by destruct f.1|]. intros t1 k1 (x & stk1 & Hx & ?)%Hstk.
      exists x, stk1. split; [|done]. by eapply above_link.
Qed.

Lemma enter_set_raw_typed w x pk :
  walker_typed w (FSet x) ->
  (exists w', enter_set_raw w pk = Ok w' /\ walker_typed w' x)
  \/ enter_set_raw w pk = Err PathTooDeep.
Proof.
  intros [Hpath [stk Hw]]. inversion Hw as [? ? ? Hn Hr Hdecl Hpk Hs]; subst.
  inversion Hn as [| | |? k inner Hin Heq1 Heq2]; subst.
  assert (Hip : inner ∈ plan_subs p).
  { eapply plan_subs_trans; [apply Hpath; constructor|]. apply node_subs_set. by rewrite <- Heq2. }
  unfold enter_set_raw. rewrite <- Heq2. cbn [node_set ok_or obind].
  unfold check_and_add_depth. cbn [pw_depth].
  destruct (decide (MAX_DEPTH <= pw_depth w)); [by right|]. cbn [obind pw_depth].
  destruct (decide (MAX_DEPTH <= S (pw_depth w))); [by right|]. left. eexists. split; [done|].
  assert (Hpath' : path_in_plan (MkWalker inner (Byte.x00 :: pk ++ [Byte.x00]) (Some w) (S (pw_depth w)) false true None)).
  { eapply path_in_plan_cons; [exact Hpath|done|done]. }
  split.
  - eapply path_in_plan_cons; [exact Hpath'|done|done].
  - exists stk. constructor; [done| |eapply decl_member; [exact Hdecl|by rewrite <- Heq2]|by destruct x|].
    + simpl. eapply (po_inline _ _ _ Hp (pw_node w)); [apply Hpath; constructor|by rewrite <- Heq2].
    + intros t1 k1 (y & stk1 & Hy & ?)%Hs. exists y, stk1. split; [|done].
      eapply above_link; [done|]. eapply above_link; [done|]. done.
Qed.

Lemma from_export_typed e t :
  bt_get e (exports s) = Some t ->
  exists w, from_export p e = Ok w /\ walker_typed w t.
Proof.
  intros He. destruct Hp as [Hc Hk Hl0 Hi].
  assert (Hn : exists n, bt_get e (nodes p) = Some n /\ node_for s rec ∅ t n).
  { clear Hk Hl0 Hi. revert He. induction Hc as [|[e1 t1] [e2 n] es ns [He12 Hn] Hc' IH]; [done|]. simpl in *.
    subst e2. destruct (cmp e e1); [intros [= ->]; eauto|exact IH..]. }
  destruct Hn as (n & Hn & Hnf). unfold from_export. rewrite Hn. simpl. eexists. split; [done|]. split.
  - intros x Hx. inversion Hx as [|? ? y Hl]; subst; [|done]. simpl.
    unfold plan_subs. apply bt_get_elem in Hn. apply list_elem_of_In, in_flat_map.
    exists (e, n). split; [by apply list_elem_of_In|]. apply list_elem_of_In, node_subs_self.
  - exists ∅. constructor; [done| |by eapply decl_export|by destruct t|intros t1 k1 Hl; by rewrite lookup_empty in Hl].
    simpl. by inversion Hnf; subst; try done; rewrite lookup_empty in *.
Qed.

(** A set walker has a member node, and its prefixes. *)
Lemma set_prefix_typed w x : walker_typed w (FSet x) ->
  set_fast_scan_prefix w = Ok (generate_key w ++ [Byte.x01]) /\
  set_data_prefix w = Ok (generate_key w ++ [Byte.x00]).
Proof.
  intros [_ [stk Hw]]. inversion Hw as [? ? ? Hn Hr Hdecl Hpk Hs]; subst.
  unfold set_fast_scan_prefix, set_data_prefix. inversion Hn; subst. by split.
Qed.

(** The key of a primitive field ends with the key of its node, which is as long as
    any other: so the bytes of the key tell the field, whatever the primary keys on
    the path, and its type. *)
Lemma walker_node_key w q : walker_typed w (FPrimitive q) ->
  exists pre, generate_key w = pre ++ key (pw_node w) /\ length (key (pw_node w)) = 12 /\
    pw_node w ∈ plan_subs p /\ declared (pw_node w) (FPrimitive q).
Proof.
  intros [Hpath [stk Hw]]. inversion Hw as [? ? ? Hn Hr Hdecl Hpk Hs]; subst. exists (parent_key w).
  rewrite generate_key_split, Hpk. split; [done|]. assert (Hin : pw_node w ∈ plan_subs p) by (apply Hpath; constructor).
  split_and!; [|done|done]. pose proof (po_lengths _ _ _ Hp) as Hl. rewrite Forall_forall in Hl. apply Hl.
  rewrite <- plan_subs_keys. apply list_elem_of_fmap. by exists (pw_node w).
Qed.

Lemma primitive_key_type w w' q q' :
  walker_typed w (FPrimitive q) -> walker_typed w' (FPrimitive q') -> generate_key w = generate_key w' -> q = q'.
Proof.
  intros (pre & -> & Hl & Hin & Hd)%walker_node_key (pre' & -> & Hl' & Hin' & Hd')%walker_node_key He.
  apply app_inj_2 in He as [_ Hk]; [|congruence].
  rewrite (plan_key_inj p _ _ (po_keys _ _ _ Hp) Hin Hin' Hk) in Hd. by injection (declared_unique _ _ _ Hd Hd').
Qed.
End Typing.

(** ** Plans from an empty plan conform *)
Definition plan_inlineb (p : Plan) : bool :=
  forallb (fun n => match node_set n with
                    | Some m => bool_decide (subspace_reference m = None)
                    | None => true
                    end) (plan_subs p).

Lemma plan_inlineb_spec p : plan_inlineb p = true ->
  forall n m, n ∈ plan_subs p -> node_set n = Some m -> subspace_reference m = None.
Proof.
  unfold plan_inlineb. rewrite forallb_forall. intros Hall n m Hn Hm.
  apply list_elem_of_In, Hall in Hn. rewrite Hm in Hn. by apply bool_decide_eq_true_1 in Hn.
Qed.

Lemma generated_plan_fresh fuel ent os s p d :
  wf_schema s -> generate_plan fuel ent empty_plan os s = Ok (p, d) -> NoDup (plan_keys p) /\ Forall key_ok (plan_keys p).
Proof.
  intros Hwf Hg. destruct (generate_plan_inv _ _ _ _ _ _ _ Hwf Hg) as (rec & sm & st' & _ & Hc & _).
  pose proof (export_chain_fresh _ _ _ _ _ _ _ _ (wf_schema_sorted _ Hwf) Hc) as Hf.
  split; [exact (fb_nodup _ _ _ Hf)|exact (fb_lengths _ _ _ Hf)].
Qed.

Lemma generated_plan_ok fuel ent os s p d :
  wf_schema s -> generate_plan fuel ent empty_plan os s = Ok (p, d) -> plan_inlineb p = true ->
  exists rec, plan_ok s p rec.
Proof.
  intros Hwf Hg Hi. destruct (generated_plan_conforms _ _ _ _ _ _ _ Hwf Hg) as [rec Hc]. exists rec.
  destruct (generated_plan_fresh _ _ _ _ _ _ Hwf Hg) as [Hk Hl].
  split; [done|done|done|by apply plan_inlineb_spec].
Qed.
