(* ===== verification/Kv.v ===== *)
(** * The key-value interface: [rdb-analyzer/src/data/kv.rs]

    The traits [KeyValueStore] and [KvTransaction] as type classes.  A call may
    fail with an [anyhow] error, of which the model keeps the message.  The keys
    an iterator of [scan_keys] yields are given as one list.  [KvTransactionLaws]
    is what the executor relies on: a transaction reads the database as it was
    when it began, not its own writes.  Whether a scan lists them depends on the
    back end.  [KvStoreLaws] is what a client of a whole store relies on. *)
From stdpp Require Import prelude gmap strings list.
From Stdlib Require Import Sorted.
From S2P Require Import Prelude OrdMap.

Inductive KvError := Conflict | CommitStateUnknown.

Abbreviation anyhow := (outcome string).

Class KvTransaction (T : Type) := {
  kv_get : T -> bytes -> anyhow (option bytes);
  kv_put : T -> bytes -> bytes -> anyhow T;
  kv_delete : T -> bytes -> anyhow T;
  kv_delete_range : T -> bytes -> bytes -> anyhow T;
  kv_scan_keys : T -> bytes -> bytes -> anyhow (list bytes)
}.

Class KeyValueStore (S T : Type) := {
  kv_begin : S -> anyhow (S * T);
  kv_commit : S -> T -> outcome KvError S
}.

(** What a transaction reads, what it will leave behind, and which of the two its
    scans list. *)
Class KvView (T : Type) := {
  kv_snapshot : T -> bytes -> option bytes;
  kv_current : T -> bytes -> option bytes;
  kv_scans_own_writes : bool
}.

Definition kv_scanned {T} `{KvView T} (t : T) : bytes -> option bytes :=
  if kv_scans_own_writes then kv_current t else kv_snapshot t.

Class KvTransactionLaws (T : Type) `{KvTransaction T} `{KvView T} : Prop := {
  kv_get_law : forall t k r, kv_get t k = Ok r -> r = kv_snapshot t k;
  kv_put_law : forall t k v t', kv_put t k v = Ok t' ->
    kv_snapshot t' = kv_snapshot t /\
    forall k', kv_current t' k' = if decide (k' = k) then Some v else kv_current t k';
  kv_delete_law : forall t k t', kv_delete t k = Ok t' ->
    kv_snapshot t' = kv_snapshot t /\
    forall k', kv_current t' k' = if decide (k' = k) then None else kv_current t k';
  kv_delete_range_law : forall t lo hi t', oleb lo hi = true -> kv_delete_range t lo hi = Ok t' ->
    kv_snapshot t' = kv_snapshot t /\
    forall k', kv_current t' k' = if oleb lo k' && oltb k' hi then None else kv_current t k';
  kv_scan_law : forall t lo hi ks, oleb lo hi = true -> kv_scan_keys t lo hi = Ok ks ->
    StronglySorted (fun x y => cmp x y = Lt) ks /\
    forall k, k ∈ ks <-> oleb lo k = true /\ oltb k hi = true /\ is_Some (kv_scanned t k);
  kv_scan_bounds : forall t lo hi ks, kv_scan_keys t lo hi = Ok ks ->
    forall k, k ∈ ks -> oleb lo k = true /\ oltb k hi = true
}.

(** No call panics. *)
Class KvReturns (T : Type) `{KvTransaction T} : Prop := {
  kv_get_returns : forall t k, returns (kv_get t k);
  kv_put_returns : forall t k v, returns (kv_put t k v);
  kv_delete_returns : forall t k, returns (kv_delete t k);
  kv_delete_range_returns : forall t lo hi, oleb lo hi = true -> returns (kv_delete_range t lo hi);
  kv_scan_returns : forall t lo hi, returns (kv_scan_keys t lo hi)
}.

(** ** What a client may do to a transaction *)
Section Writes.
Context {T : Type} `{KvTransaction T}.

(** One write, and any number of them.  A range is deleted between bounds in
    order. *)
Inductive kv_write (t t' : T) : Prop :=
| write_put k v : kv_put t k v = Ok t' -> kv_write t t'
| write_delete k : kv_delete t k = Ok t' -> kv_write t t'
| write_delete_range lo hi : oleb lo hi = true -> kv_delete_range t lo hi = Ok t' -> kv_write t t'.

Definition kv_steps : relation T := rtc kv_write.

(** Writes do not change what the transaction reads. *)
Lemma kv_steps_snapshot `{!KvView T, !KvTransactionLaws T} t t' :
  kv_steps t t' -> kv_snapshot t' = kv_snapshot t.
Proof.
  induction 1 as [t|t t1 t2 Hw _ IH]; [done|]. rewrite IH. destruct Hw as [k v Hk|k Hk|lo hi Hle Hk].
  - by destruct (kv_put_law _ _ _ _ Hk).
  - by destruct (kv_delete_law _ _ _ Hk).
  - by destruct (kv_delete_range_law _ _ _ _ Hle Hk).
Qed.
End Writes.

(** ** Stores without interference *)

(** What a store holds. *)
Class KvContents (S : Type) := kv_contents : S -> bytes -> option bytes.

(** A transaction reads what the store holds when it begins, and a store to which
    it commits before anyone else does holds what it left. *)
Class KvStoreLaws (S T : Type) `{KeyValueStore S T} `{KvTransaction T} `{KvView T} `{KvContents S} : Prop := {
  kv_begin_law : forall s s1 t, kv_begin s = Ok (s1, t) -> forall k, kv_contents s1 k = kv_contents s k;
  kv_read_law : forall s s1 t k r, kv_begin s = Ok (s1, t) -> kv_get t k = Ok r -> r = kv_contents s k;
  kv_commit_law : forall s s1 t0 t s', kv_begin s = Ok (s1, t0) -> kv_steps t0 t -> kv_commit s1 t = Ok s' ->
    forall k, kv_current t0 k = kv_contents s k /\ kv_contents s' k = kv_current t k
}.
