(* ===== verification/MemKv.v ===== *)
(** * The in-memory MVCC stores

    rdb-analyzer/src/data/mock_kv.rs and rdb-pgsvc/src/memkv.rs are the same
    store under two names ([MockKv], [MemKv]); the model is written from the
    first and its operations also translate the second.  The persistent map
    ([rpds::RedBlackTreeMapSync]) is a parameter: any [OrderedMap] with its
    laws.  A transaction shares the store with the others through an [Arc], so
    [commit] takes the store and returns the new one.  Versions are [u64] and
    wrap around. *)
From stdpp Require Import prelude gmap strings list.
From Stdlib Require Import Strings.Byte ZArith Sorted.
From S2P Require Import Prelude OrdMap Kv.

Section MemKv.
Context {M : Type -> Type} {OM : OrderedMap bytes M}.

Abbreviation Entry := (option bytes * Z)%type.

Record MockStore := MkStore { data : M Entry; txn_count : Z }.

Record MockTransaction := MkTxn {
  id : Z;
  read_buffer : M Entry;
  buffer : M Entry;
  modified : gmap bytes Z
}.

Record MockIterator := MkIter { it_map : M Entry; it_current : bytes; it_end : bytes }.

Definition store_new : MockStore := MkStore om_empty 0.

Definition begin_transaction (s : MockStore) : MockStore * MockTransaction :=
  (MkStore (data s) (u64_wrap (txn_count s + 1)),
   MkTxn (u64_wrap (txn_count s + 1)) (data s) (data s) ∅).

Definition get (t : MockTransaction) (key : bytes) : option bytes :=
  x ← om_get key (read_buffer t); x.1.

(** [map.get(key).map(|x| x.1).unwrap_or_default()] *)
Definition version_of (m : M Entry) (key : bytes) : Z :=
  match om_get key m with Some x => x.2 | None => 0 end.

(** The body shared by [put], [delete] and the loop of [delete_range]. *)
Definition write (t : MockTransaction) (key : bytes) (value : option bytes) : MockTransaction :=
  let version := version_of (buffer t) key in
  MkTxn (id t) (read_buffer t)
    (om_insert key (value, u64_wrap (version + 1)) (buffer t))
    (match modified t !! key with
     | Some _ => modified t
     | None => <[key := version]> (modified t)
     end).

Definition put (t : MockTransaction) (key value : bytes) : MockTransaction :=
  write t key (Some value).

Definition delete (t : MockTransaction) (key : bytes) : MockTransaction :=
  write t key None.

Definition delete_range (t : MockTransaction) (start end_ : bytes) : MockTransaction :=
  let to_delete := (om_range start end_ (buffer t)).*1 in
  foldl delete t to_delete.

Definition scan_keys (t : MockTransaction) (start end_ : bytes) : MockIterator :=
  MkIter (buffer t) start end_.

(** The loop of [next] over the entries of the range. *)
Fixpoint next_loop (it : MockIterator) (range : list (bytes * Entry)) : option bytes * MockIterator :=
  match range with
  | [] => (None, it)
  | (k, v) :: range =>
      let it := MkIter (it_map it) (k ++ [x00]) (it_end it) in
      match v.1 with
      | Some _ => (Some k, it)
      | None => next_loop it range
      end
  end.

Definition next (it : MockIterator) : option bytes * MockIterator :=
  next_loop it (om_range (it_current it) (it_end it) (it_map it)).

(** [hash_iter] is the order in which a hash map is iterated, which Rust leaves
    unspecified. *)
Definition conflicts (d : M Entry) (p : bytes * Z) : bool :=
  negb (Z.eqb (version_of d p.1) p.2).

Definition commit (hash_iter : gmap bytes Z -> list (bytes * Z)) (s : MockStore)
    (t : MockTransaction) : outcome KvError MockStore :=
  let order := hash_iter (modified t) in
  if existsb (conflicts (data s)) order then Err Conflict
  else
    let? d := foldM_o (fun d p =>
      let? value := unwrap (om_get p.1 (buffer t)) in Ok (om_insert p.1 value d))
      (data s) order in
    Ok (MkStore d (txn_count s)).

(** A client that drains the iterator. *)
Fixpoint drain (fuel : nat) (it : MockIterator) : option (list bytes) :=
  match fuel with
  | O => None
  | S fuel =>
      match next it with
      | (None, _) => Some []
      | (Some k, it) => (k ::.) <$> drain fuel it
      end
  end.

(** What a map holds for a reader: the value of a live entry. *)
Definition value_of (m : M Entry) (key : bytes) : option bytes :=
  x ← om_get key m; x.1.
End MemKv.

Arguments MockStore : clear implicits.
Arguments MockTransaction : clear implicits.
Arguments MockIterator : clear implicits.

(** ** One transaction *)
Section Transaction.
Context {M : Type -> Type} {OM : OrderedMap bytes M} {OML : OrderedMapLaws bytes M}.
Implicit Types (t : MockTransaction M) (k : bytes).

Lemma value_of_write t k v k' :
  value_of (buffer (write t k v)) k' = if decide (k' = k) then v else value_of (buffer t) k'.
Proof.
  unfold value_of. simpl. case_decide as E.
  - subst. by rewrite om_get_insert_eq.
  - by rewrite om_get_insert_ne.
Qed.

Lemma om_get_write_ne t k v k' :
  k' <> k -> om_get k' (buffer (write t k v)) = om_get k' (buffer t).
Proof. intros E. simpl. by rewrite om_get_insert_ne. Qed.

Lemma om_get_write_eq t k v :
  om_get k (buffer (write t k v)) = Some (v, u64_wrap (version_of (buffer t) k + 1)).
Proof. simpl. by rewrite om_get_insert_eq. Qed.

Lemma modified_write t k v k' :
  modified (write t k v) !! k' =
  if decide (k' = k) then Some (default (version_of (buffer t) k) (modified t !! k))
  else modified t !! k'.
Proof.
  unfold write. simpl. destruct (modified t !! k) eqn:E; case_decide as E'; subst; simpl.
  - done.
  - done.
  - by rewrite lookup_insert_eq.
  - by rewrite lookup_insert_ne.
Qed.

Lemma fold_delete_value l t k' :
  value_of (buffer (foldl delete t l)) k' =
  if decide (k' ∈ l) then None else value_of (buffer t) k'.
Proof.
  revert t. induction l as [|k l IH]; intros t.
  - case_decide as E; [by apply not_elem_of_nil in E|done].
  - cbn [foldl]. rewrite IH. unfold delete. rewrite value_of_write.
    repeat case_decide; set_solver.
Qed.

(** [delete_range] hides exactly the keys of the range. *)
Lemma value_of_delete_range t lo hi k :
  oleb lo hi = true ->
  value_of (buffer (delete_range t lo hi)) k =
  if oleb lo k && oltb k hi then None else value_of (buffer t) k.
Proof.
  intros Hle. unfold delete_range. rewrite fold_delete_value.
  case_decide as E.
  - apply list_elem_of_fmap in E as ([k0 e] & -> & (H1 & H2 & H3)%om_range_elem); [|done].
    simpl in *. by rewrite H1, H2.
  - destruct (oleb lo k) eqn:E1; [|done]. destruct (oltb k hi) eqn:E2; [|done]. simpl.
    unfold value_of. destruct (om_get k (buffer t)) as [e|] eqn:E3; [|done]. simpl.
    destruct E. apply list_elem_of_fmap. exists (k, e). split; [done|].
    by apply om_range_elem.
Qed.
End Transaction.

(** ** The key iterator *)
Lemma bytes_succ (k k' : bytes) : oleb (k ++ [x00]) k' = true <-> cmp k k' = Lt.
Proof.
  rewrite oleb_le. revert k'. induction k as [|b k IH]; intros [|b' k']; simpl.
  - done.
  - unfold cmp, list_ord. simpl. rewrite cmp_u8. change (u8 x00) with 0%Z.
    pose proof (u8_range b') as Hb.
    destruct (Z.compare_spec 0 (u8 b')); [|done|lia]. destruct k'; done.
  - done.
  - specialize (IH k'). unfold cmp, list_ord in *. simpl. by destruct (cmp b b').
Qed.

Section Iterator.
Context {M : Type -> Type} {OM : OrderedMap bytes M} {OML : OrderedMapLaws bytes M}.

(** The live keys of the range, in order. *)
Definition live_keys (m : M (option bytes * Z)) (lo hi : bytes) : list bytes :=
  (List.filter (fun p => bool_decide (is_Some p.2.1)) (om_range lo hi m)).*1.

Lemma bytes_succ_le (k hi : bytes) : cmp k hi = Lt -> oleb (k ++ [x00]) hi = true.
Proof. apply bytes_succ. Qed.

(** After a key of the range, the range that starts at its successor is the
    rest. *)
Lemma om_range_rest (m : M (option bytes * Z)) lo hi k v l :
  oleb lo hi = true -> om_range lo hi m = (k, v) :: l ->
  om_range (k ++ [x00]) hi m = l /\ oleb (k ++ [x00]) hi = true.
Proof.
  intros Hle Hr. pose proof (om_range_sorted _ lo hi m Hle) as Hs.
  assert (Hk : (k, v) ∈ om_range lo hi m) by (rewrite Hr; left).
  apply om_range_elem in Hk as (Hk1 & Hk2 & Hk3); [|done]. apply oltb_lt in Hk2.
  pose proof (bytes_succ_le _ _ Hk2) as Hle'. split; [|done].
  rewrite Hr in Hs. apply bt_sorted_cons in Hs as [Hl Hlt].
  apply bt_ext; [by apply om_range_sorted|done|].
  intros k'. apply option_eq. intros v'. split; intros Hg.
  - apply bt_get_elem, om_range_elem in Hg as (Ha & Hb & Hc); [|done]. apply bytes_succ in Ha.
    apply bt_elem_get; [done|]. assert (Hin : (k', v') ∈ om_range lo hi m).
    { apply om_range_elem; [done|]. split; [|done]. apply oleb_le.
      rewrite (oleb_lt_trans lo k k'); done. }
    rewrite Hr in Hin. apply elem_of_cons in Hin as [[= -> ->]|Hin]; [|done].
    by apply cmp_lt_irrefl in Ha.
  - apply bt_get_elem in Hg. apply bt_elem_get; [by apply om_range_sorted|].
    assert (Hin : (k', v') ∈ om_range lo hi m) by (rewrite Hr; by right).
    apply om_range_elem in Hin as (Ha & Hb & Hc); [|done]. apply om_range_elem; [done|].
    split; [|done]. apply bytes_succ. rewrite Forall_forall in Hlt. by apply (Hlt (k', v')).
Qed.

Lemma drain_live (m : M (option bytes * Z)) hi l lo fuel :
  oleb lo hi = true -> om_range lo hi m = l -> length l < fuel ->
  drain fuel (MkIter m lo hi) = Some (live_keys m lo hi).
Proof.
  remember (length l) as n eqn:Hn. revert lo l Hn fuel.
  induction (lt_wf n) as [n _ IH]. intros lo l Hn fuel Hle Hr Hf.
  destruct fuel as [|fuel]; [lia|]. simpl. unfold next, live_keys. simpl. rewrite Hr.
  assert (Hloop : forall l lo, om_range lo hi m = l -> oleb lo hi = true -> length l <= n ->
    match next_loop (MkIter m lo hi) l with
    | (None, _) => Some []
    | (Some k, it) => (k ::.) <$> drain fuel it
    end = Some (List.filter (fun p => bool_decide (is_Some p.2.1)) l).*1).
  { clear - IH Hf OML. induction l as [|[k [o ver]] l IHl]; intros lo Hr Hle Hlen; simpl; [done|].
    simpl in Hlen. destruct (om_range_rest _ _ _ _ _ _ Hle Hr) as [Hrest Hle'].
    destruct o as [v|]; simpl.
    - rewrite (IH (length l) ltac:(lia) (k ++ [x00]) l eq_refl fuel Hle' Hrest ltac:(lia)).
      unfold live_keys. rewrite Hrest. done.
    - apply (IHl (k ++ [x00])); [done|done|lia]. }
  apply Hloop; [done|done|lia].
Qed.
End Iterator.

(** ** The store implements the interface *)
Section Instances.
Context {M : Type -> Type} {OM : OrderedMap bytes M} {OML : OrderedMapLaws bytes M}.

#[export] Instance mem_transaction : KvTransaction (MockTransaction M) := {
  kv_get t k := Ok (get t k);
  kv_put t k v := Ok (put t k v);
  kv_delete t k := Ok (delete t k);
  kv_delete_range t lo hi := Ok (delete_range t lo hi);
  kv_scan_keys t lo hi :=
    Ok (default [] (drain (S (length (om_range lo hi (buffer t)))) (scan_keys t lo hi)))
}.

#[export] Instance mem_view : KvView (MockTransaction M) := {
  kv_snapshot t := value_of (read_buffer t);
  kv_current t := value_of (buffer t);
  kv_scans_own_writes := true
}.

Lemma fold_delete_snapshot l (t : MockTransaction M) : read_buffer (foldl delete t l) = read_buffer t.
Proof. revert t. induction l as [|k l IH]; intros t; simpl; [done|by rewrite IH]. Qed.

Lemma live_keys_sorted (m : M (option bytes * Z)) lo hi :
  oleb lo hi = true -> StronglySorted (fun x y => cmp x y = Lt) (live_keys m lo hi).
Proof. intros Hle. apply bt_sorted_keys, bt_filter_sorted, om_range_sorted, Hle. Qed.

Lemma live_keys_elem (m : M (option bytes * Z)) lo hi k :
  oleb lo hi = true ->
  k ∈ live_keys m lo hi <-> oleb lo k = true /\ oltb k hi = true /\ is_Some (value_of m k).
Proof.
  intros Hle. unfold live_keys, value_of. rewrite list_elem_of_fmap. split.
  - intros ([k' e] & -> & Hin). apply list_elem_of_In, filter_In in Hin as [Hin Hl].
    apply list_elem_of_In, om_range_elem in Hin as (? & ? & He); [|done]. simpl in *.
    apply bool_decide_eq_true_1 in Hl. by rewrite He.
  - destruct (om_get k m) as [e|] eqn:He; [|intros (_ & _ & [? ?]); done].
    intros (? & ? & Hs). exists (k, e). split; [done|]. apply list_elem_of_In, filter_In.
    split; [by apply list_elem_of_In, om_range_elem|by apply bool_decide_eq_true_2].
Qed.

Lemma scan_keys_live (t : MockTransaction M) lo hi :
  oleb lo hi = true ->
  drain (S (length (om_range lo hi (buffer t)))) (scan_keys t lo hi) = Some (live_keys (buffer t) lo hi).
Proof. intros Hle. eapply drain_live; [done|done|lia]. Qed.

Lemma om_range_inverted {V} (m : M V) (lo hi : bytes) : oleb lo hi = false -> om_range lo hi m = [].
Proof.
  intros Hle. destruct (om_range lo hi m) as [|[k v] l] eqn:E; [done|].
  destruct (om_range_bounds _ lo hi k v m) as [H1 H2%oltb_lt]; [rewrite E; left|].
  assert (Hlt : cmp lo hi = Lt) by by eapply oleb_lt_trans.
  unfold oleb in Hle. by rewrite Hlt in Hle.
Qed.

Lemma scan_keys_inverted (t : MockTransaction M) lo hi :
  oleb lo hi = false ->
  drain (S (length (om_range lo hi (buffer t)))) (scan_keys t lo hi) = Some [].
Proof. intros Hle. simpl. unfold next. simpl. by rewrite om_range_inverted. Qed.

#[export] Instance mem_laws : KvTransactionLaws (MockTransaction M).
Proof.
  split; cbn [kv_get kv_put kv_delete kv_delete_range kv_scan_keys kv_snapshot kv_current
              kv_scanned kv_scans_own_writes mem_transaction mem_view].
  - by intros t k r [= <-].
  - intros t k v t' [= <-]. split; [done|]. intros k'. apply value_of_write.
  - intros t k t' [= <-]. split; [done|]. intros k'. apply value_of_write.
  - intros t lo hi t' Hle [= <-]. split; [unfold delete_range; by rewrite fold_delete_snapshot|].
    intros k'. by apply value_of_delete_range.
  - intros t lo hi ks Hle. rewrite scan_keys_live by done. intros [= <-].
    split; [by apply live_keys_sorted|]. intros k. by apply live_keys_elem.
  - intros t lo hi ks Hks k Hk. destruct (oleb lo hi) eqn:Hle.
    + rewrite scan_keys_live in Hks by done. injection Hks as <-. apply live_keys_elem in Hk; tauto.
    + rewrite scan_keys_inverted in Hks by done. injection Hks as <-. by apply not_elem_of_nil in Hk.
Qed.

#[export] Instance mem_returns : KvReturns (MockTransaction M).
Proof. by split. Qed.

#[export] Instance mem_store (hash_iter : gmap bytes Z -> list (bytes * Z))
    : KeyValueStore (MockStore M) (MockTransaction M) := {
  kv_begin s := Ok (begin_transaction s);
  kv_commit s t := commit hash_iter s t
}.
End Instances.
