(* ===== verification/MemKvIsolation.v ===== *)
(** * The in-memory store implements snapshot isolation

    The comment on [MockKv] promises "MVCC with snapshot isolation".  This file
    states that promise as an abstract machine ([si_step]): the database is the
    history of the write sets committed so far, a transaction reads the history
    as it was when it began, and it commits exactly when no write set committed
    since then touches a key it wrote (the first committer wins).  The store of
    [MemKv], driven by the same sequence of operations, gives the same
    responses ([sim_run]). *)
From stdpp Require Import prelude gmap strings list.
From Stdlib Require Import Strings.Byte ZArith.
From S2P Require Import Prelude OrdMap Kv MemKv.

(** ** Operations and responses *)
Inductive KvOp :=
| OpBegin (h : nat)
| OpGet (h : nat) (k : bytes)
| OpPut (h : nat) (k v : bytes)
| OpDelete (h : nat) (k : bytes)
| OpDeleteRange (h : nat) (lo hi : bytes)
| OpScan (h : nat) (lo hi : bytes)
| OpCommit (h : nat).

Inductive KvResp :=
| RDone
| RValue (v : option bytes)
| RKeys (ks : gset bytes)
| RCommit (r : outcome KvError unit)
| RBadHandle.

(** ** The concrete machine: the store and the open transactions *)
Section Concrete.
Context {M : Type -> Type} {OM : OrderedMap bytes M}.

Record KvSys := MkSys { sys_store : MockStore M; sys_open : gmap nat (MockTransaction M) }.

Definition sys_new : KvSys := MkSys store_new ∅.

Definition on_txn (c : KvSys) (h : nat) (f : MockTransaction M -> KvSys * KvResp) : KvSys * KvResp :=
  match sys_open c !! h with Some t => f t | None => (c, RBadHandle) end.

Definition set_txn (c : KvSys) (h : nat) (t : MockTransaction M) : KvSys :=
  MkSys (sys_store c) (<[h := t]> (sys_open c)).

Definition kv_step (hash_iter : gmap bytes Z -> list (bytes * Z)) (c : KvSys) (op : KvOp) : KvSys * KvResp :=
  match op with
  | OpBegin h =>
      match sys_open c !! h with
      | Some _ => (c, RBadHandle)
      | None => let '(s, t) := begin_transaction (sys_store c) in
                (MkSys s (<[h := t]> (sys_open c)), RDone)
      end
  | OpGet h k => on_txn c h (fun t => (c, RValue (get t k)))
  | OpPut h k v => on_txn c h (fun t => (set_txn c h (put t k v), RDone))
  | OpDelete h k => on_txn c h (fun t => (set_txn c h (MemKv.delete t k), RDone))
  | OpDeleteRange h lo hi => on_txn c h (fun t => (set_txn c h (delete_range t lo hi), RDone))
  | OpScan h lo hi =>
      on_txn c h (fun t =>
        let fuel := S (length (om_range lo hi (buffer t))) in
        (c, RKeys (list_to_set (default [] (drain fuel (scan_keys t lo hi))))))
  | OpCommit h =>
      on_txn c h (fun t =>
        let closed := base.delete h (sys_open c) in
        match commit hash_iter (sys_store c) t with
        | Ok s => (MkSys s closed, RCommit (Ok tt))
        | Err e => (MkSys (sys_store c) closed, RCommit (Err e))
        | Panic => (MkSys (sys_store c) closed, RCommit Panic)
        | NoFuel => (MkSys (sys_store c) closed, RCommit NoFuel)
        end)
  end.

Fixpoint kv_run (hash_iter : gmap bytes Z -> list (bytes * Z)) (c : KvSys) (ops : list KvOp) : list KvResp :=
  match ops with
  | [] => []
  | op :: ops => let '(c, r) := kv_step hash_iter c op in r :: kv_run hash_iter c ops
  end.
End Concrete.
Arguments KvSys : clear implicits.

(** ** The abstract machine *)
Abbreviation WriteSet := (gmap bytes (option bytes)).

Record SiTxn := MkSiTxn { si_start : nat; si_writes : WriteSet }.
Record SiSys := MkSi { si_hist : list WriteSet; si_open : gmap nat SiTxn }.

Definition si_new : SiSys := MkSi [] ∅.

(** The value a key has after a history (oldest write set first). *)
Fixpoint hist_value (hist : list WriteSet) (v : option bytes) (k : bytes) : option bytes :=
  match hist with
  | [] => v
  | w :: hist => hist_value hist (default v (w !! k)) k
  end.

Definition hist_dom (hist : list WriteSet) : gset bytes := ⋃ (dom <$> hist).

(** What a transaction began with, what was committed since, and what it sees
    with its own writes. *)
Definition si_base (a : SiSys) (t : SiTxn) : list WriteSet := take (si_start t) (si_hist a).
Definition si_since (a : SiSys) (t : SiTxn) : list WriteSet := drop (si_start t) (si_hist a).
Definition si_current (a : SiSys) (t : SiTxn) : list WriteSet := si_base a t ++ [si_writes t].

Definition in_range (lo hi k : bytes) : Prop := oleb lo k = true /\ oltb k hi = true.
#[global] Instance in_range_dec lo hi k : Decision (in_range lo hi k).
Proof. unfold in_range. apply _. Defined.

Definition on_si (a : SiSys) (h : nat) (f : SiTxn -> SiSys * KvResp) : SiSys * KvResp :=
  match si_open a !! h with Some t => f t | None => (a, RBadHandle) end.

Definition si_write (a : SiSys) (h : nat) (t : SiTxn) (w : WriteSet) : SiSys :=
  MkSi (si_hist a) (<[h := MkSiTxn (si_start t) (w ∪ si_writes t)]> (si_open a)).

Definition si_step (a : SiSys) (op : KvOp) : SiSys * KvResp :=
  match op with
  | OpBegin h =>
      match si_open a !! h with
      | Some _ => (a, RBadHandle)
      | None => (MkSi (si_hist a) (<[h := MkSiTxn (length (si_hist a)) ∅]> (si_open a)), RDone)
      end
  | OpGet h k => on_si a h (fun t => (a, RValue (hist_value (si_base a t) None k)))
  | OpPut h k v => on_si a h (fun t => (si_write a h t {[k := Some v]}, RDone))
  | OpDelete h k => on_si a h (fun t => (si_write a h t {[k := None]}, RDone))
  | OpDeleteRange h lo hi =>
      on_si a h (fun t =>
        let ks := filter (in_range lo hi) (hist_dom (si_current a t)) in
        (si_write a h t (gset_to_gmap None ks), RDone))
  | OpScan h lo hi =>
      on_si a h (fun t =>
        (a, RKeys (filter (fun k => in_range lo hi k /\ is_Some (hist_value (si_current a t) None k))
                     (hist_dom (si_current a t)))))
  | OpCommit h =>
      on_si a h (fun t =>
        let closed := base.delete h (si_open a) in
        if decide (dom (si_writes t) ## hist_dom (si_since a t))
        then (MkSi (si_hist a ++ [si_writes t]) closed, RCommit (Ok tt))
        else (MkSi (si_hist a) closed, RCommit (Err Conflict)))
  end.

Fixpoint si_run (a : SiSys) (ops : list KvOp) : list KvResp :=
  match ops with
  | [] => []
  | op :: ops => let '(a, r) := si_step a op in r :: si_run a ops
  end.

(** The bounds of a range are in order. *)
Definition op_ok (op : KvOp) : Prop :=
  match op with
  | OpDeleteRange _ lo hi | OpScan _ lo hi => oleb lo hi = true
  | _ => True
  end.

(** ** Histories *)
Lemma hist_value_app h1 h2 v k : hist_value (h1 ++ h2) v k = hist_value h2 (hist_value h1 v k) k.
Proof. revert v. induction h1 as [|w h1 IH]; intros v; simpl; [done|apply IH]. Qed.

Lemma hist_dom_app h1 h2 : hist_dom (h1 ++ h2) = hist_dom h1 ∪ hist_dom h2.
Proof. unfold hist_dom. by rewrite fmap_app, union_list_app_L. Qed.

Lemma hist_dom_one w : hist_dom [w] = dom w.
Proof. unfold hist_dom. simpl. set_solver. Qed.

Lemma hist_dom_nil k : k ∉ hist_dom [].
Proof. apply not_elem_of_empty. Qed.

Lemma hist_value_one w v k : hist_value [w] v k = default v (w !! k).
Proof. done. Qed.

(** ** The simulation *)
Section Simulation.
Context {M : Type -> Type} {OM : OrderedMap bytes M} {OML : OrderedMapLaws bytes M}.
Implicit Types (t : MockTransaction M) (n : Z).

(** A map of the store holds what a history says; its versions are positive and
    at most [n]. *)
Definition map_rel n (m : M (option bytes * Z)) (hist : list WriteSet) : Prop :=
  forall k, value_of m k = hist_value hist None k
       /\ (is_Some (om_get k m) <-> k ∈ hist_dom hist)
       /\ (forall e, om_get k m = Some e -> (0 < e.2 <= n)%Z).

Definition buffer_rel n t (w : option (option bytes)) (k : bytes) : Prop :=
  match w with
  | None => om_get k (buffer t) = om_get k (read_buffer t) /\ modified t !! k = None
  | Some o => exists v, om_get k (buffer t) = Some (o, v)
                /\ (version_of (read_buffer t) k < v <= n)%Z
                /\ modified t !! k = Some (version_of (read_buffer t) k)
  end.

Record txn_rel n (d : M (option bytes * Z)) (hist : list WriteSet) t (a : SiTxn) : Prop := {
  tr_start : si_start a <= length hist;
  tr_snapshot : map_rel n (read_buffer t) (take (si_start a) hist);
  tr_version : forall k, (version_of (read_buffer t) k <= version_of d k)%Z
                 /\ (version_of (read_buffer t) k = version_of d k
                     <-> k ∉ hist_dom (drop (si_start a) hist));
  tr_buffer : forall k, buffer_rel n t (si_writes a !! k) k
}.

Record sim n (c : KvSys M) (a : SiSys) : Prop := {
  sim_store : map_rel n (data (sys_store c)) (si_hist a);
  sim_open : forall h, option_Forall2 (txn_rel n (data (sys_store c)) (si_hist a))
               (sys_open c !! h) (si_open a !! h)
}.

(** *** Writes *)
Record writes_of t t' (w : WriteSet) : Prop := {
  wo_snapshot : read_buffer t' = read_buffer t;
  wo_entry : forall k, om_get k (buffer t') =
    match w !! k with
    | Some o => Some (o, u64_wrap (version_of (buffer t) k + 1))
    | None => om_get k (buffer t)
    end;
  wo_modified : forall k, modified t' !! k =
    match w !! k with
    | Some o => Some (default (version_of (buffer t) k) (modified t !! k))
    | None => modified t !! k
    end
}.

Lemma write_writes t k o : writes_of t (write t k o) {[k := o]}.
Proof.
  split; [done| |]; intros k'; destruct (decide (k' = k)) as [->|Hne].
  - by rewrite lookup_singleton_eq, om_get_write_eq.
  - by rewrite lookup_singleton_ne, om_get_write_ne by done.
  - by rewrite lookup_singleton_eq, modified_write, decide_True.
  - by rewrite lookup_singleton_ne, modified_write, decide_False by done.
Qed.

Lemma fold_delete_writes l t :
  NoDup l -> writes_of t (foldl MemKv.delete t l) (gset_to_gmap None (list_to_set l)).
Proof.
  intros Hl. revert t. induction Hl as [|k l Hk Hl IH]; intros t.
  { split; [done| |]; intros k; simpl; by rewrite (proj2 (lookup_gset_to_gmap_None _ _ _)) by set_solver. }
  cbn [foldl]. destruct (IH (MemKv.delete t k)) as [H1 H2 H3]. unfold MemKv.delete in *.
  destruct (write_writes t k None) as [W1 W2 W3].
  assert (Hgs : forall k', gset_to_gmap None (list_to_set (k :: l)) !! k' =
      if decide (k' = k) then Some (None : option bytes)
      else gset_to_gmap None (list_to_set l : gset bytes) !! k').
  { intros k'. rewrite list_to_set_cons, gset_to_gmap_union_singleton.
    case_decide; [subst; by rewrite lookup_insert_eq|by rewrite lookup_insert_ne]. }
  split; [by rewrite H1| |]; intros k'; rewrite Hgs;
    [rewrite H2|rewrite H3]; case_decide as E.
  - subst k'. rewrite (proj2 (lookup_gset_to_gmap_None _ _ _)) by set_solver. by rewrite W2, lookup_singleton_eq.
  - unfold version_of. by rewrite W2, lookup_singleton_ne by done.
  - subst k'. rewrite (proj2 (lookup_gset_to_gmap_None _ _ _)) by set_solver. by rewrite W3, lookup_singleton_eq.
  - unfold version_of. by rewrite W2, W3, !lookup_singleton_ne by done.
Qed.

Lemma map_rel_version n m hist k : map_rel n m hist -> (0 <= n)%Z -> (0 <= version_of m k <= n)%Z.
Proof.
  intros Hm Hn. destruct (Hm k) as (_ & _ & Hv). unfold version_of.
  destruct (om_get k m) as [e|]; [|lia]. specialize (Hv e eq_refl). lia.
Qed.

Lemma buffer_rel_version n t w k :
  (0 <= version_of (read_buffer t) k <= n)%Z -> buffer_rel n t w k ->
  (version_of (read_buffer t) k <= version_of (buffer t) k <= n)%Z
  /\ default (version_of (buffer t) k) (modified t !! k) = version_of (read_buffer t) k.
Proof.
  intros Hr. destruct w as [o|]; simpl.
  - intros (v & Hb & Hv & Hm). rewrite Hm. simpl.
    assert (version_of (buffer t) k = v) as -> by (unfold version_of; by rewrite Hb).
    split; [lia|done].
  - intros [Hb Hm]. unfold version_of in *. rewrite Hb, Hm. simpl. split; [lia|done].
Qed.

Lemma map_rel_mono n n' m hist : (n <= n')%Z -> map_rel n m hist -> map_rel n' m hist.
Proof.
  intros Hn Hm k. destruct (Hm k) as (? & ? & Hv). do 2 (split; [done|]).
  intros e He. specialize (Hv e He). lia.
Qed.

Lemma txn_rel_mono n n' d hist t a : (n <= n')%Z -> txn_rel n d hist t a -> txn_rel n' d hist t a.
Proof.
  intros Hn [H1 H2 H3 H4]. split; [done|by eapply map_rel_mono|done|]. intros k. specialize (H4 k).
  destruct (si_writes a !! k); simpl in *; [|done].
  destruct H4 as (v & ? & ? & ?). exists v. split; [done|]. split; [lia|done].
Qed.

Lemma txn_rel_writes n d hist t t' a w :
  (0 <= n)%Z -> (n + 1 < 2 ^ 64)%Z ->
  txn_rel n d hist t a -> writes_of t t' w ->
  txn_rel (n + 1) d hist t' (MkSiTxn (si_start a) (w ∪ si_writes a)).
Proof.
  intros Hn0 Hn Ht [W1 W2 W3]. apply (txn_rel_mono n (n + 1)) in Ht as Ht'; [|lia].
  destruct Ht as [H1 H2 H3 H4]. destruct Ht' as [_ H2' _ H4'].
  split; simpl; rewrite ?W1; [done|done|done|]. intros k. rewrite lookup_union.
  specialize (H4' k). specialize (H4 k). specialize (W2 k). specialize (W3 k).
  destruct (w !! k) as [o|].
  - rewrite union_Some_l. simpl. destruct (buffer_rel_version n t _ k (map_rel_version _ _ _ k H2 Hn0) H4)
      as [Hv Hm]. pose proof (map_rel_version _ _ _ k H2 Hn0).
    exists (u64_wrap (version_of (buffer t) k + 1)). rewrite W1. split; [done|].
    unfold u64_wrap. rewrite Z.mod_small by lia. split; [lia|]. by rewrite W3, Hm.
  - rewrite (left_id_L None (∪)). unfold buffer_rel in *. rewrite W1, W2, W3. done.
Qed.

(** What a transaction sees with its own writes. *)
Lemma txn_rel_current n d hist t a :
  txn_rel n d hist t a -> forall k,
  value_of (buffer t) k = hist_value (take (si_start a) hist ++ [si_writes a]) None k
  /\ (is_Some (om_get k (buffer t)) <-> k ∈ hist_dom (take (si_start a) hist ++ [si_writes a])).
Proof.
  intros [H1 H2 H3 H4] k. destruct (H2 k) as (Hval & Hdom & _). specialize (H4 k).
  rewrite hist_value_app, hist_value_one, hist_dom_app, hist_dom_one, elem_of_union, elem_of_dom.
  unfold value_of in *. destruct (si_writes a !! k) as [o|]; simpl in *.
  - destruct H4 as (v & -> & _). simpl. split; [done|]. split; [eauto|]. intros _. by eexists.
  - destruct H4 as [-> _]. split; [done|]. rewrite Hdom. split; [by left|].
    intros [?|[? ?]]; [done|done].
Qed.

(** *** Commit *)
Lemma commit_fold (buf : M (option bytes * Z)) (order : list (bytes * Z)) d :
  (forall p, p ∈ order -> is_Some (om_get p.1 buf)) ->
  exists d', foldM_o (E:=KvError) (fun d p =>
      let? value := unwrap (om_get p.1 buf) in Ok (om_insert p.1 value d)) d order = Ok d'
    /\ forall k, om_get k d' = if decide (k ∈ order.*1) then om_get k buf else om_get k d.
Proof.
  revert d. induction order as [|[k0 v0] order IH]; intros d Hin.
  { exists d. split; [done|]. intros k. case_decide as E; [by apply not_elem_of_nil in E|done]. }
  destruct (Hin (k0, v0)) as [e He]; [left|]. simpl in He.
  destruct (IH (om_insert k0 e d)) as (d' & Hf & Hd'); [intros p Hp; apply Hin; by right|].
  exists d'. simpl. rewrite He. simpl. split; [done|]. intros k. rewrite Hd'. cbn [fmap list_fmap fst].
  destruct (decide (k = k0)) as [->|Hne].
  - rewrite (decide_True (P := k0 ∈ k0 :: _)) by left. rewrite om_get_insert_eq, He. by case_decide.
  - rewrite om_get_insert_ne by done. repeat case_decide; set_solver.
Qed.

Context (hash_iter : gmap bytes Z -> list (bytes * Z)).
Context (hash_iter_perm : forall m, hash_iter m ≡ₚ map_to_list m).

Lemma txn_rel_modified n d hist t a k v :
  txn_rel n d hist t a ->
  (k, v) ∈ hash_iter (modified t) <-> k ∈ dom (si_writes a) /\ v = version_of (read_buffer t) k.
Proof.
  intros Ht. rewrite hash_iter_perm, elem_of_map_to_list, elem_of_dom.
  pose proof (tr_buffer _ _ _ _ _ Ht k) as Hb. destruct (si_writes a !! k) as [o|]; simpl in Hb.
  - destruct Hb as (v' & _ & _ & ->). split; [intros [= <-]; eauto|by intros [_ ->]].
  - destruct Hb as [_ ->]. split; [done|]. by intros [[? ?] _].
Qed.

Lemma conflict_iff n s hist t a :
  txn_rel n (data s) hist t a ->
  existsb (conflicts (data s)) (hash_iter (modified t)) = true
  <-> ~ dom (si_writes a) ## hist_dom (drop (si_start a) hist).
Proof.
  intros Ht. rewrite existsb_exists. split.
  - intros ([k v] & Hin%list_elem_of_In & Hc) Hdisj. unfold conflicts in Hc. simpl in Hc.
    apply negb_true_iff, Z.eqb_neq in Hc.
    apply (txn_rel_modified _ _ _ _ _ _ _ Ht) in Hin as [Hk ->].
    destruct Hc. symmetry. apply (tr_version _ _ _ _ _ Ht k). set_solver.
  - intros Hnd. destruct (set_choose_or_empty (dom (si_writes a) ∩ hist_dom (drop (si_start a) hist)))
      as [(k & [Hk Hh]%elem_of_intersection)|Hno]; [|set_solver].
    exists (k, version_of (read_buffer t) k). split.
    + apply list_elem_of_In, (txn_rel_modified _ _ _ _ _ _ _ Ht). done.
    + unfold conflicts. simpl. apply negb_true_iff, Z.eqb_neq. intros E. symmetry in E.
      by apply (tr_version _ _ _ _ _ Ht k) in E.
Qed.

Lemma commit_ok n s hist t a :
  txn_rel n (data s) hist t a -> dom (si_writes a) ## hist_dom (drop (si_start a) hist) ->
  exists s', commit hash_iter s t = Ok s' /\
    forall k, om_get k (data s') =
      if decide (k ∈ dom (si_writes a)) then om_get k (buffer t) else om_get k (data s).
Proof.
  intros Ht Hdisj. unfold commit.
  destruct (existsb _ _) eqn:E; [by apply (conflict_iff _ _ _ _ _ Ht) in E|].
  destruct (commit_fold (buffer t) (hash_iter (modified t)) (data s)) as (d' & Hf & Hd').
  { intros [k v] [Hk _]%(txn_rel_modified _ _ _ _ _ _ _ Ht). simpl. apply elem_of_dom in Hk as [o Ho].
    pose proof (tr_buffer _ _ _ _ _ Ht k) as Hb. rewrite Ho in Hb. destruct Hb as (v' & -> & _). done. }
  cbn zeta. rewrite Hf. eexists. split; [done|]. simpl. intros k. rewrite Hd'.
  assert (Hiff : k ∈ (hash_iter (modified t)).*1 <-> k ∈ dom (si_writes a)).
  { rewrite list_elem_of_fmap. split.
    - intros ([k' v] & -> & Hin). by apply (txn_rel_modified _ _ _ _ _ _ _ Ht) in Hin as [? _].
    - intros Hk. exists (k, version_of (read_buffer t) k). split; [done|].
      by apply (txn_rel_modified _ _ _ _ _ _ _ Ht). }
  repeat case_decide; tauto.
Qed.

(** The store after the commit holds the longer history. *)
Lemma map_rel_commit n d d' hist t a :
  map_rel n d hist -> txn_rel n d hist t a ->
  dom (si_writes a) ## hist_dom (drop (si_start a) hist) ->
  (forall k, om_get k d' = if decide (k ∈ dom (si_writes a)) then om_get k (buffer t) else om_get k d) ->
  map_rel n d' (hist ++ [si_writes a]).
Proof.
  intros Hd Ht Hdisj Hd' k. destruct (Hd k) as (Hv & Hdom & Hb).
  pose proof (tr_buffer _ _ _ _ _ Ht k) as Hbuf.
  rewrite hist_value_app, hist_value_one, hist_dom_app, hist_dom_one, elem_of_union.
  unfold value_of in *. rewrite Hd'. case_decide as E.
  - apply elem_of_dom in E as [o Ho]. rewrite Ho in Hbuf |- *. destruct Hbuf as (v & -> & Hver & _).
    simpl. split; [done|]. split; [split; [intros _; right; by eapply elem_of_dom_2|by eexists]|].
    intros e [= <-]. simpl.
    assert (0 <= version_of (read_buffer t) k)%Z; [|lia].
    destruct (tr_snapshot _ _ _ _ _ Ht k) as (_ & _ & Hr). unfold version_of.
    destruct (om_get k (read_buffer t)) as [e|]; [|lia]. specialize (Hr e eq_refl). lia.
  - assert (E' := E). apply not_elem_of_dom in E' as ->. simpl. split; [done|]. split; [|done].
    rewrite Hdom. naive_solver.
Qed.

(** The other transactions see the commit as one more write set since they
    began. *)
Lemma txn_rel_commit n d d' hist t a t2 a2 :
  txn_rel n d hist t a -> dom (si_writes a) ## hist_dom (drop (si_start a) hist) ->
  (forall k, om_get k d' = if decide (k ∈ dom (si_writes a)) then om_get k (buffer t) else om_get k d) ->
  txn_rel n d hist t2 a2 -> txn_rel n d' (hist ++ [si_writes a]) t2 a2.
Proof.
  intros Ht Hdisj Hd' [H1 H2 H3 H4]. split.
  - rewrite length_app. lia.
  - by rewrite take_app_le.
  - intros k. specialize (H3 k) as [Hle Hiff]. rewrite drop_app_le by done.
    rewrite hist_dom_app, hist_dom_one, not_elem_of_union. unfold version_of in *. rewrite Hd'.
    case_decide as E; [|tauto].
    pose proof (tr_buffer _ _ _ _ _ Ht k) as Hbuf. assert (Ek := E). apply elem_of_dom in E as [o Ho].
    rewrite Ho in Hbuf. destruct Hbuf as (v & -> & Hver & _). simpl.
    destruct (tr_version _ _ _ _ _ Ht k) as [_ [_ Hsame]].
    unfold version_of in *. rewrite Hsame in Hver by set_solver. split; [lia|]. split; [lia|tauto].
  - done.
Qed.

(** *** Steps *)
Lemma sim_mono n n' c a : (n <= n')%Z -> sim n c a -> sim n' c a.
Proof.
  intros Hn [H1 H2]. split; [by eapply map_rel_mono|]. intros h.
  destruct (H2 h); constructor. by eapply txn_rel_mono.
Qed.

Lemma sim_on_txn n c a h f g :
  sim n c a ->
  (forall t at_, si_open a !! h = Some at_ -> sys_open c !! h = Some t ->
     txn_rel n (data (sys_store c)) (si_hist a) t at_ ->
     (f t).2 = (g at_).2 /\ sim (n + 1) (f t).1 (g at_).1) ->
  (on_txn c h f).2 = (on_si a h g).2 /\ sim (n + 1) (on_txn c h f).1 (on_si a h g).1.
Proof.
  intros Hs Hfg. unfold on_txn, on_si. pose proof (sim_open _ _ _ Hs h) as Ho.
  destruct (sys_open c !! h) as [t|], (si_open a !! h) as [at_|]; inversion Ho; subst.
  - by apply Hfg.
  - split; [done|]. apply (sim_mono n); [lia|done].
Qed.

Lemma sim_set_txn n c a h t at_ :
  sim n c a -> txn_rel n (data (sys_store c)) (si_hist a) t at_ ->
  sim n (set_txn c h t) (MkSi (si_hist a) (<[h := at_]> (si_open a))).
Proof.
  intros [H1 H2] Ht. split; [done|]. intros h'. simpl.
  destruct (decide (h' = h)) as [->|Hne].
  - rewrite !lookup_insert_eq. by constructor.
  - rewrite !lookup_insert_ne by done. apply H2.
Qed.

Lemma sim_writes n c a h t t' at_ w :
  (0 <= n)%Z -> (n + 1 < 2 ^ 64)%Z -> sim n c a ->
  txn_rel n (data (sys_store c)) (si_hist a) t at_ -> writes_of t t' w ->
  sim (n + 1) (set_txn c h t') (si_write a h at_ w).
Proof.
  intros Hn0 Hn Hs Ht Hw. apply sim_set_txn; [apply (sim_mono n); [lia|done]|].
  by eapply txn_rel_writes.
Qed.

Lemma sim_close n c a h : sim n c a ->
  sim n (MkSys (sys_store c) (base.delete h (sys_open c))) (MkSi (si_hist a) (base.delete h (si_open a))).
Proof.
  intros [H1 H2]. split; [done|]. intros h'. simpl. destruct (decide (h' = h)) as [->|Hne].
  - rewrite !lookup_delete_eq. constructor.
  - rewrite !lookup_delete_ne by done. apply H2.
Qed.

Lemma sim_begin n c a h : (0 <= n)%Z -> sim n c a ->
  (kv_step hash_iter c (OpBegin h)).2 = (si_step a (OpBegin h)).2
  /\ sim (n + 1) (kv_step hash_iter c (OpBegin h)).1 (si_step a (OpBegin h)).1.
Proof.
  intros Hn Hs. pose proof (sim_open _ _ _ Hs h) as Ho. simpl.
  destruct (sys_open c !! h), (si_open a !! h); inversion Ho; subst; simpl.
  { split; [done|]. apply (sim_mono n); [lia|done]. }
  split; [done|]. apply (sim_mono n); [lia|]. destruct Hs as [H1 H2].
  split; [done|]. intros h'. simpl. destruct (decide (h' = h)) as [->|Hne].
  - rewrite !lookup_insert_eq. constructor. split; simpl.
    + done.
    + by rewrite take_ge.
    + intros k. rewrite drop_ge by done. split; [done|]. split; [|done]. intros _. apply not_elem_of_empty.
    + intros k. rewrite lookup_empty. simpl. done.
  - rewrite !lookup_insert_ne by done. apply H2.
Qed.

Lemma range_keys n d hist t a lo hi :
  txn_rel n d hist t a -> oleb lo hi = true ->
  (list_to_set (om_range lo hi (buffer t)).*1 : gset bytes) =
  filter (in_range lo hi) (hist_dom (take (si_start a) hist ++ [si_writes a])).
Proof.
  intros Ht Hle. apply set_eq. intros k. rewrite elem_of_list_to_set, elem_of_filter, list_elem_of_fmap.
  rewrite <- (proj2 (txn_rel_current _ _ _ _ _ Ht k)). unfold in_range. split.
  - intros ([k' e] & -> & (? & ? & ?)%om_range_elem); [|done]. simpl. eauto.
  - intros [[? ?] [e He]]. exists (k, e). split; [done|]. by apply om_range_elem.
Qed.

Lemma scan_keys_set n d hist t a lo hi :
  txn_rel n d hist t a -> oleb lo hi = true ->
  (list_to_set (live_keys (buffer t) lo hi) : gset bytes) =
  filter (fun k => in_range lo hi k /\ is_Some (hist_value (take (si_start a) hist ++ [si_writes a]) None k))
    (hist_dom (take (si_start a) hist ++ [si_writes a])).
Proof.
  intros Ht Hle. apply set_eq. intros k.
  rewrite elem_of_list_to_set, elem_of_filter. unfold live_keys. rewrite list_elem_of_fmap.
  destruct (txn_rel_current _ _ _ _ _ Ht k) as [Hv Hd]. rewrite <- Hd, <- Hv. unfold in_range, value_of.
  split.
  - intros ([k' e] & -> & Hin). apply list_elem_of_In, filter_In in Hin as [Hin Hl].
    apply list_elem_of_In, om_range_elem in Hin as (? & ? & He); [|done]. simpl in *.
    apply bool_decide_eq_true_1 in Hl. rewrite He. eauto.
  - intros ([[? ?] Hs] & [e He]). exists (k, e). split; [done|]. apply list_elem_of_In, filter_In.
    split; [apply list_elem_of_In, om_range_elem; done|]. rewrite He in Hs. by apply bool_decide_eq_true_2.
Qed.

Lemma sim_commit n c a h : sim n c a ->
  (kv_step hash_iter c (OpCommit h)).2 = (si_step a (OpCommit h)).2
  /\ sim (n + 1) (kv_step hash_iter c (OpCommit h)).1 (si_step a (OpCommit h)).1.
Proof.
  intros Hs. simpl. apply (sim_on_txn n); [done|]. intros t at_ Ha Hc Ht. unfold si_since.
  case_decide as Hd; simpl.
  - destruct (commit_ok _ _ _ _ _ Ht Hd) as (s' & -> & Hs'). simpl. split; [done|].
    apply (sim_mono n); [lia|]. destruct Hs as [H1 H2]. split; simpl.
    + by eapply map_rel_commit.
    + intros h'. destruct (decide (h' = h)) as [->|Hne].
      * rewrite !lookup_delete_eq. constructor.
      * rewrite !lookup_delete_ne by done. specialize (H2 h').
        destruct H2; constructor. by eapply txn_rel_commit.
  - unfold commit. rewrite (proj2 (conflict_iff _ _ _ _ _ Ht)) by done. simpl. split; [done|].
    apply (sim_mono n); [lia|]. by apply sim_close.
Qed.

Lemma sim_step n c a op :
  (0 <= n)%Z -> (n + 1 < 2 ^ 64)%Z -> op_ok op -> sim n c a ->
  (kv_step hash_iter c op).2 = (si_step a op).2
  /\ sim (n + 1) (kv_step hash_iter c op).1 (si_step a op).1.
Proof.
  intros Hn0 Hn Hop Hs. assert (Hs' : sim (n + 1) c a) by (apply (sim_mono n); [lia|done]).
  destruct op as [h|h k|h k v|h k|h lo hi|h lo hi|h];
    [by apply sim_begin| | | | | |by apply sim_commit]; cbn [kv_step si_step op_ok] in *;
    apply (sim_on_txn n); try done; intros t at_ Ha Hc Ht; cbn [fst snd]; split; try done.
  - f_equal. apply (tr_snapshot _ _ _ _ _ Ht k).
  - eapply sim_writes; [done..|apply write_writes].
  - eapply sim_writes; [done..|apply write_writes].
  - eapply sim_writes; [done..|]. unfold si_current, si_base.
    rewrite <- (range_keys _ _ _ _ _ _ _ Ht Hop). apply fold_delete_writes.
    apply bt_sorted_nodup, om_range_sorted. done.
  - f_equal. unfold scan_keys. erewrite drain_live; [|done|done|lia]. by eapply scan_keys_set.
Qed.

Lemma sim_new : sim 0 sys_new si_new.
Proof.
  split; simpl.
  - intros k. unfold value_of. rewrite om_get_empty. split; [done|]. split; [|done].
    split; [by intros [? ?]|]. intros Hk. by apply hist_dom_nil in Hk.
  - intros h. rewrite !lookup_empty. constructor.
Qed.

Lemma sim_run n c a ops :
  (0 <= n)%Z -> (n + Z.of_nat (length ops) < 2 ^ 64)%Z -> Forall op_ok ops -> sim n c a ->
  kv_run hash_iter c ops = si_run a ops.
Proof.
  intros Hn0 Hn Hops. revert n c a Hn0 Hn.
  induction Hops as [|op ops Hop Hops IH]; intros n c a Hn0 Hn Hs; [done|].
  cbn [length] in Hn. destruct (sim_step n c a op) as [Hr Hs']; [done|lia|done|done|].
  cbn [kv_run si_run]. destruct (kv_step hash_iter c op) as [c' r], (si_step a op) as [a' r'].
  simpl in *. subst r'. f_equal. apply (IH (n + 1)%Z); [lia|lia|done].
Qed.
End Simulation.
