(* ===== verification/Backend.v ===== *)
(** * Logs and prefixes of the server's back ends

    Both back ends of the server keep every key of a store under a prefix, and
    apply the writes of a transaction in order when it commits.  Here is what a
    log of writes does to a map from keys to values, and that writes under one
    prefix stay there. *)
From stdpp Require Import prelude list.
From Stdlib Require Import Strings.Byte Sorted.
From S2P Require Import Prelude OrdMap.

(** [enum ModOp] of [sqlite.rs]. *)
Inductive ModOp :=
| MPut (key value : bytes)
| MDelete (key : bytes)
| MDeleteRange (start end_ : bytes).

Abbreviation Contents := (bytes -> option bytes).

Definition apply_op (m : Contents) (op : ModOp) : Contents := fun k =>
  match op with
  | MPut key value => if decide (k = key) then Some value else m k
  | MDelete key => if decide (k = key) then None else m k
  | MDeleteRange start end_ => if oleb start k && oltb k end_ then None else m k
  end.

Definition apply_log (m : Contents) (log : list ModOp) : Contents := foldl apply_op m log.

(** [prefix.iter().chain(key.iter()).collect()]. *)
Definition with_prefix (prefix key : bytes) : bytes := prefix ++ key.

Definition op_with_prefix (prefix : bytes) (op : ModOp) : ModOp :=
  match op with
  | MPut key value => MPut (with_prefix prefix key) value
  | MDelete key => MDelete (with_prefix prefix key)
  | MDeleteRange start end_ => MDeleteRange (with_prefix prefix start) (with_prefix prefix end_)
  end.

(** The writes of the log are writes under the prefix. *)
Definition log_under (prefix : bytes) (log : list ModOp) : Prop :=
  exists ops, log = op_with_prefix prefix <$> ops.

(** ** Lemmas *)
Lemma apply_log_snoc m log op k : apply_log m (log ++ [op]) k = apply_op (apply_log m log) op k.
Proof. unfold apply_log. by rewrite foldl_app. Qed.

Lemma apply_op_ext m m' op k : (forall k, m k = m' k) -> apply_op m op k = apply_op m' op k.
Proof. intros He. destruct op; simpl; by rewrite He. Qed.

Lemma apply_log_ext m m' log k : (forall k, m k = m' k) -> apply_log m log k = apply_log m' log k.
Proof.
  unfold apply_log. revert m m' k. induction log as [|op log IH]; intros m m' k He; [done|]. apply IH.
  intros k'. by apply apply_op_ext.
Qed.

(** A log leaves a key as it is, or settles what is there. *)
Lemma apply_log_settles log k :
  (forall m, apply_log m log k = m k) \/ (forall m m', apply_log m log k = apply_log m' log k).
Proof.
  induction log as [|op log IH] using rev_ind; [by left|].
  assert (Hop : (forall m, apply_op m op k = m k) \/ (forall m m', apply_op m op k = apply_op m' op k)).
  { destruct op as [key value|key|lo hi]; simpl; [case_decide; auto..|]. destruct (_ && _); auto. }
  destruct Hop as [Hop|Hop]; [|right; intros m m'; rewrite !apply_log_snoc; apply Hop].
  destruct IH as [IH|IH]; [left; intros m|right; intros m m']; rewrite !apply_log_snoc, !Hop; auto.
Qed.

Lemma log_under_snoc p log op : log_under p log -> log_under p (log ++ [op_with_prefix p op]).
Proof. intros [ops ->]. exists (ops ++ [op]). by rewrite fmap_app. Qed.

(** Inside the prefix a log does what its writes do without the prefix. *)
Lemma apply_op_inside p op m k :
  apply_op m (op_with_prefix p op) (p ++ k) = apply_op (fun k => m (p ++ k)) op k.
Proof.
  destruct op as [key value|key|lo hi]; simpl; unfold with_prefix; [..|by rewrite oleb_app_same, oltb_app_same];
    (destruct (decide (k = key)) as [->|Hne]; [by rewrite decide_True|]);
    rewrite decide_False; [done| |done|]; by intros He%app_inv_head.
Qed.

(** Outside of it nothing changes. *)
Lemma apply_op_outside p op m k :
  (forall r, k <> p ++ r) -> apply_op m (op_with_prefix p op) k = m k.
Proof.
  intros Hk. destruct op as [key value|key|lo hi]; simpl; unfold with_prefix; [by rewrite decide_False by apply Hk..|].
  destruct (oleb _ _ && oltb _ _) eqn:E; [|done]. apply andb_true_iff in E as [H1 H2].
  destruct (between_prefix p lo hi k H1 H2) as [r Hr]. by destruct (Hk r).
Qed.

Lemma apply_log_outside p log m k :
  log_under p log -> (forall r, k <> p ++ r) -> apply_log m log k = m k.
Proof.
  intros [ops ->] Hk. unfold apply_log. revert m. induction ops as [|op ops IH]; intros m; [done|].
  cbn [fmap list_fmap foldl]. rewrite IH. by apply apply_op_outside.
Qed.

Lemma apply_log_inside p ops m k :
  apply_log m (op_with_prefix p <$> ops) (p ++ k) = apply_log (fun k => m (p ++ k)) ops k.
Proof.
  unfold apply_log. revert m. induction ops as [|op ops IH]; intros m; [done|].
  cbn [fmap list_fmap foldl]. rewrite IH. apply apply_log_ext. intros k'. apply apply_op_inside.
Qed.

(** Keys of a range, without their prefix. *)
Lemma unprefix_keys (p lo hi : bytes) (m : Contents) (ks : list bytes) :
  StronglySorted (fun x y => cmp x y = Lt) ((p ++.) <$> ks) ->
  (forall k, k ∈ (p ++.) <$> ks <-> oleb (p ++ lo) k = true /\ oltb k (p ++ hi) = true /\ is_Some (m k)) ->
  StronglySorted (fun x y => cmp x y = Lt) ks /\
  forall k, k ∈ ks <-> oleb lo k = true /\ oltb k hi = true /\ is_Some (m (p ++ k)).
Proof.
  intros Hsort Hkeys. split.
  - clear Hkeys. induction ks as [|k ks IH]; [constructor|]. rewrite fmap_cons in Hsort.
    apply StronglySorted_inv in Hsort as [Hsort Hall]. constructor; [auto|]. rewrite Forall_fmap in Hall.
    eapply Forall_impl; [exact Hall|]. intros a Ha. cbn in Ha. by rewrite cmp_app_same in Ha.
  - intros k. rewrite <- (oleb_app_same p lo), <- (oltb_app_same p k hi), <- Hkeys.
    split; [intros Hk; apply list_elem_of_fmap; by exists k|].
    intros (k' & He & Hk')%list_elem_of_fmap. by apply app_inv_head in He as ->.
Qed.
