(* ===== verification/Sqlite.v ===== *)
(** * The SQLite back end: [rdb-server/src/kv_backend/sqlite.rs]

    A store is a table of the database and a prefix of its keys.  A transaction
    reads at once and keeps its writes in a log, which [commit] replays on the
    SQLite transaction.  That transaction lives in a worker task, which is gone
    when it could not be opened.  SQLite itself, through the crates [rusqlite]
    and [r2d2], is the class [Sqlite]. *)
From stdpp Require Import prelude gmap strings list sorting.
From Stdlib Require Import Strings.Byte ZArith Sorted.
From S2P Require Import Prelude OrdMap Kv Backend.

(** [rusqlite::Error]: a failure of SQLite with its code and reason, or another
    error. *)
Inductive RusqliteError :=
| SqliteFailure (code : Z) (reason : option string)
| OtherFailure (message : string).

(** The statements of the back end: [select v from t where k = ?], [select k from
    t where k >= ? and k < ? order by k desc], the upsert, the two deletes and the
    commit.  A statement that writes depends on the database, since it takes the
    lock.  [pool_get] takes a connection from the pool. *)
Class Sqlite (D X : Type) := {
  pool_get : D -> unit + string;
  sq_transaction : D -> X + RusqliteError;
  sq_select_v : X -> string -> bytes -> option bytes + RusqliteError;
  sq_select_k_desc : X -> string -> bytes -> bytes -> list bytes + RusqliteError;
  sq_upsert : D -> X -> string -> bytes -> bytes -> X + RusqliteError;
  sq_delete : D -> X -> string -> bytes -> X + RusqliteError;
  sq_delete_range : D -> X -> string -> bytes -> bytes -> X + RusqliteError;
  sq_commit : D -> X -> D + RusqliteError;
  sq_message : RusqliteError -> string
}.

(** What SQLite documents of transactions in WAL mode: they read the database as it
    was when they began, with their own writes; one that has written commits only
    if no one else has committed since it began. *)
Class SqliteLaws (D X : Type) `{Sqlite D X} := {
  sq_rows : D -> string -> Contents;
  sq_began : X -> string -> Contents;
  sq_reads : X -> string -> Contents;
  sq_wrote : X -> bool;
  sq_transaction_law : forall d x, sq_transaction d = inl x ->
    sq_wrote x = false /\ sq_began x = sq_rows d /\ sq_reads x = sq_rows d;
  sq_select_v_law : forall x t k r, sq_select_v x t k = inl r -> r = sq_reads x t k;
  sq_select_k_law : forall x t lo hi ks, sq_select_k_desc x t lo hi = inl ks ->
    StronglySorted (fun a b => cmp b a = Lt) ks /\
    forall k, k ∈ ks <-> oleb lo k = true /\ oltb k hi = true /\ is_Some (sq_reads x t k);
  sq_upsert_law : forall d x t k v x', sq_upsert d x t k v = inl x' ->
    sq_wrote x' = true /\ sq_began x' = sq_began x /\
    forall t' k', sq_reads x' t' k' =
      if decide (t' = t) then apply_op (sq_reads x t') (MPut k v) k' else sq_reads x t' k';
  sq_delete_law : forall d x t k x', sq_delete d x t k = inl x' ->
    sq_wrote x' = true /\ sq_began x' = sq_began x /\
    forall t' k', sq_reads x' t' k' =
      if decide (t' = t) then apply_op (sq_reads x t') (MDelete k) k' else sq_reads x t' k';
  sq_delete_range_law : forall d x t lo hi x', sq_delete_range d x t lo hi = inl x' ->
    sq_wrote x' = true /\ sq_began x' = sq_began x /\
    forall t' k', sq_reads x' t' k' =
      if decide (t' = t) then apply_op (sq_reads x t') (MDeleteRange lo hi) k' else sq_reads x t' k';
  sq_commit_law : forall d x d', sq_commit d x = inl d' ->
    if sq_wrote x then sq_began x = sq_rows d /\ sq_rows d' = sq_reads x else sq_rows d' = sq_rows d
}.

(** [?] on the result of a call. *)
Definition of_result {E A} (r : A + E) : outcome E A :=
  match r with inl a => Ok a | inr e => Err e end.

(** ** The store *)
Section Sqlite.
Context {D X : Type} `{!Sqlite D X}.

Record SqliteKvStore := MkSqliteKvStore { global : D; store_table : string; store_prefix : bytes }.

(** [worker] is the SQLite transaction in the worker of the transaction, if there
    is one. *)
Record SqliteKvTxn := MkSqliteKvTxn {
  worker : option X;
  log : list ModOp;
  table : string;
  prefix : bytes
}.

(** The errors of [sqlite_run]: the one of the closure, or that its worker is gone. *)
Inductive RunError := RRusqlite (e : RusqliteError) | RInterrupted.

Definition run_message (e : RunError) : string :=
  match e with RRusqlite e => sq_message e | RInterrupted => "interrupted" end.

(** [txn_worker]: it returns at once when the transaction cannot be opened. *)
Definition txn_worker (d : D) : option X :=
  match sq_transaction d with inl x => Some x | inr _ => None end.

Definition sqlite_begin_transaction (s : SqliteKvStore) : anyhow (SqliteKvStore * SqliteKvTxn) :=
  let? _ := of_result (pool_get (global s)) in
  Ok (s, MkSqliteKvTxn (txn_worker (global s)) [] (store_table s) (store_prefix s)).

Definition sqlite_run {R} (t : SqliteKvTxn) (f : X -> outcome RusqliteError R) : outcome RunError R :=
  match worker t with
  | Some x => map_err RRusqlite (f x)
  | None => Err RInterrupted
  end.

Definition sqlite_get (t : SqliteKvTxn) (key : bytes) : anyhow (option bytes) :=
  let key := with_prefix (prefix t) key in
  map_err run_message (sqlite_run t (fun x => of_result (sq_select_v x (table t) key))).

Definition push_op (t : SqliteKvTxn) (op : ModOp) : SqliteKvTxn :=
  MkSqliteKvTxn (worker t) (log t ++ [op]) (table t) (prefix t).

Definition sqlite_put (t : SqliteKvTxn) (key value : bytes) : anyhow SqliteKvTxn :=
  let key := with_prefix (prefix t) key in Ok (push_op t (MPut key value)).

Definition sqlite_delete (t : SqliteKvTxn) (key : bytes) : anyhow SqliteKvTxn :=
  let key := with_prefix (prefix t) key in Ok (push_op t (MDelete key)).

Definition sqlite_delete_range (t : SqliteKvTxn) (start end_ : bytes) : anyhow SqliteKvTxn :=
  let start := with_prefix (prefix t) start in
  let end_ := with_prefix (prefix t) end_ in
  Ok (push_op t (MDeleteRange start end_)).

(** The iterator pops the keys from the end of its vector. *)
Abbreviation SqliteKvIterator := (list bytes).

Definition sqlite_next (it : SqliteKvIterator) : option bytes * SqliteKvIterator :=
  match reverse it with
  | [] => (None, [])
  | k :: rest => (Some k, reverse rest)
  end.

Fixpoint sqlite_drain (fuel : nat) (it : SqliteKvIterator) : list bytes :=
  match fuel with
  | O => []
  | S fuel => match sqlite_next it with
              | (None, _) => []
              | (Some k, it) => k :: sqlite_drain fuel it
              end
  end.

(** [x[prefix_len..].to_vec()] panics on a shorter key. *)
Definition strip_len {E} (prefix_len : nat) (x : bytes) : outcome E bytes :=
  if decide (prefix_len <= length x) then Ok (drop prefix_len x) else Panic.

Definition sqlite_scan_keys (t : SqliteKvTxn) (start end_ : bytes) : anyhow SqliteKvIterator :=
  let start := with_prefix (prefix t) start in
  let end_ := with_prefix (prefix t) end_ in
  map_err run_message (sqlite_run t (fun x =>
    let? keys := of_result (sq_select_k_desc x (table t) start end_) in
    mapM_o (strip_len (length (prefix t))) keys)).

(** The closure of [commit]. *)
Definition replay_op (d : D) (table : string) (x : X) (op : ModOp) : outcome RusqliteError X :=
  match op with
  | MPut key value => of_result (sq_upsert d x table key value)
  | MDelete key => of_result (sq_delete d x table key)
  | MDeleteRange start end_ => of_result (sq_delete_range d x table start end_)
  end.

Definition commit_error (e : RunError) : KvError :=
  match e with
  | RRusqlite (SqliteFailure _ (Some reason)) =>
      if decide (reason = "database is locked") then Conflict else CommitStateUnknown
  | _ => CommitStateUnknown
  end.

Definition sqlite_commit (s : SqliteKvStore) (t : SqliteKvTxn) : outcome KvError SqliteKvStore :=
  map_err commit_error
    (let? d := sqlite_run t (fun x =>
       let? x := foldM_o (replay_op (global s) (table t)) x (log t) in
       of_result (sq_commit (global s) x)) in
     Ok (MkSqliteKvStore d (store_table s) (store_prefix s))).

#[export] Instance sqlite_transaction : KvTransaction SqliteKvTxn := {
  kv_get := sqlite_get;
  kv_put := sqlite_put;
  kv_delete := sqlite_delete;
  kv_delete_range := sqlite_delete_range;
  kv_scan_keys t lo hi := let? it := sqlite_scan_keys t lo hi in Ok (sqlite_drain (length it) it)
}.

#[export] Instance sqlite_store : KeyValueStore SqliteKvStore SqliteKvTxn := {
  kv_begin := sqlite_begin_transaction;
  kv_commit := sqlite_commit
}.
End Sqlite.
Arguments SqliteKvStore D : clear implicits.
Arguments SqliteKvTxn X : clear implicits.

(** ** What its transactions see *)
Section Laws.
Context {D X : Type} `{!Sqlite D X} `{!SqliteLaws D X}.
Implicit Types (t : SqliteKvTxn X) (s : SqliteKvStore D).

(** The table as the transaction reads it. *)
Definition table_reads t : Contents :=
  match worker t with Some x => sq_reads x (table t) | None => fun _ => None end.

#[export] Instance sqlite_view : KvView (SqliteKvTxn X) := {
  kv_snapshot t k := table_reads t (with_prefix (prefix t) k);
  kv_current t k := apply_log (table_reads t) (log t) (with_prefix (prefix t) k);
  kv_scans_own_writes := false
}.

#[export] Instance sqlite_contents : KvContents (SqliteKvStore D) :=
  fun s k => sq_rows (global s) (store_table s) (with_prefix (store_prefix s) k).

(** The three writes push one operation, under the prefix. *)
Lemma sqlite_write_inv t t' : kv_write t t' -> exists op, t' = push_op t (op_with_prefix (prefix t) op).
Proof.
  intros [k v [= <-]|k [= <-]|lo hi _ [= <-]]; [by exists (MPut k v)|by exists (MDelete k)|by exists (MDeleteRange lo hi)].
Qed.

Lemma push_current t op k :
  kv_current (push_op t (op_with_prefix (prefix t) op)) k = apply_op (kv_current t) op k.
Proof. cbn [kv_current sqlite_view push_op log prefix table worker]. rewrite apply_log_snoc. apply apply_op_inside. Qed.

Lemma sqlite_drain_all it : sqlite_drain (length it) it = reverse it.
Proof.
  assert (Hr : forall l : list bytes, sqlite_drain (length l) (reverse l) = l);
    [|by rewrite <- (reverse_involutive it) at 2; rewrite <- length_reverse, Hr].
  intros l. induction l as [|k l IH]; [done|].
  cbn [length sqlite_drain]. unfold sqlite_next. rewrite reverse_involutive. by rewrite IH.
Qed.

Lemma strip_len_all {E} (p : bytes) (keys : list bytes) :
  (forall k, k ∈ keys -> exists r, k = p ++ r) ->
  exists ks, mapM_o (E := E) (strip_len (length p)) keys = Ok ks /\ keys = (p ++.) <$> ks.
Proof.
  induction keys as [|k keys IH]; intros Hp; [by exists []|].
  destruct (Hp k) as [r ->]; [left|]. destruct IH as (ks & Hks & ->); [intros; apply Hp; by right|].
  exists (r :: ks). cbn [mapM_o]. unfold strip_len at 1. rewrite decide_True by (rewrite length_app; lia).
  by rewrite drop_app_length, Hks.
Qed.

(** The scan: the keys of the range, in order, without the prefix. *)
Lemma sqlite_scan_spec t lo hi :
  match kv_scan_keys t lo hi with
  | Ok ks => StronglySorted (fun x y => cmp x y = Lt) ks /\
      forall k, k ∈ ks <-> oleb lo k = true /\ oltb k hi = true /\ is_Some (kv_snapshot t k)
  | Err _ => True
  | Panic | NoFuel => False
  end.
Proof.
  cbn [kv_scan_keys sqlite_transaction kv_snapshot sqlite_view]. unfold sqlite_scan_keys, sqlite_run, table_reads, with_prefix.
  destruct (worker t) as [x|]; [|done]. destruct (sq_select_k_desc _ _ _ _) as [keys|e] eqn:E; [|done].
  apply sq_select_k_law in E as [Hsort Hkeys]. cbn [of_result obind].
  destruct (strip_len_all (E := RusqliteError) (prefix t) keys) as (ks & -> & ->).
  { intros k (H1 & H2 & _)%Hkeys. by eapply between_prefix. }
  cbn [map_err obind]. rewrite sqlite_drain_all. apply (unprefix_keys _ _ _ (sq_reads x (table t))).
  - rewrite fmap_reverse. apply StronglySorted_reverse, Hsort.
  - intros k. rewrite fmap_reverse, elem_of_reverse. apply Hkeys.
Qed.

#[export] Instance sqlite_laws : KvTransactionLaws (SqliteKvTxn X).
Proof.
  split.
  - intros t k r. cbn [kv_get sqlite_transaction kv_snapshot sqlite_view]. unfold sqlite_get, sqlite_run, table_reads.
    destruct (worker t) as [x|]; [|done]. destruct (sq_select_v _ _ _) as [v|] eqn:E; [|done].
    intros [= <-]. by apply sq_select_v_law in E.
  - intros t k v t' [= <-]. split; [done|]. intros k'. apply (push_current t (MPut k v)).
  - intros t k t' [= <-]. split; [done|]. intros k'. apply (push_current t (MDelete k)).
  - intros t lo hi t' _ [= <-]. split; [done|]. intros k'. apply (push_current t (MDeleteRange lo hi)).
  - intros t lo hi ks _ Hs. pose proof (sqlite_scan_spec t lo hi) as Hspec. by rewrite Hs in Hspec.
  - intros t lo hi ks Hs k Hk. pose proof (sqlite_scan_spec t lo hi) as Hspec. rewrite Hs in Hspec.
    destruct Hspec as [_ Hspec]. apply Hspec in Hk. tauto.
Qed.

#[export] Instance sqlite_returns : KvReturns (SqliteKvTxn X).
Proof.
  split; try done.
  - intros t k. cbn [kv_get sqlite_transaction]. unfold sqlite_get, sqlite_run. destruct (worker t); [|done].
    by destruct (sq_select_v _ _ _).
  - intros t lo hi. pose proof (sqlite_scan_spec t lo hi) as Hspec. by destruct (kv_scan_keys t lo hi).
Qed.
End Laws.

(** ** Committing *)
Section Commit.
Context {D X : Type} `{!Sqlite D X} `{!SqliteLaws D X}.
Implicit Types (t : SqliteKvTxn X) (s : SqliteKvStore D).

Lemma sqlite_steps_inv t0 t : kv_steps t0 t ->
  worker t = worker t0 /\ table t = table t0 /\ prefix t = prefix t0 /\
  exists ops, log t = log t0 ++ (op_with_prefix (prefix t0) <$> ops).
Proof.
  induction 1 as [t|t t1 t2 Hw _ (H1 & H2 & H3 & ops & H4)].
  - split_and!; try done. exists []. by rewrite app_nil_r.
  - destruct (sqlite_write_inv _ _ Hw) as [op ->]. cbn [push_op worker table prefix log] in *.
    split_and!; try done. exists (op :: ops). by rewrite H4, <- (assoc_L (++)).
Qed.

Lemma replay_op_spec d tbl x op x' : replay_op d tbl x op = Ok x' ->
  sq_wrote x' = true /\ sq_began x' = sq_began x /\
  forall tbl' k, sq_reads x' tbl' k = if decide (tbl' = tbl) then apply_op (sq_reads x tbl') op k else sq_reads x tbl' k.
Proof.
  destruct op as [key value|key|lo hi]; cbn [replay_op]; intros He.
  - destruct (sq_upsert _ _ _ _ _) eqn:E; [|done]. injection He as ->. by apply sq_upsert_law in E.
  - destruct (sq_delete _ _ _ _) eqn:E; [|done]. injection He as ->. by apply sq_delete_law in E.
  - destruct (sq_delete_range _ _ _ _ _) eqn:E; [|done]. injection He as ->. by apply sq_delete_range_law in E.
Qed.

Lemma replay_spec d tbl log x x' : foldM_o (replay_op d tbl) x log = Ok x' ->
  sq_wrote x' = (sq_wrote x || bool_decide (log <> [])) /\ sq_began x' = sq_began x /\
  forall tbl' k, sq_reads x' tbl' k = if decide (tbl' = tbl) then apply_log (sq_reads x tbl') log k else sq_reads x tbl' k.
Proof.
  revert x. induction log as [|op log IH]; intros x; cbn [foldM_o].
  - intros [= <-]. split_and!; [by destruct (sq_wrote x)|done|]. intros tbl' k. by case_decide.
  - intros (x1 & (Hw & Hb & Hr)%replay_op_spec & (Hw' & Hb' & Hr')%IH)%obind_ok.
    split_and!; [rewrite Hw', Hw; by destruct (sq_wrote x)|congruence|].
    intros tbl' k. rewrite Hr'. case_decide as Et; [|rewrite Hr; by rewrite decide_False].
    cbn [apply_log foldl]. apply apply_log_ext. intros k'. rewrite Hr. by rewrite decide_True.
Qed.

(** What a commit that succeeds has done to the rows of the database. *)
Lemma sqlite_commit_inv s t s' : sqlite_commit s t = Ok s' ->
  exists x x', worker t = Some x /\ foldM_o (replay_op (global s) (table t)) x (log t) = Ok x' /\
    sq_commit (global s) x' = inl (global s') /\ store_table s' = store_table s /\ store_prefix s' = store_prefix s.
Proof.
  unfold sqlite_commit, sqlite_run. intros Hc.
  destruct (worker t) as [x|]; [|done]. destruct (foldM_o _ _ _) as [x'| | |] eqn:Er; cbn in Hc; try done.
  destruct (sq_commit _ _) as [d|e] eqn:Ec; cbn in Hc; [|done]. injection Hc as <-. by exists x, x'.
Qed.

Lemma sqlite_begin_inv s s1 t : kv_begin s = Ok (s1, t) ->
  s1 = s /\ log t = [] /\ table t = store_table s /\ prefix t = store_prefix s /\
  forall x, worker t = Some x ->
    sq_wrote x = false /\ sq_began x = sq_rows (global s) /\ sq_reads x = sq_rows (global s).
Proof.
  intros (u & _ & [= <- <-])%obind_ok. split_and!; try done. intros x. cbn [worker]. unfold txn_worker.
  destruct (sq_transaction (global s)) as [x'|] eqn:E; [|done]. intros [= ->]. by apply sq_transaction_law.
Qed.

(** A commit is serial: either nothing was written and the rows stay as they are,
    or no one has committed since the transaction began and the rows are now as
    it leaves them, with every change under its prefix of its table. *)
Lemma sqlite_commit_serial s0 s1 t0 t s s' :
  kv_begin s0 = Ok (s1, t0) -> kv_steps t0 t -> kv_commit s t = Ok s' ->
  (forall k, kv_current t0 k = kv_contents s0 k) /\
  ((log t = [] /\ (forall k, kv_current t k = kv_current t0 k) /\ sq_rows (global s') = sq_rows (global s)) \/
   (sq_rows (global s) = sq_rows (global s0) /\
    (forall k, sq_rows (global s') (store_table s0) (with_prefix (store_prefix s0) k) = kv_current t k) /\
    forall tbl k, tbl <> store_table s0 \/ (forall r, k <> store_prefix s0 ++ r) ->
      sq_rows (global s') tbl k = sq_rows (global s) tbl k)).
Proof.
  intros (-> & Hl0 & Ht0 & Hp0 & Hx0)%sqlite_begin_inv Hs Hc.
  destruct (sqlite_steps_inv _ _ Hs) as (Hwk & Ht & Hp & ops & Hl).
  destruct (sqlite_commit_inv _ _ _ Hc) as (x & x' & Hx & Hr & Hd & _ & _). rewrite Hl0 in Hl. cbn [app] in Hl.
  destruct (Hx0 x) as (Hnw & Hbeg & Hrd); [congruence|].
  assert (Hreads : table_reads t0 = sq_rows (global s0) (store_table s0) /\ table_reads t = table_reads t0).
  { unfold table_reads. by rewrite <- Hwk, Hx, Ht, Ht0, Hrd. }
  destruct Hreads as [Hr0 Hrt]. cbn [kv_current sqlite_view]. rewrite Hrt, Hr0, Hl0, Hp, Hp0. split; [done|].
  destruct (replay_spec _ _ _ _ _ Hr) as (Hw & Hb & Hrows). apply sq_commit_law in Hd.
  rewrite Hw, Hnw in Hd. cbn [orb] in Hd. case_bool_decide as Hlog; [right|left].
  - destruct Hd as [Hsame Hnew]. rewrite Hb, Hbeg in Hsame. split; [done|]. rewrite Hnew. split.
    + intros k. by rewrite Hrows, decide_True, Hrd by congruence.
    + intros tbl k Hk. rewrite Hrows. case_decide as Et; [|by rewrite Hrd, <- Hsame].
      destruct Hk as [Hk|Hk]; [congruence|]. rewrite (apply_log_outside (store_prefix s0)), Hrd; [by rewrite Hsame| |done].
      exists ops. by rewrite Hl, Hp0.
  - by rewrite Hlog.
Qed.

(** The error of a commit is [Conflict] when SQLite reports a locked database. *)
Lemma sqlite_commit_returns s t : returns (sqlite_commit s t).
Proof.
  unfold sqlite_commit, sqlite_run. destruct (worker t) as [x|]; [|done].
  assert (Hr : returns (foldM_o (replay_op (global s) (table t)) x (log t))).
  { apply (foldM_o_returns _ (fun _ => True)); [done| |done]. intros x1 [] _ _; cbn [replay_op];
      by destruct (_ : X + RusqliteError). }
  destruct (foldM_o _ _ _); try done. cbn [obind]. by destruct (sq_commit _ _).
Qed.

#[export] Instance sqlite_store_laws : KvStoreLaws (SqliteKvStore D) (SqliteKvTxn X).
Proof.
  split.
  - by intros s s1 t (-> & _)%sqlite_begin_inv k.
  - intros s s1 t k r (-> & _ & Ht & Hp & Hx)%sqlite_begin_inv Hg.
    assert (Hr : r = table_reads t (with_prefix (prefix t) k)) by by apply kv_get_law in Hg.
    unfold table_reads in Hr. cbn [kv_get sqlite_transaction] in Hg. unfold sqlite_get, sqlite_run in Hg.
    destruct (worker t) as [x|] eqn:Ew; [|done]. destruct (Hx x eq_refl) as (_ & _ & He).
    by rewrite Hr, He, Ht, Hp.
  - intros s s1 t0 t s' Hb Hs Hc k. destruct (sqlite_begin_inv _ _ _ Hb) as [-> _].
    destruct (sqlite_commit_serial _ _ _ _ _ _ Hb Hs Hc) as [H0 Hend]. split; [done|].
    destruct (sqlite_commit_inv _ _ _ Hc) as (_ & _ & _ & _ & _ & Ht & Hp).
    unfold kv_contents, sqlite_contents. rewrite Ht, Hp. destruct Hend as [(_ & Hcur & ->)|(_ & -> & _)]; [|done].
    by rewrite Hcur, H0.
Qed.
End Commit.
