(* ===== verification/Foundation.v ===== *)
(** * The FoundationDB back end: [rdb-server/src/kv_backend/foundationdb.rs]

    A store is a prefix of the keys of the database.  The transaction of the
    client library does the work; it is created with read-your-writes disabled.
    A scan reads the range in batches whose size the library chooses, and moves
    the begin of the range after the last key of each.  The library is the class
    [Fdb]. *)
From stdpp Require Import prelude gmap strings list sorting.
From Stdlib Require Import Strings.Byte ZArith Sorted.
From S2P Require Import Prelude OrdMap Kv Backend.

(** The selectors a range is made of here. *)
Inductive KeySelector := FirstGreaterOrEqual (key : bytes) | FirstGreaterThan (key : bytes).

Record RangeOption := MkRange { range_begin : KeySelector; range_end : KeySelector }.

(** [R] is a transaction with the default options, [X] one with
    [ReadYourWritesDisable].  [fdb_get_range] gives the keys of a batch; [fdb_size]
    bounds the number of keys of the database and only serves as fuel. *)
Class Fdb (D R X E : Type) := {
  fdb_create_trx : D -> R + E;
  fdb_disable_ryw : R -> X + E;
  fdb_get : X -> bytes -> option bytes + E;
  fdb_set : X -> bytes -> bytes -> X;
  fdb_clear : X -> bytes -> X;
  fdb_clear_range : X -> bytes -> bytes -> X;
  fdb_get_range : X -> RangeOption -> nat -> list bytes + E;
  fdb_commit : D -> X -> D + E;
  fdb_is_retryable_not_committed : E -> bool;
  fdb_message : E -> string;
  fdb_size : X -> nat
}.

Definition after_begin (b : KeySelector) (k : bytes) : bool :=
  match b with FirstGreaterOrEqual lo => oleb lo k | FirstGreaterThan lo => oltb lo k end.

Definition before_end (e : KeySelector) (k : bytes) : bool :=
  match e with FirstGreaterOrEqual hi => oltb k hi | FirstGreaterThan hi => oleb k hi end.

(** The keys of a range, in order. *)
Definition range_keys (m : Contents) (r : RangeOption) (l : list bytes) : Prop :=
  StronglySorted (fun x y => cmp x y = Lt) l /\
  forall k, k ∈ l <-> after_begin (range_begin r) k = true /\ before_end (range_end r) k = true /\ is_Some (m k).

(** What the documentation of FoundationDB says: a transaction reads a snapshot,
    without its own writes; a batch is a first part of the range and is empty only
    when the range is; a commit applies the writes in order. *)
Class FdbLaws (D R X E : Type) `{Fdb D R X E} := {
  fdb_rows : D -> Contents;
  fdb_began : X -> Contents;
  fdb_writes : X -> list ModOp;
  fdb_begin_law : forall d r x, fdb_create_trx d = inl r -> fdb_disable_ryw r = inl x ->
    fdb_began x = fdb_rows d /\ fdb_writes x = [];
  fdb_get_law : forall x k r, fdb_get x k = inl r -> r = fdb_began x k;
  fdb_set_law : forall x k v,
    fdb_began (fdb_set x k v) = fdb_began x /\ fdb_writes (fdb_set x k v) = fdb_writes x ++ [MPut k v];
  fdb_clear_law : forall x k,
    fdb_began (fdb_clear x k) = fdb_began x /\ fdb_writes (fdb_clear x k) = fdb_writes x ++ [MDelete k];
  fdb_clear_range_law : forall x lo hi, oleb lo hi = true ->
    fdb_began (fdb_clear_range x lo hi) = fdb_began x /\
    fdb_writes (fdb_clear_range x lo hi) = fdb_writes x ++ [MDeleteRange lo hi];
  fdb_get_range_law : forall x r i batch, fdb_get_range x r i = inl batch ->
    exists rest, range_keys (fdb_began x) r (batch ++ rest) /\ (batch = [] -> rest = []);
  fdb_size_law : forall x l, NoDup l -> (forall k, k ∈ l -> is_Some (fdb_began x k)) -> length l <= fdb_size x;
  fdb_commit_law : forall d x d', fdb_commit d x = inl d' ->
    forall k, fdb_rows d' k = apply_log (fdb_rows d) (fdb_writes x) k
}.

Section Fdb.
Context {D R X E : Type} `{!Fdb D R X E}.

Record FdbKvStore := MkFdbKvStore { db : D; store_prefix : bytes }.
Record FdbTxn := MkFdbTxn { inner : X; prefix : bytes }.

(** [?] on an error of the library. *)
Definition of_fdb {A} (r : A + E) : anyhow A :=
  match r with inl a => Ok a | inr e => Err (fdb_message e) end.

Definition fdb_begin_transaction (s : FdbKvStore) : anyhow (FdbKvStore * FdbTxn) :=
  let? txn := of_fdb (fdb_create_trx (db s)) in
  let? txn := of_fdb (fdb_disable_ryw txn) in
  Ok (s, MkFdbTxn txn (store_prefix s)).

Definition fdb_txn_get (t : FdbTxn) (k : bytes) : anyhow (option bytes) :=
  let k := with_prefix (prefix t) k in of_fdb (fdb_get (inner t) k).

Definition fdb_txn_put (t : FdbTxn) (k v : bytes) : anyhow FdbTxn :=
  let k := with_prefix (prefix t) k in Ok (MkFdbTxn (fdb_set (inner t) k v) (prefix t)).

Definition fdb_txn_delete (t : FdbTxn) (k : bytes) : anyhow FdbTxn :=
  let k := with_prefix (prefix t) k in Ok (MkFdbTxn (fdb_clear (inner t) k) (prefix t)).

Definition fdb_txn_delete_range (t : FdbTxn) (start end_ : bytes) : anyhow FdbTxn :=
  let start := with_prefix (prefix t) start in
  let end_ := with_prefix (prefix t) end_ in
  Ok (MkFdbTxn (fdb_clear_range (inner t) start end_) (prefix t)).

(** ** Scanning *)
Record FdbIterator := MkFdbIterator {
  it_values : option (list bytes * nat);
  it_range : RangeOption;
  it_iteration : nat
}.

Definition fdb_scan_keys (t : FdbTxn) (start end_ : bytes) : FdbIterator :=
  let start := with_prefix (prefix t) start in
  let end_ := with_prefix (prefix t) end_ in
  MkFdbIterator None (MkRange (FirstGreaterOrEqual start) (FirstGreaterOrEqual end_)) 1.

(** [fdb_strip_prefix]. *)
Fixpoint fdb_strip_prefix (p k : bytes) : option bytes :=
  match p, k with
  | [], _ => Some k
  | a :: p, b :: k => if decide (a = b) then fdb_strip_prefix p k else None
  | _ :: _, [] => None
  end.

(** The batch [next] looks at: the current one, or a new one; none when the new
    one is empty. *)
Definition fdb_batch (t : FdbTxn) (it : FdbIterator) : anyhow (option (list bytes * nat * FdbIterator)) :=
  match it_values it with
  | Some (values, value_index) => Ok (Some (values, value_index, it))
  | None =>
      let? values := of_fdb (fdb_get_range (inner t) (it_range it) (it_iteration it)) in
      if decide (length values = 0) then Ok None
      else Ok (Some (values, 0, MkFdbIterator (Some (values, 0)) (it_range it) (it_iteration it + 1)))
  end.

Definition fdb_next (t : FdbTxn) (it : FdbIterator) : anyhow (option bytes * FdbIterator) :=
  let? batch := fdb_batch t it in
  match batch with
  | None => Ok (None, it)
  | Some (values, value_index, it) =>
      let? raw_key := unwrap (values !! value_index) in
      let? key := unwrap (fdb_strip_prefix (prefix t) raw_key) in
      if decide (value_index + 1 = length values) then
        Ok (Some key, MkFdbIterator None (MkRange (FirstGreaterThan raw_key) (range_end (it_range it)))
                        (it_iteration it))
      else Ok (Some key, MkFdbIterator (Some (values, value_index + 1)) (it_range it) (it_iteration it))
  end.

Fixpoint fdb_drain (fuel : nat) (t : FdbTxn) (it : FdbIterator) : anyhow (list bytes) :=
  match fuel with
  | O => NoFuel
  | S fuel =>
      let? (key, it) := fdb_next t it in
      match key with
      | None => Ok []
      | Some k => let? ks := fdb_drain fuel t it in Ok (k :: ks)
      end
  end.

(** [iterators]: how many iterators of the transaction are still alive and share
    it, so that [Arc::try_unwrap] fails. *)
Definition fdb_txn_commit (iterators : nat) (s : FdbKvStore) (t : FdbTxn) : outcome KvError FdbKvStore :=
  if decide (iterators <> 0) then Err CommitStateUnknown
  else
    match fdb_commit (db s) (inner t) with
    | inl d => Ok (MkFdbKvStore d (store_prefix s))
    | inr e => if fdb_is_retryable_not_committed e then Err Conflict else Err CommitStateUnknown
    end.

#[export] Instance fdb_transaction : KvTransaction FdbTxn := {
  kv_get := fdb_txn_get;
  kv_put := fdb_txn_put;
  kv_delete := fdb_txn_delete;
  kv_delete_range := fdb_txn_delete_range;
  kv_scan_keys t lo hi := fdb_drain (S (fdb_size (inner t))) t (fdb_scan_keys t lo hi)
}.

(** The executor drops its iterators before it commits. *)
#[export] Instance fdb_store : KeyValueStore FdbKvStore FdbTxn := {
  kv_begin := fdb_begin_transaction;
  kv_commit := fdb_txn_commit 0
}.
End Fdb.
Arguments FdbKvStore D : clear implicits.
Arguments FdbTxn X : clear implicits.

(** ** Laws *)
Lemma fdb_strip_prefix_app p k : fdb_strip_prefix p (p ++ k) = Some k.
Proof. induction p as [|a p IH]; [done|]. cbn [app fdb_strip_prefix]. by rewrite decide_True. Qed.

Section Laws.
Context {D R X E : Type} `{!Fdb D R X E} `{!FdbLaws D R X E}.
Implicit Types (t : FdbTxn X) (s : FdbKvStore D).

#[export] Instance fdb_view : KvView (FdbTxn X) := {
  kv_snapshot t k := fdb_began (inner t) (with_prefix (prefix t) k);
  kv_current t k := apply_log (fdb_began (inner t)) (fdb_writes (inner t)) (with_prefix (prefix t) k);
  kv_scans_own_writes := false
}.

#[export] Instance fdb_contents : KvContents (FdbKvStore D) :=
  fun s k => fdb_rows (db s) (with_prefix (store_prefix s) k).

(** A write adds one operation, under the prefix. *)
Definition wrote (t t' : FdbTxn X) (op : ModOp) : Prop :=
  prefix t' = prefix t /\ fdb_began (inner t') = fdb_began (inner t) /\
  fdb_writes (inner t') = fdb_writes (inner t) ++ [op_with_prefix (prefix t) op].

Lemma wrote_current t t' op k : wrote t t' op -> kv_current t' k = apply_op (kv_current t) op k.
Proof.
  intros (Hp & Hb & Hw). cbn [kv_current fdb_view]. rewrite Hp, Hb, Hw, apply_log_snoc. apply apply_op_inside.
Qed.

Lemma wrote_snapshot t t' op : wrote t t' op -> kv_snapshot t' = kv_snapshot t.
Proof. intros (Hp & Hb & _). cbn [kv_snapshot fdb_view]. by rewrite Hp, Hb. Qed.

Lemma put_wrote t k v t' : kv_put t k v = Ok t' -> wrote t t' (MPut k v).
Proof. intros [= <-]. split; [done|]. apply fdb_set_law. Qed.

Lemma delete_wrote t k t' : kv_delete t k = Ok t' -> wrote t t' (MDelete k).
Proof. intros [= <-]. split; [done|]. apply fdb_clear_law. Qed.

Lemma delete_range_wrote t lo hi t' :
  oleb lo hi = true -> kv_delete_range t lo hi = Ok t' -> wrote t t' (MDeleteRange lo hi).
Proof. intros Hle [= <-]. split; [done|]. apply fdb_clear_range_law. unfold with_prefix. by rewrite oleb_app_same. Qed.

Lemma fdb_write_inv t t' : kv_write t t' -> exists op, wrote t t' op.
Proof.
  intros [k v Hk|k Hk|lo hi Hle Hk]; [by eexists; apply put_wrote|by eexists; apply delete_wrote|].
  eexists. by apply delete_range_wrote.
Qed.

(** ** Paging *)
(** The raw keys an iterator is still to yield. *)
Definition still_to_come (t : FdbTxn X) (it : FdbIterator) (l : list bytes) : Prop :=
  match it_values it with
  | None => range_keys (fdb_began (inner t)) (it_range it) l
  | Some (values, i) => exists b rest,
      last values = Some b /\ i < length values /\ l = drop i values ++ rest /\
      range_keys (fdb_began (inner t)) (MkRange (FirstGreaterThan b) (range_end (it_range it))) rest
  end.

(** After the last key of a batch comes the rest of the range. *)
Lemma range_keys_rest m r batch b rest :
  range_keys m r (batch ++ rest) -> last batch = Some b ->
  range_keys m (MkRange (FirstGreaterThan b) (range_end r)) rest.
Proof.
  intros [Hs Hk] [init ->]%last_Some. rewrite <- (assoc_L (++)) in Hs, Hk. cbn [app] in Hs, Hk.
  assert (Hb : b ∈ init ++ b :: rest) by set_solver.
  apply StronglySorted_app in Hs as (Hcross & _ & Hs). apply StronglySorted_inv in Hs as [Hs Hall].
  rewrite Forall_forall in Hall. split; [done|]. intros k. cbn [after_begin range_begin range_end]. split.
  - intros Hin. destruct (proj1 (Hk k)) as (_ & ? & ?); [set_solver|]. split; [|done]. by apply oltb_lt, Hall.
  - intros (Hlt%oltb_lt & He & Hm).
    assert (Hin : k ∈ init ++ b :: rest).
    { apply Hk. split; [|done]. destruct (proj1 (Hk b) Hb) as (Ha & _ & _).
      destruct (range_begin r) as [lo|lo]; cbn [after_begin] in *.
      - apply oleb_le. by rewrite (oleb_lt_trans lo b k).
      - apply oltb_lt in Ha. apply oltb_lt. by eapply cmp_trans. }
    apply elem_of_app in Hin as [Hin|[->|Hin]%elem_of_cons]; [|by apply cmp_lt_irrefl in Hlt|done].
    exfalso. apply (cmp_lt_asym b k Hlt). apply Hcross; [done|left].
Qed.

Lemma fdb_next_step t it l :
  still_to_come t it l -> (forall k, k ∈ l -> exists r, k = prefix t ++ r) ->
  match fdb_next t it with
  | Ok (Some k, it') => exists l', l = (prefix t ++ k) :: l' /\ still_to_come t it' l'
  | Ok (None, _) => l = []
  | Err _ => True
  | Panic | NoFuel => False
  end.
Proof.
  intros Hcome Hp. unfold fdb_next, fdb_batch.
  assert (Hcur : forall values i it', still_to_come t it' l -> it_values it' = Some (values, i) ->
    match (let? raw_key := unwrap (values !! i) in
           let? key := unwrap (fdb_strip_prefix (prefix t) raw_key) in
           if decide (i + 1 = length values) then
             Ok (Some key, MkFdbIterator None (MkRange (FirstGreaterThan raw_key) (range_end (it_range it')))
                             (it_iteration it'))
           else Ok (Some key, MkFdbIterator (Some (values, i + 1)) (it_range it') (it_iteration it'))) : anyhow _ with
    | Ok (Some k, it') => exists l', l = (prefix t ++ k) :: l' /\ still_to_come t it' l'
    | Ok (None, _) => l = [] | Err _ => True | Panic | NoFuel => False end).
  { intros values i it' Hc Hv. unfold still_to_come in Hc. rewrite Hv in Hc. destruct Hc as (b & rest & Hb & Hi & -> & Hr).
    destruct (lookup_lt_is_Some_2 values i Hi) as [k Hk]. rewrite (drop_S _ _ _ Hk) in Hp |- *. cbn [app] in *.
    destruct (Hp k) as [k' ->]; [left|]. rewrite Hk. cbn [unwrap obind]. rewrite fdb_strip_prefix_app. cbn [unwrap obind].
    case_decide as Hlast; eexists; (split; [done|]).
    - rewrite last_lookup in Hb. replace (pred (length values)) with i in Hb by lia. rewrite Hk in Hb. injection Hb as <-.
      unfold still_to_come. cbn [it_values it_range]. by rewrite drop_ge by lia.
    - unfold still_to_come. cbn [it_values it_range]. exists b, rest. split_and!; [done|lia|by rewrite Nat.add_1_r|done]. }
  destruct (it_values it) as [[values i]|] eqn:Ev; [by apply Hcur|].
  unfold still_to_come in Hcome. rewrite Ev in Hcome.
  destruct (fdb_get_range _ _ _) as [values|e] eqn:Eg; [|done]. cbn [of_fdb obind].
  apply fdb_get_range_law in Eg as (rest & Hkeys & Hempty).
  assert (l = values ++ rest) as ->.
  { destruct Hcome as [Hs1 Hk1], Hkeys as [Hs2 Hk2]. apply sorted_keys_ext; [done..|]. intros k. by rewrite Hk1, Hk2. }
  case_decide as Hlen; cbn [obind].
  - destruct values; [|done]. by rewrite Hempty.
  - apply Hcur; [|done]. unfold still_to_come. cbn [it_values it_range].
    destruct (last values) as [b|] eqn:Eb; [|by apply last_None in Eb as ->].
    exists b, rest. split_and!; [done|lia|done|]. by eapply range_keys_rest.
Qed.

Lemma fdb_drain_all fuel t it l :
  still_to_come t it l -> (forall k, k ∈ l -> exists r, k = prefix t ++ r) -> length l < fuel ->
  match fdb_drain fuel t it with
  | Ok ks => l = (prefix t ++.) <$> ks
  | Err _ => True
  | Panic | NoFuel => False
  end.
Proof.
  revert it l. induction fuel as [|fuel IH]; intros it l Hc Hp Hl; [lia|]. cbn [fdb_drain].
  pose proof (fdb_next_step t it l Hc Hp) as Hn. destruct (fdb_next t it) as [[[k|] it']| | |]; try done; cbn [obind].
  destruct Hn as (l' & -> & Hc'). specialize (IH it' l' Hc'). cbn [length] in Hl.
  destruct (fdb_drain fuel t it'); cbn [obind]; try done; [|apply IH; [set_solver|lia]..].
  rewrite fmap_cons. f_equal. apply IH; [set_solver|lia].
Qed.

(** Whatever the sizes of the batches, the scan yields the keys of the range, in
    order, without the prefix. *)
Lemma fdb_scan_spec t lo hi :
  match kv_scan_keys t lo hi with
  | Ok ks => StronglySorted (fun x y => cmp x y = Lt) ks /\
      forall k, k ∈ ks <-> oleb lo k = true /\ oltb k hi = true /\ is_Some (kv_snapshot t k)
  | Err _ => True
  | Panic | NoFuel => False
  end.
Proof.
  cbn [kv_scan_keys fdb_transaction]. set (it := fdb_scan_keys t lo hi).
  destruct (fdb_get_range (inner t) (it_range it) (it_iteration it)) as [batch|e] eqn:Eg.
  2:{ cbn [fdb_drain]. unfold fdb_next, fdb_batch. subst it. cbn [fdb_scan_keys it_values] in *. by rewrite Eg. }
  apply fdb_get_range_law in Eg as (rest & Hkeys & _). set (l := batch ++ rest) in *. destruct Hkeys as [Hsort Hkeys].
  pose proof (fdb_drain_all (S (fdb_size (inner t))) t it l (conj Hsort Hkeys)) as Hd.
  assert (Hp : forall k, k ∈ l -> exists r, k = prefix t ++ r).
  { intros k Hk. apply Hkeys in Hk as (H1 & H2 & _). exact (between_prefix _ _ _ _ H1 H2). }
  assert (Hlen : length l <= fdb_size (inner t)).
  { apply fdb_size_law; [by eapply sorted_keys_nodup|by intros k (_ & _ & Hk)%Hkeys]. }
  specialize (Hd Hp ltac:(lia)). destruct (fdb_drain _ _ _) as [ks| | |]; try done. rewrite Hd in Hsort, Hkeys.
  by apply (unprefix_keys _ _ _ (fdb_began (inner t))).
Qed.

#[export] Instance fdb_laws : KvTransactionLaws (FdbTxn X).
Proof.
  split.
  - intros t k r. cbn [kv_get fdb_transaction kv_snapshot fdb_view]. unfold fdb_txn_get.
    destruct (fdb_get _ _) as [v|] eqn:Ev; [|done]. intros [= <-]. by apply fdb_get_law in Ev.
  - intros t k v t' Hw%put_wrote. split; [by eapply wrote_snapshot|]. intros k'. by apply (wrote_current t t' (MPut k v)).
  - intros t k t' Hw%delete_wrote. split; [by eapply wrote_snapshot|]. intros k'. by apply (wrote_current t t' (MDelete k)).
  - intros t lo hi t' Hle Hw%delete_range_wrote; [|done]. split; [by eapply wrote_snapshot|].
    intros k'. by apply (wrote_current t t' (MDeleteRange lo hi)).
  - intros t lo hi ks _ Hs. pose proof (fdb_scan_spec t lo hi) as Hspec. by rewrite Hs in Hspec.
  - intros t lo hi ks Hs k Hk. pose proof (fdb_scan_spec t lo hi) as Hspec. rewrite Hs in Hspec.
    destruct Hspec as [_ Hspec]. apply Hspec in Hk. tauto.
Qed.

#[export] Instance fdb_returns : KvReturns (FdbTxn X).
Proof.
  split; try done.
  - intros t k. cbn [kv_get fdb_transaction]. unfold fdb_txn_get. by destruct (fdb_get _ _).
  - intros t lo hi. pose proof (fdb_scan_spec t lo hi) as Hspec. by destruct (kv_scan_keys t lo hi).
Qed.

(** ** Committing *)
Lemma fdb_steps_inv t0 t : kv_steps t0 t ->
  prefix t = prefix t0 /\ fdb_began (inner t) = fdb_began (inner t0) /\
  exists ops, fdb_writes (inner t) = fdb_writes (inner t0) ++ (op_with_prefix (prefix t0) <$> ops).
Proof.
  induction 1 as [t|t t1 t2 Hw _ (H1 & H2 & ops & H3)].
  - split_and!; try done. exists []. by rewrite app_nil_r.
  - destruct (fdb_write_inv _ _ Hw) as (op & Hp & Hb & Hws). rewrite H1, H2, H3, Hp, Hb, Hws.
    split_and!; try done. exists (op :: ops). by rewrite <- (assoc_L (++)).
Qed.

Lemma fdb_begin_inv s s1 t : kv_begin s = Ok (s1, t) ->
  s1 = s /\ prefix t = store_prefix s /\ fdb_began (inner t) = fdb_rows (db s) /\ fdb_writes (inner t) = [].
Proof.
  intros (r & Hr & (x & Hx & [= <- <-])%obind_ok)%obind_ok.
  destruct (fdb_create_trx _) as [r'|] eqn:E1; [|done]. injection Hr as ->.
  destruct (fdb_disable_ryw _) as [x'|] eqn:E2; [|done]. injection Hx as ->.
  destruct (fdb_begin_law _ _ _ E1 E2) as [Hb Hw]. done.
Qed.

Lemma fdb_commit_inv s t s' : kv_commit s t = Ok s' ->
  store_prefix s' = store_prefix s /\
  forall k, fdb_rows (db s') k = apply_log (fdb_rows (db s)) (fdb_writes (inner t)) k.
Proof.
  cbn [kv_commit fdb_store]. unfold fdb_txn_commit. cbn.
  destruct (fdb_commit _ _) as [d|e] eqn:E1; [|by destruct (fdb_is_retryable_not_committed e)].
  intros [= <-]. split; [done|]. by apply fdb_commit_law.
Qed.

#[export] Instance fdb_store_laws : KvStoreLaws (FdbKvStore D) (FdbTxn X).
Proof.
  split.
  - by intros s s1 t (-> & _)%fdb_begin_inv k.
  - intros s s1 t k r (_ & Hp & Hb & _)%fdb_begin_inv Hg%kv_get_law. rewrite Hg. cbn [kv_snapshot fdb_view].
    by rewrite Hp, Hb.
  - intros s s1 t0 t s' (-> & Hp & Hb & Hw)%fdb_begin_inv (Hp' & Hb' & ops & Hw')%fdb_steps_inv
      [Hp2 Hc]%fdb_commit_inv k.
    unfold kv_contents, fdb_contents. cbn [kv_current fdb_view]. rewrite Hp2, Hc, Hp', Hp, Hb', Hb, Hw. done.
Qed.

(** A commit leaves the keys outside of the prefix alone. *)
Lemma fdb_commit_prefix s0 s1 t0 t s s' :
  kv_begin s0 = Ok (s1, t0) -> kv_steps t0 t -> kv_commit s t = Ok s' ->
  forall k, (forall r, k <> store_prefix s0 ++ r) -> fdb_rows (db s') k = fdb_rows (db s) k.
Proof.
  intros (_ & Hp & _ & Hw)%fdb_begin_inv (_ & _ & ops & Hw')%fdb_steps_inv [_ Hc]%fdb_commit_inv k Hk.
  rewrite Hc, Hw', Hw, Hp. apply (apply_log_outside (store_prefix s0)); [by exists ops|done].
Qed.
End Laws.
