(* ===== verification/VmValue.v ===== *)
(** * Values and types of the tree walker: [data/treewalker/vm_value.rs]

    [VmType<String>] and [VmType<&str>] differ in ownership only and are one
    type of the model, so the conversion between them ([From<&VmType<T>>]) is
    the identity.  The [rpds] maps of map types and map values are sorted
    association lists ([OrdMap]): what is used of them is lookup, insertion,
    removal, iteration in key order and equality of contents.  An error keeps
    the values whose [Debug] form the message prints. *)
From stdpp Require Import prelude gmap strings list.
From S2P Require Import Prelude OrdMap Schema StoragePlan Planner Value PathWalker.

Inductive VmType :=
| TyPrimitive (p : PrimitiveType)
| TyTable (name : string)
| TySet (ty : VmType)
| TyBool
| TyList (ty : VmType)
| TyMap (m : list (string * VmType))
| TyUnknown
| TySchema.

(** [VmTableValueKind] and [VmSetValueKind]. *)
Inductive VmKind (A : Type) :=
| Resident (w : PathWalker)
| Fresh (a : A).
Arguments Resident {A} _.
Arguments Fresh {A} _.

Inductive VmValue :=
| VmPrimitive (p : PrimitiveValue)
| VmTable (ty : string) (kind : VmKind (list (string * VmValue)))
| VmSet (member_ty : VmType) (kind : VmKind (list (bytes * VmValue)))
| VmBool (b : bool)
| VmMap (elements : list (string * VmValue))
| VmNull (ty : VmType)
| VmList (member_ty : VmType) (node : list VmValue).

Inductive VmConst :=
| CPrimitive (p : PrimitiveValue)
| CTable (ty : string) (fields : list (string * VmConst))
| CSet (member_ty : string) (members : list VmConst)
| CBool (b : bool)
| CNull (ty : VmType).

Inductive VmValueError :=
| TypeNotFound (ty : string)
| FieldNotFoundIn (field ty : string)
| IncompatibleFieldAndValueType (expected actual : VmType)
| MissingPrimaryKey.

(** ** Equality of types and values ([PartialEq]) *)
Section Eqb.
Context {A B : Type} `{EqDecision A} (f : B -> B -> bool).

(** Sorted maps, entry by entry. *)
Fixpoint entries_eqb (m n : list (A * B)) : bool :=
  match m, n with
  | [], [] => true
  | (k, a) :: m, (l, b) :: n => bool_decide (k = l) && f a b && entries_eqb m n
  | _, _ => false
  end.

Fixpoint elems_eqb (m n : list B) : bool :=
  match m, n with
  | [], [] => true
  | a :: m, b :: n => f a b && elems_eqb m n
  | _, _ => false
  end.
End Eqb.

Definition kind_eqb {A} (f : A -> A -> bool) (x y : VmKind A) : bool :=
  match x, y with
  | Resident w1, Resident w2 => walker_eqb w1 w2
  | Fresh a, Fresh b => f a b
  | _, _ => false
  end.

Fixpoint ty_eqb (s t : VmType) : bool :=
  match s, t with
  | TyPrimitive p, TyPrimitive q => bool_decide (p = q)
  | TyTable a, TyTable b => bool_decide (a = b)
  | TySet a, TySet b => ty_eqb a b
  | TyBool, TyBool => true
  | TyList a, TyList b => ty_eqb a b
  | TyMap m, TyMap n => entries_eqb ty_eqb m n
  | TyUnknown, TyUnknown => true
  | TySchema, TySchema => true
  | _, _ => false
  end.

Fixpoint value_eqb (v w : VmValue) : bool :=
  match v, w with
  | VmPrimitive p, VmPrimitive q => bool_decide (p = q)
  | VmTable a x, VmTable b y => bool_decide (a = b) && kind_eqb (entries_eqb value_eqb) x y
  | VmSet a x, VmSet b y => ty_eqb a b && kind_eqb (entries_eqb value_eqb) x y
  | VmBool a, VmBool b => bool_decide (a = b)
  | VmMap m, VmMap n => entries_eqb value_eqb m n
  | VmNull a, VmNull b => ty_eqb a b
  | VmList a m, VmList b n => ty_eqb a b && elems_eqb value_eqb m n
  | _, _ => false
  end.

(** ** Types *)

(** [Display for VmType]. *)
Fixpoint fmt_vm_type (t : VmType) : string :=
  match t with
  | TyPrimitive p => fmt_primitive_type p
  | TyTable x => x
  | TyUnknown => "unknown"
  | TyBool => "bool"
  | TyMap m =>
      "map {" +:+ foldr (fun p acc => " " +:+ p.1 +:+ ": " +:+ fmt_vm_type p.2 +:+ "," +:+ acc) " }" m
  | TyList x => "list<" +:+ fmt_vm_type x +:+ ">"
  | TySet x => "set<" +:+ fmt_vm_type x +:+ ">"
  | TySchema => "schema"
  end.

(** [From<&FieldType>]. *)
Fixpoint ty_of_field (t : FieldType) : VmType :=
  match t with
  | FPrimitive x => TyPrimitive x
  | FTable x => TyTable x
  | FSet x => TySet (ty_of_field x)
  end.

(** [From<&CompiledSchema>]: the map of the exports. *)
Definition ty_of_schema (s : CompiledSchema) : VmType :=
  TyMap (foldl (fun m p => bt_insert p.1 (ty_of_field p.2) m) [] (exports s)).

(** [From<&VmValue>]. *)
Fixpoint ty_of_value (v : VmValue) : VmType :=
  match v with
  | VmPrimitive x => TyPrimitive (get_type x)
  | VmTable ty _ => TyTable ty
  | VmSet member_ty _ => TySet member_ty
  | VmBool _ => TyBool
  | VmMap elements => TyMap (map (fun p => (p.1, ty_of_value p.2)) elements)
  | VmNull ty => ty
  | VmList member_ty _ => member_ty
  end.

Fixpoint is_covariant_from (self that : VmType) : bool :=
  if ty_eqb self that then true
  else
    match self with
    | TyMap x =>
        match that with
        | TyMap y =>
            forallb (fun p => match bt_get p.1 y with
                              | Some v_y => is_covariant_from p.2 v_y
                              | None => false
                              end) x
        | _ => false
        end
    | _ => false
    end.

(** The first primary field, in field order. *)
Fixpoint find_primary (fields : list (string * (FieldType * list FieldAnnotation)))
  : option (string * FieldType) :=
  match fields with
  | [] => None
  | (name, (ty, ann)) :: fields => if is_primary ann then Some (name, ty) else find_primary fields
  end.

Definition set_primary_key (self : VmType) (schema : CompiledSchema) : option (string * FieldType) :=
  match self with
  | TySet (TyTable x) =>
      specialized_ty ← bt_get x (types schema);
      find_primary (st_fields specialized_ty)
  | _ => None
  end.

(** [collect::<Option<_>>]. *)
Section MapMOpt.
Context {A B : Type} (f : A -> option B).
Fixpoint mapM_opt (l : list A) : option (list B) :=
  match l with
  | [] => Some []
  | x :: l => y ← f x; ys ← mapM_opt l; Some (y :: ys)
  end.
End MapMOpt.

Fixpoint default_value (self : VmType) : option VmValue :=
  match self with
  | TyBool => Some (VmBool false)
  | TyList _ => None
  | TyMap x =>
      VmMap <$> mapM_opt (fun p => v ← default_value p.2; Some (p.1, v)) x
  | TyPrimitive x => Some (VmPrimitive (default_value_for_type x))
  | TySchema => None
  | TySet ty => Some (VmSet ty (Fresh []))
  | TyTable x => Some (VmTable x (Fresh []))
  | TyUnknown => None
  end.

(** ** Values *)
Definition is_null (v : VmValue) : bool :=
  match v with VmNull _ => true | _ => false end.

(** The [unwrap_*] methods: [None] is the panic. *)
Definition unwrap_table (v : VmValue) : option (string * VmKind (list (string * VmValue))) :=
  match v with VmTable ty kind => Some (ty, kind) | _ => None end.
Definition unwrap_map (v : VmValue) : option (list (string * VmValue)) :=
  match v with VmMap x => Some x | _ => None end.
Definition unwrap_set (v : VmValue) : option (VmType * VmKind (list (bytes * VmValue))) :=
  match v with VmSet ty kind => Some (ty, kind) | _ => None end.
Definition unwrap_primitive (v : VmValue) : option PrimitiveValue :=
  match v with VmPrimitive x => Some x | _ => None end.
Definition unwrap_bool (v : VmValue) : option bool :=
  match v with VmBool x => Some x | _ => None end.

Abbreviation vres := (outcome VmValueError).

(** The loop over the fields of a constant table. *)
Definition const_field (ty : SpecializedType) (tyname : string)
    (from_const : VmConst -> vres VmValue)
    (fields : list (string * VmValue)) (p : string * VmConst) : vres (list (string * VmValue)) :=
  let? field := ok_or (bt_get p.1 (st_fields ty)) (FieldNotFoundIn p.1 tyname) in
  let? field_value := from_const p.2 in
  let expected := ty_of_field field.1 in
  let actual := ty_of_value field_value in
  if is_covariant_from expected actual then Ok (bt_insert p.1 field_value fields)
  else Err (IncompatibleFieldAndValueType expected actual).

(** The loop over the members of a constant set; a member that is not a fresh
    table, or that lacks a primitive under the primary key, panics. *)
Definition const_member (member_ty : VmType) (primary_key : string)
    (from_const : VmConst -> vres VmValue)
    (members : list (bytes * VmValue)) (c : VmConst) : vres (list (bytes * VmValue)) :=
  let? member := from_const c in
  let actual := ty_of_value member in
  if is_covariant_from member_ty actual then
    let? table := unwrap (unwrap_table member) in
    match table.2 with
    | Fresh x =>
        let? pk := unwrap (bt_get primary_key x) in
        let? pk := unwrap (unwrap_primitive pk) in
        Ok (bt_insert (serialize_for_key_component pk) member members)
    | Resident _ => Panic
    end
  else Err (IncompatibleFieldAndValueType member_ty actual).

Fixpoint from_const (schema : CompiledSchema) (c : VmConst) : vres VmValue :=
  match c with
  | CPrimitive x => Ok (VmPrimitive x)
  | CTable xty xfields =>
      let? ty := ok_or (bt_get xty (types schema)) (TypeNotFound xty) in
      let? fields := foldM_o (const_field ty xty (from_const schema)) [] xfields in
      Ok (VmTable (st_name ty) (Fresh fields))
  | CSet xty xmembers =>
      let? member_ty := ok_or (bt_get xty (types schema)) (TypeNotFound xty) in
      let member_ty := TyTable (st_name member_ty) in
      let? pk := ok_or (set_primary_key (TySet member_ty) schema) MissingPrimaryKey in
      let? members := foldM_o (const_member member_ty pk.1 (from_const schema)) [] xmembers in
      Ok (VmSet member_ty (Fresh members))
  | CNull x => Ok (VmNull x)
  | CBool x => Ok (VmBool x)
  end.

(** ** Induction over types and values *)
Section TypeInd.
Context (P : VmType -> Prop).
Context (HPrim : forall p, P (TyPrimitive p)) (HTable : forall n, P (TyTable n)).
Context (HSet : forall t, P t -> P (TySet t)) (HBool : P TyBool) (HList : forall t, P t -> P (TyList t)).
Context (HMap : forall m, Forall (fun p => P p.2) m -> P (TyMap m)).
Context (HUnknown : P TyUnknown) (HSchema : P TySchema).

Fixpoint vmtype_ind' (t : VmType) : P t :=
  match t with
  | TyPrimitive p => HPrim p
  | TyTable n => HTable n
  | TySet t => HSet t (vmtype_ind' t)
  | TyBool => HBool
  | TyList t => HList t (vmtype_ind' t)
  | TyMap m =>
      HMap m ((fix go (m : list (string * VmType)) : Forall (fun p => P p.2) m :=
                 match m with
                 | [] => @List.Forall_nil _ _
                 | p :: m => @List.Forall_cons _ _ p m (vmtype_ind' p.2) (go m)
                 end) m)
  | TyUnknown => HUnknown
  | TySchema => HSchema
  end.
End TypeInd.

Definition kind_all {A} (P : A -> Prop) (x : VmKind A) : Prop :=
  match x with Resident _ => True | Fresh a => P a end.

Section ValueInd.
Context (P : VmValue -> Prop).
Context (HPrim : forall p, P (VmPrimitive p)).
Context (HTable : forall n k, kind_all (Forall (fun p => P p.2)) k -> P (VmTable n k)).
Context (HSet : forall t k, kind_all (Forall (fun p => P p.2)) k -> P (VmSet t k)).
Context (HBool : forall b, P (VmBool b)) (HMap : forall m, Forall (fun p => P p.2) m -> P (VmMap m)).
Context (HNull : forall t, P (VmNull t)) (HList : forall t l, Forall P l -> P (VmList t l)).

Fixpoint vmvalue_ind' (v : VmValue) : P v :=
  let entries {A} := fix go (m : list (A * VmValue)) : Forall (fun p => P p.2) m :=
    match m with
    | [] => @List.Forall_nil _ _
    | p :: m => @List.Forall_cons _ _ p m (vmvalue_ind' p.2) (go m)
    end in
  match v with
  | VmPrimitive p => HPrim p
  | VmTable n k =>
      HTable n k (match k with Resident _ => I | Fresh m => entries m end)
  | VmSet t k =>
      HSet t k (match k with Resident _ => I | Fresh m => entries m end)
  | VmBool b => HBool b
  | VmMap m => HMap m (entries m)
  | VmNull t => HNull t
  | VmList t l =>
      HList t l ((fix go (m : list VmValue) : Forall P m :=
                    match m with
                    | [] => @List.Forall_nil _ _
                    | p :: m => @List.Forall_cons _ _ p m (vmvalue_ind' p) (go m)
                    end) l)
  end.
End ValueInd.

(** ** Equality and covariance *)
Lemma entries_eqb_eq {A B} `{EqDecision A} (f : B -> B -> bool) (m n : list (A * B)) :
  Forall (fun p => forall b, f p.2 b = true <-> p.2 = b) m -> entries_eqb f m n = true <-> m = n.
Proof.
  intros Hm. revert n. induction Hm as [|[k a] m Ha Hm IH]; intros [|[l b] n]; simpl; try done.
  rewrite !andb_true_iff, IH, (Ha b), bool_decide_eq_true. simpl. naive_solver.
Qed.

Lemma ty_eqb_eq s t : ty_eqb s t = true <-> s = t.
Proof.
  revert t. induction s as [p|n|s IH| |s IH|m IH| |] using vmtype_ind'; intros [];
    simpl; try done; rewrite ?bool_decide_eq_true, ?IH; try naive_solver.
  rewrite (entries_eqb_eq ty_eqb); [naive_solver|]. exact IH.
Qed.

Lemma ty_eqb_refl t : ty_eqb t t = true.
Proof. by apply ty_eqb_eq. Qed.

#[export] Instance VmType_eq_dec : EqDecision VmType.
Proof.
  intros s t. destruct (ty_eqb s t) eqn:E; [left|right].
  - by apply ty_eqb_eq.
  - intros Heq%ty_eqb_eq. congruence.
Defined.

Definition entry_covariant (y : list (string * VmType)) (p : string * VmType) : Prop :=
  exists v_y, bt_get p.1 y = Some v_y /\ is_covariant_from p.2 v_y = true.

Lemma is_covariant_from_eq s t :
  is_covariant_from s t =
  if ty_eqb s t then true
  else match s, t with
       | TyMap x, TyMap y =>
           forallb (fun p => match bt_get p.1 y with
                             | Some v_y => is_covariant_from p.2 v_y
                             | None => false
                             end) x
       | _, _ => false
       end.
Proof. by destruct s. Qed.

Lemma cov_iff s t :
  is_covariant_from s t = true <->
  s = t \/ exists x y, s = TyMap x /\ t = TyMap y /\ Forall (entry_covariant y) x.
Proof.
  rewrite is_covariant_from_eq. destruct (ty_eqb s t) eqn:E; [apply ty_eqb_eq in E; tauto|].
  assert (Hne : s <> t).
  { intros ->. by rewrite ty_eqb_refl in E. }
  destruct s as [| | | | |x| |], t as [| | | | |y| |]; try naive_solver.
  rewrite forallb_forall. unfold entry_covariant. split.
  - intros Hx. right. exists x, y. split; [done|]. split; [done|]. rewrite Forall_forall.
    intros p Hp%list_elem_of_In. specialize (Hx p Hp). destruct (bt_get p.1 y); [eauto|done].
  - intros [?|(x' & y' & [= <-] & [= <-] & Hx)]; [done|]. intros p Hp. rewrite Forall_forall in Hx.
    destruct (Hx p) as (v & -> & Hv); [by apply list_elem_of_In|done].
Qed.

Lemma cov_refl t : is_covariant_from t t = true.
Proof. apply cov_iff. by left. Qed.

Lemma cov_trans s t u :
  is_covariant_from s t = true -> is_covariant_from t u = true -> is_covariant_from s u = true.
Proof.
  revert t u. induction s as [p|n|s IH| |s IH|x IH| |] using vmtype_ind'; intros t u Hst Htu;
    apply cov_iff in Hst as [->|(x1 & y & [= <-] & -> & Hx)]; try done.
  apply cov_iff in Htu as [<-|(y1 & z & [= <-] & -> & Hy)]; [by apply cov_iff; right; eauto|].
  apply cov_iff. right. exists x, z. split; [done|]. split; [done|].
  rewrite Forall_forall in *. intros [k a] Hin. destruct (Hx _ Hin) as (b & Hb & Hab).
  apply bt_get_elem in Hb. destruct (Hy _ Hb) as (c & Hc & Hbc). exists c. split; [done|].
  by apply (IH _ Hin b c).
Qed.

(** Only map types are related to another type than themselves. *)
Lemma cov_not_map s t :
  (forall m, s <> TyMap m) -> is_covariant_from s t = true -> s = t.
Proof. intros Hs [->|(x & y & -> & _)]%cov_iff; [done|]. by destruct (Hs x). Qed.

Lemma ty_of_field_not_map f m : ty_of_field f <> TyMap m.
Proof. by destruct f. Qed.

Lemma ty_of_field_inj f g : ty_of_field f = ty_of_field g -> f = g.
Proof.
  revert g. induction f; intros []; simpl; try done; intros [= ?]; f_equal; auto.
Qed.

(** ** Default values *)
Lemma mapM_opt_Some {A B} (f : A -> option B) l ys :
  mapM_opt f l = Some ys <-> Forall2 (fun x y => f x = Some y) l ys.
Proof.
  revert ys. induction l as [|x l IH]; intros ys; simpl.
  - split; [intros [= <-]; constructor|by inversion 1].
  - destruct (f x) as [y|] eqn:E; simpl; [|split; [done|inversion 1; congruence]].
    destruct (mapM_opt f l) as [zs|] eqn:E'; simpl.
    + split; [intros [= <-]; constructor; [done|by apply IH]|].
      inversion 1 as [|? ? ? ? Hy Hl]; subst. apply IH in Hl as [= ->]. congruence.
    + split; [done|]. inversion 1 as [|? ? ? ? Hy Hl]; subst. by apply IH in Hl.
Qed.

Lemma default_value_type_gen t v : default_value t = Some v -> ty_of_value v = t.
Proof.
  revert v. induction t as [p|n|s IH| |s IH|x IH| |] using vmtype_ind'; intros v; simpl; try done;
    try (by intros [= <-]).
  - intros [= <-]. simpl. by destruct p.
  - intros (els & Hels & ->)%fmap_Some. simpl. f_equal. apply mapM_opt_Some in Hels.
    induction Hels as [|[k a] p x els Hp Hels IH2]; simpl; [done|].
    apply Forall_cons in IH as [Ha IH]. apply bind_Some in Hp as (v & Hv & [= <-]). simpl in *.
    f_equal; [|by apply IH2]. f_equal. by apply Ha.
Qed.

(** Bool, primitive, table, set and (of such) map types have a default. *)
Fixpoint has_default (t : VmType) : bool :=
  match t with
  | TyList _ | TySchema | TyUnknown => false
  | TyMap m => forallb (fun p => has_default p.2) m
  | _ => true
  end.
