(* ===== verification/Bytecode.v ===== *)
(** * Scripts and the VM: [data/treewalker/bytecode.rs], [vm.rs]

    A script is a list of graphs of nodes; an edge is the index of the node it
    comes from.  Indices are [u32] in the source and [nat] here. *)
From stdpp Require Import prelude gmap strings list.
From S2P Require Import Prelude OrdMap Schema StoragePlan Planner Value PathWalker VmValue.

Inductive TwGraphNode :=
| LoadParam (param_index : nat)
| LoadConst (const_index : nat)
| BuildTable (table_ty : nat)
| BuildSet
| CreateMap
| CreateList (member_ty : nat)
| PrependToList
| PopFromList
| ListHead
| Reduce (subgraph_index : nat) (has_range : bool)
| GetField (key_index : nat)
| GetSetElement
| FilterSet (subgraph_index : nat)
| InsertIntoMap (key_index : nat)
| InsertIntoTable (key_index : nat)
| InsertIntoSet
| DeleteFromSet
| DeleteFromMap (key_index : nat)
| NEq
| NNe
| NAnd
| NOr
| NNot
| Select
| IsPresent
| IsNull
| Nop
| Call (subgraph_index : nat)
| NAdd
| NSub
| Throw.

#[export] Instance TwGraphNode_eq_dec : EqDecision TwGraphNode.
Proof. solve_decision. Defined.

(** A node with its in-edges and its precondition. *)
Record GNode := MkGNode {
  gn_node : TwGraphNode;
  in_edges : list nat;
  precondition : option nat
}.

Record TwGraph := MkGraph {
  g_name : string;
  exported : bool;
  g_nodes : list GNode;
  output : option nat;
  param_types : list nat;
  output_type : option nat
}.

Record TwScript := MkScript {
  graphs : list TwGraph;
  entry : nat;
  consts : list VmConst;
  idents : list string;
  script_types : list VmType
}.

Definition is_select (n : TwGraphNode) : bool :=
  match n with Select => true | _ => false end.

Definition subgraph_references (n : TwGraphNode) : list nat :=
  match n with
  | FilterSet x => [x]
  | Call x => [x]
  | Reduce x _ => [x]
  | _ => []
  end.

Definition is_optional_chained (n : TwGraphNode) : bool :=
  match n with
  | IsNull | Nop | InsertIntoMap _ | DeleteFromMap _ | Reduce _ _ | Throw => false
  | _ => true
  end.

(** ** [vm.rs] *)
Record TwVm := MkVm {
  vm_schema : CompiledSchema;
  vm_storage_plan : Plan;
  vm_script : TwScript;
  vm_consts : list VmValue;
  vm_types : list VmType;
  exported_graph_name_index : gmap string nat
}.

Inductive VmError := ExportedGraphNotFound (name : string).

Definition index_exported (m : gmap string nat) (p : nat * TwGraph) : gmap string nat :=
  if exported p.2 then <[g_name p.2 := p.1]> m else m.

Definition vm_new (schema : CompiledSchema) (storage_plan : Plan) (script : TwScript) : vres TwVm :=
  let? consts := mapM_o (from_const schema) (consts script) in
  Ok (MkVm schema storage_plan script consts (script_types script)
        (foldl index_exported ∅ (imap pair (graphs script)))).

Definition lookup_exported_graph_by_name (vm : TwVm) (name : string) : outcome VmError nat :=
  ok_or (exported_graph_name_index vm !! name) (ExportedGraphNotFound name).

(** ** Lemmas *)
Lemma vm_new_inv schema plan script vm :
  vm_new schema plan script = Ok vm ->
  vm_schema vm = schema /\ vm_storage_plan vm = plan /\ vm_script vm = script /\
  vm_types vm = script_types script /\
  Forall2 (fun c v => from_const schema c = Ok v) (consts script) (vm_consts vm).
Proof.
  unfold vm_new. intros (vs & Hvs & [= <-])%obind_ok. simpl.
  split_and!; [done..|]. by apply mapM_o_ok.
Qed.

(** The index maps a name to the last exported graph of that name. *)
Lemma index_exported_spec (l : list TwGraph) (off : nat) (m : gmap string nat) (name : string) (i : nat) :
  foldl index_exported m (imap (fun j g => (off + j, g)) l) !! name = Some i ->
  (exists g, off <= i /\ l !! (i - off) = Some g /\ exported g = true /\ g_name g = name) \/ m !! name = Some i.
Proof.
  revert off m. induction l as [|g l IH]; intros off m; simpl; [by right|].
  replace (imap ((λ (j : nat) (g0 : TwGraph), (off + j, g0)) ∘ S) l)
    with (imap (fun j g => (S off + j, g)) l)
    by (apply imap_ext; intros; simpl; f_equal; lia).
  intros [(g' & Hle & Hl & He & Hn)|Hm]%IH.
  - left. exists g'. split; [lia|]. split; [|done]. by replace (i - off) with (S (i - S off)) by lia.
  - unfold index_exported in Hm. simpl in Hm. rewrite Nat.add_0_r in Hm.
    destruct (exported g) eqn:Eg; [|by right].
    destruct (decide (g_name g = name)) as [<-|Hne].
    + rewrite lookup_insert_eq in Hm. injection Hm as <-. left. exists g. by rewrite Nat.sub_diag.
    + rewrite lookup_insert_ne in Hm by done. by right.
Qed.

Lemma lookup_exported_found schema plan script vm name i :
  vm_new schema plan script = Ok vm ->
  lookup_exported_graph_by_name vm name = Ok i ->
  exists g, graphs script !! i = Some g /\ exported g = true /\ g_name g = name.
Proof.
  unfold vm_new. intros (vs & Hvs & [= <-])%obind_ok. unfold lookup_exported_graph_by_name. simpl.
  intros Hi%ok_or_ok. apply (index_exported_spec (graphs script) 0) in Hi as [(g & _ & Hl & ?)|Hi].
  - exists g. by rewrite Nat.sub_0_r in Hl.
  - by rewrite lookup_empty in Hi.
Qed.
