(* ===== verification/Typeck.v ===== *)
(** * The type checker of scripts: [data/treewalker/typeck.rs]

    [kosaraju_scc] (of the [petgraph] crate) is a parameter: it takes the number
    of graphs and the call edges and returns the strongly connected components.
    A [HashSet] of types is a list without duplicates, a [HashMap] from graph
    indices a [gmap].  An error keeps the types its message prints. *)
From stdpp Require Import prelude gmap strings list.
From S2P Require Import Prelude OrdMap Schema StoragePlan Planner Value PathWalker VmValue Bytecode.

Inductive TypeckError :=
| InvalidInEdge
| InvalidPrecondition
| ConstIndexOob
| IdentIndexOob
| ParamIndexOob
| TypeIndexOob
| SubgraphIndexOob
| InEdgeCountMismatch (expected : nat) (node : TwGraphNode) (got : nat)
| ExpectingTypedNode
| ExpectingList (t : VmType)
| ExpectingSet (t : VmType)
| NonCovariantTypes (dst src : VmType)
| NonEqualTypes (dst src : VmType)
| NotMap (t : VmType)
| NotTable (t : VmType)
| NotMapOrTable (t : VmType)
| NotSetType (t : VmType)
| TableTypeNotFound (name : string)
| MapFieldNotPresentInTable (field table : string)
| GraphOutputIndexOob
| ParamTypeIndexOob
| OutputTypeIndexOob
| OutputNodeIndexOob
| OutputTypeMismatch (expected actual : option VmType)
| ExpectingBoolOutputForFilterSubgraphs (t : option VmType)
| FieldNotPresentInTable (field table : string)
| FieldNotPresentInMap (field : string)
| UnknownParamTypeNotResolved (param graph : nat)
| MultipleParamTypeCandidates (param graph : nat) (candidates : list VmType)
| ParamCountMismatch (op : string) (expected got : nat)
| SelectTypeMismatch (l r : VmType)
| PresenceCheckOnUnsupportedType (t : VmType)
| BadBinopOperands (l r : VmType)
| InvalidListPrepend (l v : VmType)
| CannotBuildSetFromList (t : VmType)
| NotList (t : VmType)
| NotListOrSet (t : VmType)
| MissingOutputFromReduce
| CannotInsertPrimaryKey
| RangeReduceOnNonSet.

Abbreviation tres := (outcome TypeckError).

(** [HashSet::insert]. *)
Definition hs_insert (x : VmType) (l : list VmType) : list VmType :=
  if decide (x ∈ l) then l else l ++ [x].

(** The types each graph is called with, per parameter. *)
Abbreviation Sink := (gmap nat (list (list VmType))).

Record GlobalTyckContext := MkTyck {
  scc_post_order : list (list nat);
  subgraph_expected_param_types : list (list (list VmType))
}.

Record GraphTypeInfo := MkGraphInfo {
  gi_params : list VmType;
  gi_nodes : list (option VmType)
}.

Definition default_info : GraphTypeInfo := MkGraphInfo [] [].

(** ** The free functions at the end of the file *)
Definition ensure_type (x : option VmType) : tres VmType := ok_or x ExpectingTypedNode.

Definition ensure_covariant (dst src : VmType) : tres unit :=
  if is_covariant_from dst src then Ok tt else Err (NonCovariantTypes dst src).

Definition ensure_type_eq (dst src : VmType) : tres unit :=
  if ty_eqb dst src then Ok tt else Err (NonEqualTypes dst src).

Definition extract_list_element_type (x : VmType) : tres VmType :=
  match x with TyList t => Ok t | _ => Err (ExpectingList x) end.

Definition extract_set_element_type (x : VmType) : tres VmType :=
  match x with TySet t => Ok t | _ => Err (ExpectingSet x) end.

(** [types[j]] for an in-edge [j]. *)
Definition edge_type (types : list (option VmType)) (j : nat) : tres VmType :=
  let? t := unwrap (types !! j) in ensure_type t.

Definition validate_in_edges (n : nat) (node : TwGraphNode) (in_edges : list nat)
    (types : list (option VmType)) : tres (list VmType) :=
  if decide (n = length in_edges) then mapM_o (edge_type types) in_edges
  else Err (InEdgeCountMismatch n node (length in_edges)).

(** [let [a, b] = validate_in_edges::<2>(...)?]. *)
Section Edges.
Context (node : TwGraphNode) (in_edges : list nat) (types : list (option VmType)).

Definition edges1 : tres VmType :=
  let? l := validate_in_edges 1 node in_edges types in
  match l with [a] => Ok a | _ => Panic end.
Definition edges2 : tres (VmType * VmType) :=
  let? l := validate_in_edges 2 node in_edges types in
  match l with [a; b] => Ok (a, b) | _ => Panic end.
Definition edges3 : tres (VmType * VmType * VmType) :=
  let? l := validate_in_edges 3 node in_edges types in
  match l with [a; b; c] => Ok (a, b, c) | _ => Panic end.
Definition edges5 : tres (VmType * VmType * VmType * VmType * VmType) :=
  let? l := validate_in_edges 5 node in_edges types in
  match l with [a; b; c; d; e] => Ok (a, b, c, d, e) | _ => Panic end.
End Edges.

(** ** The context *)
Section New.
Context (kosaraju_scc : nat -> list (nat * nat) -> list (list nat)).

Definition call_edges (script : TwScript) : list (nat * nat) :=
  concat (imap (fun i g => flat_map (fun n => (i,.) <$> subgraph_references (gn_node n)) (g_nodes g))
            (graphs script)).

Definition tyck_new (vm : TwVm) : tres GlobalTyckContext :=
  let script := vm_script vm in
  let expected := (fun g => replicate (length (param_types g)) []) <$> graphs script in
  let? _ := mapM_o (fun e => ok_or (graphs script !! e.2) SubgraphIndexOob) (call_edges script) in
  Ok (MkTyck (kosaraju_scc (length (graphs script)) (call_edges script)) expected).
End New.

(** ** Calls to subgraphs *)
Definition validate_subgraph_call (vm : TwVm) (opname : string) (subgraph_index : nat) (sink : Sink)
    (param_tys : list VmType) : tres (TwGraph * Sink) :=
  let? subgraph := ok_or (graphs (vm_script vm) !! subgraph_index) SubgraphIndexOob in
  if decide (length (param_types subgraph) <> length param_tys) then
    Err (ParamCountMismatch opname (length param_tys) (length (param_types subgraph)))
  else
    let v := default (replicate (length param_tys) []) (sink !! subgraph_index) in
    if decide (length v <> length param_tys) then Panic
    else Ok (subgraph, <[subgraph_index := zip_with hs_insert param_tys v]> sink).

Definition subgraph_output (vm : TwVm) (g : TwGraph) : option VmType :=
  x ← output_type g; script_types (vm_script vm) !! x.

(** ** Nodes, one definition per arm of the match *)
Section Nodes.
Context (vm : TwVm).

Definition ident (i : nat) : tres string := ok_or (idents (vm_script vm) !! i) IdentIndexOob.

Definition table_type (name : string) : tres SpecializedType :=
  ok_or (bt_get name (types (vm_schema vm))) (TableTypeNotFound name).

Definition tc_BuildSet (list_ty : VmType) : tres (option VmType) :=
  let? element_ty := extract_list_element_type list_ty in
  match element_ty with
  | TyTable _ => Ok (Some (TySet element_ty))
  | _ => Err (CannotBuildSetFromList element_ty)
  end.

Definition tc_BuildTable (table_ty : nat) (map_ty : VmType) : tres (option VmType) :=
  let? name := ident table_ty in
  let? table_ty := table_type name in
  match map_ty with
  | TyMap x =>
      let? _ := mapM_o (fun p =>
        match bt_get p.1 (st_fields table_ty) with
        | Some f => ensure_covariant (ty_of_field f.1) p.2
        | None => Err (MapFieldNotPresentInTable p.1 (st_name table_ty))
        end) x in
      Ok (Some (TyTable (st_name table_ty)))
  | _ => Err (NotMap map_ty)
  end.

Definition tc_CreateList (member_ty : nat) : tres (option VmType) :=
  let? member_ty := ok_or (vm_types vm !! member_ty) TypeIndexOob in
  Ok (Some (TyList member_ty)).

(** The common part of [DeleteFromSet] and [GetSetElement]. *)
Definition tc_set_key (primary_key_value_ty set_ty : VmType) : tres VmType :=
  let? set_member_ty := extract_set_element_type set_ty in
  let? key := unwrap (set_primary_key set_ty (vm_schema vm)) in
  match set_member_ty with
  | TyTable x =>
      let? table_ty := table_type x in
      let? field := ok_or (bt_get key.1 (st_fields table_ty)) (FieldNotPresentInTable key.1 (st_name table_ty)) in
      let? _ := ensure_covariant (ty_of_field field.1) primary_key_value_ty in
      Ok set_member_ty
  | _ => Err (NotTable set_member_ty)
  end.

Definition tc_DeleteFromSet (primary_key_value_ty set_ty : VmType) : tres (option VmType) :=
  let? _ := tc_set_key primary_key_value_ty set_ty in Ok None.

Definition tc_GetSetElement (primary_key_value_ty set_ty : VmType) : tres (option VmType) :=
  let? t := tc_set_key primary_key_value_ty set_ty in Ok (Some t).

Definition tc_DeleteFromMap (key_index : nat) (map_ty : VmType) : tres (option VmType) :=
  let? key := ident key_index in
  match map_ty with
  | TyMap x => Ok (Some (TyMap (bt_remove key x)))
  | _ => Err (NotMap map_ty)
  end.

Definition tc_GetField (key_index : nat) (map_or_table_ty : VmType) : tres (option VmType) :=
  let? key := ident key_index in
  match map_or_table_ty with
  | TyMap x => let? t := ok_or (bt_get key x) (FieldNotPresentInMap key) in Ok (Some t)
  | TyTable x =>
      let? table_ty := table_type x in
      let? f := ok_or (bt_get key (st_fields table_ty)) (FieldNotPresentInTable key (st_name table_ty)) in
      Ok (Some (ty_of_field f.1))
  | _ => Err (NotMapOrTable map_or_table_ty)
  end.

Definition tc_FilterSet (subgraph_index : nat) (sink : Sink) (subgraph_param set_ty : VmType)
    : tres (option VmType * Sink) :=
  let? set_member_ty := extract_set_element_type set_ty in
  let? (subgraph, sink) :=
    validate_subgraph_call vm "FilterSet" subgraph_index sink [set_member_ty; subgraph_param] in
  match subgraph_output vm subgraph with
  | Some TyBool => Ok (Some set_member_ty, sink)
  | o => Err (ExpectingBoolOutputForFilterSubgraphs o)
  end.

Definition tc_InsertIntoMap (key_index : nat) (value_ty map_ty : VmType) : tres (option VmType) :=
  let? key := ident key_index in
  match map_ty with
  | TyMap x => Ok (Some (TyMap (bt_insert key value_ty x)))
  | _ => Err (NotMap map_ty)
  end.

Definition tc_InsertIntoSet (value_ty set_ty : VmType) : tres (option VmType) :=
  match set_ty with
  | TySet x => let? _ := ensure_covariant x value_ty in Ok None
  | _ => Err (NotSetType set_ty)
  end.

Definition tc_InsertIntoTable (key_index : nat) (value_ty table_ty : VmType) : tres (option VmType) :=
  let? key := ident key_index in
  match table_ty with
  | TyTable x =>
      let? table_ty := table_type x in
      let? f := ok_or (bt_get key (st_fields table_ty)) (FieldNotPresentInTable key (st_name table_ty)) in
      if is_primary f.2 then Err CannotInsertPrimaryKey
      else let? _ := ensure_covariant (ty_of_field f.1) value_ty in Ok None
  | _ => Err (NotTable table_ty)
  end.

Definition tc_LoadConst (const_index : nat) : tres (option VmType) :=
  let? v := ok_or (vm_consts vm !! const_index) ConstIndexOob in
  Ok (Some (ty_of_value v)).

Definition tc_Select (left right : VmType) : tres (option VmType) :=
  if ty_eqb left right then Ok (Some left) else Err (SelectTypeMismatch left right).

Definition tc_IsPresent (x : VmType) : tres (option VmType) :=
  match x with
  | TySet _ | TyTable _ => Ok (Some TyBool)
  | _ => Err (PresenceCheckOnUnsupportedType x)
  end.

Definition tc_Call (subgraph_index : nat) (sink : Sink) (param_types : list VmType)
    : tres (option VmType * Sink) :=
  let? (subgraph, sink) := validate_subgraph_call vm "Call" subgraph_index sink param_types in
  Ok (subgraph_output vm subgraph, sink).

Definition tc_Add (l r : VmType) : tres (option VmType) :=
  match l, r with
  | TyPrimitive Int64, TyPrimitive Int64 => Ok (Some (TyPrimitive Int64))
  | TyPrimitive Double, TyPrimitive Double => Ok (Some (TyPrimitive Double))
  | TyPrimitive String_, TyPrimitive String_ => Ok (Some (TyPrimitive String_))
  | _, _ => Err (BadBinopOperands l r)
  end.

Definition tc_Sub (l r : VmType) : tres (option VmType) :=
  match l, r with
  | TyPrimitive Int64, TyPrimitive Int64 => Ok (Some (TyPrimitive Int64))
  | TyPrimitive Double, TyPrimitive Double => Ok (Some (TyPrimitive Double))
  | _, _ => Err (BadBinopOperands l r)
  end.

Definition tc_PrependToList (value list : VmType) : tres (option VmType) :=
  match list with
  | TyList x => if is_covariant_from x value then Ok (Some list) else Err (InvalidListPrepend list value)
  | _ => Err (InvalidListPrepend list value)
  end.

Definition tc_PopFromList (list : VmType) : tres (option VmType) :=
  match list with TyList _ => Ok (Some list) | _ => Err (NotList list) end.

Definition tc_ListHead (list : VmType) : tres (option VmType) :=
  match list with TyList x => Ok (Some x) | _ => Err (NotList list) end.

Definition tc_reduce_args (node : TwGraphNode) (has_range : bool) (in_edges : list nat)
    (types : list (option VmType)) : tres (VmType * VmType * VmType) :=
  if has_range then
    let? (subgraph_param, reduce_init, list_or_set_ty, start_key, end_key) :=
      edges5 node in_edges types in
    let? pk := ok_or (set_primary_key list_or_set_ty (vm_schema vm)) RangeReduceOnNonSet in
    let primary_key_ty := ty_of_field pk.2 in
    let? _ := ensure_type_eq primary_key_ty start_key in
    let? _ := ensure_type_eq primary_key_ty end_key in
    Ok (subgraph_param, reduce_init, list_or_set_ty)
  else edges3 node in_edges types.

Definition tc_Reduce (subgraph_index : nat) (sink : Sink) (subgraph_param reduce_init list_or_set_ty : VmType)
    : tres (option VmType * Sink) :=
  let? member_ty :=
    match list_or_set_ty with
    | TyList x => Ok x
    | TySet x => Ok x
    | _ => Err (NotListOrSet list_or_set_ty)
    end in
  let? (subgraph, sink) :=
    validate_subgraph_call vm "Reduce" subgraph_index sink [subgraph_param; reduce_init; member_ty] in
  let? output := ok_or (subgraph_output vm subgraph) MissingOutputFromReduce in
  let? _ := ensure_covariant reduce_init output in
  Ok (Some output, sink).

(** The match of [typeck_graph]. *)
Definition typeck_node (params : list VmType) (types : list (option VmType)) (sink : Sink)
    (node : TwGraphNode) (edges : list nat) : tres (option VmType * Sink) :=
  let pure (c : tres (option VmType)) : tres (option VmType * Sink) := omap_ok (fun t => (t, sink)) c in
  let one := edges1 node edges types in
  let two := edges2 node edges types in
  match node with
  | BuildSet => pure (let? t := one in tc_BuildSet t)
  | BuildTable i => pure (let? t := one in tc_BuildTable i t)
  | CreateList i => pure (tc_CreateList i)
  | CreateMap => pure (Ok (Some (TyMap [])))
  | DeleteFromSet => pure (let? (a, b) := two in tc_DeleteFromSet a b)
  | DeleteFromMap i => pure (let? t := one in tc_DeleteFromMap i t)
  | GetField i => pure (let? t := one in tc_GetField i t)
  | GetSetElement => pure (let? (a, b) := two in tc_GetSetElement a b)
  | FilterSet i => let? (a, b) := two in tc_FilterSet i sink a b
  | InsertIntoMap i => pure (let? (a, b) := two in tc_InsertIntoMap i a b)
  | InsertIntoSet => pure (let? (a, b) := two in tc_InsertIntoSet a b)
  | InsertIntoTable i => pure (let? (a, b) := two in tc_InsertIntoTable i a b)
  | LoadConst i => pure (let? _ := validate_in_edges 0 node edges types in tc_LoadConst i)
  | LoadParam i => pure (let? t := ok_or (params !! i) ParamIndexOob in Ok (Some t))
  | NEq | NNe => pure (let? (a, b) := two in let? _ := ensure_covariant a b in Ok (Some TyBool))
  | NAnd | NOr =>
      pure (let? (a, b) := two in
            let? _ := ensure_type_eq a TyBool in
            let? _ := ensure_type_eq b TyBool in Ok (Some TyBool))
  | NNot => pure (let? a := one in let? _ := ensure_type_eq a TyBool in Ok (Some TyBool))
  | Select => pure (let? (a, b) := two in tc_Select a b)
  | IsPresent => pure (let? a := one in tc_IsPresent a)
  | IsNull => pure (let? _ := one in Ok (Some TyBool))
  | Nop => pure (let? a := one in Ok (Some a))
  | Call i => let? ts := mapM_o (edge_type types) edges in tc_Call i sink ts
  | NAdd => pure (let? (a, b) := two in tc_Add a b)
  | NSub => pure (let? (a, b) := two in tc_Sub a b)
  | PrependToList => pure (let? (a, b) := two in tc_PrependToList a b)
  | PopFromList => pure (let? a := one in tc_PopFromList a)
  | ListHead => pure (let? a := one in tc_ListHead a)
  | Reduce i has_range =>
      let? (a, b, c) := tc_reduce_args node has_range edges types in tc_Reduce i sink a b c
  | Throw => pure (let? a := one in let? _ := ensure_type_eq (TyPrimitive String_) a in Ok None)
  end.
End Nodes.

(** ** Graphs *)
(** The in-edges and the precondition of node [i] point backwards, and the
    precondition is an effect node or a boolean node. *)
Definition check_edges (i : nat) (types : list (option VmType)) (n : GNode) : tres unit :=
  if existsb (fun j => bool_decide (i <= j)) (in_edges n) then Err InvalidInEdge
  else
    match precondition n with
    | Some j =>
        if decide (i <= j) then Err InvalidPrecondition
        else
          let? t := unwrap (types !! j) in
          match t with
          | Some TyBool | None => Ok tt
          | Some _ => Err InvalidPrecondition
          end
    | None => Ok tt
    end.

Definition typeck_step (vm : TwVm) (params : list VmType) (st : list (option VmType) * Sink)
    (p : nat * GNode) : tres (list (option VmType) * Sink) :=
  let '(types, sink) := st in
  let? _ := check_edges p.1 types p.2 in
  let? (t, sink) := typeck_node vm params types sink (gn_node p.2) (in_edges p.2) in
  Ok (types ++ [t], sink).

(** Resolution of the type of parameter [i]. *)
Definition resolve_param (vm : TwVm) (ctx : GlobalTyckContext) (graph_index : nat)
    (ip : nat * VmType) : tres VmType :=
  let '(i, p) := ip in
  let? g := unwrap (subgraph_expected_param_types ctx !! graph_index) in
  let? expected := unwrap (g !! i) in
  let? p :=
    match p, expected with
    | TyUnknown, [] => Err (UnknownParamTypeNotResolved i graph_index)
    | _, [] => Ok p
    | TyUnknown, [ty] => Ok ty
    | TyUnknown, _ => Err (MultipleParamTypeCandidates i graph_index expected)
    | _, _ => let? _ := mapM_o (ensure_covariant p) expected in Ok p
    end in
  match p with TySchema => Ok (ty_of_schema (vm_schema vm)) | _ => Ok p end.

(** The comparison of the declared with the actual output type. *)
Definition check_output (output_type actual : option VmType) : tres unit :=
  match output_type, actual with
  | Some a, Some b => ensure_covariant a b
  | None, None => Ok tt
  | _, _ => Err (OutputTypeMismatch output_type actual)
  end.

(** [opt.map(f).transpose()?]. *)
Definition option_o {E A B} (f : A -> outcome E B) (o : option A) : outcome E (option B) :=
  match o with Some a => omap_ok Some (f a) | None => Ok None end.

Definition typeck_graph (vm : TwVm) (ctx : GlobalTyckContext) (graph_index : nat) (sink : Sink)
    : tres (GraphTypeInfo * Sink) :=
  let? g := unwrap (graphs (vm_script vm) !! graph_index) in
  let? _ := match output g with
            | Some x => if decide (length (g_nodes g) <= x) then Err GraphOutputIndexOob else Ok tt
            | None => Ok tt
            end in
  let? output_ty := option_o (fun x => ok_or (vm_types vm !! x) OutputTypeIndexOob) (output_type g) in
  let? params := ok_or (mapM_opt (fun x => vm_types vm !! x) (param_types g)) ParamTypeIndexOob in
  let? params := mapM_o (resolve_param vm ctx graph_index) (imap pair params) in
  let? (types, sink) := foldM_o (typeck_step vm params) ([], sink) (imap pair (g_nodes g)) in
  let? actual := option_o (fun x => let? t := ok_or (types !! x) OutputNodeIndexOob in ensure_type t) (output g) in
  let? _ := check_output output_ty actual in
  Ok (MkGraphInfo params types, sink).

(** ** The whole script *)
(** Merge of the sink of a component into the expected parameter types. *)
Definition merge_sink (expected : list (list (list VmType))) (p : nat * list (list VmType))
    : tres (list (list (list VmType))) :=
  let? y := unwrap (expected !! p.1) in
  if decide (length p.2 <> length y) then Panic
  else Ok (<[p.1 := zip_with (fun x y => foldl (fun y e => hs_insert e y) y x) p.2 y]> expected).

Definition typeck_one (vm : TwVm) (ctx : GlobalTyckContext) (st : list GraphTypeInfo * Sink) (i : nat)
    : tres (list GraphTypeInfo * Sink) :=
  let '(info, sink) := st in
  let? (gi, sink) := typeck_graph vm ctx i sink in
  let? _ := unwrap (info !! i) in
  Ok (<[i := gi]> info, sink).

Definition typeck_scc (vm : TwVm) (st : list GraphTypeInfo * GlobalTyckContext) (scc : list nat)
    : tres (list GraphTypeInfo * GlobalTyckContext) :=
  let '(info, ctx) := st in
  let? (info, sink) := foldM_o (typeck_one vm ctx) (info, ∅) scc in
  let? expected := foldM_o merge_sink (subgraph_expected_param_types ctx) (map_to_list sink) in
  Ok (info, MkTyck (scc_post_order ctx) expected).

Definition typeck (vm : TwVm) (ctx : GlobalTyckContext) : tres (list GraphTypeInfo * GlobalTyckContext) :=
  foldM_o (typeck_scc vm) (replicate (length (graphs (vm_script vm))) default_info, ctx)
    (reverse (scc_post_order ctx)).

Lemma validate_subgraph_call_ok vm op i sink ts g sink' :
  validate_subgraph_call vm op i sink ts = Ok (g, sink') ->
  graphs (vm_script vm) !! i = Some g /\ length (param_types g) = length ts.
Proof.
  unfold validate_subgraph_call. intros Hr.
  apply obind_ok in Hr as (g0 & Hg0%ok_or_ok & Hr). cbn zeta in Hr.
  destruct (decide (length (param_types g0) <> length ts)) as [|Hl]; [discriminate|].
  destruct (decide _); [discriminate|]. injection Hr as <- _. split; [done|].
  destruct (decide (length (param_types g0) = length ts)); [done|contradiction].
Qed.
