(* ===== verification/F64.v ===== *)
(** * Doubles as bit patterns

    The executor adds and subtracts [f64] values that are kept as their bits
    ([f64::from_bits], [to_bits]).  The IEEE operations are those of the
    Standard Library's [SpecFloat] at precision 53 and exponent bound 1024.
    Rust leaves the payload of a NaN result open; the model gives the canonical
    quiet NaN. *)
From Stdlib Require Import ZArith Lia.
From Stdlib Require Import Floats.SpecFloat.
Local Open Scope Z_scope.

Definition f64_from_bits (z : Z) : spec_float :=
  let s := Z.leb (2 ^ 63) z in
  let e := Z.modulo (z / 2 ^ 52) (2 ^ 11) in
  let m := Z.modulo z (2 ^ 52) in
  if Z.eqb e 2047 then (if Z.eqb m 0 then S754_infinity s else S754_nan)
  else if Z.eqb e 0 then
    match m with Zpos p => S754_finite s p (-1074) | _ => S754_zero s end
  else
    match m + 2 ^ 52 with Zpos p => S754_finite s p (e - 1075) | _ => S754_nan end.

Definition sign_bit (s : bool) : Z := if s then 2 ^ 63 else 0.

Definition f64_to_bits (f : spec_float) : Z :=
  match f with
  | S754_zero s => sign_bit s
  | S754_infinity s => sign_bit s + 2047 * 2 ^ 52
  | S754_nan => 2047 * 2 ^ 52 + 2 ^ 51
  | S754_finite s m e =>
      if Z.ltb (Zpos m) (2 ^ 52) then sign_bit s + Zpos m
      else sign_bit s + (e + 1075) * 2 ^ 52 + (Zpos m - 2 ^ 52)
  end.

Definition f64_add (x y : Z) : Z :=
  f64_to_bits (SFadd 53 1024 (f64_from_bits x) (f64_from_bits y)).
Definition f64_sub (x y : Z) : Z :=
  f64_to_bits (SFsub 53 1024 (f64_from_bits x) (f64_from_bits y)).

Lemma bits_split z : 0 <= z < 2 ^ 64 ->
  z = sign_bit (Z.leb (2 ^ 63) z) + Z.modulo (z / 2 ^ 52) (2 ^ 11) * 2 ^ 52 + Z.modulo z (2 ^ 52).
Proof.
  intros Hz. pose proof (Z.div_mod z (2 ^ 52) ltac:(lia)) as H1.
  pose proof (Z.div_mod (z / 2 ^ 52) (2 ^ 11) ltac:(lia)) as H2.
  assert (Hd : z / 2 ^ 52 / 2 ^ 11 = z / 2 ^ 63) by (rewrite Z.div_div by lia; reflexivity).
  assert (Hs : sign_bit (Z.leb (2 ^ 63) z) = z / 2 ^ 63 * 2 ^ 63).
  { unfold sign_bit. destruct (Z.leb_spec (2 ^ 63) z).
    - replace (z / 2 ^ 63) with 1; [lia|]. apply Z.div_unique with (z - 2 ^ 63); lia.
    - rewrite Z.div_small by lia. lia. }
  rewrite Hs, <- Hd. lia.
Qed.

(** Reading the bits of a double that is no NaN and writing them back. *)
Lemma f64_bits_roundtrip z :
  0 <= z < 2 ^ 64 -> f64_from_bits z <> S754_nan -> f64_to_bits (f64_from_bits z) = z.
Proof.
  intros Hz Hn. pose proof (bits_split z Hz) as Hs. unfold f64_from_bits in *.
  set (s := Z.leb (2 ^ 63) z) in *.
  pose proof (Z.mod_pos_bound (z / 2 ^ 52) (2 ^ 11) ltac:(lia)) as He.
  pose proof (Z.mod_pos_bound z (2 ^ 52) ltac:(lia)) as Hm.
  set (e := Z.modulo (z / 2 ^ 52) (2 ^ 11)) in *. set (m := Z.modulo z (2 ^ 52)) in *.
  destruct (Z.eqb_spec e 2047) as [E|E].
  { destruct (Z.eqb_spec m 0); [|congruence]. cbn [f64_to_bits]. lia. }
  destruct (Z.eqb_spec e 0) as [E0|E0].
  - destruct m as [|p|p]; cbn [f64_to_bits]; [lia| |lia].
    destruct (Z.ltb_spec (Zpos p) (2 ^ 52)); lia.
  - destruct (m + 2 ^ 52) as [|p|p] eqn:Ep; [lia| |lia]. cbn [f64_to_bits].
    destruct (Z.ltb_spec (Zpos p) (2 ^ 52)); lia.
Qed.
