(* ===== verification/Exec.v ===== *)
(** * The executor: [data/treewalker/exec.rs]

    A graph runs as a set of pending futures: a node becomes pending when its
    inputs and its precondition are there, and completes in any order.  The
    order is a parameter ([schedule]); the calls one node makes to the
    transaction are one step of the model.  The transaction is any
    [KvTransaction]; [rmp_serde] is a parameter.

    A panic is a failure of its own ([XPanic]) that names what failed, so that
    the theorems can tell the panics a checked script may reach from those it
    may not. *)
From stdpp Require Import prelude gmap strings list.
From S2P Require Import Prelude OrdMap Schema StoragePlan Planner Value PathWalker Kv VmValue Bytecode Typeck F64.

Inductive ExecError :=
| NotImplemented (what : string)
| NullUnwrapped
| FreshTableOrSetNotSupported
| ExportTypeNotSupported
| MaxRecursionDepthExceeded (depth : nat)
| BothSelectCandidatesFired
| PathIntegrityFailure (paths : string)
| ConflictAfterRetries
| ScriptThrownError (msg : string)
| ScriptThrownNull
| Anyhow (msg : string)
| Commit (e : KvError).

(** - [PInconsistent]: [unreachable!()], an [unwrap_*] on the wrong variant, an
      index or a name that the type checker is to have checked;
    - [PPath]: [unwrap] of a failed step of a walker;
    - [PPrimaryKey]: the primary key of a set member cannot be read: its type has
      none, or the key, or the member itself, is null;
    - [PNoOutput]: a value is asked of a node or a subgraph that gave none;
    - [PDepsIndex]: a result arrives for a node that has fired already. *)
Inductive PanicSite :=
| PInconsistent
| PPath (e : PathWalkerError)
| PPrimaryKey
| PNoOutput
| PDepsIndex.

Inductive ExecFail := XErr (e : ExecError) | XPanic (p : PanicSite).

Abbreviation xres := (outcome ExecFail).

Definition MAX_RECURSION_DEPTH : nat := 128.

(** ** Lifting the outcomes of the parts *)
Definition xunwrap {A} (p : PanicSite) (o : option A) : xres A :=
  match o with Some a => Ok a | None => Err (XPanic p) end.

Definition xwalk {A} (c : wres A) : xres A := map_err (fun e => XPanic (PPath e)) c.
Definition xkv {A} (c : anyhow A) : xres A := map_err (fun m => XErr (Anyhow m)) c.

(** ** Fire rules *)
Inductive FireRuleKind := ParamDep (position : nat) | Precondition.

Record FireRuleItem := MkFireRule { target_node : nat; fr_kind : FireRuleKind }.

Abbreviation FireRuleTable := (list (list FireRuleItem)).

(** The rules a node is the target of, each with its source. *)
Definition rules_of_node (target : nat) (n : GNode) : list (nat * FireRuleItem) :=
  imap (fun position source => (source, MkFireRule target (ParamDep position))) (in_edges n) ++
  match precondition n with
  | Some source => [(source, MkFireRule target Precondition)]
  | None => []
  end.

(** [m[source].push(rule)]; an index out of range panics. *)
Definition push_rule (m : FireRuleTable) (r : nat * FireRuleItem) : xres FireRuleTable :=
  let? l := xunwrap PInconsistent (m !! r.1) in Ok (<[r.1 := l ++ [r.2]]> m).

Definition generate_fire_rules (g : TwGraph) : xres FireRuleTable :=
  foldM_o push_rule (replicate (length (g_nodes g)) [])
    (concat (imap rules_of_node (g_nodes g))).

Section Exec.
Context {T : Type} `{KvTransaction T}.
(** [rmp_serde::to_vec] (unwrapped by its callers) and [rmp_serde::from_slice]. *)
Context (rmp_to_vec : PrimitiveValue -> bytes) (rmp_from_slice : bytes -> anyhow PrimitiveValue).
(** Which of the pending futures completes next, at each step. *)
Context (schedule : nat -> nat).

Record Executor := MkExecutor {
  ex_vm : TwVm;
  ex_type_info : list GraphTypeInfo;
  ex_fire_rule_tables : list FireRuleTable
}.

Definition executor_new (vm : TwVm) (type_info : list GraphTypeInfo) : xres Executor :=
  let? tables := mapM_o generate_fire_rules (graphs (vm_script vm)) in
  Ok (MkExecutor vm type_info tables).

(** The transaction, and the number of futures that have completed. *)
Record XState := MkXState { xs_txn : T; xs_clock : nat }.

Definition with_txn (st : XState) (txn : T) : XState := MkXState txn (xs_clock st).

Context (vm : TwVm).

(** ** Reading and writing tables *)
Definition read_table_element (txn : T) (ty : string) (kind : VmKind (list (string * VmValue)))
    (key : string) : xres VmValue :=
  match kind with
  | Fresh x => xunwrap PInconsistent (bt_get key x)
  | Resident walker =>
      let? specialized_ty := xunwrap PInconsistent (bt_get ty (types (vm_schema vm))) in
      let? field := xunwrap PInconsistent (bt_get key (st_fields specialized_ty)) in
      let? walker := xwalk (enter_field walker key) in
      match field.1 with
      | FPrimitive p =>
          let? raw := xkv (kv_get txn (generate_key walker)) in
          match raw with
          | Some x => let? v := xkv (rmp_from_slice x) in Ok (VmPrimitive v)
          | None => Ok (VmNull (ty_of_field field.1))
          end
      | FSet member_ty => Ok (VmSet (ty_of_field member_ty) (Resident walker))
      | FTable x => Ok (VmTable x (Resident walker))
      end
  end.

(** [*key.last_mut().unwrap() += 1] on a prefix that ends in 0 or 1. *)
Definition bump_last (k : bytes) : xres bytes :=
  match reverse k with
  | b :: r => Ok (reverse (to_u8 (u8 b + 1)%Z :: r))
  | [] => Err (XPanic PInconsistent)
  end.

Definition delete_set (txn : T) (walker : PathWalker) : xres T :=
  let? fast_scan_start_key := xwalk (set_fast_scan_prefix walker) in
  let? fast_scan_end_key := bump_last fast_scan_start_key in
  let? data_start_key := xwalk (set_data_prefix walker) in
  let? data_end_key := bump_last data_start_key in
  let? txn := xkv (kv_delete_range txn fast_scan_start_key fast_scan_end_key) in
  xkv (kv_delete_range txn data_start_key data_end_key).

Definition delete_entry_from_set (txn : T) (walker : PathWalker) (primary_key_value : PrimitiveValue)
    : xres T :=
  let raw := serialize_for_key_component primary_key_value in
  let? fast_scan_prefix := xwalk (set_fast_scan_prefix walker) in
  let fast_scan_key := fast_scan_prefix ++ raw in
  let? data_prefix := xwalk (set_data_prefix walker) in
  let data_start_key := data_prefix ++ raw ++ [Byte.x00] in
  let data_end_key := data_prefix ++ raw ++ [Byte.x01] in
  let? txn := xkv (kv_delete txn fast_scan_key) in
  xkv (kv_delete_range txn data_start_key data_end_key).

Fixpoint walk_and_insert (txn : T) (walker : PathWalker) (value : VmValue) {struct value} : xres T :=
  match value with
  | VmNull _ => xkv (kv_delete txn (generate_key walker))
  | VmPrimitive x => xkv (kv_put txn (generate_key walker) (rmp_to_vec x))
  | VmSet _ kind =>
      let? txn := xkv (kv_put txn (generate_key walker) []) in
      match kind with
      | Fresh members =>
          let? txn := delete_set txn walker in
          foldM_o (fun txn p =>
            let? prefix := xwalk (set_fast_scan_prefix walker) in
            let? txn := xkv (kv_put txn (prefix ++ p.1) []) in
            let? walker := xwalk (enter_set_raw walker p.1) in
            walk_and_insert txn walker p.2) txn members
      | Resident _ => Err (XErr (NotImplemented "set copy is not implemented"))
      end
  | VmTable _ kind =>
      let? txn := xkv (kv_put txn (generate_key walker) []) in
      match kind with
      | Fresh fields =>
          foldM_o (fun txn p =>
            let? walker := xwalk (enter_field walker p.1) in
            walk_and_insert txn walker p.2) txn fields
      | Resident _ => Err (XErr (NotImplemented "table copy is not implemented"))
      end
  | VmBool _ | VmMap _ | VmList _ _ => Err (XPanic PInconsistent)
  end.

(** ** Nodes: the arms of [run_node] *)
Definition ident_at (i : nat) : xres string := xunwrap PInconsistent (idents (vm_script vm) !! i).
Definition param (params : list VmValue) (i : nat) : xres VmValue := xunwrap PInconsistent (params !! i).

Definition node_BuildSet (p0 : VmValue) : xres (option VmValue) :=
  match p0 with
  | VmList member_ty node =>
      let? pk := xunwrap PPrimaryKey (set_primary_key (TySet member_ty) (vm_schema vm)) in
      let? members := foldM_o (fun members n =>
        let? table := xunwrap PPrimaryKey (unwrap_table n) in
        match table.2 with
        | Fresh x =>
            let? v := xunwrap PPrimaryKey (bt_get pk.1 x) in
            let? v := xunwrap PPrimaryKey (unwrap_primitive v) in
            Ok (bt_insert (serialize_for_key_component v) n members)
        | Resident _ => Err (XErr (NotImplemented "table copy is not implemented"))
        end) [] node in
      Ok (Some (VmSet member_ty (Fresh members)))
  | _ => Err (XPanic PInconsistent)
  end.

Definition node_BuildTable (table_ty : nat) (p0 : VmValue) : xres (option VmValue) :=
  match p0 with
  | VmMap map =>
      let? ty := ident_at table_ty in
      let? specialized_ty := xunwrap PInconsistent (bt_get ty (types (vm_schema vm))) in
      let table := foldl (fun table p =>
        bt_insert p.1 (default (VmNull (ty_of_field p.2.1)) (bt_get p.1 map)) table)
        [] (st_fields specialized_ty) in
      Ok (Some (VmTable ty (Fresh table)))
  | _ => Err (XPanic PInconsistent)
  end.

Definition node_DeleteFromMap (key_index : nat) (p0 : VmValue) : xres (option VmValue) :=
  match p0 with
  | VmMap elements =>
      let? key := ident_at key_index in
      Ok (Some (VmMap (bt_remove key elements)))
  | VmNull _ => Ok (Some p0)
  | _ => Err (XPanic PInconsistent)
  end.

Definition node_GetField (txn : T) (key_index : nat) (p0 : VmValue) : xres (option VmValue) :=
  let? key := ident_at key_index in
  match p0 with
  | VmMap elements => let? v := xunwrap PInconsistent (bt_get key elements) in Ok (Some v)
  | VmTable ty kind => let? v := read_table_element txn ty kind key in Ok (Some v)
  | _ => Err (XPanic PInconsistent)
  end.

Definition node_GetSetElement (p0 p1 : VmValue) : xres (option VmValue) :=
  match p0, p1 with
  | VmPrimitive primary_key_value, VmSet (TyTable member_ty) kind =>
      match kind with
      | Resident walker =>
          let? walker := xwalk (enter_set walker primary_key_value) in
          Ok (Some (VmTable member_ty (Resident walker)))
      | Fresh _ => Err (XErr FreshTableOrSetNotSupported)
      end
  | _, _ => Err (XPanic PInconsistent)
  end.

Definition node_InsertIntoMap (key_index : nat) (p0 p1 : VmValue) : xres (option VmValue) :=
  match p1 with
  | VmMap elements =>
      let? key := ident_at key_index in
      Ok (Some (VmMap (bt_insert key p0 elements)))
  | VmNull _ => Ok (Some p1)
  | _ => Err (XPanic PInconsistent)
  end.

Definition node_InsertIntoSet (txn : T) (value p1 : VmValue) : xres T :=
  let? pk := xunwrap PPrimaryKey (set_primary_key (ty_of_value p1) (vm_schema vm)) in
  let? table := xunwrap PInconsistent (unwrap_table value) in
  let? primary_key_value := read_table_element txn table.1 table.2 pk.1 in
  let? set := xunwrap PInconsistent (unwrap_set p1) in
  let? primary_key_value := xunwrap PPrimaryKey (unwrap_primitive primary_key_value) in
  let raw := serialize_for_key_component primary_key_value in
  match set.2 with
  | Resident walker =>
      let? prefix := xwalk (set_fast_scan_prefix walker) in
      let? txn := xkv (kv_put txn (prefix ++ raw) []) in
      let? walker := xwalk (enter_set_raw walker raw) in
      walk_and_insert txn walker value
  | Fresh _ => Err (XErr FreshTableOrSetNotSupported)
  end.

Definition node_InsertIntoTable (txn : T) (key_index : nat) (value p1 : VmValue) : xres T :=
  let? key := ident_at key_index in
  let? table := xunwrap PInconsistent (unwrap_table p1) in
  match table.2 with
  | Resident walker =>
      let? walker := xwalk (enter_field walker key) in
      walk_and_insert txn walker value
  | Fresh _ => Err (XErr FreshTableOrSetNotSupported)
  end.

Definition node_DeleteFromSet (txn : T) (p0 p1 : VmValue) : xres T :=
  match p0, p1 with
  | VmPrimitive primary_key_value, VmSet _ kind =>
      match kind with
      | Resident walker => delete_entry_from_set txn walker primary_key_value
      | Fresh _ => Err (XErr FreshTableOrSetNotSupported)
      end
  | _, _ => Err (XPanic PInconsistent)
  end.

Definition node_IsPresent (txn : T) (p0 : VmValue) : xres (option VmValue) :=
  let present walker :=
    let? v := xkv (kv_get txn (generate_key walker)) in
    Ok (Some (VmBool (bool_decide (is_Some v)))) in
  match p0 with
  | VmSet _ (Fresh _) | VmTable _ (Fresh _) => Ok (Some (VmBool true))
  | VmSet _ (Resident x) | VmTable _ (Resident x) => present x
  | _ => Err (XPanic PInconsistent)
  end.

Definition node_bool2 (f : bool -> bool -> bool) (p0 p1 : VmValue) : xres (option VmValue) :=
  let? a := xunwrap PInconsistent (unwrap_bool p0) in
  let? b := xunwrap PInconsistent (unwrap_bool p1) in
  Ok (Some (VmBool (f a b))).

Definition node_Add (p0 p1 : VmValue) : xres (option VmValue) :=
  match p0, p1 with
  | VmPrimitive (VInt64 l), VmPrimitive (VInt64 r) => Ok (Some (VmPrimitive (VInt64 (i64_wrap (l + r)%Z))))
  | VmPrimitive (VDouble l), VmPrimitive (VDouble r) => Ok (Some (VmPrimitive (VDouble (f64_add l r))))
  | VmPrimitive (VString l), VmPrimitive (VString r) => Ok (Some (VmPrimitive (VString (l +:+ r))))
  | _, _ => Err (XPanic PInconsistent)
  end.

Definition node_Sub (p0 p1 : VmValue) : xres (option VmValue) :=
  match p0, p1 with
  | VmPrimitive (VInt64 l), VmPrimitive (VInt64 r) => Ok (Some (VmPrimitive (VInt64 (i64_wrap (l - r)%Z))))
  | VmPrimitive (VDouble l), VmPrimitive (VDouble r) => Ok (Some (VmPrimitive (VDouble (f64_sub l r))))
  | _, _ => Err (XPanic PInconsistent)
  end.

Definition node_CreateList (member_ty : nat) : xres (option VmValue) :=
  let? t := xunwrap PInconsistent (vm_types vm !! member_ty) in Ok (Some (VmList t [])).

Definition node_PrependToList (value p1 : VmValue) : xres (option VmValue) :=
  match p1 with
  | VmList member_ty node => Ok (Some (VmList member_ty (value :: node)))
  | _ => Err (XPanic PInconsistent)
  end.

Definition node_PopFromList (p0 : VmValue) : xres (option VmValue) :=
  match p0 with
  | VmList member_ty (_ :: node) => Ok (Some (VmList member_ty node))
  | VmList _ [] => Ok (Some (VmNull (ty_of_value p0)))
  | _ => Err (XPanic PInconsistent)
  end.

Definition node_ListHead (p0 : VmValue) : xres (option VmValue) :=
  match p0 with
  | VmList _ (x :: _) => Ok (Some x)
  | VmList member_ty [] => Ok (Some (VmNull member_ty))
  | _ => Err (XPanic PInconsistent)
  end.

Definition node_Throw (p0 : VmValue) : xres (option VmValue) :=
  if is_null p0 then Err (XErr ScriptThrownNull)
  else
    match unwrap_primitive p0 with
    | Some (VString msg) => Err (XErr (ScriptThrownError msg))
    | _ => Err (XPanic PInconsistent)
    end.

(** ** Subgraphs *)
Section Subgraph.
(** [rec] runs a graph one level deeper. *)
Context (rec : nat -> list VmValue -> XState -> xres (option VmValue * XState)).

(** The loop of [Reduce] over its elements; a null result ends it. *)
Fixpoint reduce_loop {A} (element : A -> xres VmValue) (subgraph_index : nat) (subgraph_param : VmValue)
    (l : list A) (acc : VmValue) (st : XState) : xres (VmValue * XState) :=
  match l with
  | [] => Ok (acc, st)
  | x :: l =>
      let? v := element x in
      let? (output, st) := rec subgraph_index [subgraph_param; acc; v] st in
      let? output := xunwrap PNoOutput output in
      if is_null output then Ok (acc, st)
      else reduce_loop element subgraph_index subgraph_param l output st
  end.

Fixpoint strip_prefix (prefix k : bytes) : option bytes :=
  match prefix, k with
  | [], _ => Some k
  | a :: prefix, b :: k => if decide (a = b) then strip_prefix prefix k else None
  | _ :: _, [] => None
  end.

(** The bounds of the scan of a set. *)
Definition reduce_range (has_range : bool) (params : list VmValue) (range_prefix : bytes)
    : xres (bytes * bytes) :=
  let? all_end := bump_last range_prefix in
  if has_range then
    let? maybe_start := param params 3 in
    let? maybe_end := param params 4 in
    let? range_start :=
      if is_null maybe_start then Ok range_prefix
      else let? v := xunwrap PInconsistent (unwrap_primitive maybe_start) in
           Ok (range_prefix ++ serialize_for_key_component v) in
    let? range_end :=
      if is_null maybe_end then Ok all_end
      else let? v := xunwrap PInconsistent (unwrap_primitive maybe_end) in
           Ok (range_prefix ++ serialize_for_key_component v) in
    Ok (range_start, range_end)
  else Ok (range_prefix, all_end).

Definition reduce_member (member_name : string) (walker : PathWalker) (range_prefix k : bytes) : xres VmValue :=
  let? k := xunwrap PInconsistent (strip_prefix range_prefix k) in
  let? walker := xwalk (enter_set_raw walker k) in
  Ok (VmTable member_name (Resident walker)).

Definition node_Reduce (subgraph_index : nat) (has_range : bool) (params : list VmValue)
    (type_info : option VmType) (st : XState) : xres (option VmValue * XState) :=
  let? subgraph_param := param params 0 in
  let? reduce_init := param params 1 in
  let? list_or_set := param params 2 in
  if is_null list_or_set then Ok (VmNull <$> type_info, st)
  else
    match list_or_set with
    | VmList _ node =>
        let? (v, st) := reduce_loop Ok subgraph_index subgraph_param node reduce_init st in
        Ok (Some v, st)
    | VmSet member_ty kind =>
        match kind with
        | Resident walker =>
            let? specialized_ty :=
              match member_ty with
              | TyTable x => xunwrap PInconsistent (bt_get x (types (vm_schema vm)))
              | _ => Err (XPanic PInconsistent)
              end in
            let? range_prefix := xwalk (set_fast_scan_prefix walker) in
            let? (range_start, range_end) := reduce_range has_range params range_prefix in
            let? keys := xkv (kv_scan_keys (xs_txn st) range_start range_end) in
            let? (v, st) := reduce_loop (reduce_member (st_name specialized_ty) walker range_prefix)
              subgraph_index subgraph_param keys reduce_init st in
            Ok (Some v, st)
        | Fresh _ => Err (XErr FreshTableOrSetNotSupported)
        end
    | _ => Err (XPanic PInconsistent)
    end.

(** [run_node]. *)
Definition run_node (n : TwGraphNode) (params graph_params : list VmValue) (type_info : option VmType)
    (st : XState) : xres (option VmValue * XState) :=
  let txn := xs_txn st in
  let pure (c : xres (option VmValue)) := omap_ok (fun v => (v, st)) c in
  let effect (c : xres T) := omap_ok (fun txn => (None, with_txn st txn)) c in
  let one (f : VmValue -> xres (option VmValue)) := let? a := param params 0 in f a in
  let two (f : VmValue -> VmValue -> xres (option VmValue)) :=
    let? a := param params 0 in let? b := param params 1 in f a b in
  if is_optional_chained n && existsb is_null params then Ok (VmNull <$> type_info, st)
  else
    match n with
    | BuildSet => pure (one node_BuildSet)
    | BuildTable i => pure (one (node_BuildTable i))
    | CreateMap => Ok (Some (VmMap []), st)
    | DeleteFromMap i => pure (one (node_DeleteFromMap i))
    | GetField i => pure (one (node_GetField txn i))
    | GetSetElement => pure (two node_GetSetElement)
    | InsertIntoMap i => pure (two (node_InsertIntoMap i))
    | InsertIntoSet => effect (let? a := param params 0 in let? b := param params 1 in node_InsertIntoSet txn a b)
    | InsertIntoTable i =>
        effect (let? a := param params 0 in let? b := param params 1 in node_InsertIntoTable txn i a b)
    | LoadConst i => pure (let? v := xunwrap PInconsistent (vm_consts vm !! i) in Ok (Some v))
    | LoadParam i => pure (let? v := xunwrap PInconsistent (graph_params !! i) in Ok (Some v))
    | DeleteFromSet => effect (let? a := param params 0 in let? b := param params 1 in node_DeleteFromSet txn a b)
    | NEq => pure (two (fun a b => Ok (Some (VmBool (value_eqb a b)))))
    | NNe => pure (two (fun a b => Ok (Some (VmBool (negb (value_eqb a b))))))
    | NAnd => pure (two (node_bool2 andb))
    | NOr => pure (two (node_bool2 orb))
    | NNot => pure (one (fun a => let? a := xunwrap PInconsistent (unwrap_bool a) in Ok (Some (VmBool (negb a)))))
    | IsPresent => pure (one (node_IsPresent txn))
    | IsNull => pure (one (fun a => Ok (Some (VmBool (is_null a)))))
    | Nop => pure (one (fun a => Ok (Some a)))
    | Call i => rec i params st
    | NAdd => pure (two node_Add)
    | NSub => pure (two node_Sub)
    | CreateList i => pure (node_CreateList i)
    | PrependToList => pure (two node_PrependToList)
    | PopFromList => pure (one node_PopFromList)
    | ListHead => pure (one node_ListHead)
    | Select => Err (XPanic PInconsistent)
    | FilterSet _ => Err (XErr (NotImplemented "FilterSet"))
    | Reduce i has_range => node_Reduce i has_range params type_info st
    | Throw => pure (one node_Throw)
    end.
End Subgraph.

(** ** One graph *)
(** A pending future: a node to run with its parameters, or a select that has
    its value. *)
Inductive Task := TaskRun (params : list VmValue) | TaskSelect (v : VmValue).

Record Frame := MkFrame {
  deps_satisfied : list (list (option VmValue));
  precondition_satisfied : list bool;
  futures : list (nat * Task);
  fr_ret : option VmValue
}.

Definition initial_frame (g : TwGraph) : Frame :=
  MkFrame ((fun n => replicate (length (in_edges n)) None) <$> g_nodes g)
    ((fun n => bool_decide (precondition n = None)) <$> g_nodes g)
    (concat (imap (fun i n =>
       if bool_decide (in_edges n = []) && bool_decide (precondition n = None)
       then [(i, TaskRun [])] else []) (g_nodes g)))
    None.

(** The first loop over the rules of a completed node: record its result. *)
Definition record_result (result : option VmValue) (fr : Frame) (item : FireRuleItem) : xres Frame :=
  let t := target_node item in
  match fr_kind item with
  | ParamDep position =>
      let? v := xunwrap PNoOutput result in
      let? deps := xunwrap PInconsistent (deps_satisfied fr !! t) in
      let? _ := xunwrap PDepsIndex (deps !! position) in
      Ok (MkFrame (<[t := <[position := Some v]> deps]> (deps_satisfied fr))
            (precondition_satisfied fr) (futures fr) (fr_ret fr))
  | Precondition =>
      let? b := match result with
                | Some (VmBool x) => Ok x
                | Some (VmNull _) => Ok false
                | None => Ok true
                | _ => Err (XPanic PInconsistent)
                end in
      let? _ := xunwrap PInconsistent (precondition_satisfied fr !! t) in
      Ok (MkFrame (deps_satisfied fr) (<[t := b]> (precondition_satisfied fr)) (futures fr) (fr_ret fr))
  end.

(** The first dependency that is there ([find_map]). *)
Fixpoint first_some (l : list (option VmValue)) : option VmValue :=
  match l with
  | [] => None
  | Some v :: _ => Some v
  | None :: l => first_some l
  end.

(** Add a future for node [t], which has fired and keeps no dependencies. *)
Definition fire (fr : Frame) (t : nat) (task : Task) : Frame :=
  MkFrame (<[t := []]> (deps_satisfied fr)) (precondition_satisfied fr) (futures fr ++ [(t, task)]) (fr_ret fr).

(** The second loop: fire the targets that are ready. *)
Definition fire_ready (g : TwGraph) (fr : Frame) (item : FireRuleItem) : xres Frame :=
  let t := target_node item in
  let? n := xunwrap PInconsistent (g_nodes g !! t) in
  let? ready := xunwrap PInconsistent (precondition_satisfied fr !! t) in
  if (ready : bool) then
    let? deps := xunwrap PInconsistent (deps_satisfied fr !! t) in
    if is_select (gn_node n) then
      match deps with
      | [] => Err (XErr BothSelectCandidatesFired)
      | _ => Ok (match first_some deps with Some x => fire fr t (TaskSelect x) | None => fr end)
      end
    else
      Ok (match mapM_opt id deps with Some params => fire fr t (TaskRun params) | None => fr end)
  else Ok fr.

Definition complete (g : TwGraph) (rules : FireRuleTable) (node_index : nat) (result : option VmValue)
    (fr : Frame) : xres Frame :=
  let ret := if decide (Some node_index = output g) then result else fr_ret fr in
  let fr := MkFrame (deps_satisfied fr) (precondition_satisfied fr) (futures fr) ret in
  let? to_fire := xunwrap PInconsistent (rules !! node_index) in
  let? fr := foldM_o (record_result result) fr to_fire in
  foldM_o (fire_ready g) fr to_fire.

(** [select_all]: the future that completes, and the others. *)
Definition pick {A} (i : nat) (l : list A) : option (A * list A) :=
  match l with
  | [] => None
  | _ => let i := i mod length l in
         x ← l !! i; Some (x, take i l ++ drop (S i) l)
  end.

Section Graph.
Context (rec : nat -> list VmValue -> XState -> xres (option VmValue * XState)).

Definition run_task (g : TwGraph) (info : GraphTypeInfo) (graph_params : list VmValue)
    (node_index : nat) (task : Task) (st : XState) : xres (option VmValue * XState) :=
  match task with
  | TaskSelect v => Ok (Some v, st)
  | TaskRun params =>
      let? n := xunwrap PInconsistent (g_nodes g !! node_index) in
      let? ty := xunwrap PInconsistent (gi_nodes info !! node_index) in
      run_node rec (gn_node n) params graph_params ty st
  end.

Fixpoint graph_loop (fuel : nat) (g : TwGraph) (info : GraphTypeInfo) (rules : FireRuleTable)
    (graph_params : list VmValue) (fr : Frame) (st : XState) : xres (option VmValue * XState) :=
  match pick (schedule (xs_clock st)) (futures fr) with
  | None => Ok (fr_ret fr, st)
  | Some ((node_index, task), remaining) =>
      match fuel with
      | O => NoFuel
      | S fuel =>
          let st := MkXState (xs_txn st) (S (xs_clock st)) in
          let? (result, st) := run_task g info graph_params node_index task st in
          let fr := MkFrame (deps_satisfied fr) (precondition_satisfied fr) remaining (fr_ret fr) in
          let? fr := complete g rules node_index result fr in
          graph_loop fuel g info rules graph_params fr st
      end
  end.

(** Every node completes at most once when no node is an input of another one
    twice; the rest is slack for graphs that do not satisfy this. *)
Definition loop_fuel (g : TwGraph) : nat :=
  length (g_nodes g) + 2 * length (concat (imap rules_of_node (g_nodes g))).
End Graph.

(** [depth_left] is [MAX_RECURSION_DEPTH - recursion_depth]. *)
Fixpoint recursively_run_graph (ex : Executor) (depth_left : nat) (graph_index : nat)
    (graph_params : list VmValue) (st : XState) : xres (option VmValue * XState) :=
  match depth_left with
  | O => Err (XErr (MaxRecursionDepthExceeded MAX_RECURSION_DEPTH))
  | S depth_left =>
      let? g := xunwrap PInconsistent (graphs (vm_script vm) !! graph_index) in
      let? info := xunwrap PInconsistent (ex_type_info ex !! graph_index) in
      let? rules := xunwrap PInconsistent (ex_fire_rule_tables ex !! graph_index) in
      graph_loop (recursively_run_graph ex depth_left) (loop_fuel g) g info rules graph_params
        (initial_frame g) st
  end.
End Exec.
Arguments XState : clear implicits.

(** ** Transactions *)
Section RunGraph.
Context {S T : Type} `{KvTransaction T} `{KeyValueStore S T}.
Context (rmp_to_vec : PrimitiveValue -> bytes) (rmp_from_slice : bytes -> anyhow PrimitiveValue).
Context (schedule : nat -> nat).
(** What other clients do to the store while an attempt runs. *)
Context (others : nat -> S -> S).

(** The outcome, and the store it leaves.  A run that fails has committed nothing:
    the store is as the other clients left it. *)
Fixpoint run_attempts (attempts : nat) (i : nat) (ex : Executor) (graph_index : nat)
    (graph_params : list VmValue) (store : S) : xres (option VmValue) * S :=
  match attempts with
  | O => (Err (XErr ConflictAfterRetries), store)
  | Datatypes.S attempts =>
      match kv_begin (S:=S) (T:=T) store with
      | Ok (store, txn) =>
          let run := recursively_run_graph rmp_to_vec rmp_from_slice schedule (ex_vm ex) ex
            MAX_RECURSION_DEPTH graph_index graph_params (MkXState txn 0) in
          let store := others i store in
          match run with
          | Ok (ret, st) =>
              match kv_commit store (xs_txn st) with
              | Ok store => (Ok ret, store)
              | Err Conflict => run_attempts attempts (Datatypes.S i) ex graph_index graph_params store
              | Err e => (Err (XErr (Commit e)), store)
              | Panic => (Panic, store)
              | NoFuel => (NoFuel, store)
              end
          | Err e => (Err e, store)
          | Panic => (Panic, store)
          | NoFuel => (NoFuel, store)
          end
      | Err m => (Err (XErr (Anyhow m)), store)
      | Panic => (Panic, store)
      | NoFuel => (NoFuel, store)
      end
  end.

(** [run_graph]: up to ten attempts. *)
Definition MAX_ATTEMPTS : nat := 10.

Definition run_graph (ex : Executor) (graph_index : nat) (graph_params : list VmValue) (store : S)
    : xres (option VmValue) * S :=
  run_attempts MAX_ATTEMPTS 0 ex graph_index graph_params store.
End RunGraph.

(** The map of the exports that a script gets as its root. *)
Definition root_entry (plan : Plan) (m : list (string * VmValue)) (p : string * FieldType)
    : xres (list (string * VmValue)) :=
  match p.2 with
  | FTable x =>
      let? w := xwalk (from_export plan p.1) in Ok (bt_insert p.1 (VmTable x (Resident w)) m)
  | FSet x =>
      let? w := xwalk (from_export plan p.1) in
      Ok (bt_insert p.1 (VmSet (ty_of_field x) (Resident w)) m)
  | FPrimitive _ => Err (XErr ExportTypeNotSupported)
  end.

Definition generate_root_map (schema : CompiledSchema) (plan : Plan) : xres VmValue :=
  let? m := foldM_o (root_entry plan) [] (exports schema) in Ok (VmMap m).
