(* ===== verification/ValueTyping.v ===== *)
(** * What a value of a type is

    [has_type v t]: the run-time value [v] may stand where the type checker
    computed [t].  A null stands for any type.  A map value has exactly the
    fields of its type.  A resident table or set comes with a walker that stands
    for its type ([walker_typed]). *)
From stdpp Require Import prelude gmap strings list.
From S2P Require Import Prelude OrdMap Schema SchemaFacts StoragePlan Planner PlannerFacts Value PathWalker.
From S2P Require Import WalkerTyping VmValue.

(** [Forall] as a function, for definitions by recursion on values. *)
Section AllP.
Context {A : Type} (P : A -> Prop).
Fixpoint allP (l : list A) : Prop :=
  match l with [] => True | x :: l => P x /\ allP l end.

Lemma allP_Forall l : allP l <-> Forall P l.
Proof.
  induction l as [|x l IH]; simpl; [split; [constructor|done]|].
  rewrite IH. split; [intros []; by constructor|by inversion 1].
Qed.
End AllP.

(** ** Well-formed types *)
(** The maps of a type are sorted, as red-black trees are. *)
Fixpoint ty_wf (t : VmType) : Prop :=
  match t with
  | TySet t | TyList t => ty_wf t
  | TyMap m => bt_sorted m /\ allP (fun p => ty_wf p.2) m
  | _ => True
  end.

(** The entry of key [k] satisfies [P]. *)
Section EntryP.
Context {V : Type} (P : V -> Prop) (k : string).
Fixpoint entryP (l : list (string * V)) : Prop :=
  match l with
  | [] => False
  | (k', v) :: l => match cmp k k' with Eq => P v | _ => entryP l end
  end.

Lemma entryP_get l : entryP l <-> exists v, bt_get k l = Some v /\ P v.
Proof.
  induction l as [|[k' v] l IH]; simpl; [naive_solver|].
  destruct (cmp k k'); [naive_solver|done|done].
Qed.
End EntryP.

Section Typing.
Context (s : CompiledSchema) (p : Plan) (rec : gset string).

Fixpoint has_type (v : VmValue) (t : VmType) {struct v} : Prop :=
  match v with
  | VmNull _ => True
  | VmPrimitive x => t = TyPrimitive (get_type x)
  | VmBool _ => t = TyBool
  | VmTable ty kind =>
      t = TyTable ty /\
      exists sty, bt_get ty (types s) = Some sty /\
      match kind with
      | Resident w => walker_typed s p rec w (FTable ty)
      | Fresh fields =>
          (forall f, is_Some (bt_get f (st_fields sty)) -> is_Some (bt_get f fields)) /\
          allP (fun e => exists ft, bt_get e.1 (st_fields sty) = Some ft /\ has_type e.2 (ty_of_field ft.1)) fields
      end
  | VmSet m kind =>
      t = TySet m /\
      exists ty, m = TyTable ty /\ is_Some (bt_get ty (types s)) /\
      match kind with
      | Resident w => walker_typed s p rec w (FSet (FTable ty))
      | Fresh members => allP (fun e => has_type e.2 m) members
      end
  | VmMap els =>
      exists m, t = TyMap m /\
      (forall k tk, bt_get k m = Some tk -> entryP (fun v => has_type v tk) k els) /\
      (forall k, is_Some (bt_get k els) -> is_Some (bt_get k m))
  | VmList m node =>
      t = TyList m /\ allP (fun v => has_type v m) node
  end.

(** ** Canonical forms *)
Lemma has_type_prim v q :
  has_type v (TyPrimitive q) -> is_null v = false -> exists x, v = VmPrimitive x /\ get_type x = q.
Proof.
  destruct v; simpl; try done; try (by intros []); [intros [= ->]; eauto|by intros (? & ? & ? & ?)].
Qed.

Lemma has_type_bool v : has_type v TyBool -> is_null v = false -> exists b, v = VmBool b.
Proof. destruct v; simpl; try done; try (by intros []); [eauto|by intros (? & ? & ? & ?)]. Qed.

Lemma has_type_map v m :
  has_type v (TyMap m) -> is_null v = false ->
  exists els, v = VmMap els /\
    (forall k tk, bt_get k m = Some tk -> exists x, bt_get k els = Some x /\ has_type x tk) /\
    (forall k x, bt_get k els = Some x -> exists tk, bt_get k m = Some tk /\ has_type x tk).
Proof.
  destruct v; simpl; try done; try (by intros []).
  intros (m' & [= <-] & Hm & Hd) _. eexists. split; [done|].
  assert (H1 : forall k tk, bt_get k m = Some tk -> exists x, bt_get k elements = Some x /\ has_type x tk).
  { intros k tk Hk. by apply entryP_get, Hm. }
  split; [done|]. intros k x Hk. destruct (Hd k) as [tk Htk]; [by eexists|]. exists tk. split; [done|].
  destruct (H1 _ _ Htk) as (x' & Hx' & ?). congruence.
Qed.

Lemma has_type_list v t :
  has_type v (TyList t) -> is_null v = false ->
  exists l, v = VmList t l /\ Forall (fun x => has_type x t) l.
Proof.
  destruct v; simpl; try done; try (by intros []); [by intros (? & ? & ?)|].
  intros [[= ->] Hl] _. eexists. split; [done|]. by apply allP_Forall.
Qed.

Lemma has_type_table v ty :
  has_type v (TyTable ty) -> is_null v = false ->
  exists kind sty, v = VmTable ty kind /\ bt_get ty (types s) = Some sty /\
    match kind with
    | Resident w => walker_typed s p rec w (FTable ty)
    | Fresh fields =>
        (forall f, is_Some (bt_get f (st_fields sty)) -> is_Some (bt_get f fields)) /\
        Forall (fun e => exists ft, bt_get e.1 (st_fields sty) = Some ft /\ has_type e.2 (ty_of_field ft.1)) fields
    end.
Proof.
  destruct v as [|n kind| | | | |]; simpl; try done; try (by intros []); [|by intros (? & ? & ? & ?)].
  intros [[= <-] (sty & Hs & Hk)] _. exists kind, sty. split; [done|]. split; [done|].
  destruct kind; [done|]. destruct Hk as [H1 H2%allP_Forall]. done.
Qed.

Lemma has_type_set v t :
  has_type v (TySet t) -> is_null v = false ->
  exists kind ty, v = VmSet t kind /\ t = TyTable ty /\ is_Some (bt_get ty (types s)) /\
    match kind with
    | Resident w => walker_typed s p rec w (FSet (FTable ty))
    | Fresh members => Forall (fun e => has_type e.2 t) members
    end.
Proof.
  destruct v as [| |m kind| | | |]; simpl; try done; try (by intros []); [|by intros (? & ? & ? & ?)].
  intros [[= <-] (ty & -> & Hd & Hk)] _. exists kind, ty. do 3 (split; [done|]).
  destruct kind; [done|]. by apply allP_Forall.
Qed.

(** A map value is typed field by field. *)
Lemma has_type_map_intro els m :
  (forall k tk, bt_get k m = Some tk -> exists x, bt_get k els = Some x /\ has_type x tk) ->
  (forall k, is_Some (bt_get k els) -> is_Some (bt_get k m)) ->
  has_type (VmMap els) (TyMap m).
Proof.
  intros Hm Hd. exists m. split; [done|]. split; [|done]. intros k tk Hk. by apply entryP_get, Hm.
Qed.

Lemma has_type_null t t' : has_type (VmNull t) t'.
Proof. done. Qed.

(** Constants without tables, sets or maps have their type. *)
Definition simple_value (v : VmValue) : Prop :=
  match v with VmPrimitive _ | VmBool _ | VmNull _ => True | _ => False end.

Lemma simple_has_type v : simple_value v -> has_type v (ty_of_value v).
Proof. by destruct v. Qed.
End Typing.

#[export] Hint Resolve has_type_null simple_has_type : rdb.
