(* ===== verification/NodeSound.v ===== *)
(** * Soundness of the type checker: one node

    If the type checker accepts a node, and the node runs on values of the
    types of its in-edges, then it produces a value of the computed type, or
    stops with an error, or with one of the panics of [allowed]: too deep a
    path, a missing primary key, a subgraph without output.  It never reaches
    an [unreachable!()], an [unwrap_*] on the wrong variant or an index out of
    range. *)
From stdpp Require Import prelude gmap strings list.
From Stdlib Require Import Strings.Byte ZArith Sorted.
From S2P Require Import Prelude OrdMap Schema SchemaFacts StoragePlan Planner PlannerFacts PlannerPlan Value.
From S2P Require Import PathWalker WalkerTyping Kv VmValue Bytecode Typeck F64 Exec ValueTyping.

Definition allowed (x : PanicSite) : Prop :=
  match x with
  | PPath PathTooDeep | PPrimaryKey | PNoOutput | PDepsIndex => True
  | PPath _ | PInconsistent => False
  end.

(** The computation ends in a value of [Q], in an error, or in an allowed
    panic. *)
Definition xsafe {A} (Q : A -> Prop) (c : xres A) : Prop :=
  match c with
  | Ok a => Q a
  | Err (XErr _) => True
  | Err (XPanic x) => allowed x
  | Panic | NoFuel => False
  end.

(** ** Rules *)
Lemma xsafe_bind {A B} (P : A -> Prop) (Q : B -> Prop) c (k : A -> xres B) :
  xsafe P c -> (forall a, P a -> xsafe Q (k a)) -> xsafe Q (obind c k).
Proof. destruct c as [a|[e|x]| |]; simpl; auto. Qed.

Lemma xsafe_weaken {A} (P Q : A -> Prop) c : xsafe P c -> (forall a, P a -> Q a) -> xsafe Q c.
Proof. destruct c as [a|[e|x]| |]; simpl; auto. Qed.

Lemma xsafe_map {A B} (f : A -> B) (Q : B -> Prop) c :
  xsafe (fun a => Q (f a)) c -> xsafe Q (omap_ok f c).
Proof. by destruct c as [a|[e|x]| |]. Qed.

Lemma xsafe_foldM {A S} (P : S -> Prop) (f : S -> A -> xres S) l s :
  P s -> (forall s x, x ∈ l -> P s -> xsafe P (f s x)) -> xsafe P (foldM_o f s l).
Proof.
  revert s. induction l as [|x l IH]; intros s Hs Hf; [done|]. simpl.
  eapply xsafe_bind; [apply Hf; [left|done]|]. intros s' Hs'. apply IH; [done|].
  intros ? ? ?. apply Hf. by right.
Qed.

Lemma xsafe_unwrap {A} (Q : A -> Prop) x o :
  (forall a, o = Some a -> Q a) -> is_Some o \/ allowed x -> xsafe Q (xunwrap x o).
Proof. destruct o; simpl; [auto|]. intros _ [[? ?]|?]; done. Qed.

Lemma xsafe_unwrap_some {A} (Q : A -> Prop) x o a : o = Some a -> Q a -> xsafe Q (xunwrap x o).
Proof. by intros ->. Qed.

Lemma xsafe_kv {A} (Q : A -> Prop) (c : anyhow A) :
  returns c -> (forall a, c = Ok a -> Q a) -> xsafe Q (xkv c).
Proof. by destruct c; simpl; auto. Qed.

Lemma xsafe_walk {A} (Q : A -> Prop) (c : wres A) :
  (exists a, c = Ok a /\ Q a) \/ c = Err PathTooDeep -> xsafe Q (xwalk c).
Proof. by intros [(a & -> & Ha)| ->]. Qed.

Lemma mapM_o_Forall2 {E A B} (f : A -> outcome E B) l ys :
  mapM_o f l = Ok ys -> Forall2 (fun x y => f x = Ok y) l ys.
Proof. apply mapM_o_ok. Qed.

(** ** Keys *)
Lemma bump_last_app k b : bump_last (k ++ [b]) = Ok (k ++ [to_u8 (u8 b + 1)]).
Proof.
  unfold bump_last. rewrite reverse_app. change (reverse [b]) with [b]. cbn [app].
  by rewrite reverse_cons, reverse_involutive.
Qed.

Lemma strip_prefix_app p r : strip_prefix p (p ++ r) = Some r.
Proof. induction p as [|a p IH]; simpl; [by destruct r|]. by rewrite decide_True. Qed.

Section Node.
Context {T : Type} `{KvTransactionLaws T} `{!KvReturns T}.
Context (rmp_to_vec : PrimitiveValue -> bytes) (rmp_from_slice : bytes -> anyhow PrimitiveValue).
Context (vm : TwVm) (rec : gset string).
Context (Hschema : wf_schema (vm_schema vm)).
Context (Hplan : plan_ok (vm_schema vm) (vm_storage_plan vm) rec).
Context (Hrmp : forall x, returns (rmp_from_slice x)).

Abbreviation typed := (has_type (vm_schema vm) (vm_storage_plan vm) rec).
Abbreviation wtyped := (walker_typed (vm_schema vm) (vm_storage_plan vm) rec).

(** What is stored under the key of a primitive field decodes to the type of
    the field. *)
Definition reads_typed (snap : bytes -> option bytes) : Prop :=
  forall w q data v, wtyped w (FPrimitive q) -> snap (generate_key w) = Some data ->
    rmp_from_slice data = Ok v -> get_type v = q.

(** ** Facts on the schema *)
Lemma type_facts n ty :
  bt_get n (types (vm_schema vm)) = Some ty -> stype_ok (types (vm_schema vm)) (n, ty).
Proof. intros Hn. destruct Hschema as [[_ Hf] _ _]. by apply (bt_get_forall _ _ _ _ Hf Hn). Qed.

Lemma field_facts n ty f ft :
  bt_get n (types (vm_schema vm)) = Some ty -> bt_get f (st_fields ty) = Some ft ->
  field_ok (types (vm_schema vm)) ft.
Proof.
  intros Hn Hf. pose proof (stype_fields _ _ (type_facts _ _ Hn)) as Hfs.
  by apply (bt_get_forall _ _ _ _ Hfs Hf).
Qed.

Lemma type_defined_some n : type_defined (types (vm_schema vm)) n -> is_Some (bt_get n (types (vm_schema vm))).
Proof. apply type_defined_get. Qed.

Lemma find_primary_some fs name ft :
  find_primary fs = Some (name, ft) -> exists ann, (name, (ft, ann)) ∈ fs /\ is_primary ann = true.
Proof.
  induction fs as [|[n [t ann]] fs IH]; simpl; [done|]. destruct (is_primary ann) eqn:E.
  - intros [= <- <-]. exists ann. split; [left|done].
  - intros (ann' & Hin & ?)%IH. exists ann'. split; [by right|done].
Qed.

Lemma is_primary_indexed ann : is_primary ann = true -> indexed ann = true.
Proof.
  unfold is_primary, indexed. rewrite !existsb_exists. intros (a & Ha & Hp).
  exists a. split; [done|]. by rewrite Hp.
Qed.

(** The primary key of a set of tables is a declared primitive field. *)
Lemma primary_key_facts x pk :
  set_primary_key (TySet (TyTable x)) (vm_schema vm) = Some pk ->
  exists sty ft q, bt_get x (types (vm_schema vm)) = Some sty /\
    bt_get pk.1 (st_fields sty) = Some ft /\ ft.1 = pk.2 /\ pk.2 = FPrimitive q.
Proof.
  simpl. intros (sty & Hs & Hp)%bind_Some. destruct pk as [name t]. exists sty.
  apply find_primary_some in Hp as (ann & Hin & Hann).
  apply bt_elem_get in Hin; [|apply (stype_sorted _ _ (type_facts _ _ Hs))].
  destruct (field_facts _ _ _ _ Hs Hin) as [_ Hi]. simpl in Hi.
  destruct Hi as [q Hq]; [by apply is_primary_indexed|]. exists (t, ann), q. done.
Qed.

(** ** Reading a field *)
Lemma read_table_element_sound txn ty kind key ft sty :
  reads_typed (kv_snapshot txn) -> typed (VmTable ty kind) (TyTable ty) ->
  bt_get ty (types (vm_schema vm)) = Some sty -> bt_get key (st_fields sty) = Some ft ->
  xsafe (fun v => typed v (ty_of_field ft.1)) (read_table_element rmp_from_slice vm txn ty kind key).
Proof.
  intros Hreads Ht Hty Hft.
  apply has_type_table in Ht as (kind' & sty' & [= <-] & Hty' & Hk); [|done].
  rewrite Hty in Hty'. injection Hty' as <-. destruct kind as [w|fields]; simpl.
  - rewrite Hty. simpl. rewrite Hft. simpl.
    eapply xsafe_bind; [apply xsafe_walk; by eapply enter_field_typed|].
    intros w' Hw'. cbn beta in Hw'. destruct ft as [[x|q|m] ann]; simpl in *.
    + split; [done|]. destruct (field_facts _ _ _ _ Hty Hft) as [Hd _]. simpl in Hd.
      apply type_defined_some in Hd as [sty2 Hs2]. by exists sty2.
    + eapply xsafe_bind; [apply xsafe_kv; [apply kv_get_returns|intros r Hr; exact Hr]|].
      intros [data|] Hd; cbn beta in Hd; [|done]. apply kv_get_law in Hd. symmetry in Hd.
      eapply xsafe_bind; [apply xsafe_kv; [apply Hrmp|intros v Hv; exact Hv]|]. intros v Hv. simpl.
      f_equal. symmetry. by eapply Hreads.
    + split; [done|]. destruct (field_facts _ _ _ _ Hty Hft) as [Hd _]. simpl in Hd.
      destruct m as [x| |]; [|done|done]. exists x. split; [done|]. split; [|done].
      by apply type_defined_some.
  - destruct Hk as [Hall Hf]. destruct (Hall key) as [v Hv]; [by rewrite Hft|]. rewrite Hv. simpl.
    apply bt_get_elem in Hv. rewrite Forall_forall in Hf. destruct (Hf _ Hv) as (ft' & Hft' & Ht).
    simpl in *. congruence.
Qed.

(** ** Writing *)
(** The codec of stored values keeps their types, and reads no value from the empty
    string that marks tables, sets and members. *)
Record codec_ok : Prop := {
  codec_type : forall x v, rmp_from_slice (rmp_to_vec x) = Ok v -> get_type v = get_type x;
  codec_marker : forall v, rmp_from_slice [] <> Ok v
}.

(** What a run does to its transaction: it writes, and what it leaves behind is
    well typed if what it found was. *)
Definition effects (t t' : T) : Prop :=
  kv_steps t t' /\ (codec_ok -> reads_typed (kv_current t) -> reads_typed (kv_current t')).

#[export] Instance effects_preorder : PreOrder effects.
Proof.
  split; [by intros t|]. intros t1 t2 t3 [Ha Ha'] [Hb Hb']. split; [by eapply rtc_trans|auto].
Qed.

Lemma put_safe txn k v :
  (codec_ok -> forall w q x, wtyped w (FPrimitive q) -> generate_key w = k -> rmp_from_slice v = Ok x -> get_type x = q) ->
  xsafe (effects txn) (xkv (kv_put txn k v)).
Proof.
  intros Hv. apply xsafe_kv; [apply kv_put_returns|]. intros t' Ht. split; [by eapply rtc_once, write_put|].
  intros Hc Hr w q data x Hw. destruct (kv_put_law _ _ _ _ Ht) as [_ ->]. case_decide as Hk; [|by eapply Hr].
  intros [= <-]. by eapply Hv.
Qed.

Lemma put_marker_safe txn k : xsafe (effects txn) (xkv (kv_put txn k [])).
Proof. apply put_safe. intros Hc w q x _ _ Hx. by apply (codec_marker Hc) in Hx. Qed.

Lemma put_primitive_safe txn w x :
  wtyped w (FPrimitive (get_type x)) -> xsafe (effects txn) (xkv (kv_put txn (generate_key w) (rmp_to_vec x))).
Proof.
  intros Hw. apply put_safe. intros Hc w' q v Hw' Hk Hv. rewrite (codec_type Hc _ _ Hv).
  symmetry. by eapply primitive_key_type.
Qed.

Lemma delete_safe txn k : xsafe (effects txn) (xkv (kv_delete txn k)).
Proof.
  apply xsafe_kv; [apply kv_delete_returns|]. intros t' Ht. split; [by eapply rtc_once, write_delete|].
  intros _ Hr w q data x Hw. destruct (kv_delete_law _ _ _ Ht) as [_ ->]. case_decide; [done|by eapply Hr].
Qed.

Lemma delete_range_safe txn lo hi :
  oleb lo hi = true -> xsafe (effects txn) (xkv (kv_delete_range txn lo hi)).
Proof.
  intros Hle. apply xsafe_kv; [by apply kv_delete_range_returns|]. intros t' Ht.
  split; [by eapply rtc_once, write_delete_range|].
  intros _ Hr w q data x Hw. destruct (kv_delete_range_law _ _ _ _ Hle Ht) as [_ ->].
  destruct (_ && _); [done|by eapply Hr].
Qed.

Lemma steps_trans txn txn' c :
  effects txn txn' -> xsafe (effects txn') c -> xsafe (effects txn) c.
Proof. intros He Hc. eapply xsafe_weaken; [done|]. intros t. by apply transitivity. Qed.

Lemma delete_set_safe txn w x : wtyped w (FSet x) -> xsafe (effects txn) (delete_set txn w).
Proof.
  intros Hw. destruct (set_prefix_typed _ _ _ _ _ Hw) as [Hp1 Hp2]. unfold delete_set.
  rewrite Hp1. cbn [xwalk map_err obind]. rewrite bump_last_app. cbn [obind].
  rewrite Hp2. cbn [xwalk map_err obind]. rewrite bump_last_app. cbn [obind].
  eapply xsafe_bind; [apply delete_range_safe|].
  - apply oleb_le. by rewrite cmp_app_same.
  - intros t' Ht'. apply (steps_trans _ _ _ Ht'). apply delete_range_safe.
    apply oleb_le. by rewrite cmp_app_same.
Qed.

Lemma delete_entry_safe txn w x v :
  wtyped w (FSet x) -> xsafe (effects txn) (delete_entry_from_set txn w v).
Proof.
  intros Hw. destruct (set_prefix_typed _ _ _ _ _ Hw) as [Hp1 Hp2]. unfold delete_entry_from_set.
  rewrite Hp1, Hp2. cbn [xwalk map_err obind].
  eapply xsafe_bind; [apply delete_safe|]. intros t' Ht'. apply (steps_trans _ _ _ Ht').
  apply delete_range_safe. apply oleb_le. rewrite cmp_app_same.
  by rewrite cmp_app_same.
Qed.

Lemma walk_and_insert_sound v ft w txn :
  typed v (ty_of_field ft) -> wtyped w ft ->
  xsafe (effects txn) (walk_and_insert rmp_to_vec txn w v).
Proof.
  revert ft w txn. induction v as [x|n kind IH|t kind IH|b|els IH|t|t l IH] using vmvalue_ind';
    intros ft w txn Ht Hw.
  - destruct ft as [|q|]; try done. injection Ht as ->. by apply put_primitive_safe.
  - simpl in Ht. destruct Ht as [Heq (sty & Hsty & Hk)]. destruct ft; try done. injection Heq as ->.
    cbn [walk_and_insert]. eapply xsafe_bind; [apply put_marker_safe|]. intros t' Ht'.
    destruct kind as [w0|fields]; [done|]. apply (steps_trans _ _ _ Ht').
    destruct Hk as [_ Hf%allP_Forall]. simpl in IH. rewrite Forall_forall in IH, Hf.
    apply xsafe_foldM; [done|]. intros t1 e He Ht1.
    destruct (Hf _ He) as (ft & Hft & Hte).
    eapply xsafe_bind; [apply xsafe_walk; by eapply enter_field_typed|]. intros w' Hw'.
    apply (steps_trans _ _ _ Ht1). by eapply IH.
  - simpl in Ht. destruct Ht as [Heq (ty & -> & Hd & Hk)]. destruct ft as [| |ft]; try done.
    injection Heq as Heq. destruct ft; try done. injection Heq as ->.
    cbn [walk_and_insert]. eapply xsafe_bind; [apply put_marker_safe|]. intros t' Ht'.
    destruct kind as [w0|members]; [done|]. apply (steps_trans _ _ _ Ht').
    eapply xsafe_bind; [by eapply delete_set_safe|]. intros t1 Ht1. apply (steps_trans _ _ _ Ht1).
    apply allP_Forall in Hk. simpl in IH. rewrite Forall_forall in IH, Hk.
    apply xsafe_foldM; [done|]. intros t2 e He Ht2.
    destruct (set_prefix_typed _ _ _ _ _ Hw) as [H1' _]. rewrite H1'. cbn [xwalk map_err obind].
    eapply xsafe_bind; [apply put_marker_safe|]. intros t3 Ht3.
    eapply xsafe_bind; [apply xsafe_walk; by eapply enter_set_raw_typed|]. intros w' Hw'.
    apply (steps_trans _ _ _ Ht2), (steps_trans _ _ _ Ht3).
    eapply (IH _ He (FTable ty)); [by apply Hk|done].
  - by destruct ft.
  - destruct Ht as (m & Heq & _). by destruct ft.
  - apply delete_safe.
  - destruct Ht as [Heq _]. by destruct ft.
Qed.

(** ** Each kind of node *)
(** A result of the computed type; an effect node has none. *)
Definition out_ok (t : option VmType) (r : option VmValue) : Prop :=
  match r with Some v => exists t', t = Some t' /\ typed v t' | None => True end.

Lemma ensure_covariant_ok d x u : ensure_covariant d x = Ok u -> is_covariant_from d x = true.
Proof. unfold ensure_covariant. by destruct (is_covariant_from d x). Qed.

Lemma ensure_type_eq_ok d x u : ensure_type_eq d x = Ok u -> d = x.
Proof. unfold ensure_type_eq. destruct (ty_eqb d x) eqn:E; [|done]. by apply ty_eqb_eq in E. Qed.

Lemma BuildSet_sound v l t :
  typed v l -> is_null v = false -> tc_BuildSet l = Ok t -> xsafe (out_ok t) (node_BuildSet vm v).
Proof.
  unfold tc_BuildSet. intros Hv Hn Htc. tc. destruct l; try discriminate. simpl in *. tc.
  destruct x as [|ty| | | | | |]; try discriminate. tc.
  apply has_type_list in Hv as (els & -> & Hels); [|done]. simpl.
  eapply xsafe_bind; [apply xsafe_unwrap; [intros pk Hpk; exact Hpk|by right]|]. intros pk Hpk.
  apply bind_Some in Hpk as (sty & Hsty & Hpk).
  eapply xsafe_bind; [apply (xsafe_foldM (Forall (fun e => typed e.2 (TyTable ty))))|].
  - constructor.
  - intros ms x Hx Hms. rewrite Forall_forall in Hels. pose proof (Hels _ Hx) as Hxt.
    destruct (is_null x) eqn:Hxn; [by destruct x|].
    apply has_type_table in Hxt as Hx'; [|done]. destruct Hx' as (kind & sty' & -> & _ & Hk). simpl.
    destruct kind as [w|fields]; [done|].
    eapply xsafe_bind; [apply (xsafe_unwrap (fun _ => True)); [done|by right]|]. intros pv _.
    eapply xsafe_bind; [apply (xsafe_unwrap (fun _ => True)); [done|by right]|]. intros pv' _. simpl.
    by apply bt_insert_forall.
  - intros ms Hms. simpl. eexists. split; [done|]. split; [done|].
    exists ty. split; [done|]. split; [by rewrite Hsty|]. by apply allP_Forall.
Qed.

(** The fields of a fresh table, built one after the other. *)
Lemma build_fields_sound (sty : SpecializedType) fs els table :
  (forall e, e ∈ fs -> bt_get e.1 (st_fields sty) = Some e.2) ->
  (forall e v, e ∈ fs -> bt_get e.1 els = Some v -> typed v (ty_of_field e.2.1)) ->
  let ok := fun e : string * VmValue =>
    exists ft, bt_get e.1 (st_fields sty) = Some ft /\ typed e.2 (ty_of_field ft.1) in
  Forall ok table ->
  let table' := foldl (fun table (e : string * (FieldType * list FieldAnnotation)) =>
    bt_insert e.1 (default (VmNull (ty_of_field e.2.1)) (bt_get e.1 els)) table) table fs in
  Forall ok table' /\
  forall f, is_Some (bt_get f table) \/ f ∈ fs.*1 -> is_Some (bt_get f table').
Proof.
  intros Hfs Hels ok. revert table. induction fs as [|e fs IH]; intros table Htab table'.
  { split; [done|]. intros f [?|Hf%elem_of_nil]; done. }
  destruct (IH ltac:(intros; apply Hfs; by right) ltac:(intros ? ? ? ?; eapply Hels; [by right|done])
    (bt_insert e.1 (default (VmNull (ty_of_field e.2.1)) (bt_get e.1 els)) table)) as [IH1 IH2].
  { apply bt_insert_forall; [|done]. exists e.2. split; [apply Hfs; left|]. simpl.
    destruct (bt_get e.1 els) as [v|] eqn:E; simpl; [|done]. eapply Hels; [left|done]. }
  split; [done|]. intros f Hf. apply IH2. destruct (decide (f = e.1)) as [->|Hne].
  - left. by rewrite bt_get_insert_eq.
  - rewrite bt_get_insert_ne by done. destruct Hf as [?|Hf]; [by left|]. right.
    rewrite fmap_cons, elem_of_cons in Hf. naive_solver.
Qed.

Lemma BuildTable_sound i v m t :
  typed v m -> is_null v = false -> tc_BuildTable vm i m = Ok t -> xsafe (out_ok t) (node_BuildTable vm i v).
Proof.
  unfold tc_BuildTable, ident, table_type. intros Hv Hn Htc. tc. destruct m as [| | | | |m| |]; try discriminate. tc.
  rename x into name, x0 into sty, x1 into us.
  apply has_type_map in Hv as (els & -> & _ & Hels); [|done]. simpl. unfold ident_at.
  match goal with Hx : idents _ !! i = Some _ |- _ => rewrite Hx end. simpl.
  match goal with Hx : bt_get name _ = Some sty |- _ => rename Hx into Hsty end. rewrite Hsty. simpl.
  pose proof (type_facts _ _ Hsty) as [Hname Hsorted _ _]. simpl in *.
  eexists. split; [done|]. split; [by rewrite Hname|]. exists sty. split; [done|].
  match goal with Hx : mapM_o _ m = Ok us |- _ => apply mapM_o_ok in Hx; rename Hx into Hm end.
  destruct (build_fields_sound sty (st_fields sty) els []) as [H1' H2'].
  - intros [f ft] Hf. simpl. by apply bt_elem_get.
  - intros [f ft] x Hf Hx. simpl in *. apply bt_elem_get in Hf; [|done].
    apply Hels in Hx as (tk & Htk & Hxt). apply bt_get_elem in Htk.
    apply list_elem_of_lookup in Htk as [j Hj].
    destruct (Forall2_lookup_l _ _ _ _ _ Hm Hj) as (u & _ & Hu). simpl in Hu. rewrite Hf in Hu.
    apply ensure_covariant_ok, cov_not_map in Hu as ->; [done|apply ty_of_field_not_map].
  - constructor.
  - split; [|by apply allP_Forall]. intros f [ft Hft]. apply H2'. right.
    apply bt_get_elem in Hft. apply list_elem_of_fmap. by exists (f, ft).
Qed.

Lemma DeleteFromMap_sound i v m t :
  typed v m -> tc_DeleteFromMap vm i m = Ok t -> xsafe (out_ok t) (node_DeleteFromMap vm i v).
Proof.
  unfold tc_DeleteFromMap, ident. intros Hv Htc. tc. destruct m as [| | | | |m| |]; try discriminate. tc.
  destruct (is_null v) eqn:Hn; [destruct v; try discriminate; simpl; eexists; by split|].
  apply has_type_map in Hv as (els & -> & H1' & H2'); [|done]. simpl. unfold ident_at.
  match goal with Hx : idents _ !! i = Some _ |- _ => rewrite Hx end. simpl.
  eexists. split; [done|]. apply has_type_map_intro.
  - intros k tk Hk. destruct (decide (k = x)) as [->|Hne]; [by rewrite bt_get_remove_eq in Hk|].
    rewrite bt_get_remove_ne in Hk by done. rewrite bt_get_remove_ne by done. by apply H1'.
  - intros k [y Hy]. destruct (decide (k = x)) as [->|Hne]; [by rewrite bt_get_remove_eq in Hy|].
    rewrite bt_get_remove_ne in Hy by done. rewrite bt_get_remove_ne by done. destruct (H2' _ _ Hy) as (? & ? & _). by eexists.
Qed.

Lemma InsertIntoMap_sound i v v0 m tv t :
  typed v m -> typed v0 tv -> tc_InsertIntoMap vm i tv m = Ok t -> xsafe (out_ok t) (node_InsertIntoMap vm i v0 v).
Proof.
  unfold tc_InsertIntoMap, ident. intros Hv Hv0 Htc. tc. destruct m as [| | | | |m| |]; try discriminate. tc.
  destruct (is_null v) eqn:Hn; [destruct v; try discriminate; simpl; eexists; by split|].
  apply has_type_map in Hv as (els & -> & H1' & H2'); [|done]. simpl. unfold ident_at.
  match goal with Hx : idents _ !! i = Some _ |- _ => rewrite Hx end. simpl.
  eexists. split; [done|]. apply has_type_map_intro.
  - intros k tk Hk. destruct (decide (k = x)) as [->|Hne].
    + rewrite bt_get_insert_eq in Hk. rewrite bt_get_insert_eq. injection Hk as <-. by exists v0.
    + rewrite bt_get_insert_ne in Hk by done. rewrite bt_get_insert_ne by done. by apply H1'.
  - intros k [y Hy]. destruct (decide (k = x)) as [->|Hne]; [by rewrite bt_get_insert_eq|].
    rewrite bt_get_insert_ne in Hy by done. rewrite bt_get_insert_ne by done. destruct (H2' _ _ Hy) as (? & ? & _). by eexists.
Qed.

Lemma GetField_sound txn i v m t :
  reads_typed (kv_snapshot txn) -> typed v m -> is_null v = false -> tc_GetField vm i m = Ok t ->
  xsafe (out_ok t) (node_GetField rmp_from_slice vm txn i v).
Proof.
  unfold tc_GetField, ident, table_type. intros Hr Hv Hn Htc. tc. unfold node_GetField, ident_at.
  match goal with Hx : idents _ !! i = Some _ |- _ => rewrite Hx end. cbn [xunwrap obind].
  destruct m as [|ty| | | |m| |]; try discriminate; tc.
  - apply has_type_table in Hv as Hv'; [|done]. destruct Hv' as (kind & sty & -> & Hsty & _).
    assert (sty = x0) as -> by congruence.
    eapply xsafe_bind; [by eapply read_table_element_sound|]. intros y Hy. simpl. eexists. by split.
  - apply has_type_map in Hv as (els & -> & H1' & _); [|done].
    match goal with Hx : bt_get x m = Some _ |- _ => apply H1' in Hx as (y & -> & Hy) end.
    simpl. eexists. by split.
Qed.

Lemma set_key_facts tv tset t :
  tc_set_key vm tv tset = Ok t ->
  exists x q, tset = TySet (TyTable x) /\ t = TyTable x /\ tv = TyPrimitive q.
Proof.
  unfold tc_set_key, table_type. intros Htc. tc. destruct tset; try discriminate. simpl in *. tc.
  match goal with Hx : match ?o with Some _ => _ | None => _ end = Ok _ |- _ =>
    destruct o as [pk|] eqn:Epk; [|discriminate Hx] end. tc.
  destruct x as [|x| | | | | |]; try discriminate. tc.
  match goal with Hx : ensure_covariant _ _ = Ok _ |- _ =>
    apply ensure_covariant_ok, cov_not_map in Hx; [|apply ty_of_field_not_map] end. subst.
  destruct (primary_key_facts x x0 Epk) as (sty & ft & q & Hs & Hf & Hft & Hq).
  exists x, q. split; [done|]. split; [done|].
  assert (sty = x1) as -> by congruence. assert (ft = x2) as -> by congruence.
  by rewrite Hft, Hq.
Qed.

Lemma GetSetElement_sound v0 v tv tset t :
  typed v0 tv -> typed v tset -> is_null v0 = false -> is_null v = false ->
  tc_GetSetElement vm tv tset = Ok t -> xsafe (out_ok t) (node_GetSetElement v0 v).
Proof.
  unfold tc_GetSetElement. intros Hv0 Hv Hn0 Hn Htc. tc.
  match goal with Hx : tc_set_key _ _ _ = Ok _ |- _ => apply set_key_facts in Hx as (y & q & -> & -> & ->) end.
  apply has_type_prim in Hv0 as (pv & -> & _); [|done].
  apply has_type_set in Hv as (kind & ty & -> & [= <-] & [sty Hsty] & Hk); [|done]. simpl.
  destruct kind as [w|]; [|done].
  eapply xsafe_bind; [apply xsafe_walk; by eapply enter_set_raw_typed|].
  intros w' Hw'. simpl. eexists. split; [done|]. split; [done|]. by exists sty.
Qed.

Lemma DeleteFromSet_sound txn v0 v tv tset t :
  typed v0 tv -> typed v tset -> is_null v0 = false -> is_null v = false ->
  tc_DeleteFromSet vm tv tset = Ok t -> xsafe (effects txn) (node_DeleteFromSet txn v0 v).
Proof.
  unfold tc_DeleteFromSet. intros Hv0 Hv Hn0 Hn Htc. tc.
  match goal with Hx : tc_set_key _ _ _ = Ok _ |- _ => apply set_key_facts in Hx as (y & q & -> & -> & ->) end.
  apply has_type_prim in Hv0 as (pv & -> & _); [|done].
  apply has_type_set in Hv as (kind & ty & -> & [= <-] & [sty Hsty] & Hk); [|done]. simpl.
  destruct kind as [w|]; [|done]. by eapply delete_entry_safe.
Qed.

Lemma InsertIntoSet_sound txn v0 v tv tset t :
  reads_typed (kv_snapshot txn) -> typed v0 tv -> typed v tset -> is_null v0 = false -> is_null v = false ->
  tc_InsertIntoSet tv tset = Ok t ->
  xsafe (effects txn) (node_InsertIntoSet rmp_to_vec rmp_from_slice vm txn v0 v).
Proof.
  unfold tc_InsertIntoSet. intros Hr Hv0 Hv Hn0 Hn Htc. destruct tset as [| |tm| | | | |]; try discriminate. tc.
  apply has_type_set in Hv as (kind & ty & -> & -> & _ & Hk); [|done].
  match goal with Hx : ensure_covariant _ _ = Ok _ |- _ => apply ensure_covariant_ok, cov_not_map in Hx as <-; [|done] end.
  apply has_type_table in Hv0 as Hv0'; [|done]. destruct Hv0' as (kind0 & sty & -> & Hsty & _).
  unfold node_InsertIntoSet.
  eapply xsafe_bind; [apply xsafe_unwrap; [intros pk Hpk; exact Hpk|by right]|]. intros pk Hpk.
  apply primary_key_facts in Hpk as (sty' & ft & q & Hs' & Hf & Hft & Hq).
  cbn [unwrap_table xunwrap obind fst snd unwrap_set].
  eapply xsafe_bind; [by eapply read_table_element_sound|]. intros pv Hpv.
  eapply xsafe_bind; [apply (xsafe_unwrap (fun _ => True)); [done|by right]|]. intros pv' _.
  destruct kind as [w|]; [|done].
  destruct (set_prefix_typed _ _ _ _ _ Hk) as [Hp1 _]. rewrite Hp1. cbn [xwalk map_err obind].
  eapply xsafe_bind; [apply put_marker_safe|]. intros t' Ht'.
  eapply xsafe_bind; [apply xsafe_walk; by eapply enter_set_raw_typed|]. intros w' Hw'.
  apply (steps_trans _ _ _ Ht'). by eapply (walk_and_insert_sound _ (FTable ty)).
Qed.

Lemma InsertIntoTable_sound txn i v0 v tv tt t :
  typed v0 tv -> typed v tt -> is_null v = false -> tc_InsertIntoTable vm i tv tt = Ok t ->
  xsafe (effects txn) (node_InsertIntoTable rmp_to_vec vm txn i v0 v).
Proof.
  unfold tc_InsertIntoTable, ident, table_type. intros Hv0 Hv Hn Htc. tc.
  destruct tt as [|ty| | | | | |]; try discriminate. tc.
  destruct (is_primary _); [discriminate|]. tc.
  match goal with Hx : ensure_covariant _ _ = Ok _ |- _ =>
    apply ensure_covariant_ok, cov_not_map in Hx as <-; [|apply ty_of_field_not_map] end.
  unfold node_InsertIntoTable, ident_at.
  match goal with Hx : idents _ !! i = Some _ |- _ => rewrite Hx end. cbn [xunwrap obind].
  apply has_type_table in Hv as (kind & sty & -> & Hsty & Hk); [|done]. simpl.
  destruct kind as [w|]; [|done].
  eapply xsafe_bind; [apply xsafe_walk; by eapply enter_field_typed|]. intros w' Hw'.
  by eapply walk_and_insert_sound.
Qed.

Lemma IsPresent_sound txn v tv t :
  typed v tv -> is_null v = false -> tc_IsPresent tv = Ok t -> xsafe (out_ok t) (node_IsPresent txn v).
Proof.
  unfold tc_IsPresent. intros Hv Hn Htc.
  assert (Hget : forall w, xsafe (out_ok (Some TyBool))
    (let? r := xkv (kv_get txn (generate_key w)) in Ok (Some (VmBool (bool_decide (is_Some r)))))).
  { intros w. eapply xsafe_bind; [apply (xsafe_kv (fun _ => True)); [apply kv_get_returns|done]|].
    intros r _. simpl. by eexists. }
  destruct tv as [|ty|tm| | | | |]; try discriminate; injection Htc as <-.
  - apply has_type_table in Hv as ([w|] & sty & -> & _); [apply Hget|by eexists|done].
  - apply has_type_set in Hv as ([w|] & ty & -> & _); [apply Hget|by eexists|done].
Qed.

Lemma bool2_sound f v0 v :
  typed v0 TyBool -> typed v TyBool -> is_null v0 = false -> is_null v = false ->
  xsafe (out_ok (Some TyBool)) (node_bool2 f v0 v).
Proof.
  intros Hv0 Hv Hn0 Hn. apply has_type_bool in Hv0 as [a ->], Hv as [b ->]; [|done..]. by eexists.
Qed.

Lemma Add_sound v0 v t0 t1 t :
  typed v0 t0 -> typed v t1 -> is_null v0 = false -> is_null v = false ->
  tc_Add t0 t1 = Ok t -> xsafe (out_ok t) (node_Add v0 v).
Proof.
  intros Hv0 Hv Hn0 Hn. destruct t0 as [q0| | | | | | |]; try discriminate.
  destruct t1 as [q1| | | | | | |]; try (destruct q0; discriminate).
  apply has_type_prim in Hv0 as (x & -> & <-), Hv as (y & -> & <-); [|done..].
  destruct x, y; try discriminate; intros [= <-]; simpl; by eexists.
Qed.

Lemma Sub_sound v0 v t0 t1 t :
  typed v0 t0 -> typed v t1 -> is_null v0 = false -> is_null v = false ->
  tc_Sub t0 t1 = Ok t -> xsafe (out_ok t) (node_Sub v0 v).
Proof.
  intros Hv0 Hv Hn0 Hn. destruct t0 as [q0| | | | | | |]; try discriminate.
  destruct t1 as [q1| | | | | | |]; try (destruct q0; discriminate).
  apply has_type_prim in Hv0 as (x & -> & <-), Hv as (y & -> & <-); [|done..].
  destruct x, y; try discriminate; intros [= <-]; simpl; by eexists.
Qed.

Lemma PrependToList_sound v0 v t0 t :
  typed v0 t0 -> typed v (TyList t0) -> is_null v0 = false -> is_null v = false ->
  tc_PrependToList t0 (TyList t0) = Ok t -> xsafe (out_ok t) (node_PrependToList v0 v).
Proof.
  unfold tc_PrependToList. rewrite cov_refl. intros Hv0 Hv Hn0 Hn [= <-].
  apply has_type_list in Hv as (l & -> & Hl); [|done]. simpl. eexists. split; [done|].
  split; [done|]. split; [done|]. by apply allP_Forall.
Qed.

Lemma PopFromList_sound v tl t :
  typed v tl -> is_null v = false -> tc_PopFromList tl = Ok t -> xsafe (out_ok t) (node_PopFromList v).
Proof.
  unfold tc_PopFromList. intros Hv Hn. destruct tl; try discriminate. intros [= <-].
  apply has_type_list in Hv as (l & -> & Hl); [|done]. destruct Hl as [|x l Hx Hl]; simpl; [by eexists|].
  eexists. split; [done|]. split; [done|]. by apply allP_Forall.
Qed.

Lemma ListHead_sound v tl t :
  typed v tl -> is_null v = false -> tc_ListHead tl = Ok t -> xsafe (out_ok t) (node_ListHead v).
Proof.
  unfold tc_ListHead. intros Hv Hn. destruct tl; try discriminate. intros [= <-].
  apply has_type_list in Hv as (l & -> & Hl); [|done]. destruct Hl as [|x l Hx Hl]; simpl; by eexists.
Qed.

Lemma Throw_sound v t : typed v (TyPrimitive String_) -> xsafe (out_ok t) (node_Throw v).
Proof.
  intros Hv. unfold node_Throw. destruct (is_null v) eqn:Hn; [done|].
  apply has_type_prim in Hv as (x & -> & Hx); [|done]. by destruct x.
Qed.

(** ** Calls *)
Section Calls.
Context (run : nat -> list VmValue -> XState T -> xres (option VmValue * XState T)).
(** The parameter types of each graph. *)
Context (params_of : nat -> option (list VmType)).

Definition st_ok (st : XState T) : Prop := reads_typed (kv_snapshot (xs_txn st)).

Definition result_ok (t : option VmType) (st : XState T) (r : option VmValue * XState T) : Prop :=
  out_ok t r.1 /\ effects (xs_txn st) (xs_txn r.2).

Definition call_ok (i : nat) (ts : list VmType) : Prop :=
  exists g, graphs (vm_script vm) !! i = Some g /\ params_of i = Some ts.

Context (Hrun : forall i g ts args st,
  graphs (vm_script vm) !! i = Some g -> params_of i = Some ts ->
  Forall2 typed args ts -> st_ok st -> xsafe (result_ok (subgraph_output vm g) st) (run i args st)).

(** What the checker does not enforce for every script: an argument has the
    very type of the parameter, the initial value of a reduction that of the
    result, a prepended element that of the members. *)
Definition node_side (n : TwGraphNode) (tys : list VmType) (t : option VmType) : Prop :=
  match n, tys with
  | Call i, _ => call_ok i tys
  | Reduce i _, a :: b :: c :: _ =>
      (forall m, c = TyList m \/ c = TySet m -> call_ok i [a; b; m]) /\ t = Some b
  | PrependToList, [v; l] => l = TyList v
  | _, _ => True
  end.

Lemma reduce_loop_sound {A} (element : A -> xres VmValue) i g tp tacc tm l vp acc st :
  graphs (vm_script vm) !! i = Some g -> params_of i = Some [tp; tacc; tm] ->
  subgraph_output vm g = Some tacc ->
  (forall x, x ∈ l -> xsafe (fun v => typed v tm) (element x)) ->
  typed vp tp -> typed acc tacc -> st_ok st ->
  xsafe (fun r => typed r.1 tacc /\ effects (xs_txn st) (xs_txn r.2))
    (reduce_loop run element i vp l acc st).
Proof.
  intros Hg Hps Hout Hel Hvp. revert acc st. induction l as [|x l IH]; intros acc st Hacc Hst; [done|].
  simpl. eapply xsafe_bind; [apply Hel; left|]. intros v Hv.
  eapply xsafe_bind; [eapply (Hrun i g _ [vp; acc; v]); [done|done|by repeat constructor|done]|].
  intros [o st'] [Ho Hs]. simpl in *.
  eapply xsafe_bind; [apply xsafe_unwrap; [intros y Hy; exact Hy|by right]|]. intros y ->. simpl in Ho.
  rewrite Hout in Ho. destruct Ho as (t' & [= <-] & Hy).
  destruct (is_null y); [by split|].
  eapply xsafe_weaken; [apply IH; [intros; apply Hel; by right|done|]|].
  - unfold st_ok. by rewrite (kv_steps_snapshot _ _ (proj1 Hs)).
  - intros [r st''] [Hr Hs']. split; [done|]. by etrans.
Qed.

(** The keys a scan yields belong to the set. *)
Lemma scan_prefix w has_range params lo hi :
  reduce_range has_range params (generate_key w ++ [x01]) = Ok (lo, hi) ->
  forall k, oleb lo k = true -> oltb k hi = true -> exists r, k = (generate_key w ++ [x01]) ++ r.
Proof.
  intros Hr k Hlo Hhi. unfold reduce_range in Hr. rewrite bump_last_app in Hr. cbn [obind] in Hr.
  set (p := generate_key w) in *.
  assert (Hb : u8 (to_u8 (u8 x01 + 1)) = (u8 x01 + 1)%Z) by done.
  assert (Hend : forall y, cmp ((p ++ [x01]) ++ y) (p ++ [to_u8 (u8 x01 + 1)]) = Lt).
  { intros y. rewrite <- app_assoc. rewrite cmp_app_same. done. }
  assert (Hle : oleb (p ++ [x01]) lo = true /\ (hi = p ++ [to_u8 (u8 x01 + 1)] \/ exists y, hi = (p ++ [x01]) ++ y)).
  { destruct has_range; [|injection Hr as <- <-; split; [by rewrite <- (app_nil_r (p ++ [x01])) at 2; apply oleb_app_prefix|by left]].
    apply obind_ok in Hr as (a & _ & Hr). apply obind_ok in Hr as (b & _ & Hr).
    apply obind_ok in Hr as (lo' & Hlo' & Hr). apply obind_ok in Hr as (hi' & Hhi' & [= <- <-]).
    split.
    - destruct (is_null a); [injection Hlo' as <-; by rewrite <- (app_nil_r (p ++ [x01])) at 2; apply oleb_app_prefix|].
      apply obind_ok in Hlo' as (? & _ & [= <-]). apply oleb_app_prefix.
    - destruct (is_null b); [injection Hhi' as <-; by left|].
      apply obind_ok in Hhi' as (? & _ & [= <-]). right. by eexists. }
  destruct Hle as [Hle Hhi']. apply (prefix_of_range p x01 (to_u8 (u8 x01 + 1))); [done|..].
  - apply oleb_le. apply oleb_le in Hlo, Hle. intros Hgt%cmp_gt_lt.
    assert (cmp k lo = Lt).
    { destruct (cmp (p ++ [x01]) lo) eqn:E; [by apply cmp_eq in E as <-|by eapply cmp_trans|done]. }
    destruct Hlo. by apply cmp_gt_lt.
  - destruct Hhi' as [->|[y ->]]; [done|]. apply oltb_lt in Hhi. apply oltb_lt. eapply cmp_trans; [done|]. apply Hend.
Qed.

Lemma reduce_range_safe has_range params q pre b :
  (has_range = true -> exists v0 v1 v2 v3 v4, params = [v0; v1; v2; v3; v4] /\
     typed v3 (TyPrimitive q) /\ typed v4 (TyPrimitive q)) ->
  xsafe (fun r => reduce_range has_range params (pre ++ [b]) = Ok r)
    (reduce_range has_range params (pre ++ [b])).
Proof.
  intros Hp. unfold reduce_range. rewrite bump_last_app. cbn [obind].
  destruct has_range; [|done]. destruct Hp as (v0 & v1 & v2 & v3 & v4 & -> & H3 & H4); [done|].
  unfold param. cbn [lookup list_lookup xunwrap obind].
  assert (Hs : forall v (f : PrimitiveValue -> bytes) d, typed v (TyPrimitive q) -> exists r,
    (if is_null v then Ok d else let? x := xunwrap PInconsistent (unwrap_primitive v) in Ok (f x)) = Ok r).
  { intros v f d Hv. destruct (is_null v) eqn:E; [by eexists|].
    apply has_type_prim in Hv as (x & -> & _); [|done]. by eexists. }
  destruct (Hs v3 (fun x => (pre ++ [b]) ++ serialize_for_key_component x) (pre ++ [b]) H3) as [r3 ->].
  cbn [obind].
  destruct (Hs v4 (fun x => (pre ++ [b]) ++ serialize_for_key_component x) (pre ++ [to_u8 (u8 b + 1)]) H4) as [r4 ->].
  done.
Qed.

(** ** In-edges *)
Definition args_typed (types : list (option VmType)) (params : list VmValue) (edges : list nat) : Prop :=
  Forall2 (fun v j => forall t, types !! j = Some (Some t) -> typed v t) params edges.

Lemma edge_type_ok types j t : edge_type types j = Ok t <-> types !! j = Some (Some t).
Proof.
  unfold edge_type, ensure_type. destruct (types !! j) as [[u|]|]; simpl; naive_solver.
Qed.

Lemma mapM_edges_typed types params edges tys :
  mapM_o (edge_type types) edges = Ok tys -> args_typed types params edges -> Forall2 typed params tys.
Proof.
  intros Hm%mapM_o_ok Ha. revert tys Hm. induction Ha as [|v j params edges Hv Ha IH]; intros tys Hm.
  - inversion Hm. constructor.
  - inversion Hm as [|? t ? ts Ht Hts]; subst. constructor; [|by apply IH].
    by apply Hv, edge_type_ok.
Qed.

Lemma edges1_ok n edges types t : edges1 n edges types = Ok t -> mapM_o (edge_type types) edges = Ok [t].
Proof.
  unfold edges1, validate_in_edges. intros (l & Hl & Hr)%obind_ok. case_decide; [|done].
  destruct l as [|? [|? ?]]; try done. by injection Hr as <-.
Qed.
Lemma edges2_ok n edges types a b :
  edges2 n edges types = Ok (a, b) -> mapM_o (edge_type types) edges = Ok [a; b].
Proof.
  unfold edges2, validate_in_edges. intros (l & Hl & Hr)%obind_ok. case_decide; [|done].
  destruct l as [|? [|? [|? ?]]]; try done. by injection Hr as <- <-.
Qed.
Lemma edges3_ok n edges types a b c :
  edges3 n edges types = Ok (a, b, c) -> mapM_o (edge_type types) edges = Ok [a; b; c].
Proof.
  unfold edges3, validate_in_edges. intros (l & Hl & Hr)%obind_ok. case_decide; [|done].
  destruct l as [|? [|? [|? [|? ?]]]]; try done. by injection Hr as <- <- <-.
Qed.
Lemma edges5_ok n edges types a b c d e :
  edges5 n edges types = Ok (a, b, c, d, e) -> mapM_o (edge_type types) edges = Ok [a; b; c; d; e].
Proof.
  unfold edges5, validate_in_edges. intros (l & Hl & Hr)%obind_ok. case_decide; [|done].
  destruct l as [|? [|? [|? [|? [|? [|? ?]]]]]]; try done. by injection Hr as <- <- <- <- <-.
Qed.

(** The arguments of a reduction. *)
Lemma reduce_args_ok n has_range edges types a b c :
  tc_reduce_args vm n has_range edges types = Ok (a, b, c) ->
  if has_range then exists q ty, c = TySet (TyTable ty) /\
    mapM_o (edge_type types) edges = Ok [a; b; c; TyPrimitive q; TyPrimitive q]
  else mapM_o (edge_type types) edges = Ok [a; b; c].
Proof.
  unfold tc_reduce_args. destruct has_range; [|apply edges3_ok].
  intros ([[[[a' b'] c'] d] e] & He & Hr)%obind_ok. tc.
  repeat match goal with Hx : ensure_type_eq _ _ = Ok _ |- _ => apply ensure_type_eq_ok in Hx; subst end.
  match goal with Hx : (_, _, _) = _ |- _ => injection Hx as -> -> -> | _ => idtac end.
  match goal with Hx : set_primary_key _ _ = Some _ |- _ => rename Hx into Hpk end.
  assert (Hc : exists ty, c = TySet (TyTable ty)).
  { destruct c as [| |[]| | | | |]; try discriminate. by eexists. }
  destruct Hc as [ty ->]. destruct (primary_key_facts _ _ Hpk) as (sty & ft & q & _ & _ & _ & Hq).
  exists q, ty. split; [done|]. apply edges5_ok in He. by rewrite He, Hq.
Qed.

Lemma Reduce_sound i has_range n edges types params sink sink' a b c t st :
  tc_reduce_args vm n has_range edges types = Ok (a, b, c) ->
  tc_Reduce vm i sink a b c = Ok (t, sink') ->
  args_typed types params edges ->
  (forall m, c = TyList m \/ c = TySet m -> call_ok i [a; b; m]) -> t = Some b -> st_ok st ->
  xsafe (result_ok t st) (node_Reduce vm run i has_range params t st).
Proof.
  intros Hargs Htc Ha Hcall -> Hst. apply reduce_args_ok in Hargs.
  assert (Hps : exists vp vi vl rest, params = vp :: vi :: vl :: rest /\ typed vp a /\ typed vi b /\ typed vl c /\
    (has_range = true -> exists v3 v4 q, rest = [v3; v4] /\ typed v3 (TyPrimitive q) /\ typed v4 (TyPrimitive q))).
  { destruct has_range.
    - destruct Hargs as (q & ty & -> & Hm). pose proof (mapM_edges_typed _ _ _ _ Hm Ha) as Hf.
      inversion Hf as [|vp ? l1 ? Hvp Hf1]; subst. inversion Hf1 as [|vi ? l2 ? Hvi Hf2]; subst.
      inversion Hf2 as [|vl ? l3 ? Hvl Hf3]; subst. inversion Hf3 as [|v3 ? l4 ? Hv3 Hf4]; subst.
      inversion Hf4 as [|v4 ? l5 ? Hv4 Hf5]; subst. inversion Hf5; subst.
      exists vp, vi, vl, [v3; v4]. do 4 (split; [done|]). intros _. by exists v3, v4, q.
    - pose proof (mapM_edges_typed _ _ _ _ Hargs Ha) as Hf.
      inversion Hf as [|vp ? l1 ? Hvp Hf1]; subst. inversion Hf1 as [|vi ? l2 ? Hvi Hf2]; subst.
      inversion Hf2 as [|vl ? l3 ? Hvl Hf3]; subst. inversion Hf3; subst.
      by exists vp, vi, vl, []. }
  destruct Hps as (vp & vi & vl & rest & -> & Hvp & Hvi & Hvl & Hrange).
  unfold node_Reduce, param. cbn [lookup list_lookup xunwrap obind].
  destruct (is_null vl) eqn:Hn; [split; [by eexists|done]|].
  unfold tc_Reduce in Htc. apply obind_ok in Htc as (m & Hm & Htc).
  apply obind_ok in Htc as ([g sink1] & Hv & Htc). apply obind_ok in Htc as (o & Ho%ok_or_ok & Htc).
  apply obind_ok in Htc as (u & _ & Htc). injection Htc as -> _.
  assert (Hc : c = TyList m \/ c = TySet m) by (destruct c; try discriminate; injection Hm as ->; auto).
  destruct (Hcall m Hc) as (g' & Hg' & Hpo).
  apply validate_subgraph_call_ok in Hv as [Hv _]. assert (g' = g) as -> by congruence.
  destruct Hc as [-> | ->].
  - apply has_type_list in Hvl as (l & -> & Hl); [|done].
    eapply xsafe_bind; [eapply (reduce_loop_sound Ok i g a b m); try done|].
    + intros x Hx. rewrite Forall_forall in Hl. by apply Hl.
    + intros [v st'] [Hv' Hs]. split; [by eexists|done].
  - apply has_type_set in Hvl as (kind & ty & -> & -> & [sty Hsty] & Hk); [|done].
    destruct kind as [w|]; [|done]. rewrite Hsty. cbn [xunwrap obind].
    destruct (set_prefix_typed _ _ _ _ _ Hk) as [Hp1 _]. rewrite Hp1. cbn [xwalk map_err obind].
    assert (Hq : exists q, has_range = true -> exists v0 v1 v2 v3 v4,
      vp :: vi :: VmSet (TyTable ty) (Resident w) :: rest = [v0; v1; v2; v3; v4] /\
      typed v3 (TyPrimitive q) /\ typed v4 (TyPrimitive q)).
    { destruct has_range; [|by exists Int64].
      destruct Hrange as (v3 & v4 & q & -> & H3 & H4); [done|]. exists q. intros _.
      by exists vp, vi, (VmSet (TyTable ty) (Resident w)), v3, v4. }
    destruct Hq as [q Hq]. eapply xsafe_bind; [by eapply reduce_range_safe|].
    intros [lo hi] Hlh.
    eapply xsafe_bind; [apply xsafe_kv; [apply kv_scan_returns|intros ks Hks; exact Hks]|]. intros ks Hks.
    eapply xsafe_bind; [eapply (reduce_loop_sound _ i g a b (TyTable ty)); try done|].
    + intros k Hk'. destruct (kv_scan_bounds _ _ _ _ Hks _ Hk') as [Hb1 Hb2].
      destruct (scan_prefix _ _ _ _ _ Hlh k Hb1 Hb2) as [r ->].
      unfold reduce_member. rewrite strip_prefix_app. cbn [xunwrap obind].
      eapply xsafe_bind; [apply xsafe_walk; by eapply enter_set_raw_typed|]. intros w' Hw'. simpl.
      destruct (type_facts _ _ Hsty) as [Hname _ _ _]. simpl in Hname. rewrite Hname.
      split; [done|]. by exists sty.
    + intros [v st'] [Hv' Hs]. split; [by eexists|done].
Qed.

(** ** All nodes *)
Context (Hconsts : Forall (fun v => typed v (ty_of_value v)) (vm_consts vm)).

Lemma pure_safe t st c :
  xsafe (out_ok t) c -> xsafe (result_ok t st) (omap_ok (fun v => (v, st)) c).
Proof. intros Hc. apply xsafe_map. eapply xsafe_weaken; [done|]. intros v Hv. by split. Qed.

Lemma effect_safe t st c :
  xsafe (effects (xs_txn st)) c ->
  xsafe (result_ok t st) (omap_ok (fun txn => (None, with_txn st txn)) c).
Proof. intros Hc. apply xsafe_map. eapply xsafe_weaken; [done|]. intros v Hv. by split. Qed.

(** The parameters of a node with one and with two in-edges. *)
Lemma one_typed n edges types params t :
  edges1 n edges types = Ok t -> args_typed types params edges -> exists v, params = [v] /\ typed v t.
Proof.
  intros He%edges1_ok Ha. pose proof (mapM_edges_typed _ _ _ _ He Ha) as Hf.
  inversion Hf as [|v ? l ? Hv Hf']; subst. inversion Hf'; subst. eauto.
Qed.
Lemma two_typed n edges types params a b :
  edges2 n edges types = Ok (a, b) -> args_typed types params edges ->
  exists v w, params = [v; w] /\ typed v a /\ typed w b.
Proof.
  intros He%edges2_ok Ha. pose proof (mapM_edges_typed _ _ _ _ He Ha) as Hf.
  inversion Hf as [|v ? l ? Hv Hf']; subst. inversion Hf' as [|w ? l' ? Hw Hf2]; subst.
  inversion Hf2; subst. eauto.
Qed.

Ltac open_node :=
  repeat match goal with
  | Hx : obind _ _ = Ok (_, _) |- _ => apply obind_ok in Hx as (? & ? & Hx)
  | Hx : omap_ok _ _ = Ok (_, _) |- _ => apply obind_ok in Hx as (? & ? & Hx)
  | Hx : Ok _ = Ok _ |- _ => injection Hx; clear Hx; intros; subst
  | Hx : obind _ _ = Ok _ |- _ => apply obind_ok in Hx as (? & ? & Hx)
  | x : (_ * _)%type |- _ => destruct x
  | Hx : edges1 _ _ _ = Ok _, Ha : args_typed _ ?ps _ |- _ =>
      let v := fresh "v" in let Hv := fresh "Hv" in
      pose proof (one_typed _ _ _ _ _ Hx Ha) as (v & -> & Hv); apply edges1_ok in Hx
  | Hx : edges2 _ _ _ = Ok _, Ha : args_typed _ ?ps _ |- _ =>
      let v := fresh "v" in let w := fresh "w" in let Hv := fresh "Hv" in let Hw := fresh "Hw" in
      pose proof (two_typed _ _ _ _ _ _ Hx Ha) as (v & w & -> & Hv & Hw); apply edges2_ok in Hx
  end.

Lemma run_node_sound n edges types params gparams gtys sink sink' t st :
  typeck_node vm gtys types sink n edges = Ok (t, sink') ->
  is_select n = false ->
  args_typed types params edges -> Forall2 typed gparams gtys ->
  (forall tys, mapM_o (edge_type types) edges = Ok tys -> node_side n tys t) ->
  st_ok st ->
  xsafe (result_ok t st) (run_node rmp_to_vec rmp_from_slice vm run n params gparams t st).
Proof.
  intros Htc Hsel Ha Hg Hside Hst. unfold run_node.
  destruct (is_optional_chained n && existsb is_null params) eqn:Hopt.
  { split; [|done]. simpl. destruct t as [t|]; simpl; [by eexists|done]. }
  destruct n; try discriminate; cbn [is_optional_chained andb] in Hopt; cbn [typeck_node] in Htc;
    unfold typeck_node in Htc; cbn zeta in Htc; open_node;
    cbn [existsb] in Hopt; rewrite ?orb_false_r in Hopt; rewrite ?orb_false_iff in Hopt;
    unfold param; cbn [lookup list_lookup xunwrap obind];
    repeat match goal with Hx : _ = false /\ _ = false |- _ => destruct Hx end;
    try (apply pure_safe); try (apply effect_safe).
  all: try (by eexists); try (by split; [by eexists|]); unfold st_ok in Hst.
  all: try solve [
    eapply BuildTable_sound; eassumption | eapply BuildSet_sound; eassumption
    | eapply PopFromList_sound; eassumption | eapply ListHead_sound; eassumption
    | eapply GetField_sound; eassumption | eapply GetSetElement_sound; eassumption
    | eapply InsertIntoMap_sound; eassumption | eapply InsertIntoTable_sound; eassumption
    | eapply InsertIntoSet_sound; eassumption | eapply DeleteFromSet_sound; eassumption
    | eapply DeleteFromMap_sound; eassumption | eapply IsPresent_sound; eassumption
    | eapply Add_sound; eassumption | eapply Sub_sound; eassumption ].
  - (* LoadParam *)
    match goal with Hx : ok_or _ _ = Ok _ |- _ => apply ok_or_ok in Hx end.
    destruct (Forall2_lookup_r _ _ _ _ _ Hg H3) as (v & -> & Hv). by eexists.
  - (* LoadConst *)
    match goal with Hx : tc_LoadConst _ _ = Ok _ |- _ => unfold tc_LoadConst in Hx; rename Hx into Hc end.
    apply obind_ok in Hc as (v & Hv%ok_or_ok & [= <-]). rewrite Hv. simpl. eexists. split; [done|].
    rewrite Forall_forall in Hconsts. apply Hconsts. by eapply list_elem_of_lookup_2.
  - (* CreateMap *)
    injection Htc as <- <-. split; [|done]. eexists. split; [done|].
    apply has_type_map_intro; [done|]. by intros k [? ?].
  - (* CreateList *)
    match goal with Hx : tc_CreateList _ _ = Ok _ |- _ => unfold tc_CreateList in Hx; rename Hx into Hc end.
    apply obind_ok in Hc as (v & Hv%ok_or_ok & [= <-]). unfold node_CreateList. rewrite Hv. simpl. by eexists.
  - (* PrependToList *)
    match goal with Hx : mapM_o _ edges = Ok [?a; ?b] |- _ => pose proof (Hside _ Hx) as Hl end.
    simpl in Hl. subst. by eapply PrependToList_sound.
  - (* Reduce *)
    match goal with Hx : tc_reduce_args _ _ _ _ _ = Ok (?a, ?b, ?c) |- _ =>
      rename Hx into Hra; pose proof (reduce_args_ok _ _ _ _ _ _ _ Hra) as Hm end.
    assert (Hs : (forall m, v = TyList m \/ v = TySet m -> call_ok subgraph_index [v0; v1; m]) /\ t = Some v1).
    { destruct has_range; [destruct Hm as (q & ty & _ & Hm)|]; exact (Hside _ Hm). }
    destruct Hs. by eapply Reduce_sound.
  - (* And *)
    repeat match goal with Hx : ensure_type_eq _ _ = Ok _ |- _ => apply ensure_type_eq_ok in Hx; subst end.
    by apply bool2_sound.
  - (* Or *)
    repeat match goal with Hx : ensure_type_eq _ _ = Ok _ |- _ => apply ensure_type_eq_ok in Hx; subst end.
    by apply bool2_sound.
  - (* Not *)
    repeat match goal with Hx : ensure_type_eq _ _ = Ok _ |- _ => apply ensure_type_eq_ok in Hx; subst end.
    apply has_type_bool in Hv as [b ->]; [|done]. by eexists.
  - (* Call *)
    match goal with Hx : mapM_o _ edges = Ok _ |- _ => rename Hx into Hm end.
    destruct (Hside _ Hm) as (g & Hg' & Hpo). unfold tc_Call in Htc.
    apply obind_ok in Htc as ([g' sink1] & Hvs & [= <- <-]).
    apply validate_subgraph_call_ok in Hvs as [Hvs _]. assert (g' = g) as -> by congruence.
    eapply Hrun; [done|done| |done]. by eapply mapM_edges_typed.
  - (* Throw *)
    repeat match goal with Hx : ensure_type_eq _ _ = Ok _ |- _ => apply ensure_type_eq_ok in Hx; subst end.
    by apply Throw_sound.
Qed.
End Calls.
End Node.
