(* ===== verification/GraphSound.v ===== *)
(** * Soundness of the type checker: graphs

    The scheduler of the executor, for every order in which pending nodes may
    complete: a node of a checked graph fires at most once, with values of the
    types of its in-edges.  So the loop over futures ends ([loop_fuel] is
    enough) and the graph gives a value of its output type, an error, or an
    allowed panic; and so does the whole call tree. *)
From stdpp Require Import prelude gmap strings list.
From S2P Require Import Prelude OrdMap Schema SchemaFacts StoragePlan Planner PlannerFacts Value PathWalker.
From S2P Require Import WalkerTyping Kv VmValue Bytecode Typeck Exec ValueTyping NodeSound.

(** ** Fire rules *)
(** [item] tells its target about node [s]. *)
Definition rule_for (g : TwGraph) (s : nat) (item : FireRuleItem) : Prop :=
  exists n, g_nodes g !! target_node item = Some n /\
    match fr_kind item with
    | ParamDep pos => in_edges n !! pos = Some s
    | Precondition => precondition n = Some s
    end.

Definition option_list {A} (o : option A) : list A :=
  match o with Some a => [a] | None => [] end.

(** No node is twice a source of the same node. *)
Definition sources (n : GNode) : list nat := in_edges n ++ option_list (precondition n).
Definition distinct_sources (g : TwGraph) : Prop := Forall (fun n => NoDup (sources n)) (g_nodes g).

Lemma rules_of_node_elem t n s item :
  (s, item) ∈ rules_of_node t n <->
  target_node item = t /\
  match fr_kind item with
  | ParamDep pos => in_edges n !! pos = Some s
  | Precondition => precondition n = Some s
  end.
Proof.
  unfold rules_of_node. rewrite elem_of_app, elem_of_lookup_imap. destruct item as [t' k]. simpl. split.
  - intros [(i & x & [= -> -> ->] & Hi)|Hp]; [done|].
    destruct (precondition n) as [p|]; [|by apply not_elem_of_nil in Hp].
    apply list_elem_of_singleton in Hp as [= -> -> ->]. done.
  - intros [-> Hk]. destruct k as [pos|].
    + left. by exists pos, s.
    + right. rewrite Hk. by left.
Qed.

Lemma rules_elem g s item :
  (s, item) ∈ concat (imap rules_of_node (g_nodes g)) <-> rule_for g s item.
Proof.
  unfold rule_for. rewrite list_elem_of_In, in_concat. split.
  - intros (l & Hl & Hin). apply list_elem_of_In in Hl, Hin.
    apply elem_of_lookup_imap in Hl as (t & n & -> & Hn).
    apply rules_of_node_elem in Hin as [<- Hk]. eauto.
  - intros (n & Hn & Hk). exists (rules_of_node (target_node item) n). split; apply list_elem_of_In.
    + apply elem_of_lookup_imap. eauto.
    + by apply rules_of_node_elem.
Qed.

(** Pushing rules one after the other collects those of each source. *)
Lemma push_rules_spec rules l :
  (forall r, r ∈ l -> r.1 < length rules) ->
  exists rules', foldM_o push_rule rules l = Ok rules' /\ length rules' = length rules /\
    forall s, rules' !! s = (fun x => x ++ (List.filter (fun r => bool_decide (r.1 = s)) l).*2) <$> rules !! s.
Proof.
  revert rules. induction l as [|[s0 item] l IH]; intros rules Hl.
  { exists rules. split_and!; [done..|]. intros s. simpl. destruct (rules !! s); simpl; [by rewrite app_nil_r|done]. }
  assert (Hs0 : s0 < length rules) by (apply (Hl (s0, item)); left).
  apply lookup_lt_is_Some in Hs0 as [x Hx]. cbn [foldM_o].
  assert (push_rule rules (s0, item) = Ok (<[s0 := x ++ [item]]> rules)) as -> by (unfold push_rule; simpl; by rewrite Hx).
  cbn [obind].
  destruct (IH (<[s0 := x ++ [item]]> rules)) as (rules' & Hf & Hlen & Hr).
  { intros r Hr. rewrite length_insert. apply Hl. by right. }
  exists rules'. split; [done|]. rewrite length_insert in Hlen. split; [done|]. intros s. rewrite Hr.
  destruct (decide (s = s0)) as [->|Hne].
  - rewrite list_lookup_insert_eq by (by eapply lookup_lt_Some). rewrite Hx. cbn [fmap option_fmap option_map List.filter fst].
    rewrite bool_decide_eq_true_2 by done. simpl. by rewrite <- app_assoc.
  - rewrite list_lookup_insert_ne by done. cbn [List.filter fst]. by rewrite bool_decide_eq_false_2 by done.
Qed.

Lemma rules_nodup_imap (off : nat) ns :
  Forall (fun n => NoDup (sources n)) ns -> forall s,
  NoDup (target_node <$> (List.filter (fun r => bool_decide (r.1 = s))
          (concat (imap (fun i => rules_of_node (off + i)) ns))).*2).
Proof.
  intros Hns s. revert off. induction Hns as [|n ns Hn Hns IH]; intros off; [constructor|].
  simpl. rewrite List.filter_app, !fmap_app. apply NoDup_app.
  assert (Htail : imap ((fun i => rules_of_node (off + i)) ∘ S) ns = imap (fun i => rules_of_node (S off + i)) ns).
  { apply imap_ext. intros. simpl. f_equal. lia. }
  rewrite Htail. split; [|split].
  - rewrite Nat.add_0_r. clear -Hn. unfold rules_of_node.
    assert (Hlen : forall l : list (nat * FireRuleItem), length l <= 1 ->
      NoDup (target_node <$> l.*2)).
    { intros [|x [|y l]]; simpl; [intros; constructor|intros; apply NoDup_singleton|lia]. }
    apply Hlen. rewrite List.filter_app, length_app.
    assert (Hf : forall (l : list nat) (f : nat -> nat -> nat * FireRuleItem),
      (forall i x, (f i x).1 = x) -> length (List.filter (fun r => bool_decide (r.1 = s)) (imap f l))
        = length (List.filter (fun x => bool_decide (x = s)) l)).
    { induction l as [|x l IHl]; intros f Hf; simpl; [done|]. rewrite (Hf 0 x).
      destruct (bool_decide (x = s)); simpl; rewrite (IHl (f ∘ S)) by (intros; apply Hf); done. }
    rewrite Hf by done.
    assert (Hc : forall l, NoDup l -> length (List.filter (fun x => bool_decide (x = s)) l) <= 1).
    { clear. induction 1 as [|x l Hx Hl IH]; simpl; [lia|]. case_bool_decide; [subst|done]. simpl.
      enough (List.filter (fun x => bool_decide (x = s)) l = []) as -> by (simpl; lia).
      destruct (List.filter _ l) as [|y k] eqn:E; [done|].
      assert (Hy : In y (List.filter (fun x => bool_decide (x = s)) l)) by (rewrite E; by left).
      apply filter_In in Hy as [Hy Hys]. apply bool_decide_eq_true_1 in Hys. subst.
      by apply list_elem_of_In in Hy. }
    specialize (Hc _ Hn). unfold sources in Hc. rewrite List.filter_app, length_app in Hc.
    destruct (precondition n) as [q|]; simpl in *; [|lia]. destruct (bool_decide (q = s)); simpl in *; lia.
  - intros t Ht Ht'. apply list_elem_of_fmap in Ht as (i1 & -> & H1).
    apply list_elem_of_fmap in H1 as ([s1 j1] & -> & H1). apply list_elem_of_In, filter_In in H1 as [H1 _].
    apply list_elem_of_In, rules_of_node_elem in H1 as [H1 _]. simpl in H1.
    apply list_elem_of_fmap in Ht' as (i2 & He & H2).
    apply list_elem_of_fmap in H2 as ([s2 j2] & -> & H2). apply list_elem_of_In, filter_In in H2 as [H2 _].
    apply in_concat in H2 as (l & Hl & H2). apply list_elem_of_In in Hl, H2.
    apply elem_of_lookup_imap in Hl as (k & n' & -> & _).
    apply rules_of_node_elem in H2 as [H2 _]. simpl in *. lia.
  - apply IH.
Qed.

Lemma generate_fire_rules_spec g :
  (forall n s, n ∈ g_nodes g -> s ∈ sources n -> s < length (g_nodes g)) ->
  exists rules, generate_fire_rules g = Ok rules /\ length rules = length (g_nodes g) /\
    forall s items, rules !! s = Some items ->
      (forall item, item ∈ items <-> rule_for g s item) /\
      (distinct_sources g -> NoDup (target_node <$> items)).
Proof.
  intros Hs. unfold generate_fire_rules.
  destruct (push_rules_spec (replicate (length (g_nodes g)) []) (concat (imap rules_of_node (g_nodes g))))
    as (rules & Hf & Hlen & Hr).
  { intros [s item] Hin%rules_elem. rewrite length_replicate. destruct Hin as (n & Hn & Hk).
    apply (Hs n); [by eapply list_elem_of_lookup_2|]. unfold sources. apply elem_of_app. simpl in *.
    destruct (fr_kind item); [left; by eapply list_elem_of_lookup_2|right; rewrite Hk; by left]. }
  exists rules. rewrite length_replicate in Hlen. split_and!; [done..|]. intros s items Hit.
  rewrite Hr in Hit. apply fmap_Some in Hit as (x & Hx & ->).
  apply lookup_replicate in Hx as [-> _]. simpl. split.
  - intros item. rewrite <- rules_elem, list_elem_of_fmap. split.
    + intros ([s' i'] & -> & Hin). apply list_elem_of_In, filter_In in Hin as [Hin Hb].
      apply bool_decide_eq_true_1 in Hb. simpl in *. subst. by apply list_elem_of_In.
    + intros Hin. exists (s, item). split; [done|]. apply list_elem_of_In, filter_In.
      split; [by apply list_elem_of_In|by apply bool_decide_eq_true_2].
  - intros Hd. exact (rules_nodup_imap 0 (g_nodes g) Hd s).
Qed.

(** ** Checked graphs *)
Section Graph.
Context {T : Type} `{KvTransactionLaws T} `{!KvReturns T}.
Context (rmp_to_vec : PrimitiveValue -> bytes) (rmp_from_slice : bytes -> anyhow PrimitiveValue).
Context (schedule : nat -> nat).
Context (vm : TwVm) (rec : gset string).
Context (Hschema : wf_schema (vm_schema vm)).
Context (Hplan : plan_ok (vm_schema vm) (vm_storage_plan vm) rec).
Context (Hrmp : forall x, returns (rmp_from_slice x)).
Context (Hconsts : Forall (fun v => has_type (vm_schema vm) (vm_storage_plan vm) rec v (ty_of_value v)) (vm_consts vm)).
Context (params_of : nat -> option (list VmType)).

Abbreviation typed := (has_type (vm_schema vm) (vm_storage_plan vm) rec).
Abbreviation out_ok := (out_ok vm rec).
Abbreviation args_typed := (args_typed vm rec).
Abbreviation st_ok := (st_ok rmp_from_slice vm rec).
Abbreviation result_ok := (result_ok rmp_to_vec rmp_from_slice vm rec).

(** Node [i] of a graph was accepted with type [t], given the types of the
    nodes before it. *)
Definition node_checked (gtys : list VmType) (types : list (option VmType)) (i : nat) (n : GNode)
    (t : option VmType) : Prop :=
  check_edges i (take i types) n = Ok tt /\
  (exists sink sink', typeck_node vm gtys (take i types) sink (gn_node n) (in_edges n) = Ok (t, sink')) /\
  forall tys, mapM_o (edge_type (take i types)) (in_edges n) = Ok tys -> node_side vm params_of (gn_node n) tys t.

Record graph_typed (g : TwGraph) (info : GraphTypeInfo) : Prop := {
  gt_length : length (gi_nodes info) = length (g_nodes g);
  gt_nodes : forall i n, g_nodes g !! i = Some n ->
    exists t, gi_nodes info !! i = Some t /\ node_checked (gi_params info) (gi_nodes info) i n t;
  gt_sources : distinct_sources g;
  gt_output : forall x, output g = Some x -> gi_nodes info !! x = Some (subgraph_output vm g)
}.

Section OneGraph.
Context (g : TwGraph) (info : GraphTypeInfo) (Hg : graph_typed g info).
Context (gparams : list VmValue) (Hgparams : Forall2 typed gparams (gi_params info)).

Abbreviation N := (length (g_nodes g)).
Abbreviation types := (gi_nodes info).

Lemma check_edges_ok i tys n :
  check_edges i tys n = Ok tt ->
  (forall s, s ∈ in_edges n -> s < i) /\
  (forall s, precondition n = Some s -> s < i /\ (tys !! s = Some (Some TyBool) \/ tys !! s = Some None)).
Proof.
  unfold check_edges. destruct (existsb _ _) eqn:E; [done|]. intros Hp.
  assert (He : forall s, s ∈ in_edges n -> s < i).
  { intros s Hs. apply Nat.nle_gt. intros Hle. apply not_true_iff_false in E. destruct E.
    apply existsb_exists. exists s. split; [by apply list_elem_of_In|by apply bool_decide_eq_true_2]. }
  split; [done|]. intros s Hs. rewrite Hs in Hp. case_decide; [done|].
  apply obind_ok in Hp as (t & Ht & Hp). destruct (tys !! s) as [u|]; [|done]. injection Ht as <-.
  split; [lia|]. destruct u as [[]|]; try done; auto.
Qed.

Lemma sources_before i n s : g_nodes g !! i = Some n -> s ∈ sources n -> s < i.
Proof.
  intros Hn Hs. destruct (gt_nodes _ _ Hg _ _ Hn) as (t & _ & Hc & _).
  apply check_edges_ok in Hc as [He Hp]. unfold sources in Hs. apply elem_of_app in Hs as [?|Hs]; [auto|].
  destruct (precondition n); [|by apply not_elem_of_nil in Hs].
  apply list_elem_of_singleton in Hs as ->. by apply Hp.
Qed.

(** ** The invariant of the loop *)
Definition pending (fr : Frame) : list nat := (futures fr).*1.

Definition task_ok (q : nat * Task) : Prop :=
  exists n, g_nodes g !! q.1 = Some n /\
  match q.2 with
  | TaskRun ps => is_select (gn_node n) = false /\ args_typed (take q.1 types) ps (in_edges n)
  | TaskSelect v => exists t, types !! q.1 = Some (Some t) /\ typed v t
  end.

(** A dependency of node [t] that is there comes from a completed node and has
    its type. *)
Definition dep_ok (don : list nat) (n : GNode) (pos : nat) (v : VmValue) : Prop :=
  exists s, in_edges n !! pos = Some s /\ s ∈ don /\ forall t, types !! s = Some (Some t) -> typed v t.

Record unfired_ok (don : list nat) (fr : Frame) (t : nat) (n : GNode) : Prop := {
  uf_deps : exists ds, deps_satisfied fr !! t = Some ds /\ length ds = length (in_edges n) /\
    forall pos v, ds !! pos = Some (Some v) -> dep_ok don n pos v;
  uf_pre : exists b, precondition_satisfied fr !! t = Some b /\
    (b = true -> forall s, precondition n = Some s -> s ∈ don)
}.

Record fired_ok (don : list nat) (fr : Frame) (t : nat) (n : GNode) : Prop := {
  fi_pre : forall s, precondition n = Some s -> s ∈ don;
  fi_edges : is_select (gn_node n) = false -> forall s, s ∈ in_edges n -> s ∈ don;
  fi_deps : in_edges n = [] \/ deps_satisfied fr !! t = Some []
}.

Record frame_ok (don : list nat) (fr : Frame) : Prop := {
  fo_nodup : NoDup (don ++ pending fr);
  fo_range : forall t, t ∈ don ++ pending fr -> t < N;
  fo_ret : out_ok (subgraph_output vm g) (fr_ret fr);
  fo_tasks : Forall task_ok (futures fr);
  fo_nodes : forall t n, g_nodes g !! t = Some n ->
    if decide (t ∈ don ++ pending fr) then fired_ok don fr t n else unfired_ok don fr t n
}.

(** *** The first batch *)
Lemma initial_pending t :
  t ∈ pending (initial_frame g) <-> exists n, g_nodes g !! t = Some n /\ in_edges n = [] /\ precondition n = None.
Proof.
  unfold pending, initial_frame. simpl. rewrite list_elem_of_fmap. split.
  - intros ([t' task] & -> & Hin). apply list_elem_of_In, in_concat in Hin as (l & Hl & Hin).
    apply list_elem_of_In in Hl, Hin. apply elem_of_lookup_imap in Hl as (i & n & -> & Hn).
    destruct (_ && _) eqn:E; [|by apply not_elem_of_nil in Hin].
    apply list_elem_of_singleton in Hin as [= -> ->]. apply andb_true_iff in E as [E1 E2].
    apply bool_decide_eq_true_1 in E1, E2. eauto.
  - intros (n & Hn & He & Hp). exists (t, TaskRun []). split; [done|].
    apply list_elem_of_In, in_concat. exists [(t, TaskRun [])]. split; [|by left].
    apply list_elem_of_In, elem_of_lookup_imap. exists t, n. split; [|done].
    by rewrite !bool_decide_eq_true_2.
Qed.

Lemma initial_futures_nodup (off : nat) ns :
  NoDup (concat (imap (fun i n =>
       if bool_decide (in_edges n = []) && bool_decide (precondition n = None)
       then [(off + i, TaskRun [])] else []) ns)).*1.
Proof.
  revert off. induction ns as [|n ns IH]; intros off; simpl; [constructor|].
  assert (Htail : imap ((fun i n => if bool_decide (in_edges n = []) && bool_decide (precondition n = None)
       then [(off + i, TaskRun [])] else []) ∘ S) ns =
    imap (fun i n => if bool_decide (in_edges n = []) && bool_decide (precondition n = None)
       then [(S off + i, TaskRun [])] else []) ns).
  { apply imap_ext. intros. simpl. by replace (off + S i) with (S (off + i)) by lia. }
  rewrite Htail, fmap_app. apply NoDup_app. split; [|split; [|apply IH]].
  - destruct (_ && _); simpl; [apply NoDup_singleton|constructor].
  - intros t Ht Ht'. destruct (_ && _) in Ht; [|by apply not_elem_of_nil in Ht].
    apply list_elem_of_singleton in Ht as ->. apply list_elem_of_fmap in Ht' as ([t' task] & He & Hin).
    apply list_elem_of_In, in_concat in Hin as (l & Hl & Hin).
    apply list_elem_of_In in Hl, Hin. apply elem_of_lookup_imap in Hl as (i & n' & -> & Hn).
    destruct (_ && _) in Hin; [|by apply not_elem_of_nil in Hin].
    apply list_elem_of_singleton in Hin as [= -> ->]. simpl in He. lia.
Qed.

Lemma select_edges i n : g_nodes g !! i = Some n -> is_select (gn_node n) = true ->
  exists a b t, in_edges n = [a; b] /\ types !! i = Some (Some t) /\
    types !! a = Some (Some t) /\ types !! b = Some (Some t).
Proof.
  intros Hn Hs. destruct (gt_nodes _ _ Hg _ _ Hn) as (t & Ht & _ & (sink & sink' & Htc) & _).
  destruct (gn_node n); try done. cbn [typeck_node] in Htc. unfold typeck_node in Htc. cbn zeta in Htc.
  apply obind_ok in Htc as (o & Htc & [= <- <-]). apply obind_ok in Htc as ([a b] & He & Htc).
  apply edges2_ok, mapM_o_ok in He. inversion He as [|x ? l ? Hx He']; subst.
  inversion He' as [|y ? l' ? Hy He2]; subst. inversion He2; subst.
  apply edge_type_ok in Hx, Hy. unfold tc_Select in Htc. destruct (ty_eqb a b) eqn:E; [|done].
  apply ty_eqb_eq in E as ->. injection Htc as <-. exists x, y, b. split; [done|]. split; [done|].
  by apply lookup_take_Some in Hx as [? _], Hy as [? _].
Qed.

Lemma initial_frame_ok : frame_ok [] (initial_frame g).
Proof.
  split.
  - simpl. exact (initial_futures_nodup 0 (g_nodes g)).
  - intros t Ht. apply initial_pending in Ht as (n & Hn & _). by eapply lookup_lt_Some.
  - done.
  - apply Forall_forall. intros [t task] Hin.
    assert (Hp : t ∈ pending (initial_frame g)) by (apply list_elem_of_fmap; by exists (t, task)).
    apply initial_pending in Hp as (n & Hn & He & Hpre). exists n. split; [done|].
    assert (task = TaskRun []) as ->.
    { apply list_elem_of_In, in_concat in Hin as (l & Hl & Hin). apply list_elem_of_In in Hl, Hin.
      apply elem_of_lookup_imap in Hl as (i & n' & -> & _).
      destruct (_ && _) in Hin; [|by apply not_elem_of_nil in Hin].
      by apply list_elem_of_singleton in Hin as [= _ ->]. }
    simpl. split; [|rewrite He; constructor].
    destruct (is_select (gn_node n)) eqn:Es; [|done].
    destruct (select_edges _ _ Hn Es) as (a & b & ? & He' & _). congruence.
  - intros t n Hn. case_decide as Ht.
    + apply initial_pending in Ht as (n' & Hn' & He & Hp). assert (n' = n) as -> by congruence.
      split; [by rewrite Hp|by rewrite He; intros _ s ?%elem_of_nil|by left].
    + split.
      * exists (replicate (length (in_edges n)) None). simpl. rewrite list_lookup_fmap, Hn. split; [done|].
        rewrite length_replicate. split; [done|]. intros pos v Hl. by apply lookup_replicate in Hl as [? _].
      * simpl. rewrite list_lookup_fmap, Hn. simpl. eexists. split; [done|].
        intros Hb s Hs. apply bool_decide_eq_true_1 in Hb. congruence.
Qed.

(** *** Recording a result *)
Abbreviation fired don fr := (don ++ pending fr).

Lemma unfired_of don fr t n :
  frame_ok don fr -> g_nodes g !! t = Some n -> t ∉ fired don fr -> unfired_ok don fr t n.
Proof. intros Hf Hn Ht. pose proof (fo_nodes _ _ Hf _ _ Hn) as Hx. by rewrite decide_False in Hx. Qed.

(** Changing the entry of a node that has not fired. *)
Lemma frame_ok_update don fr fr' t n :
  frame_ok don fr -> g_nodes g !! t = Some n -> t ∉ fired don fr ->
  futures fr' = futures fr -> fr_ret fr' = fr_ret fr ->
  (forall t', t' <> t -> deps_satisfied fr' !! t' = deps_satisfied fr !! t' /\
     precondition_satisfied fr' !! t' = precondition_satisfied fr !! t') ->
  unfired_ok don fr' t n -> frame_ok don fr'.
Proof.
  intros [F1 F2 F3 F4 F5] Hn Ht Hfut Hret Hother Hu.
  assert (Hpend : pending fr' = pending fr) by (unfold pending; by rewrite Hfut).
  split; rewrite ?Hpend, ?Hfut, ?Hret; try done. intros t' n' Hn'.
  destruct (decide (t' = t)) as [->|Hne].
  - rewrite decide_False by done. assert (n' = n) as -> by congruence. done.
  - destruct (Hother t' Hne) as [Hd Hp]. specialize (F5 t' n' Hn').
    case_decide; destruct F5; split; rewrite ?Hd, ?Hp; done.
Qed.

Definition target_state (don : list nat) (fr : Frame) (item : FireRuleItem) : Prop :=
  target_node item ∉ fired don fr \/
  ((exists pos, fr_kind item = ParamDep pos) /\ deps_satisfied fr !! target_node item = Some []).

Lemma record_one don fr s r item ty :
  frame_ok don fr -> rule_for g s item -> s ∈ don -> types !! s = Some ty -> out_ok ty r ->
  target_state don fr item ->
  xsafe (fun fr' => frame_ok don fr' /\ futures fr' = futures fr /\ (target_node item ∉ fired don fr) /\
           forall t, t <> target_node item -> deps_satisfied fr' !! t = deps_satisfied fr !! t)
    (record_result r fr item).
Proof.
  intros Hf (n & Hn & Hk) Hs Hty Hr Hst. unfold record_result. destruct item as [t k]. simpl in *.
  destruct k as [pos|].
  - eapply xsafe_bind; [apply xsafe_unwrap; [intros v Hv; exact Hv|by right]|]. intros v ->.
    destruct Hr as (tv & -> & Hv).
    destruct Hst as [Hun|[_ Hd]]; simpl in *; [|by rewrite Hd].
    destruct (unfired_of _ _ _ _ Hf Hn Hun) as [(ds & Hd & Hlen & Hds) Hpre]. rewrite Hd. cbn [xunwrap obind].
    eapply xsafe_bind; [apply (xsafe_unwrap (fun _ => True)); [done|by right]|]. intros _ _.
    split; [|split_and!; [done|done|intros t' Ht'; simpl; by rewrite list_lookup_insert_ne]].
    eapply (frame_ok_update don fr _ t n Hf); try done.
    { intros t' Ht'. simpl. by rewrite list_lookup_insert_ne. }
    split; simpl; [|done]. exists (<[pos := Some v]> ds).
    rewrite list_lookup_insert_eq by (by eapply lookup_lt_Some). rewrite length_insert.
    split; [done|]. split; [done|]. intros pos' v' Hv'.
    destruct (decide (pos' = pos)) as [->|Hne].
    + apply list_lookup_insert_Some in Hv' as [(_ & [= <-] & _)|[? _]]; [|done].
      exists s. split; [done|]. split; [done|]. intros t0 Ht0. congruence.
    + rewrite list_lookup_insert_ne in Hv' by done. by apply Hds.
  - destruct Hst as [Hun|[[pos ?] _]]; [|done]. simpl in Hun.
    destruct (unfired_of _ _ _ _ Hf Hn Hun) as [Hdeps (b & Hb & _)]. rewrite Hb.
    eapply (xsafe_bind (fun _ => True)).
    { destruct (gt_nodes _ _ Hg _ _ Hn) as (tn & _ & Hc & _). apply check_edges_ok in Hc as [_ Hp].
      destruct (Hp s Hk) as [_ Hts]. destruct r as [v|]; [|done]. destruct Hr as (tv & -> & Hv).
      destruct Hts as [Hts|Hts]; apply lookup_take_Some in Hts as [Hts _]; [|congruence].
      assert (tv = TyBool) as -> by congruence.
      destruct (is_null v) eqn:E; [by destruct v|]. by apply has_type_bool in Hv as [b' ->]. }
    intros b' _. simpl. split; [|split_and!; done].
    eapply (frame_ok_update don fr _ t n Hf); try done.
    { intros t' Ht'. simpl. by rewrite list_lookup_insert_ne. }
    split; simpl; [done|]. exists b'. rewrite list_lookup_insert_eq by (by eapply lookup_lt_Some).
    split; [done|]. intros _ s' Hs'. congruence.
Qed.

Lemma record_all don fr s r items ty :
  frame_ok don fr -> Forall (rule_for g s) items -> s ∈ don -> types !! s = Some ty -> out_ok ty r ->
  Forall (target_state don fr) items ->
  xsafe (fun fr' => frame_ok don fr' /\ futures fr' = futures fr /\
           Forall (fun item => target_node item ∉ fired don fr) items)
    (foldM_o (record_result r) fr items).
Proof.
  intros Hf Hrule Hs Hty Hr Hst. revert fr Hf Hst.
  induction Hrule as [|item items Hi Hitems IH]; intros fr Hf Hst; [by simpl|].
  apply Forall_cons in Hst as [Hst1 Hst]. cbn [foldM_o].
  eapply xsafe_bind; [by eapply record_one|]. intros fr1 (Hf1 & Hfut & Hun & Hother).
  assert (Hpend : pending fr1 = pending fr) by (unfold pending; by rewrite Hfut).
  eapply xsafe_weaken; [apply IH; [done|]|].
  - eapply Forall_impl; [exact Hst|]. intros item' Hst'. unfold target_state in *. rewrite Hpend.
    destruct (decide (target_node item' = target_node item)) as [->|Hne]; [by left|].
    by rewrite Hother.
  - intros fr2 (Hf2 & Hfut2 & Hall). rewrite Hpend in Hall. split_and!; [done|congruence|by constructor].
Qed.

(** *** Firing *)
Lemma fire_ok don fr t n task :
  frame_ok don fr -> g_nodes g !! t = Some n -> t ∉ fired don fr ->
  precondition_satisfied fr !! t = Some true -> task_ok (t, task) ->
  (is_select (gn_node n) = false -> forall s, s ∈ in_edges n -> s ∈ don) ->
  frame_ok don (fire fr t task).
Proof.
  intros Hf Hn Ht Hpre Htask Hedges.
  destruct (unfired_of _ _ _ _ Hf Hn Ht) as [(ds & Hd & Hlen & Hds) (b & Hb & Hp)].
  assert (Hperm : pending (fire fr t task) = pending fr ++ [t]) by (unfold pending; simpl; by rewrite fmap_app).
  destruct Hf as [F1 F2 F3 F4 F5]. split; rewrite ?Hperm.
  - rewrite (assoc_L (++)). apply NoDup_app. split; [done|]. split; [|apply NoDup_singleton].
    intros x Hx Hx'. apply list_elem_of_singleton in Hx' as ->. done.
  - intros x. rewrite (assoc_L (++)). intros [Hx|Hx]%elem_of_app; [auto|].
    apply list_elem_of_singleton in Hx as ->. by eapply lookup_lt_Some.
  - done.
  - simpl. apply Forall_app. split; [done|]. by constructor.
  - intros t' n' Hn'. specialize (F5 t' n' Hn'). destruct (decide (t' = t)) as [->|Hne].
    + assert (n' = n) as -> by congruence. rewrite decide_True by set_solver. split.
      * apply Hp. congruence.
      * done.
      * right. simpl. apply list_lookup_insert_eq. by eapply lookup_lt_Some.
    + assert (Hiff : t' ∈ don ++ pending fr ++ [t] <-> t' ∈ fired don fr) by set_solver.
      assert (Hdep : deps_satisfied (fire fr t task) !! t' = deps_satisfied fr !! t').
      { simpl. by rewrite list_lookup_insert_ne. }
      repeat case_decide; try tauto; destruct F5; split; rewrite ?Hdep; done.
Qed.

Lemma mapM_id_lookup (ds : list (option VmValue)) ps :
  mapM_opt id ds = Some ps -> Forall2 (fun d v => d = Some v) ds ps.
Proof. by intros Hp%mapM_opt_Some. Qed.

Lemma first_some_lookup ds v : first_some ds = Some v -> exists pos, ds !! pos = Some (Some v).
Proof.
  induction ds as [|[d|] ds IH]; simpl; [done| |].
  - intros [= ->]. by exists 0.
  - intros [pos Hp]%IH. by exists (S pos).
Qed.

Lemma fire_one don fr s item :
  frame_ok don fr -> rule_for g s item -> target_node item ∉ fired don fr ->
  xsafe (fun fr' => frame_ok don fr' /\
           forall t, t <> target_node item -> t ∉ fired don fr -> t ∉ fired don fr')
    (fire_ready g fr item).
Proof.
  intros Hf (n & Hn & _) Hun. unfold fire_ready. destruct item as [t k]. simpl in *. rewrite Hn.
  cbn [xunwrap obind].
  destruct (unfired_of _ _ _ _ Hf Hn Hun) as [(ds & Hd & Hlen & Hds) (b & Hb & Hp)]. rewrite Hb, Hd.
  cbn [xunwrap obind]. destruct b; [|by split].
  assert (Hstep : forall task, task_ok (t, task) ->
    (is_select (gn_node n) = false -> forall s, s ∈ in_edges n -> s ∈ don) ->
    frame_ok don (fire fr t task) /\
    forall t', t' <> t -> t' ∉ fired don fr -> t' ∉ fired don (fire fr t task)).
  { intros task Htask Hedges. split; [by eapply fire_ok|]. intros t' Hne Hnot.
    unfold pending in *. simpl. rewrite fmap_app. simpl. set_solver. }
  destruct (is_select (gn_node n)) eqn:Es.
  - destruct ds as [|d ds']; [done|]. set (ds := d :: ds') in *.
    destruct (first_some ds) as [v|] eqn:Ev; [|by split]. apply Hstep; [|done].
    destruct (select_edges _ _ Hn Es) as (a & b & ty & He & Hty & Ha & Hb').
    exists n. split; [done|]. exists ty. split; [done|].
    destruct (first_some_lookup _ _ Ev) as [pos Hpos]. destruct (Hds _ _ Hpos) as (s' & Hs' & _ & Hv).
    apply Hv. rewrite He in Hs'. destruct pos as [|[|]]; simpl in Hs'; [injection Hs' as <-; done..|done].
  - destruct (mapM_opt id ds) as [ps|] eqn:Ep; [|by split].
    apply mapM_id_lookup in Ep.
    assert (Hsrc : forall pos s', in_edges n !! pos = Some s' -> exists v, ps !! pos = Some v /\
      s' ∈ don /\ forall ty, types !! s' = Some (Some ty) -> typed v ty).
    { intros pos s' Hs'. assert (Hlt : pos < length ds) by (rewrite Hlen; by eapply lookup_lt_Some).
      apply lookup_lt_is_Some in Hlt as [o Ho]. destruct (Forall2_lookup_l _ _ _ _ _ Ep Ho) as (v & Hv & ->).
      destruct (Hds _ _ Ho) as (s2 & Hs2 & Hdon & Ht2). assert (s2 = s') as -> by congruence. eauto. }
    apply Hstep.
    + exists n. split; [done|]. split; [done|]. apply Forall2_same_length_lookup_2.
      * rewrite <- (Forall2_length _ _ _ Ep). done.
      * intros pos v s' Hv Hs' ty Hty. apply lookup_take_Some in Hty as [Hty _].
        destruct (Hsrc _ _ Hs') as (v' & Hv' & _ & Ht'). assert (v' = v) as -> by congruence. auto.
    + intros _ s' [pos Hs']%list_elem_of_lookup. by destruct (Hsrc _ _ Hs') as (v & _ & ? & _).
Qed.

Lemma fire_all don fr s items :
  frame_ok don fr -> Forall (rule_for g s) items -> NoDup (target_node <$> items) ->
  Forall (fun item => target_node item ∉ fired don fr) items ->
  xsafe (frame_ok don) (foldM_o (fire_ready g) fr items).
Proof.
  intros Hf Hrule. revert fr Hf. induction Hrule as [|item items Hi Hitems IH]; intros fr Hf Hnd Hun; [done|].
  rewrite fmap_cons in Hnd. apply NoDup_cons in Hnd as [Hnew Hnd]. apply Forall_cons in Hun as [Hun1 Hun].
  cbn [foldM_o]. eapply xsafe_bind; [by eapply fire_one|]. intros fr1 [Hf1 Hkeep].
  apply IH; [done|done|]. rewrite Forall_forall in Hun |- *. intros item' Hin.
  apply Hkeep; [|by apply Hun]. intros He. destruct Hnew. rewrite <- He. apply list_elem_of_fmap. eauto.
Qed.

(** *** Completion of a node *)
Context (rules : FireRuleTable) (Hrules : generate_fire_rules g = Ok rules).

Lemma rules_ok : length rules = N /\ forall s items, rules !! s = Some items ->
  Forall (rule_for g s) items /\ NoDup (target_node <$> items).
Proof.
  destruct (generate_fire_rules_spec g) as (rules' & Hr & Hlen & Hspec).
  { intros n s Hn Hs. apply list_elem_of_lookup in Hn as [i Hn].
    pose proof (sources_before _ _ _ Hn Hs). pose proof (lookup_lt_Some _ _ _ Hn). lia. }
  rewrite Hrules in Hr. injection Hr as <-. split; [done|]. intros s items Hi.
  destruct (Hspec _ _ Hi) as [Hel Hnd]. split; [|by apply Hnd, (gt_sources _ _ Hg)].
  apply Forall_forall. intros item. apply Hel.
Qed.

Definition pop (fr : Frame) (rest : list (nat * Task)) (ret : option VmValue) : Frame :=
  MkFrame (deps_satisfied fr) (precondition_satisfied fr) rest ret.

Lemma fired_pop don fr s task rest ret t :
  futures fr ≡ₚ (s, task) :: rest ->
  t ∈ fired (s :: don) (pop fr rest ret) <-> t ∈ fired don fr.
Proof.
  intros Hperm. unfold pending. simpl. rewrite Hperm. simpl. set_solver.
Qed.

Lemma pop_ok don fr s task rest ret :
  frame_ok don fr -> futures fr ≡ₚ (s, task) :: rest -> out_ok (subgraph_output vm g) ret ->
  frame_ok (s :: don) (pop fr rest ret).
Proof.
  intros Hf Hperm Hret. pose proof (fun t => fired_pop don fr s task rest ret t Hperm) as Hiff.
  destruct Hf as [F1 F2 F3 F4 F5]. split.
  - assert (Hp : (s :: don) ++ pending (pop fr rest ret) ≡ₚ fired don fr); [|by rewrite Hp].
    unfold pending. simpl. rewrite Hperm. simpl. by rewrite Permutation_middle.
  - intros t Ht. by apply F2, Hiff.
  - done.
  - simpl. rewrite Hperm in F4. by apply Forall_cons in F4 as [_ ?].
  - intros t n Hn. specialize (F5 t n Hn). specialize (Hiff t).
    repeat case_decide; try tauto.
    + destruct F5 as [P1 P2 P3]. split; [intros; right; auto|intros; right; auto|done].
    + destruct F5 as [(ds & Hd & Hlen & Hds) (b & Hb & Hp)]. split.
      * exists ds. split; [done|]. split; [done|]. intros pos v Hv.
        destruct (Hds pos v Hv) as (s' & ? & ? & ?). exists s'. split; [done|]. split; [by right|done].
      * exists b. split; [done|]. intros ? ? ?. right. auto.
Qed.

Lemma targets_ok don fr s task rest ret items :
  frame_ok don fr -> futures fr ≡ₚ (s, task) :: rest -> Forall (rule_for g s) items ->
  Forall (target_state (s :: don) (pop fr rest ret)) items.
Proof.
  intros Hf Hperm Hitems. eapply Forall_impl; [exact Hitems|]. intros [t k] (n & Hn & Hk). simpl in *.
  assert (Hs : s ∉ don).
  { pose proof (fo_nodup _ _ Hf) as Hnd. unfold pending in Hnd. rewrite Hperm in Hnd. simpl in Hnd.
    apply NoDup_app in Hnd as (_ & Hd & _). intros Hin. apply (Hd s Hin). by left. }
  unfold target_state. simpl. destruct (decide (t ∈ fired don fr)) as [Hin|Hnot].
  - right. pose proof (fo_nodes _ _ Hf _ _ Hn) as Hfi. rewrite decide_True in Hfi by done.
    destruct Hfi as [P1 P2 P3]. destruct k as [pos|]; [|by destruct Hs; apply P1].
    split; [by exists pos|]. destruct P3 as [He|?]; [|done]. by rewrite He in Hk.
  - left. by rewrite (fired_pop don fr s task rest ret t Hperm).
Qed.

Lemma complete_sound don fr s task rest r ty :
  frame_ok don fr -> futures fr ≡ₚ (s, task) :: rest -> types !! s = Some ty -> out_ok ty r ->
  xsafe (frame_ok (s :: don)) (complete g rules s r (pop fr rest (fr_ret fr))).
Proof.
  intros Hf Hperm Hty Hr. unfold complete. cbn [fr_ret pop]. unfold pop.
  set (ret := if decide (Some s = output g) then r else fr_ret fr).
  assert (Hret : out_ok (subgraph_output vm g) ret).
  { unfold ret. case_decide as E; [|apply Hf]. symmetry in E. apply (gt_output _ _ Hg) in E.
    rewrite E in Hty. injection Hty as <-. done. }
  assert (Hs : s < N).
  { apply (fo_range _ _ Hf). apply elem_of_app. right. unfold pending. rewrite Hperm. by left. }
  destruct rules_ok as [Hlen Hspec]. rewrite <- Hlen in Hs. apply lookup_lt_is_Some in Hs as [items Hi].
  rewrite Hi. cbn [xunwrap obind]. destruct (Hspec _ _ Hi) as [Hitems Hnd].
  pose proof (pop_ok _ _ _ _ _ ret Hf Hperm Hret) as Hf'.
  pose proof (targets_ok _ _ _ _ _ ret _ Hf Hperm Hitems) as Hst. unfold pop in *. cbn [deps_satisfied precondition_satisfied futures] in *.
  eapply xsafe_bind; [eapply record_all; try done; by left|]. intros fr1 (Hf1 & Hfut & Hun).
  eapply fire_all; try done. eapply Forall_impl; [exact Hun|]. intros item. unfold pending. by rewrite Hfut.
Qed.

(** *** The loop *)
Context (run : nat -> list VmValue -> XState T -> xres (option VmValue * XState T)).
Context (Hrun : forall i g ts args st,
  graphs (vm_script vm) !! i = Some g -> params_of i = Some ts ->
  Forall2 typed args ts -> st_ok st -> xsafe (result_ok (subgraph_output vm g) st) (run i args st)).

Lemma pick_perm {A} i (l : list A) x rest : pick i l = Some (x, rest) -> l ≡ₚ x :: rest.
Proof.
  unfold pick. destruct l as [|a l]; [done|]. set (l' := a :: l). set (j := i mod length l').
  intros (y & Hy & [= -> <-])%bind_Some. 
  transitivity (take j l' ++ x :: drop (S j) l'); [by rewrite take_drop_middle|].
  symmetry. apply Permutation_middle.
Qed.

Lemma pick_none {A} i (l : list A) : pick i l = None -> l = [].
Proof.
  unfold pick. destruct l as [|a l]; [done|]. intros Hn. exfalso.
  assert (Hlt : i mod length (a :: l) < length (a :: l)) by (apply Nat.mod_upper_bound; done).
  apply lookup_lt_is_Some in Hlt as [y Hy]. rewrite Hy in Hn. done.
Qed.

Lemma run_task_sound s task st :
  task_ok (s, task) -> st_ok st ->
  exists ty, types !! s = Some ty /\
    xsafe (result_ok ty st) (run_task rmp_to_vec rmp_from_slice vm run g info gparams s task st).
Proof.
  intros (n & Hn & Htask) Hst. simpl in *. destruct task as [ps|v]; simpl.
  - destruct Htask as [Hsel Ha]. destruct (gt_nodes _ _ Hg _ _ Hn) as (ty & Hty & _ & (sk & sk' & Htc) & Hside).
    exists ty. split; [done|]. rewrite Hn, Hty. cbn [xunwrap obind].
    by eapply (run_node_sound rmp_to_vec rmp_from_slice vm rec Hschema Hplan Hrmp run params_of Hrun Hconsts).
  - destruct Htask as (t & Ht & Hv). exists (Some t). split; [done|]. split; [by eexists|done].
Qed.

Lemma graph_loop_sound fuel don fr st :
  frame_ok don fr -> N <= fuel + length don -> st_ok st ->
  xsafe (result_ok (subgraph_output vm g) st)
    (graph_loop rmp_to_vec rmp_from_slice schedule vm run fuel g info rules gparams fr st).
Proof.
  revert don fr st. induction fuel as [|fuel IH]; intros don fr st Hf Hfuel Hst; cbn [graph_loop];
    (destruct (pick _ _) as [[[s task] rest]|] eqn:Ep; [apply pick_perm in Ep|by split; [apply Hf|]]).
  - exfalso. pose proof (fo_nodup _ _ Hf) as Hnd. unfold pending in Hnd. rewrite Ep in Hnd. simpl in Hnd.
    assert (Hlen : length (don ++ s :: rest.*1) <= length (seq 0 N)).
    { apply NoDup_incl_length; [by apply NoDup_ListNoDup|]. intros x Hx. apply list_elem_of_In in Hx.
      apply in_seq. split; [lia|]. simpl. apply (fo_range _ _ Hf). unfold pending. rewrite Ep. done. }
    rewrite length_app, length_seq in Hlen. simpl in Hlen. lia.
  - set (st1 := MkXState (xs_txn st) (S (xs_clock st))).
    assert (Htask : task_ok (s, task)).
    { pose proof (fo_tasks _ _ Hf) as Ht. rewrite Ep in Ht. by apply Forall_cons in Ht as [? _]. }
    destruct (run_task_sound s task st1 Htask Hst) as (ty & Hty & Hsafe).
    eapply xsafe_bind; [exact Hsafe|]. intros [r st2] [Hr Hsame]. cbn [fst snd] in *.
    eapply xsafe_bind; [exact (complete_sound don fr s task rest r ty Hf Ep Hty Hr)|]. intros fr2 Hf2.
    eapply xsafe_weaken; [eapply (IH (s :: don)); [done|simpl; lia|]|].
    + unfold NodeSound.st_ok. by rewrite (kv_steps_snapshot _ _ (proj1 Hsame)).
    + intros [r3 st3] [Hr3 Hs3]. split; [done|]. by etrans.
Qed.
End OneGraph.

(** ** The call tree *)
Context (infos : list GraphTypeInfo).

(** Every graph of the script was accepted, and its parameters have the types
    the calls to it were checked against. *)
Definition script_typed : Prop :=
  forall i g, graphs (vm_script vm) !! i = Some g ->
    exists info, infos !! i = Some info /\ graph_typed g info /\ params_of i = Some (gi_params info).

Lemma rules_exist g info : graph_typed g info -> exists rules, generate_fire_rules g = Ok rules.
Proof.
  intros Hg. destruct (generate_fire_rules_spec g) as (rules & Hr & _); [|by exists rules].
  intros n s Hn Hs. apply list_elem_of_lookup in Hn as [i Hn].
  pose proof (sources_before _ _ Hg _ _ _ Hn Hs). pose proof (lookup_lt_Some _ _ _ Hn). lia.
Qed.

Lemma executor_new_total : script_typed -> exists ex, executor_new vm infos = Ok ex.
Proof.
  intros Hs. unfold executor_new.
  assert (Ht : exists tables, mapM_o generate_fire_rules (graphs (vm_script vm)) = Ok tables).
  { assert (Hall : Forall (fun g => exists rules, generate_fire_rules g = Ok rules) (graphs (vm_script vm))).
    { apply Forall_lookup. intros i g Hg. destruct (Hs _ _ Hg) as (info & _ & Hgt & _). by eapply rules_exist. }
    induction Hall as [|g gs [rules Hr] Hall IH]; [by exists []|]. destruct IH as [tables Ht].
    exists (rules :: tables). simpl. by rewrite Hr, Ht. }
  destruct Ht as [tables ->]. by eexists.
Qed.

Lemma recursively_run_graph_sound ex depth_left i g args st info :
  script_typed -> executor_new vm infos = Ok ex ->
  graphs (vm_script vm) !! i = Some g -> infos !! i = Some info ->
  Forall2 typed args (gi_params info) -> st_ok st ->
  xsafe (result_ok (subgraph_output vm g) st)
    (recursively_run_graph rmp_to_vec rmp_from_slice schedule vm ex depth_left i args st).
Proof.
  intros Hscript Hex. revert i g args st info.
  unfold executor_new in Hex. apply obind_ok in Hex as (tables & Htab & [= <-]).
  apply mapM_o_ok in Htab.
  induction depth_left as [|d IH]; intros i g args st info Hgi Hinfo Hargs Hst; [done|].
  cbn [recursively_run_graph ex_type_info ex_fire_rule_tables]. rewrite Hgi, Hinfo. cbn [xunwrap obind].
  destruct (Forall2_lookup_l _ _ _ _ _ Htab Hgi) as (rules & Hr & Hgen). rewrite Hr. cbn [xunwrap obind].
  destruct (Hscript _ _ Hgi) as (info' & Hinfo' & Hgt & _). assert (info' = info) as -> by congruence.
  eapply (graph_loop_sound g info Hgt args Hargs rules Hgen) with (don := []).
  - intros i' g' ts args' st' Hg' Hps Hargs' Hst'. destruct (Hscript _ _ Hg') as (info' & Hi' & _ & Hp').
    assert (ts = gi_params info') as -> by congruence. by eapply IH.
  - by eapply initial_frame_ok.
  - unfold loop_fuel. simpl. lia.
  - done.
Qed.
End Graph.
