(* ===== verification/TypeckSound.v ===== *)
(** * What the type checker guarantees

    [typeck_checked]: the result of [typeck] assigns to every node of every
    graph the type its arm computes from the nodes before it.  With
    [exact_script] (no covariance between different map types is used in a
    call, a reduction, a prepend or an output) this makes the script
    [script_typed], so that running it is sound ([GraphSound]). *)
From stdpp Require Import prelude gmap strings list.
From S2P Require Import Prelude OrdMap Schema SchemaFacts StoragePlan Planner Value PathWalker WalkerTyping Kv.
From S2P Require Import VmValue Bytecode Typeck Exec ValueTyping NodeSound GraphSound.

Section Checked.
Context (vm : TwVm).

(** What a declared type stands for: the schema type for the map of the exports. *)
Definition resolved (t : VmType) : VmType :=
  match t with TySchema => ty_of_schema (vm_schema vm) | _ => t end.

Record graph_checked (g : TwGraph) (info : GraphTypeInfo) : Prop := {
  gc_length : length (gi_nodes info) = length (g_nodes g);
  gc_params : length (gi_params info) = length (param_types g);
  gc_raw : exists raw, mapM_opt (fun x => vm_types vm !! x) (param_types g) = Some raw /\
    forall i t, raw !! i = Some t -> t <> TyUnknown -> gi_params info !! i = Some (resolved t);
  gc_nodes : forall i n, g_nodes g !! i = Some n -> exists t,
    gi_nodes info !! i = Some t /\ check_edges i (take i (gi_nodes info)) n = Ok tt /\
    exists sink sink', typeck_node vm (gi_params info) (take i (gi_nodes info)) sink (gn_node n) (in_edges n)
      = Ok (t, sink');
  gc_output : match output_type g, output g with
    | Some o, Some x => exists a b, vm_types vm !! o = Some a /\ gi_nodes info !! x = Some (Some b) /\
        is_covariant_from a b = true
    | None, None => True
    | _, _ => False
    end
}.

Lemma typeck_steps params off ns types0 sink types sink' :
  length types0 = off ->
  foldM_o (typeck_step vm params) (types0, sink) (imap (fun j n => (off + j, n)) ns) = Ok (types, sink') ->
  exists ts, types = types0 ++ ts /\ length ts = length ns /\
  forall j n, ns !! j = Some n -> exists t, ts !! j = Some t /\
    check_edges (off + j) (take (off + j) types) n = Ok tt /\
    exists sk sk', typeck_node vm params (take (off + j) types) sk (gn_node n) (in_edges n) = Ok (t, sk').
Proof.
  revert off types0 sink. induction ns as [|n ns IH]; intros off types0 sink Hlen Hr.
  { injection Hr as <- <-. exists []. rewrite app_nil_r. split_and!; [done..|]. intros j n Hn. by rewrite lookup_nil in Hn. }
  cbn [imap foldM_o] in Hr. rewrite Nat.add_0_r in Hr.
  apply obind_ok in Hr as ([types1 sink1] & Hstep & Hr).
  unfold typeck_step in Hstep. cbn [fst snd] in Hstep.
  apply obind_ok in Hstep as ([] & Hce & Hstep). apply obind_ok in Hstep as ([t sink2] & Htn & [= <- <-]).
  assert (Himap : imap ((fun j n => (off + j, n)) ∘ S) ns = imap (fun j n => (S off + j, n)) ns).
  { apply imap_ext. intros. simpl. f_equal. lia. }
  rewrite Himap in Hr. apply IH in Hr as (ts & -> & Hts & Hnodes); [|rewrite length_app; simpl; lia].
  exists (t :: ts). rewrite <- (assoc_L (++)). split; [done|]. split; [simpl; lia|].
  intros [|j] n' Hn'; simpl in Hn'.
  - injection Hn' as <-. exists t. split; [done|]. rewrite Nat.add_0_r, take_app_length' by done.
    split; [done|]. eauto.
  - destruct (Hnodes _ _ Hn') as (t' & Ht' & Hc & Htn'). exists t'. split; [done|].
    replace (off + S j) with (S off + j) by lia. rewrite <- (assoc_L (++)) in Hc, Htn'. done.
Qed.

Lemma imap_pair_off (ns : list GNode) : imap pair ns = imap (fun j n => (0 + j, n)) ns.
Proof. done. Qed.

(** A parameter that is declared with a type gets that type. *)
Lemma resolved_declared ctx i params params' j t :
  mapM_o (resolve_param vm ctx i) (imap pair params) = Ok params' -> params !! j = Some t -> t <> TyUnknown ->
  params' !! j = Some (resolved t).
Proof.
  intros Hm%mapM_o_ok Hj Ht.
  assert (Hi : imap pair params !! j = Some (j, t)) by (rewrite list_lookup_imap, Hj; done).
  destruct (Forall2_lookup_l _ _ _ _ _ Hm Hi) as (u & -> & Hu). f_equal. unfold resolve_param in Hu.
  apply obind_ok in Hu as (g & _ & (ex & _ & (t' & Ht' & Hu)%obind_ok)%obind_ok).
  assert (t' = t) as ->; [|by destruct t; injection Hu as <-].
  destruct t, ex as [|a [|b ex]]; try done; try (by injection Ht' as <-);
    by apply obind_ok in Ht' as (v & _ & [= <-]).
Qed.

Lemma typeck_graph_checked ctx i sink info sink' :
  typeck_graph vm ctx i sink = Ok (info, sink') ->
  exists g, graphs (vm_script vm) !! i = Some g /\ graph_checked g info.
Proof.
  unfold typeck_graph. intros (g & Hg & Hr)%obind_ok.
  destruct (graphs (vm_script vm) !! i) as [g'|]; [injection Hg as ->|done].
  apply obind_ok in Hr as ([] & _ & Hr). apply obind_ok in Hr as (oty & Hoty & Hr).
  apply obind_ok in Hr as (params & Hps%ok_or_ok & Hr). apply obind_ok in Hr as (params' & Hps' & Hr).
  apply obind_ok in Hr as ([types sink1] & Hfold & Hr). apply obind_ok in Hr as (act & Hact & Hr).
  apply obind_ok in Hr as ([] & Hout & [= <- <-]).
  exists g. split; [done|]. rewrite imap_pair_off in Hfold.
  apply typeck_steps in Hfold as (ts & -> & Hlen & Hnodes); [|done]. simpl in *.
  split; simpl; [done| | | |].
  - apply mapM_opt_Some, Forall2_length in Hps. apply mapM_o_ok, Forall2_length in Hps'.
    rewrite length_imap in Hps'. lia.
  - exists params. split; [done|]. intros j t Hj Ht. by eapply resolved_declared.
  - intros j n Hn. exact (Hnodes j n Hn).
  - destruct (output_type g) as [o|], (output g) as [x|]; simpl in *.
    + apply obind_ok in Hoty as (a & Ha%ok_or_ok & [= <-]).
      apply obind_ok in Hact as (b & Hb & [= <-]). apply obind_ok in Hb as (b' & Hb'%ok_or_ok & Hb).
      apply ok_or_ok in Hb as ->. simpl in Hout. exists a, b. split_and!; [done..|].
      unfold ensure_covariant in Hout. by destruct (is_covariant_from a b).
    + apply obind_ok in Hoty as (a & Ha%ok_or_ok & [= <-]). by injection Hact as <-.
    + apply obind_ok in Hact as (b & Hb & [= <-]). by injection Hoty as <-.
    + done.
Qed.

(** ** The whole script *)
Definition info_ok (infos : list GraphTypeInfo) (i : nat) : Prop :=
  exists g info, graphs (vm_script vm) !! i = Some g /\ infos !! i = Some info /\ graph_checked g info.

Lemma typeck_one_ok ctx infos sink i infos' sink' :
  typeck_one vm ctx (infos, sink) i = Ok (infos', sink') ->
  length infos' = length infos /\ info_ok infos' i /\ forall j, info_ok infos j -> info_ok infos' j.
Proof.
  unfold typeck_one. intros ([gi sink1] & Hg & Hr)%obind_ok. apply obind_ok in Hr as (old & Hold & [= <- <-]).
  apply typeck_graph_checked in Hg as (g & Hg & Hc).
  assert (Hi : i < length infos). { destruct (infos !! i) eqn:E; [by eapply lookup_lt_Some|done]. }
  rewrite length_insert. split; [done|].
  assert (Hnew : info_ok (<[i := gi]> infos) i) by (exists g, gi; by rewrite list_lookup_insert_eq).
  split; [done|]. intros j (g' & info' & Hg' & Hi' & Hc').
  destruct (decide (j = i)) as [->|Hne]; [done|]. exists g', info'. by rewrite list_lookup_insert_ne.
Qed.

Lemma typeck_sccs_ok ctx infos sink scc infos' sink' :
  foldM_o (typeck_one vm ctx) (infos, sink) scc = Ok (infos', sink') ->
  length infos' = length infos /\ Forall (info_ok infos') scc /\ forall j, info_ok infos j -> info_ok infos' j.
Proof.
  revert infos sink. induction scc as [|i scc IH]; intros infos sink Hr.
  { injection Hr as <- <-. done. }
  cbn [foldM_o] in Hr. apply obind_ok in Hr as ([infos1 sink1] & H1 & Hr).
  apply typeck_one_ok in H1 as (Hl1 & Hi & Hm1). apply IH in Hr as (Hl2 & Hall & Hm2).
  split; [lia|]. split; [constructor; auto|auto].
Qed.

Lemma typeck_loop_ok sccs infos ctx infos' ctx' :
  foldM_o (typeck_scc vm) (infos, ctx) sccs = Ok (infos', ctx') ->
  length infos' = length infos /\ Forall (info_ok infos') (concat sccs) /\
  forall j, info_ok infos j -> info_ok infos' j.
Proof.
  revert infos ctx. induction sccs as [|scc sccs IH]; intros infos ctx Hr.
  { injection Hr as <- <-. done. }
  cbn [foldM_o] in Hr. apply obind_ok in Hr as ([infos1 ctx1] & H1 & Hr).
  unfold typeck_scc in H1. apply obind_ok in H1 as ([infos2 sink] & H1 & H2).
  apply obind_ok in H2 as (e & _ & [= <- <-]). apply typeck_sccs_ok in H1 as (Hl1 & Ha1 & Hm1).
  apply IH in Hr as (Hl2 & Ha2 & Hm2). split; [lia|]. simpl. split; [|auto].
  apply Forall_app. split; [|done]. eapply Forall_impl; [exact Ha1|]. auto.
Qed.

(** The components cover all graphs. *)
Definition sccs_cover (ctx : GlobalTyckContext) : Prop :=
  forall i, i < length (graphs (vm_script vm)) -> i ∈ concat (scc_post_order ctx).

Lemma typeck_checked ctx infos ctx' :
  sccs_cover ctx -> typeck vm ctx = Ok (infos, ctx') ->
  length infos = length (graphs (vm_script vm)) /\
  forall i g, graphs (vm_script vm) !! i = Some g ->
    exists info, infos !! i = Some info /\ graph_checked g info.
Proof.
  unfold typeck. intros Hcov Hr. apply typeck_loop_ok in Hr as (Hl & Hall & _).
  rewrite length_replicate in Hl. split; [done|]. intros i g Hg.
  assert (Hin : i ∈ concat (reverse (scc_post_order ctx))).
  { pose proof (Hcov i (lookup_lt_Some _ _ _ Hg)) as Hi. apply list_elem_of_In, in_concat in Hi as (l & Hl' & Hi).
    apply list_elem_of_In, in_concat. exists l. split; [|done].
    apply list_elem_of_In, elem_of_reverse. by apply list_elem_of_In. }
  rewrite Forall_forall in Hall. destruct (Hall i Hin) as (g' & info & Hg' & Hi & Hc).
  exists info. split; [done|]. congruence.
Qed.

(** ** Exact scripts *)
Section Exact.
Context (infos : list GraphTypeInfo).

Definition callee_params (i : nat) : option (list VmType) := gi_params <$> infos !! i.

Definition edge_types (types : list (option VmType)) (edges : list nat) : option (list VmType) :=
  mapM_opt (fun j => t ← types !! j; t) edges.

Definition exact_node (types : list (option VmType)) (n : GNode) (t : option VmType) : bool :=
  match gn_node n, edge_types types (in_edges n) with
  | Call i, Some ts => bool_decide (callee_params i = Some ts)
  | Reduce i _, Some (a :: b :: TyList m :: _) =>
      bool_decide (callee_params i = Some [a; b; m]) && bool_decide (t = Some b)
  | Reduce i _, Some (a :: b :: TySet m :: _) =>
      bool_decide (callee_params i = Some [a; b; m]) && bool_decide (t = Some b)
  | PrependToList, Some [v; l] => bool_decide (l = TyList v)
  | _, _ => true
  end.

Definition exact_output (g : TwGraph) (info : GraphTypeInfo) : bool :=
  match output g with
  | Some x => bool_decide (gi_nodes info !! x = Some (subgraph_output vm g))
  | None => true
  end.

Definition exact_graph (g : TwGraph) (info : GraphTypeInfo) : bool :=
  forallb (fun p => exact_node (gi_nodes info) p.1 p.2) (zip (g_nodes g) (gi_nodes info))
  && forallb (fun n => bool_decide (NoDup (sources n))) (g_nodes g)
  && exact_output g info.

(** No call, reduction, prepend or output relies on covariance between
    different types, and no node is twice a source of the same node. *)
Definition exact_script : bool :=
  forallb (fun p => exact_graph p.1 p.2) (zip (graphs (vm_script vm)) infos).

Lemma edge_types_ok types i edges tys :
  mapM_o (edge_type (take i types)) edges = Ok tys -> edge_types types edges = Some tys.
Proof.
  intros Hm%mapM_o_ok. apply mapM_opt_Some. eapply Forall2_impl; [exact Hm|].
  intros j t Ht%edge_type_ok. apply lookup_take_Some in Ht as [-> _]. done.
Qed.

Lemma exact_node_side types i n t tys :
  exact_node types n t = true -> (exists sk sk' gtys, typeck_node vm gtys (take i types) sk (gn_node n) (in_edges n) = Ok (t, sk')) ->
  mapM_o (edge_type (take i types)) (in_edges n) = Ok tys ->
  node_side vm callee_params (gn_node n) tys t.
Proof.
  intros He (sk & sk' & gtys & Htc) Hm. unfold exact_node in He. rewrite (edge_types_ok _ _ _ _ Hm) in He.
  destruct (gn_node n) eqn:En; try done; unfold node_side.
  - destruct tys as [|v [|l [|]]]; try done. by apply bool_decide_eq_true_1 in He.
  - destruct tys as [|a [|b [|c tys]]]; try done.
    cbn [typeck_node] in Htc. unfold typeck_node in Htc. cbn zeta in Htc.
    apply obind_ok in Htc as ([[a' b'] c'] & Ha & Htc).
    assert (Habc : a' = a /\ b' = b /\ c' = c).
    { unfold tc_reduce_args in Ha. destruct has_range.
      - apply obind_ok in Ha as ([[[[a1 b1] c1] d1] e1] & He5 & Ha). apply edges5_ok in He5.
        rewrite Hm in He5. injection He5 as -> -> -> _.
        apply obind_ok in Ha as (pk & _ & Ha). apply obind_ok in Ha as (u & _ & Ha).
        apply obind_ok in Ha as (u' & _ & [= -> -> ->]). done.
      - apply edges3_ok in Ha. rewrite Hm in Ha. by injection Ha as -> -> -> _. }
    destruct Habc as (-> & -> & ->). unfold tc_Reduce in Htc. apply obind_ok in Htc as (m & Hmm & Htc).
    apply obind_ok in Htc as ([g sink1] & Hv & Htc).
    apply validate_subgraph_call_ok in Hv as [Hg _].
    assert (Hmc : (c = TyList m \/ c = TySet m) /\ callee_params subgraph_index = Some [a; b; m] /\ t = Some b).
    { destruct c; try discriminate; injection Hmm as ->;
        apply andb_true_iff in He as [H1%bool_decide_eq_true_1 H2%bool_decide_eq_true_1]; auto. }
    destruct Hmc as (Hc & Hps & Ht). split; [|done]. intros m' Hm'.
    assert (m' = m) as -> by (destruct Hc, Hm'; congruence).
    by exists g.
  - apply bool_decide_eq_true_1 in He.
    cbn [typeck_node] in Htc. unfold typeck_node in Htc. cbn zeta in Htc.
    apply obind_ok in Htc as (ts & Hts & Htc). unfold tc_Call in Htc. apply obind_ok in Htc as ([g sink1] & Hv & _).
    exists g. split; [|done]. by apply validate_subgraph_call_ok in Hv as [Hg _].
Qed.

Lemma exact_script_typed :
  length infos = length (graphs (vm_script vm)) ->
  (forall i g, graphs (vm_script vm) !! i = Some g ->
     exists info, infos !! i = Some info /\ graph_checked g info) ->
  exact_script = true -> script_typed vm callee_params infos.
Proof.
  intros Hlen Hck Hex i g Hg. destruct (Hck i g Hg) as (info & Hi & Hc). exists info.
  split; [done|]. split; [|unfold callee_params; by rewrite Hi].
  unfold exact_script in Hex. rewrite forallb_forall in Hex.
  assert (Hin : (g, info) ∈ zip (graphs (vm_script vm)) infos).
  { apply list_elem_of_lookup. exists i. apply lookup_zip_with_Some. eauto. }
  apply list_elem_of_In, Hex in Hin. unfold exact_graph in Hin. simpl in Hin.
  apply andb_true_iff in Hin as [Hin Hout]. apply andb_true_iff in Hin as [Hnodes Hsrc].
  rewrite forallb_forall in Hnodes, Hsrc. destruct Hc as [Hl _ _ Hn Ho]. split; [done| | |].
  - intros j n Hj. destruct (Hn j n Hj) as (t & Ht & Hce & sk & sk' & Htc). exists t. split; [done|].
    split; [done|]. split; [eauto|]. intros tys Htys. eapply exact_node_side; [|by eauto|done].
    apply (Hnodes (n, t)). apply list_elem_of_In, list_elem_of_lookup. exists j.
    apply lookup_zip_with_Some. eauto.
  - apply Forall_forall. intros n Hin. apply list_elem_of_In, Hsrc in Hin. by apply bool_decide_eq_true_1 in Hin.
  - intros x Hx. unfold exact_output in Hout. rewrite Hx in Hout. by apply bool_decide_eq_true_1 in Hout.
Qed.
End Exact.
End Checked.

(** ** Soundness *)
(** The root map a script gets has the type the schema parameter resolves to. *)
Lemma root_map_typed s p rec :
  wf_schema s -> plan_ok s p rec -> (forall e q, bt_get e (exports s) <> Some (FPrimitive q)) ->
  exists v, generate_root_map s p = Ok v /\ has_type s p rec v (ty_of_schema s).
Proof.
  intros Hwf Hp Hnp. unfold generate_root_map, ty_of_schema.
  assert (Hex : Forall (fun e => exists v, forall acc, root_entry p acc e = Ok (bt_insert e.1 v acc) /\
      has_type s p rec v (ty_of_field e.2)) (exports s)).
  { apply Forall_forall. intros [e t] Hin. pose proof (wf_exports _ Hwf) as Hok. rewrite Forall_forall in Hok.
    specialize (Hok _ Hin). apply bt_elem_get in Hin; [|apply Hwf].
    destruct (from_export_typed _ _ _ Hp _ _ Hin) as (w & Hw & Hwt). simpl in *.
    destruct t as [x|q|m]; [|by destruct (Hnp e q)|]; unfold root_entry; simpl; rewrite Hw; simpl.
    - apply PlannerPlan.type_defined_get in Hok as [sty Hsty].
      exists (VmTable x (Resident w)). intros acc. split; [done|]. split; [done|]. by exists sty.
    - destruct m as [x| |]; try done. apply PlannerPlan.type_defined_get in Hok.
      exists (VmSet (TyTable x) (Resident w)). intros acc. split; [done|]. split; [done|]. by exists x. }
  assert (Hfold : forall es accv acct, Forall (fun e => exists v, forall acc, root_entry p acc e = Ok (bt_insert e.1 v acc) /\
      has_type s p rec v (ty_of_field e.2)) es -> has_type s p rec (VmMap accv) (TyMap acct) ->
    exists m, foldM_o (root_entry p) accv es = Ok m /\
      has_type s p rec (VmMap m) (TyMap (foldl (fun m q => bt_insert q.1 (ty_of_field q.2) m) acct es))).
  { induction es as [|e es IH]; intros accv acct Hes Hacc; [by eexists|].
    apply Forall_cons in Hes as [[v Hv] Hes]. destruct (Hv accv) as [Hr Hvt]. cbn [foldM_o foldl].
    rewrite Hr. cbn [obind]. apply IH; [done|].
    apply has_type_map in Hacc as (els & [= <-] & H1 & H2); [|done]. apply has_type_map_intro.
    - intros k tk Hk. destruct (decide (k = e.1)) as [->|Hne].
      + rewrite bt_get_insert_eq in Hk. rewrite bt_get_insert_eq. injection Hk as <-. by exists v.
      + rewrite bt_get_insert_ne in Hk by done. rewrite bt_get_insert_ne by done. by apply H1.
    - intros k [y Hy]. destruct (decide (k = e.1)) as [->|Hne]; [by rewrite bt_get_insert_eq|].
      rewrite bt_get_insert_ne in Hy by done. rewrite bt_get_insert_ne by done.
      destruct (H2 _ _ Hy) as (? & ? & _). by eexists. }
  destruct (Hfold (exports s) [] [] Hex) as (m & Hm & Ht).
  - apply has_type_map_intro; [done|]. by intros k [? ?].
  - exists (VmMap m). rewrite Hm. by split.
Qed.

Section Sound.
Context {T : Type} `{KvTransactionLaws T} `{!KvReturns T}.
Context (rmp_to_vec : PrimitiveValue -> bytes) (rmp_from_slice : bytes -> anyhow PrimitiveValue).
Context (schedule : nat -> nat).
Context (vm : TwVm) (rec : gset string).

(** What the environment of a script provides. *)
Record vm_ok : Prop := {
  vo_schema : wf_schema (vm_schema vm);
  vo_plan : plan_ok (vm_schema vm) (vm_storage_plan vm) rec;
  vo_consts : Forall (fun v => has_type (vm_schema vm) (vm_storage_plan vm) rec v (ty_of_value v)) (vm_consts vm);
  vo_rmp : forall x, returns (rmp_from_slice x)
}.

(** The end of a run: a value of the output type (or none), an error, or an
    allowed panic. *)
Definition run_ok (g : TwGraph) (st : XState T) (c : xres (option VmValue * XState T)) : Prop :=
  xsafe (result_ok rmp_to_vec rmp_from_slice vm rec (subgraph_output vm g) st) c.

Lemma typeck_run_sound ctx infos ctx' ex i g info args st depth_left :
  vm_ok -> sccs_cover vm ctx -> typeck vm ctx = Ok (infos, ctx') -> exact_script vm infos = true ->
  executor_new vm infos = Ok ex ->
  graphs (vm_script vm) !! i = Some g -> infos !! i = Some info ->
  Forall2 (has_type (vm_schema vm) (vm_storage_plan vm) rec) args (gi_params info) ->
  reads_typed rmp_from_slice vm rec (kv_snapshot (xs_txn st)) ->
  run_ok g st (recursively_run_graph rmp_to_vec rmp_from_slice schedule vm ex depth_left i args st).
Proof.
  intros [H1' H2' H3' H4'] Hcov Htc Hex Hnew Hg Hi Hargs Hreads.
  destruct (typeck_checked vm ctx infos ctx' Hcov Htc) as [Hlen Hck].
  pose proof (exact_script_typed vm infos Hlen Hck Hex) as Hscript.
  by eapply recursively_run_graph_sound.
Qed.

Lemma typeck_executor_total ctx infos ctx' :
  sccs_cover vm ctx -> typeck vm ctx = Ok (infos, ctx') -> exact_script vm infos = true ->
  exists ex, executor_new vm infos = Ok ex.
Proof.
  intros Hcov Htc Hex. destruct (typeck_checked vm ctx infos ctx' Hcov Htc) as [Hlen Hck].
  eapply executor_new_total. by apply exact_script_typed.
Qed.
End Sound.
