(* ===== verification/TypeckWf.v ===== *)
(** * The types a script is annotated with are well formed

    If the types and constants a script declares have sorted map types, so have all
    the types the type checker infers: of nodes, of resolved parameters, and those it
    collects at calls for the parameters of other graphs. *)
From stdpp Require Import prelude gmap strings list.
From S2P Require Import Prelude OrdMap Schema SchemaFacts StoragePlan Planner Value PathWalker WalkerTyping Kv.
From S2P Require Import VmValue Bytecode Typeck Exec ValueTyping NodeSound GraphSound TypeckSound.

Abbreviation opt_wf := (fun t : option VmType => forall u, t = Some u -> ty_wf u).

Lemma ty_wf_map_insert k t m : ty_wf (TyMap m) -> ty_wf t -> ty_wf (TyMap (bt_insert k t m)).
Proof.
  intros [Hs Hm] Ht. split; [by apply bt_insert_sorted|]. apply allP_Forall. apply allP_Forall in Hm.
  by apply bt_insert_forall.
Qed.

Lemma ty_wf_map_remove k m : ty_wf (TyMap m) -> ty_wf (TyMap (bt_remove k m)).
Proof.
  intros [Hs Hm]. split; [by apply bt_remove_sorted|]. apply allP_Forall. apply allP_Forall in Hm.
  by apply bt_remove_forall.
Qed.

Lemma ty_wf_map_get k t m : ty_wf (TyMap m) -> bt_get k m = Some t -> ty_wf t.
Proof. intros [_ Hm%allP_Forall] Hk%bt_get_elem. rewrite Forall_forall in Hm. exact (Hm _ Hk). Qed.

Lemma ty_wf_field t : ty_wf (ty_of_field t).
Proof. by induction t. Qed.

Lemma ty_wf_collect {A} (f : A -> VmType) (l : list (string * A)) m :
  ty_wf (TyMap m) -> (forall x, x ∈ l -> ty_wf (f x.2)) -> ty_wf (TyMap (foldl (fun m p => bt_insert p.1 (f p.2) m) m l)).
Proof.
  revert m. induction l as [|x l IH]; intros m Hm Hl; [done|]. simpl. apply IH.
  - apply ty_wf_map_insert; [done|]. apply Hl. left.
  - intros y Hy. apply Hl. by right.
Qed.

Lemma ty_wf_schema s : ty_wf (ty_of_schema s).
Proof. apply ty_wf_collect; [by split; [constructor|]|]. intros x _. apply ty_wf_field. Qed.

Lemma hs_insert_wf t l : ty_wf t -> Forall ty_wf l -> Forall ty_wf (hs_insert t l).
Proof. intros Ht Hl. unfold hs_insert. case_decide; [done|]. apply Forall_app. by split; [|constructor]. Qed.

Section Wf.
Context (vm : TwVm).

(** The types the script declares, and those of its constants. *)
Record declares_wf : Prop := {
  dw_script : vm_types vm = script_types (vm_script vm);
  dw_types : Forall ty_wf (vm_types vm);
  dw_consts : Forall (fun v => ty_wf (ty_of_value v)) (vm_consts vm)
}.

Context (Hvm : declares_wf).

Definition sink_wf (sink : Sink) : Prop := forall i l, sink !! i = Some l -> Forall (Forall ty_wf) l.

Lemma edges_wf types edges ts :
  Forall opt_wf types -> mapM_o (edge_type types) edges = Ok ts -> Forall ty_wf ts.
Proof.
  intros Hty Hm%mapM_o_ok. rewrite Forall_forall in Hty. apply Forall_forall. intros t Ht.
  apply list_elem_of_lookup in Ht as [i Hi]. destruct (Forall2_lookup_r _ _ _ _ _ Hm Hi) as (j & _ & Hj%edge_type_ok).
  exact (Hty _ (list_elem_of_lookup_2 _ _ _ Hj) t eq_refl).
Qed.

Lemma subgraph_call_wf op i sink ts g sink' :
  sink_wf sink -> Forall ty_wf ts -> validate_subgraph_call vm op i sink ts = Ok (g, sink') -> sink_wf sink'.
Proof.
  intros Hs Ht. unfold validate_subgraph_call. intros (g0 & _ & Hr)%obind_ok. case_decide; [done|].
  cbn zeta in Hr. case_decide; [done|]. injection Hr as _ <-.
  intros j l Hj. apply lookup_insert_Some in Hj as [[_ <-]|[_ Hj]]; [|by eapply Hs].
  assert (Hd : Forall (Forall ty_wf) (default (replicate (length ts) []) (sink !! i))).
  { destruct (sink !! i) eqn:E; simpl; [by eapply Hs|]. by apply Forall_replicate. }
  revert Hd. generalize (default (replicate (length ts) []) (sink !! i)). clear -Ht.
  induction Ht as [|t ts Ht _ IH]; intros [|l ls]; simpl; try done. intros [Hl Hls]%Forall_cons.
  constructor; [by apply hs_insert_wf|by apply IH].
Qed.

Lemma output_wf g t : subgraph_output vm g = Some t -> ty_wf t.
Proof.
  unfold subgraph_output. destruct (output_type g) as [o|]; [|done]. cbn. rewrite <- (dw_script Hvm).
  intros Ht%list_elem_of_lookup_2. pose proof (dw_types Hvm) as Hw. rewrite Forall_forall in Hw. by apply Hw.
Qed.

Lemma vm_type_wf i t : vm_types vm !! i = Some t -> ty_wf t.
Proof. intros Ht%list_elem_of_lookup_2. pose proof (dw_types Hvm) as Hw. rewrite Forall_forall in Hw. by apply Hw. Qed.

Lemma vm_const_wf i v : vm_consts vm !! i = Some v -> ty_wf (ty_of_value v).
Proof. intros Hv%list_elem_of_lookup_2. pose proof (dw_consts Hvm) as Hw. rewrite Forall_forall in Hw. by apply Hw. Qed.

(** ** Nodes *)
Section Node.
Context (params : list VmType) (types : list (option VmType)) (sink : Sink).
Context (Hparams : Forall ty_wf params) (Htypes : Forall opt_wf types) (Hsink : sink_wf sink).

Abbreviation wf_result r := (opt_wf r.1 /\ sink_wf r.2).

Lemma pure_wf (c : tres (option VmType)) r :
  (forall t, c = Ok (Some t) -> ty_wf t) -> omap_ok (fun t => (t, sink)) c = Ok r -> wf_result r.
Proof. intros Hc Hr. destruct c as [t| | |]; try done. injection Hr as <-. split; [|done]. intros u Hu. simpl in Hu. apply Hc. by rewrite Hu. Qed.

Lemma edges1_wf n edges t : edges1 n edges types = Ok t -> ty_wf t.
Proof. intros He%edges1_ok. apply edges_wf in He; [|done]. by apply Forall_cons in He as [? _]. Qed.

Lemma edges2_wf n edges a b : edges2 n edges types = Ok (a, b) -> ty_wf a /\ ty_wf b.
Proof.
  intros He%edges2_ok. apply edges_wf in He; [|done]. apply Forall_cons in He as [? He].
  by apply Forall_cons in He as [? _].
Qed.

Lemma reduce_args_wf n has_range edges a b c :
  tc_reduce_args vm n has_range edges types = Ok (a, b, c) -> ty_wf a /\ ty_wf b /\ ty_wf c.
Proof.
  unfold tc_reduce_args. intros Ha.
  assert (He : exists l, mapM_o (edge_type types) edges = Ok (a :: b :: c :: l)).
  { destruct has_range; [|eexists; by eapply edges3_ok]. apply obind_ok in Ha as ([[[[a' b'] c'] d] e] & He & Ha).
    inv_ok. eexists. by eapply edges5_ok. }
  destruct He as [l He]. apply edges_wf in He; [|done]. rewrite !Forall_cons in He. by destruct He as (? & ? & ? & _).
Qed.

Lemma params_wf i t : params !! i = Some t -> ty_wf t.
Proof. intros Ht%list_elem_of_lookup_2. rewrite Forall_forall in Hparams. by apply Hparams. Qed.

Lemma call_wf op i ts g sink' t :
  Forall ty_wf ts -> validate_subgraph_call vm op i sink ts = Ok (g, sink') -> (forall u, t = Some u -> ty_wf u) ->
  wf_result (t, sink').
Proof. intros Ht Hv Hu. split; [exact Hu|]. by eapply subgraph_call_wf. Qed.

Lemma tc_Reduce_wf i a b c r : ty_wf a -> ty_wf b -> ty_wf c -> tc_Reduce vm i sink a b c = Ok r -> wf_result r.
Proof.
  unfold tc_Reduce. intros Ha Hb Hc (m & Hm & Hr)%obind_ok. apply obind_ok in Hr as ([g sink'] & Hv & Hr). tc.
  eapply call_wf; [|done|].
  - by destruct c; try discriminate Hm; injection Hm as <-; repeat constructor.
  - intros u [= <-]. by eapply output_wf.
Qed.

Lemma tc_FilterSet_wf i a b r : ty_wf a -> ty_wf b -> tc_FilterSet vm i sink a b = Ok r -> wf_result r.
Proof.
  unfold tc_FilterSet, extract_set_element_type. intros Ha Hb (m & Hm & Hr)%obind_ok.
  apply obind_ok in Hr as ([g sink'] & Hv & Hr).
  assert (Hwm : ty_wf m) by (by destruct b; try discriminate Hm; injection Hm as <-).
  destruct (subgraph_output vm g) as [[]|]; try done. injection Hr as <-.
  eapply call_wf; [|done|]; [by repeat constructor|by intros u [= <-]].
Qed.

Lemma tc_Call_wf i ts r : Forall ty_wf ts -> tc_Call vm i sink ts = Ok r -> wf_result r.
Proof.
  unfold tc_Call. intros Ht ([g sink'] & Hv & [= <-])%obind_ok. eapply call_wf; [done..|]. intros u. apply output_wf.
Qed.

Ltac edges := repeat match goal with
  | Hx : edges1 _ _ _ = Ok _ |- _ => apply edges1_wf in Hx
  | Hx : edges2 _ _ _ = Ok (_, _) |- _ => apply edges2_wf in Hx as [? ?]
  end.

Lemma typeck_node_wf node edges r : typeck_node vm params types sink node edges = Ok r -> wf_result r.
Proof.
  destruct node; unfold typeck_node; cbn zeta; intros Hr;
    try (revert Hr; apply pure_wf; intros t Hr; inv_ok; edges).
  all: try (match goal with Hx : ok_or _ _ = Ok _ |- _ => apply ok_or_ok in Hx end).
  all: unfold tc_BuildTable, tc_BuildSet, tc_CreateList, tc_DeleteFromSet, tc_GetSetElement, tc_set_key, tc_DeleteFromMap,
    tc_GetField, tc_InsertIntoMap, tc_InsertIntoSet, tc_InsertIntoTable, tc_LoadConst, tc_Select, tc_IsPresent, tc_Add, tc_Sub,
    tc_PrependToList, tc_PopFromList, tc_ListHead, extract_set_element_type, extract_list_element_type in *.
  all: repeat (tc; simplify_eq; case_match; try discriminate); tc; simplify_eq.
  all: try done.
  all: eauto using ty_wf_field, ty_wf_map_insert, ty_wf_map_remove, ty_wf_map_get, vm_type_wf, vm_const_wf, params_wf.
  all: try (split; [constructor|done]).
  - match goal with Hx : vm_types vm !! _ = Some ?x |- _ => exact (vm_type_wf _ x Hx) end.
  - match goal with Hx : tc_reduce_args _ _ _ _ _ = _ |- _ => apply reduce_args_wf in Hx as (? & ? & ?) end.
    eapply tc_Reduce_wf; [| | |eassumption]; done.
  - edges. eapply tc_FilterSet_wf; [| |eassumption]; done.
  - match goal with Hx : mapM_o _ _ = Ok _ |- _ => apply edges_wf in Hx; [|done] end.
    by eapply tc_Call_wf.
Qed.
End Node.

(** ** Graphs *)
Definition ctx_wf (ctx : GlobalTyckContext) : Prop := Forall (Forall (Forall ty_wf)) (subgraph_expected_param_types ctx).

Lemma resolve_param_wf ctx i j p t : ctx_wf ctx -> ty_wf p -> resolve_param vm ctx i (j, p) = Ok t -> ty_wf t.
Proof.
  intros Hc Hp (g & Hg & (ex & Hex & (u & Hu & Ht)%obind_ok)%obind_ok)%obind_ok. tc.
  destruct (subgraph_expected_param_types ctx !! i) as [g'|] eqn:Hg'; [|done]. injection Hg as ->.
  destruct (g !! j) as [ex'|] eqn:Hex'; [|done]. injection Hex as ->.
  assert (Hw : Forall ty_wf ex).
  { apply list_elem_of_lookup_2 in Hg', Hex'. unfold ctx_wf in Hc. rewrite Forall_forall in Hc. specialize (Hc _ Hg').
    rewrite Forall_forall in Hc. exact (Hc _ Hex'). }
  assert (Hwu : ty_wf u).
  { destruct p, ex as [|a [|b ex]]; try discriminate; tc; simplify_eq; try done. by apply Forall_cons in Hw as [? _]. }
  destruct u; tc; simplify_eq; try done. apply ty_wf_schema.
Qed.

Lemma typeck_graph_wf ctx i sink info sink' :
  ctx_wf ctx -> sink_wf sink -> typeck_graph vm ctx i sink = Ok (info, sink') ->
  Forall ty_wf (gi_params info) /\ sink_wf sink'.
Proof.
  intros Hc Hs. unfold typeck_graph. intros (g & _ & Hr)%obind_ok. apply obind_ok in Hr as (u & _ & Hr).
  apply obind_ok in Hr as (oty & _ & Hr). apply obind_ok in Hr as (raw & Hraw%ok_or_ok & Hr).
  apply obind_ok in Hr as (ps & Hps & Hr). apply obind_ok in Hr as ([types sink1] & Hf & Hr).
  apply obind_ok in Hr as (act & _ & Hr). apply obind_ok in Hr as (u' & _ & [= <- <-]). cbn [gi_params].
  assert (Hw : Forall ty_wf ps).
  { apply mapM_o_ok in Hps. apply Forall_forall. intros t Ht. apply list_elem_of_lookup in Ht as [j Hj].
    destruct (Forall2_lookup_r _ _ _ _ _ Hps Hj) as ([k p] & Hk & Hp).
    eapply resolve_param_wf; [done| |exact Hp]. rewrite list_lookup_imap in Hk.
    destruct (raw !! j) as [p'|] eqn:Hp'; [|done]. injection Hk as _ ->.
    apply mapM_opt_Some in Hraw. destruct (Forall2_lookup_r _ _ _ _ _ Hraw Hp') as (o & _ & Ho). by eapply vm_type_wf. }
  split; [done|].
  refine (proj2 (foldM_o_inv (typeck_step vm ps) (fun st => Forall opt_wf st.1 /\ sink_wf st.2) _ ([], sink) _ _ _ Hf)).
  - by split; [constructor|].
  - intros [ts sk] [k n] st' _ [Hts Hsk] Hst. unfold typeck_step in Hst. apply obind_ok in Hst as (v & _ & Hst).
    apply obind_ok in Hst as ([t sk'] & Hn & [= <-]).
    destruct (typeck_node_wf ps ts sk Hw Hts Hsk _ _ _ Hn) as [Ht Hsk']. split; [|done].
    apply Forall_app. by split; [|constructor].
Qed.

(** ** The script *)
Lemma merge_sink_wf expected p expected' :
  Forall (Forall (Forall ty_wf)) expected -> Forall (Forall ty_wf) p.2 -> merge_sink expected p = Ok expected' ->
  Forall (Forall (Forall ty_wf)) expected'.
Proof.
  unfold merge_sink. intros He Hp (y & Hy & Hr)%obind_ok. case_decide; [done|]. injection Hr as <-.
  destruct (expected !! p.1) as [y'|] eqn:Hy'; [|done]. injection Hy as ->.
  apply Forall_insert; [done|]. assert (Hw : Forall (Forall ty_wf) y).
  { rewrite Forall_forall in He. apply He. by eapply list_elem_of_lookup_2. }
  clear -Hp Hw. revert y Hw. induction Hp as [|x l Hx _ IH]; intros [|a y]; simpl; try done.
  intros [Ha Hy]%Forall_cons. constructor; [|by apply IH].
  revert a Ha. induction Hx as [|t x Ht _ IHx]; intros a Ha; [done|]. simpl. apply IHx. by apply hs_insert_wf.
Qed.

Abbreviation infos_wf := (Forall (fun info => Forall ty_wf (gi_params info))).

Lemma typeck_scc_wf infos ctx scc infos' ctx' :
  infos_wf infos -> ctx_wf ctx -> typeck_scc vm (infos, ctx) scc = Ok (infos', ctx') -> infos_wf infos' /\ ctx_wf ctx'.
Proof.
  intros Hi Hc. unfold typeck_scc. intros ([infos1 sink] & Hf & Hr)%obind_ok. apply obind_ok in Hr as (e & He & [= <- <-]).
  assert (Hw : infos_wf infos1 /\ sink_wf sink).
  { refine (foldM_o_inv (typeck_one vm ctx) (fun st => infos_wf st.1 /\ sink_wf st.2) _ (infos, ∅) _ _ _ Hf).
    - split; [done|]. intros j l Hj. cbn [snd] in Hj. by rewrite lookup_empty in Hj.
    - intros [ins sk] j st' _ [His Hsk] Hst. unfold typeck_one in Hst. apply obind_ok in Hst as ([gi sk'] & Hg & Hst).
      apply obind_ok in Hst as (old & _ & [= <-]). destruct (typeck_graph_wf _ _ _ _ _ Hc Hsk Hg).
      split; [by apply Forall_insert|done]. }
  split; [apply Hw|]. unfold ctx_wf. cbn [subgraph_expected_param_types].
  refine (foldM_o_inv merge_sink (Forall (Forall (Forall ty_wf))) _ _ _ Hc _ He).
  intros ex [j l] ex' Hin Hex Hm. eapply merge_sink_wf; [exact Hex| |exact Hm].
  apply elem_of_map_to_list in Hin. by eapply (proj2 Hw).
Qed.

Lemma typeck_wf ctx infos ctx' : ctx_wf ctx -> typeck vm ctx = Ok (infos, ctx') -> infos_wf infos.
Proof.
  intros Hc Ht. unfold typeck in Ht.
  refine (proj1 (foldM_o_inv (typeck_scc vm) (fun st => infos_wf st.1 /\ ctx_wf st.2) _ (_, ctx) _ _ _ Ht)).
  - split; [|done]. apply Forall_replicate. constructor.
  - intros [ins c] scc [ins' c'] _ [His Hcc] Hs. by eapply typeck_scc_wf.
Qed.

Lemma tyck_new_wf kosaraju ctx : tyck_new kosaraju vm = Ok ctx -> ctx_wf ctx.
Proof.
  intros (u & _ & [= <-])%obind_ok. apply Forall_forall. intros l Hl. apply list_elem_of_fmap in Hl as (g & -> & _).
  by apply Forall_replicate.
Qed.
End Wf.
