(* ===== verification/RunGraph.v ===== *)
(** * Running a graph against the store: [run_graph]

    The retry loop of [Executor::run_graph] around one run of the graph: what
    an attempt is, how a sequence of attempts ends, and that the soundness of
    one run carries over to the whole loop, for any store whose transactions
    read well-typed data.  [others i] is what other clients do to the store
    during attempt [i]. *)
From stdpp Require Import prelude gmap strings list.
From S2P Require Import Prelude OrdMap Schema SchemaFacts StoragePlan Planner Value PathWalker WalkerTyping Kv.
From S2P Require Import MemKv MemKvIsolation VmValue Bytecode Typeck Exec ValueTyping NodeSound GraphSound.
From S2P Require Import TypeckSound.

Section Retry.
Context {S T : Type} `{KvTransaction T} `{KeyValueStore S T}.
Context (rmp_to_vec : PrimitiveValue -> bytes) (rmp_from_slice : bytes -> anyhow PrimitiveValue).
Context (schedule : nat -> nat) (others : nat -> S -> S).
Context (ex : Executor) (graph_index : nat) (args : list VmValue).

(** One run of the graph in a new transaction of [s]: the value, and the store
    and the transaction the commit finds. *)
Definition attempt (i : nat) (s : S) (ret : option VmValue) (s' : S) (txn : T) : Prop :=
  exists s1 txn0 st,
    kv_begin s = Ok (s1, txn0) /\
    recursively_run_graph rmp_to_vec rmp_from_slice schedule (ex_vm ex) ex MAX_RECURSION_DEPTH graph_index args
      (MkXState txn0 0) = Ok (ret, st) /\
    s' = others i s1 /\ txn = xs_txn st.

(** Attempts [i .. j-1] all ended in a conflict. *)
Inductive conflicts_until : nat -> S -> nat -> S -> Prop :=
| cu_refl i s : conflicts_until i s i s
| cu_step i s ret s1 txn j s' :
    attempt i s ret s1 txn -> kv_commit s1 txn = Err Conflict ->
    conflicts_until (Datatypes.S i) s1 j s' -> conflicts_until i s j s'.

Abbreviation attempts_of n i s :=
  (run_attempts rmp_to_vec rmp_from_slice schedule others n i ex graph_index args s).

(** Conflicts use up attempts and nothing else. *)
Lemma attempts_after_conflicts i s j sj :
  conflicts_until i s j sj -> i <= j /\ forall n, attempts_of (j - i + n) i s = attempts_of n j sj.
Proof.
  induction 1 as [i s|i s ret s1 txn j sj (s0 & txn0 & st & Hb & Hr & -> & ->) Hc Hu [Hle IH]].
  - split; [done|]. intros n. by rewrite Nat.sub_diag.
  - split; [lia|]. intros n. replace (j - i + n) with (Datatypes.S (j - Datatypes.S i + n)) by lia.
    cbn [run_attempts]. rewrite Hb. cbn zeta. rewrite Hr. by rewrite Hc.
Qed.

Lemma attempt_commits n i s ret s1 txn s' :
  attempt i s ret s1 txn -> kv_commit s1 txn = Ok s' -> attempts_of (Datatypes.S n) i s = (Ok ret, s').
Proof.
  intros (s0 & txn0 & st & Hb & Hr & -> & ->) Hc.
  cbn [run_attempts]. rewrite Hb. cbn zeta. rewrite Hr. by rewrite Hc.
Qed.

(** A value comes from the first attempt that commits. *)
Lemma run_attempts_commits n i s ret s' :
  attempts_of n i s = (Ok ret, s') <->
  exists j sj s1 txn, j < i + n /\ conflicts_until i s j sj /\ attempt j sj ret s1 txn /\ kv_commit s1 txn = Ok s'.
Proof.
  split.
  - revert i s. induction n as [|n IH]; intros i s; [done|]. cbn [run_attempts].
    destruct (kv_begin s) as [[s0 txn0]| | |] eqn:Hb; try done. cbn zeta.
    destruct (recursively_run_graph _ _ _ _ _ _ _ _ _) as [[r st]| | |] eqn:Hr; try done. intros Hc.
    assert (Ha : attempt i s r (others i s0) (xs_txn st)) by (by exists s0, txn0, st).
    destruct (kv_commit _ _) as [s2|[]| |] eqn:Ec; try done.
    + injection Hc as -> ->. exists i, s, (others i s0), (xs_txn st). split; [lia|]. split; [constructor|done].
    + apply IH in Hc as (j & sj & s1 & txn & Hj & Hu & ? & ?). exists j, sj, s1, txn. split; [lia|].
      split; [by eapply cu_step|done].
  - intros (j & sj & s1 & txn & Hj & Hu & Ha & Hc). destruct (attempts_after_conflicts _ _ _ _ Hu) as [Hle Hn].
    replace n with (j - i + Datatypes.S (n - (j - i) - 1)) by lia. rewrite Hn. by eapply attempt_commits.
Qed.

Lemma run_attempts_exhausted n i s s' :
  conflicts_until i s (i + n) s' -> attempts_of n i s = (Err (XErr ConflictAfterRetries), s').
Proof.
  intros Hu. destruct (attempts_after_conflicts _ _ _ _ Hu) as [_ Hn].
  specialize (Hn 0). by replace (i + n - i + 0) with n in Hn by lia.
Qed.

(** [conflicts_until] as a function. *)
Fixpoint conflict_run (n i : nat) (s : S) : option S :=
  match n with
  | O => Some s
  | Datatypes.S n =>
      match kv_begin s with
      | Ok (s1, txn0) =>
          match recursively_run_graph rmp_to_vec rmp_from_slice schedule (ex_vm ex) ex MAX_RECURSION_DEPTH graph_index
                  args (MkXState txn0 0) with
          | Ok (_, st) =>
              match kv_commit (others i s1) (xs_txn st) with
              | Err Conflict => conflict_run n (Datatypes.S i) (others i s1)
              | _ => None
              end
          | _ => None
          end
      | _ => None
      end
  end.

Lemma conflict_run_until n i s s' : conflict_run n i s = Some s' -> conflicts_until i s (i + n) s'.
Proof.
  revert i s. induction n as [|n IH]; intros i s; cbn [conflict_run].
  - intros [= <-]. rewrite Nat.add_0_r. constructor.
  - destruct (kv_begin s) as [[s1 txn0]| | |] eqn:Eb; try done.
    destruct (recursively_run_graph _ _ _ _ _ _ _ _ _) as [[ret st]| | |] eqn:Er; try done.
    destruct (kv_commit _ _) as [|[]| |] eqn:Ec; try done. intros Hn%IH.
    eapply cu_step; [by exists s1, txn0, st|done|]. by replace (i + Datatypes.S n) with (Datatypes.S i + n) by lia.
Qed.
End Retry.

(** ** Soundness of the loop *)
Section Sound.
Context {S T : Type} `{KvTransactionLaws T} `{!KvReturns T} `{!KeyValueStore S T}.
Context (rmp_to_vec : PrimitiveValue -> bytes) (rmp_from_slice : bytes -> anyhow PrimitiveValue).
Context (schedule : nat -> nat) (others : nat -> S -> S).
Context (vm : TwVm) (rec : gset string).

(** A store whose transactions start from well-typed data, whatever the other
    clients do, and commit without a panic after any writes. *)
Record store_ok (good : S -> Prop) (open : T -> Prop) : Prop := {
  so_begin_returns : forall s, good s -> returns (kv_begin (T:=T) s);
  so_begin : forall s s' txn, good s -> kv_begin s = Ok (s', txn) -> good s' /\ open txn /\
    reads_typed rmp_from_slice vm rec (kv_snapshot txn) /\ reads_typed rmp_from_slice vm rec (kv_current txn);
  so_write : forall t t', open t -> kv_write t t' -> open t';
  so_commit : forall s txn, open txn -> returns (kv_commit (T:=T) s txn);
  so_commit_good : forall s txn s', good s -> open txn -> reads_typed rmp_from_slice vm rec (kv_current txn) ->
    kv_commit s txn = Ok s' -> good s';
  so_others : forall i s, good s -> good (others i s)
}.

Lemma open_steps good open t t' : store_ok good open -> open t -> kv_steps t t' -> open t'.
Proof. intros Hs Ht. induction 1 as [|t t1 t2 Hw _ IH]; [done|]. by eapply IH, so_write. Qed.

(** A value of the output type, an error or an allowed panic, and in every case a
    store that is well typed if the codec of values keeps their types. *)
Definition run_result_ok (good : S -> Prop) (g : TwGraph) (r : xres (option VmValue) * S) : Prop :=
  xsafe (out_ok vm rec (subgraph_output vm g)) r.1 /\ (codec_ok rmp_to_vec rmp_from_slice -> good r.2).

Lemma run_attempts_sound good open ctx infos ctx' ex i g info args n k s :
  store_ok good open -> vm_ok rmp_from_slice vm rec -> sccs_cover vm ctx -> typeck vm ctx = Ok (infos, ctx') ->
  exact_script vm infos = true -> executor_new vm infos = Ok ex ->
  graphs (vm_script vm) !! i = Some g -> infos !! i = Some info ->
  Forall2 (has_type (vm_schema vm) (vm_storage_plan vm) rec) args (gi_params info) -> good s ->
  run_result_ok good g (run_attempts rmp_to_vec rmp_from_slice schedule others n k ex i args s).
Proof.
  intros Hstore Hvm Hcov Htc Hex Hnew Hg Hi Hargs.
  assert (Hv : ex_vm ex = vm) by (unfold executor_new in Hnew; by apply obind_ok in Hnew as (? & _ & [= <-])).
  revert k s. induction n as [|n IH]; intros k s Hs; [by split|]. cbn [run_attempts].
  pose proof (so_begin_returns _ _ Hstore s Hs) as Hb. destruct (kv_begin s) as [[s1 txn]|e| |] eqn:Eb; try done.
  destruct (so_begin _ _ Hstore _ _ _ Hs Eb) as (Hs1 & Hopen & Hreads & Hcur). cbn zeta. rewrite Hv.
  assert (Ho : good (others k s1)) by by eapply so_others.
  pose proof (typeck_run_sound rmp_to_vec rmp_from_slice schedule vm rec ctx infos ctx' ex i g info args (MkXState txn 0)
    MAX_RECURSION_DEPTH Hvm Hcov Htc Hex Hnew Hg Hi Hargs Hreads) as Hrun. unfold run_ok, xsafe in Hrun.
  destruct (recursively_run_graph _ _ _ _ _ _ _ _ _) as [[r st]|e| |]; [|by split|done|done].
  destruct Hrun as [Hr [Hsteps Heff]]. pose proof (open_steps _ _ _ _ Hstore Hopen Hsteps) as Hopen'.
  pose proof (so_commit _ _ Hstore (others k s1) (xs_txn st) Hopen') as Hc.
  destruct (kv_commit _ _) as [s2|[]| |] eqn:Ec; try done; [|by apply IH].
  split; [done|]. intros Hcodec. eapply so_commit_good; [done|exact Ho|exact Hopen'| |exact Ec]. by apply Heff.
Qed.
End Sound.

(** ** The in-memory store *)
Section Mem.
Context {M : Type -> Type} {OM : OrderedMap bytes M} {OML : OrderedMapLaws bytes M}.

(** What its transactions see when they begin is its data. *)
Definition mem_good (rmp_from_slice : bytes -> anyhow PrimitiveValue) (vm : TwVm) (rec : gset string)
    (s : MockStore M) : Prop :=
  reads_typed rmp_from_slice vm rec (value_of (data s)).

Lemma reads_typed_merge rmp_from_slice vm rec (a b c : bytes -> option bytes) :
  (forall k, c k = a k \/ c k = b k) -> reads_typed rmp_from_slice vm rec a -> reads_typed rmp_from_slice vm rec b ->
  reads_typed rmp_from_slice vm rec c.
Proof. intros Hc Ha Hb w q data v Hw Hk. destruct (Hc (generate_key w)) as [E|E]; rewrite E in Hk; eauto. Qed.

(** The keys to commit are in the buffer. *)
Definition mem_open (t : MockTransaction M) : Prop :=
  forall k, is_Some (modified t !! k) -> is_Some (om_get k (buffer t)).

Lemma mem_open_write t k v : mem_open t -> mem_open (write t k v).
Proof.
  intros Ht k' Hk. rewrite modified_write in Hk. destruct (decide (k' = k)) as [->|Hne].
  - rewrite om_get_write_eq. by eexists.
  - rewrite om_get_write_ne by done. by apply Ht.
Qed.

Lemma mem_open_step t t' : mem_open t -> kv_write t t' -> mem_open t'.
Proof.
  intros Ht [k v [= <-]|k [= <-]|lo hi _ [= <-]]; [by apply mem_open_write..|].
  unfold delete_range. generalize ((om_range lo hi (buffer t)).*1). intros l. revert t Ht.
  induction l as [|k l IH]; intros t Ht; [done|]. by apply IH, mem_open_write.
Qed.

Lemma mem_commit_returns (hash_iter : gmap bytes Z -> list (bytes * Z)) (s : MockStore M) t :
  (forall m, hash_iter m ≡ₚ map_to_list m) -> mem_open t -> returns (commit hash_iter s t).
Proof.
  intros Hh Ht. unfold commit. destruct (existsb _ _); [done|].
  destruct (commit_fold (buffer t) (hash_iter (modified t)) (data s)) as (d' & Hf & _).
  { intros [k v] Hp. apply Ht. rewrite Hh in Hp. apply elem_of_map_to_list in Hp. by eexists. }
  cbn zeta. by rewrite Hf.
Qed.

(** A commit takes over what the transaction has written. *)
Lemma mem_commit_merge (hash_iter : gmap bytes Z -> list (bytes * Z)) (s s' : MockStore M) t k :
  (forall m, hash_iter m ≡ₚ map_to_list m) -> mem_open t -> commit hash_iter s t = Ok s' ->
  value_of (data s') k = value_of (data s) k \/ value_of (data s') k = value_of (buffer t) k.
Proof.
  intros Hh Ho. unfold commit. cbn zeta. destruct (existsb _ _); [done|].
  destruct (commit_fold (buffer t) (hash_iter (modified t)) (data s)) as (d' & -> & Hd).
  { intros [k1 v1] Hp. apply Ho. rewrite Hh in Hp. apply elem_of_map_to_list in Hp. by eexists. }
  intros [= <-]. unfold value_of. cbn [data]. rewrite Hd. case_decide; auto.
Qed.

Lemma mem_store_ok (hash_iter : gmap bytes Z -> list (bytes * Z)) rmp_from_slice
    (others : nat -> MockStore M -> MockStore M) vm rec :
  (forall m, hash_iter m ≡ₚ map_to_list m) ->
  (forall i s, mem_good rmp_from_slice vm rec s -> mem_good rmp_from_slice vm rec (others i s)) ->
  store_ok (KeyValueStore0 := mem_store hash_iter) rmp_from_slice others vm rec
    (mem_good rmp_from_slice vm rec) mem_open.
Proof.
  intros Hh Ho. split; [done| |exact mem_open_step|intros s txn; by apply mem_commit_returns| |done].
  2:{ intros s txn s' Hs Ht Hc Hco. eapply reads_typed_merge; [|exact Hs|exact Hc]. intros k. by eapply mem_commit_merge. }
  intros s s' txn Hs [= <- <-]. split; [done|]. split; [|done]. intros k [? Hk]. simpl in Hk. by rewrite lookup_empty in Hk.
Qed.

Lemma mem_good_new rmp_from_slice vm rec : mem_good rmp_from_slice vm rec store_new.
Proof. intros w q bs v _ Hd. unfold value_of in Hd. simpl in Hd. by rewrite om_get_empty in Hd. Qed.
End Mem.

(** ** Commits without contention *)
Section Uncontended.
Context {M : Type -> Type} {OM : OrderedMap bytes M} {OML : OrderedMapLaws bytes M}.

(** What a transaction that began at [d] has written: it remembers the versions it
    began with. *)
Record mem_since (d : M (option bytes * Z)) (t : MockTransaction M) : Prop := {
  ms_read : read_buffer t = d;
  ms_modified : forall k v, modified t !! k = Some v -> v = version_of d k;
  ms_unmodified : forall k, modified t !! k = None -> om_get k (buffer t) = om_get k d
}.

Lemma mem_since_begin s : mem_since (data s) (begin_transaction s).2.
Proof. split; [done| |done]. intros k v. simpl. by rewrite lookup_empty. Qed.

Lemma mem_since_write d t k v : mem_since d t -> mem_since d (write t k v).
Proof.
  intros [Hr Hm Hu]. split; [done| |].
  - intros k' v'. rewrite modified_write. case_decide as E; [subst|apply Hm].
    intros [= <-]. destruct (modified t !! k) eqn:E; simpl; [by apply Hm|]. unfold version_of. by rewrite Hu.
  - intros k'. rewrite modified_write. case_decide as E; [done|]. intros Hn. rewrite om_get_write_ne by done. by apply Hu.
Qed.

Lemma mem_since_steps d t t' : mem_since d t -> kv_steps t t' -> mem_since d t'.
Proof.
  intros Ht. induction 1 as [t|t t1 t2 Hw _ IH]; [done|]. apply IH.
  destruct Hw as [k v [= <-]|k [= <-]|lo hi _ [= <-]]; [by apply mem_since_write..|].
  unfold delete_range. generalize ((om_range lo hi (buffer t)).*1). intros l. clear IH. revert t Ht.
  induction l as [|k l IH]; intros t Ht; [done|]. by apply IH, mem_since_write.
Qed.

Lemma mem_open_steps t t' : mem_open t -> kv_steps t t' -> mem_open t'.
Proof. intros Ht. induction 1 as [t|t t1 t2 Hw _ IH]; [done|]. apply IH. by eapply mem_open_step. Qed.

(** Nothing has changed since the transaction began: it commits. *)
Lemma mem_commit_unchanged (hash_iter : gmap bytes Z -> list (bytes * Z)) (s : MockStore M) t :
  (forall m, hash_iter m ≡ₚ map_to_list m) -> mem_open t -> mem_since (data s) t ->
  exists s', commit hash_iter s t = Ok s'.
Proof.
  intros Hh Ho Ht. unfold commit. cbn zeta.
  assert (existsb (conflicts (data s)) (hash_iter (modified t)) = false) as Hn.
  { apply not_true_iff_false. intros ([k v] & Hin & Hc)%existsb_exists. apply list_elem_of_In in Hin.
    rewrite Hh in Hin. apply elem_of_map_to_list in Hin. apply (ms_modified _ _ Ht) in Hin as ->.
    unfold conflicts in Hc. simpl in Hc. by rewrite Z.eqb_refl in Hc. }
  rewrite Hn. destruct (commit_fold (buffer t) (hash_iter (modified t)) (data s)) as (d' & -> & _); [|by eexists].
  intros [k v] Hp. apply Ho. rewrite Hh in Hp. apply elem_of_map_to_list in Hp. by eexists.
Qed.

(** What it has not written it holds as it was; committed, the store holds what it
    left. *)
Lemma mem_commit_value (hash_iter : gmap bytes Z -> list (bytes * Z)) (s s' : MockStore M) t k :
  (forall m, hash_iter m ≡ₚ map_to_list m) -> mem_open t -> mem_since (data s) t -> commit hash_iter s t = Ok s' ->
  value_of (data s') k = value_of (buffer t) k.
Proof.
  intros Hh Ho Ht. unfold commit. cbn zeta. destruct (existsb _ _); [done|].
  destruct (commit_fold (buffer t) (hash_iter (modified t)) (data s)) as (d' & -> & Hd).
  { intros [k1 v1] Hp. apply Ho. rewrite Hh in Hp. apply elem_of_map_to_list in Hp. by eexists. }
  intros [= <-]. unfold value_of. cbn [data]. rewrite Hd. case_decide as Hin; [done|].
  rewrite (ms_unmodified _ _ Ht); [done|]. destruct (modified t !! k) as [v|] eqn:E; [|done]. destruct Hin.
  apply list_elem_of_fmap. exists (k, v). split; [done|]. rewrite Hh. by apply elem_of_map_to_list.
Qed.

#[export] Instance mem_contents : KvContents (MockStore M) := fun s => value_of (data s).

Lemma mem_store_laws (hash_iter : gmap bytes Z -> list (bytes * Z)) :
  (forall m, hash_iter m ≡ₚ map_to_list m) ->
  @KvStoreLaws (MockStore M) (MockTransaction M) (mem_store hash_iter) mem_transaction mem_view mem_contents.
Proof.
  intros Hh. split.
  - by intros s s1 t [= <- <-].
  - by intros s s1 t k r [= <- <-] [= <-].
  - intros s s1 t0 t s' Hb Hs Hc k. injection Hb as <- <-. split; [done|].
    apply (mem_commit_value hash_iter (begin_transaction s).1 s' t k Hh); [|exact (mem_since_steps (data s) (begin_transaction s).2 t (mem_since_begin s) Hs)|exact Hc].
    eapply mem_open_steps; [|exact Hs]. intros k' [? Hk]. simpl in Hk. by rewrite lookup_empty in Hk.
Qed.

Context (rmp_to_vec : PrimitiveValue -> bytes) (rmp_from_slice : bytes -> anyhow PrimitiveValue) (schedule : nat -> nat).
Context (others : nat -> MockStore M -> MockStore M) (hash_iter : gmap bytes Z -> list (bytes * Z)).
Context (Hhash : forall m, hash_iter m ≡ₚ map_to_list m).
#[local] Instance mem_kvs : KeyValueStore (MockStore M) (MockTransaction M) := mem_store hash_iter.

(** An attempt during which no one else commits is the last one. *)
Lemma uncontended_attempt n i ex graph_index args s ret st :
  (forall s, data (others i s) = data s) ->
  recursively_run_graph rmp_to_vec rmp_from_slice schedule (ex_vm ex) ex MAX_RECURSION_DEPTH graph_index args
    (MkXState (begin_transaction s).2 0) = Ok (ret, st) ->
  kv_steps (begin_transaction s).2 (xs_txn st) ->
  exists s', run_attempts rmp_to_vec rmp_from_slice schedule others (Datatypes.S n) i ex graph_index args s = (Ok ret, s').
Proof.
  intros Ho Hr Hs.
  destruct (mem_commit_unchanged hash_iter (others i (begin_transaction s).1) (xs_txn st) Hhash) as [s' Hc].
  - eapply mem_open_steps; [|exact Hs]. intros k [? Hk]. simpl in Hk. by rewrite lookup_empty in Hk.
  - rewrite Ho. change (data (begin_transaction s).1) with (data s). eapply mem_since_steps; [|exact Hs]. apply mem_since_begin.
  - exists s'. eapply (attempt_commits _ _ _ _ _ _ _ n i s ret (others i (begin_transaction s).1) (xs_txn st)); [|exact Hc].
    by exists (begin_transaction s).1, (begin_transaction s).2, st.
Qed.

(** After fewer than ten conflicts, an attempt without contention decides. *)
Lemma run_graph_decides vm rec ctx infos ctx' ex i g info args s j sj :
  vm_ok rmp_from_slice vm rec -> sccs_cover vm ctx -> typeck vm ctx = Ok (infos, ctx') ->
  exact_script vm infos = true -> executor_new vm infos = Ok ex ->
  graphs (vm_script vm) !! i = Some g -> infos !! i = Some info ->
  Forall2 (has_type (vm_schema vm) (vm_storage_plan vm) rec) args (gi_params info) ->
  conflicts_until rmp_to_vec rmp_from_slice schedule others ex i args 0 s j sj -> j < 10 ->
  mem_good rmp_from_slice vm rec sj -> (forall s, data (others j s) = data s) ->
  match recursively_run_graph rmp_to_vec rmp_from_slice schedule vm ex MAX_RECURSION_DEPTH i args
          (MkXState (begin_transaction sj).2 0) with
  | Ok (ret, _) => exists s', run_graph rmp_to_vec rmp_from_slice schedule others ex i args s = (Ok ret, s')
  | Err e => (run_graph rmp_to_vec rmp_from_slice schedule others ex i args s).1 = Err e
  | Panic | NoFuel => False
  end.
Proof.
  intros Hvm Hcov Htc Hex Hnew Hg Hi Hargs Hu Hj Hgood Ho.
  assert (Hv : ex_vm ex = vm) by (unfold executor_new in Hnew; by apply obind_ok in Hnew as (? & _ & [= <-])).
  destruct (attempts_after_conflicts _ _ _ _ _ _ _ _ _ _ _ Hu) as [_ Hn].
  assert (Hrun : run_graph rmp_to_vec rmp_from_slice schedule others ex i args s =
    run_attempts rmp_to_vec rmp_from_slice schedule others (Datatypes.S (9 - j)) j ex i args sj).
  { unfold run_graph, MAX_ATTEMPTS. rewrite <- Hn. f_equal. lia. }
  pose proof (typeck_run_sound rmp_to_vec rmp_from_slice schedule vm rec ctx infos ctx' ex i g info args
    (MkXState (begin_transaction sj).2 0) MAX_RECURSION_DEPTH Hvm Hcov Htc Hex Hnew Hg Hi Hargs) as Hsafe.
  cbn [xs_txn] in Hsafe. specialize (Hsafe Hgood). unfold run_ok, xsafe in Hsafe.
  destruct (recursively_run_graph _ _ _ _ _ _ _ _ _) as [[ret st]|e| |] eqn:Er; [|..|done|done].
  - rewrite Hrun. destruct Hsafe as [_ [Hs _]]. eapply uncontended_attempt; [done| |exact Hs]. by rewrite Hv.
  - rewrite Hrun. cbn [run_attempts]. cbn [kv_begin mem_kvs mem_store]. destruct (begin_transaction sj) as [s1 txn] eqn:Eb.
    simpl in *. rewrite Hv, Er. done.
Qed.
End Uncontended.
