(* ===== verification/BackendSound.v ===== *)
(** * Scripts on the server's back ends

    Both back ends are stores on which the soundness of scripts holds: their
    transactions start from what the store holds, read a snapshot, and commit
    without a panic ([store_ok] of [RunGraph]). *)
From stdpp Require Import prelude gmap strings list.
From S2P Require Import Prelude OrdMap Schema StoragePlan Planner Value PathWalker WalkerTyping Kv VmValue Bytecode.
From S2P Require Import Typeck Exec ValueTyping NodeSound GraphSound TypeckSound RunGraph Backend Sqlite Foundation.

(** The store holds well-typed data. *)
Definition holds_typed {S} `{KvContents S} (rmp_from_slice : bytes -> anyhow PrimitiveValue) (vm : TwVm)
    (rec : gset string) (s : S) : Prop :=
  reads_typed rmp_from_slice vm rec (kv_contents s).

Section OnSqlite.
Context {D X : Type} `{!Sqlite D X} `{!SqliteLaws D X}.
Context (rmp_from_slice : bytes -> anyhow PrimitiveValue) (vm : TwVm) (rec : gset string).
Context (tbl : string) (pre : bytes).

(** A store of the prefix in the table, and its transactions. *)
Definition sqlite_good (s : SqliteKvStore D) : Prop :=
  holds_typed rmp_from_slice vm rec s /\ store_table s = tbl /\ Sqlite.store_prefix s = pre.

Definition sqlite_open (t : SqliteKvTxn X) : Prop := table t = tbl /\ Sqlite.prefix t = pre.

(** A commit that succeeds leaves the store as it was or as the transaction does. *)
Lemma sqlite_commit_merge s t s' : store_table s = tbl -> Sqlite.store_prefix s = pre -> sqlite_open t ->
  sqlite_commit s t = Ok s' -> store_table s' = tbl /\ Sqlite.store_prefix s' = pre /\
  ((forall k, kv_contents s' k = kv_contents s k) \/ (forall k, kv_contents s' k = kv_current t k)).
Proof.
  intros Hst Hsp [Ht Hp] (x & x' & Hx & Hr & Hc & Ht' & Hp')%sqlite_commit_inv.
  split_and!; [congruence..|]. apply sq_commit_law in Hc. destruct (replay_spec _ _ _ _ _ Hr) as (_ & _ & Hrows).
  unfold kv_contents, sqlite_contents. cbn [kv_current sqlite_view]. rewrite Ht', Hp', Hst, Hsp, Ht, Hp in *.
  destruct (sq_wrote x'); [right|left]; intros k; [|by rewrite Hc].
  destruct Hc as [_ ->]. rewrite Hrows, decide_True by done. unfold table_reads. by rewrite Hx, Ht.
Qed.

Lemma sqlite_store_ok (others : nat -> SqliteKvStore D -> SqliteKvStore D) :
  (forall i s, sqlite_good s -> sqlite_good (others i s)) ->
  store_ok (T := SqliteKvTxn X) rmp_from_slice others vm rec sqlite_good sqlite_open.
Proof.
  intros Ho. split; [..|done].
  - intros s _. cbn [kv_begin sqlite_store]. unfold sqlite_begin_transaction. by destruct (pool_get _).
  - intros s s' txn (Hs & Hst & Hsp) (-> & Hl & Ht & Hp & Hx)%sqlite_begin_inv. unfold sqlite_open.
    assert (Hr : reads_typed rmp_from_slice vm rec (kv_snapshot txn)).
    { intros w q bs v Hw Hk. apply (Hs w q bs v Hw). revert Hk. cbn [kv_snapshot sqlite_view]. unfold table_reads.
      destruct (worker txn) as [x|]; [|done]. destruct (Hx x eq_refl) as (_ & _ & Hr).
      by rewrite Hr, Ht, Hp. }
    split_and!; [done..|congruence|congruence|exact Hr|]. intros w q bs v Hw. cbn [kv_current sqlite_view]. rewrite Hl.
    by apply Hr.
  - intros t t' Ht Hw. destruct (sqlite_write_inv _ _ Hw) as [op ->]. exact Ht.
  - intros s txn _. apply sqlite_commit_returns.
  - intros s t s' (Hs & Hst & Hsp) Ht Hcur Hc.
    destruct (sqlite_commit_merge _ _ _ Hst Hsp Ht Hc) as (Hst' & Hsp' & Hm). split_and!; [|done..].
    eapply reads_typed_merge; [|exact Hs|exact Hcur]. intros k. destruct Hm; auto.
Qed.
End OnSqlite.

Section OnFdb.
Context {D R X E : Type} `{!Fdb D R X E} `{!FdbLaws D R X E}.
Context (rmp_from_slice : bytes -> anyhow PrimitiveValue) (vm : TwVm) (rec : gset string) (pre : bytes).

Definition fdb_good (s : FdbKvStore D) : Prop := holds_typed rmp_from_slice vm rec s /\ store_prefix s = pre.
Definition fdb_open (t : FdbTxn X) : Prop := prefix t = pre.

Lemma fdb_store_ok (others : nat -> FdbKvStore D -> FdbKvStore D) :
  (forall i s, fdb_good s -> fdb_good (others i s)) ->
  store_ok (T := FdbTxn X) rmp_from_slice others vm rec fdb_good fdb_open.
Proof.
  intros Ho. split; [..|done].
  - intros s _. cbn [kv_begin fdb_store]. unfold fdb_begin_transaction. destruct (fdb_create_trx _); [|done]. cbn.
    by destruct (fdb_disable_ryw _).
  - intros s s' txn [Hs Hsp] (-> & Hp & Hb & Hw)%fdb_begin_inv. unfold fdb_open.
    assert (Hr : reads_typed rmp_from_slice vm rec (kv_snapshot txn)).
    { intros w q bs v Hwt Hk. apply (Hs w q bs v Hwt). revert Hk. cbn [kv_snapshot fdb_view]. by rewrite Hp, Hb. }
    split_and!; [done..|congruence|exact Hr|]. intros w q bs v Hwt. cbn [kv_current fdb_view]. rewrite Hw. by apply Hr.
  - intros t t' Ht Hw. destruct (fdb_write_inv _ _ Hw) as (op & Hp & _). unfold fdb_open. congruence.
  - intros s txn _. cbn [kv_commit fdb_store]. unfold fdb_txn_commit. cbn. destruct (fdb_commit _ _); [done|].
    by destruct (fdb_is_retryable_not_committed _).
  - intros s t s' [Hs Hsp] Ht Hcur [Hp Hc]%fdb_commit_inv. split; [|congruence].
    eapply reads_typed_merge; [|exact Hs|exact Hcur]. intros k. unfold kv_contents, fdb_contents. cbn [kv_current fdb_view].
    rewrite Hc, Hp, Hsp, Ht. destruct (apply_log_settles (fdb_writes (inner t)) (with_prefix pre k)) as [He|He]; [left|right]; apply He.
Qed.
End OnFdb.
