(* ===== verification/SeqSched.v ===== *)
(** * The scheduler computes what sequential evaluation computes

    For a graph whose nodes depend on earlier nodes only, by distinct edges, the
    loop over futures ends, for every order of completion, with the result of
    [seq_graph], or with an error when [seq_graph] has one.  The invariant [sinv]
    relates a frame to the states [V] of the nodes in the sequential evaluation. *)
From stdpp Require Import prelude gmap strings list.
From S2P Require Import Prelude OrdMap Schema SchemaFacts StoragePlan Planner PlannerFacts Value PathWalker.
From S2P Require Import WalkerTyping Kv VmValue Bytecode Typeck Exec ValueTyping NodeSound GraphSound.
From S2P Require Import TypeckSound SeqEval.

(** ** Shape of graphs *)
Record graph_shape (g : TwGraph) (info : GraphTypeInfo) : Prop := {
  gs_length : length (gi_nodes info) = length (g_nodes g);
  gs_sources : forall i n s, g_nodes g !! i = Some n -> s ∈ sources n -> s < i;
  gs_distinct : distinct_sources g;
  gs_select : forall n, n ∈ g_nodes g -> is_select (gn_node n) = true -> in_edges n <> []
}.

(** ** Sequential values *)
Section Values.
Context (run : TwGraphNode -> list VmValue -> option VmType -> xres (option VmValue)).
Abbreviation node_state := (node_state run).

Lemma seq_values_app V ns : exists W, seq_values run V ns = V ++ W /\ length W = length ns.
Proof.
  revert V. induction ns as [|[n ty] ns IH]; intros V; cbn [seq_values]; [by exists []; rewrite app_nil_r|].
  destruct (IH (V ++ [node_state V n ty])) as (W & -> & Hl). eexists (_ :: W). rewrite <- app_assoc. simpl. by rewrite Hl.
Qed.

(** A node only looks at its sources. *)
Lemma node_state_ext V W n ty : (forall s, s ∈ sources n -> result_of V s = result_of W s) -> node_state V n ty = node_state W n ty.
Proof.
  intros Hs. unfold SeqEval.node_state.
  assert (Hp : pre_holds V n = pre_holds W n).
  { unfold pre_holds. destruct (precondition n) as [p|] eqn:E; [|done]. rewrite Hs; [done|].
    unfold sources. rewrite E. set_solver. }
  assert (Hd : value_at V <$> in_edges n = value_at W <$> in_edges n).
  { apply list_fmap_ext. intros i s Hi. unfold value_at. rewrite Hs; [done|].
    unfold sources. apply elem_of_app. left. by eapply list_elem_of_lookup_2. }
  by rewrite Hp, Hd.
Qed.

Lemma result_of_app V W s : s < length V -> result_of (V ++ W) s = result_of V s.
Proof. intros Hs. unfold result_of. by rewrite lookup_app_l. Qed.

Lemma seq_values_lookup V ns j n ty :
  ns !! j = Some (n, ty) ->
  (forall i m ty s, ns !! i = Some (m, ty) -> s ∈ sources m -> s < length V + i) ->
  seq_values run V ns !! (length V + j) = Some (node_state (seq_values run V ns) n ty).
Proof.
  revert V j. induction ns as [|[m ty'] ns IH]; intros V j Hj Hs; [done|]. cbn [seq_values].
  destruct j as [|j]; simpl in Hj.
  - injection Hj as -> ->. destruct (seq_values_app (V ++ [node_state V n ty]) ns) as (W & -> & _).
    rewrite <- app_assoc, Nat.add_0_r, lookup_app_r, Nat.sub_diag by lia. simpl. f_equal. apply node_state_ext.
    intros s Hin. symmetry. apply result_of_app. specialize (Hs 0 n ty s eq_refl Hin). lia.
  - replace (length V + S j) with (length (V ++ [node_state V m ty']) + j) by (rewrite length_app; simpl; lia).
    apply IH; [done|]. intros i m' ty'' s Hi Hin. rewrite length_app. simpl. specialize (Hs (S i) m' ty'' s Hi Hin). lia.
Qed.
End Values.

(** ** Recording a result, exactly *)
Definition same_at (fr fr' : Frame) (t : nat) : Prop :=
  deps_satisfied fr' !! t = deps_satisfied fr !! t /\ precondition_satisfied fr' !! t = precondition_satisfied fr !! t.

(** The result can be recorded for the item; the target has room for it. *)
Definition fits (r : option VmValue) (item : FireRuleItem) : Prop :=
  match fr_kind item with ParamDep _ => is_Some r | Precondition => is_Some (pre_value r) end.

Definition has_room (fr : Frame) (item : FireRuleItem) : Prop :=
  match fr_kind item with
  | ParamDep pos => exists ds, deps_satisfied fr !! target_node item = Some ds /\ pos < length ds
  | Precondition => is_Some (precondition_satisfied fr !! target_node item)
  end.

Definition recorded (r : option VmValue) (fr fr' : Frame) (item : FireRuleItem) : Prop :=
  let t := target_node item in
  match fr_kind item with
  | ParamDep pos => exists ds v, r = Some v /\ deps_satisfied fr !! t = Some ds /\
      deps_satisfied fr' !! t = Some (<[pos := Some v]> ds) /\
      precondition_satisfied fr' !! t = precondition_satisfied fr !! t
  | Precondition => exists b, pre_value r = Some b /\ precondition_satisfied fr' !! t = Some b /\
      deps_satisfied fr' !! t = deps_satisfied fr !! t
  end.

Lemma record_one_exact r fr item :
  (fits r item -> has_room fr item) ->
  (exists fr', record_result r fr item = Ok fr' /\ fits r item /\ futures fr' = futures fr /\ fr_ret fr' = fr_ret fr /\
     recorded r fr fr' item /\ forall t, t <> target_node item -> same_at fr fr' t) \/
  ((exists e, record_result r fr item = Err e) /\ ~ fits r item).
Proof.
  destruct item as [t [pos|]]; unfold has_room, recorded, fits, record_result, same_at; simpl.
  - destruct r as [v|]; [intros Hroom; left|intros _; right; split; [by eexists|by intros [? ?]]].
    destruct Hroom as (ds & Hd & Hlt); [done|].
    apply lookup_lt_is_Some in Hlt as [o Ho]. rewrite Hd. cbn [xunwrap obind]. rewrite Ho. cbn [xunwrap obind].
    eexists. split; [done|]. simpl. split_and!; [by eexists|done..| |].
    + exists ds, v. rewrite list_lookup_insert_eq by (by eapply lookup_lt_Some). done.
    + intros t' Ht'. by rewrite list_lookup_insert_ne.
  - destruct r as [[]|]; simpl; intros Hroom;
      solve [destruct Hroom as [b0 Hb]; [by eexists|]; rewrite Hb; left; eexists; split; [done|]; simpl; split_and!; [by eexists|done..| |];
             [eexists; split; [done|]; rewrite list_lookup_insert_eq by (by eapply lookup_lt_Some); done
             |intros t' Ht'; by rewrite list_lookup_insert_ne]
            |right; split; [by eexists|by intros [? ?]]].
Qed.

Lemma has_room_same fr fr' item : same_at fr fr' (target_node item) -> has_room fr item -> has_room fr' item.
Proof. unfold has_room. intros [-> ->]. done. Qed.

Lemma recorded_same r fr fr1 fr' fr2 item :
  same_at fr fr1 (target_node item) -> same_at fr' fr2 (target_node item) ->
  recorded r fr1 fr' item -> recorded r fr fr2 item.
Proof. unfold recorded. intros [-> ->] [-> ->]. done. Qed.

Lemma record_fold r fr items :
  NoDup (target_node <$> items) -> Forall (fun item => fits r item -> has_room fr item) items ->
  (exists fr', foldM_o (record_result r) fr items = Ok fr' /\ Forall (fits r) items /\ futures fr' = futures fr /\
     fr_ret fr' = fr_ret fr /\ Forall (recorded r fr fr') items /\
     forall t, t ∉ target_node <$> items -> same_at fr fr' t) \/
  ((exists e, foldM_o (record_result r) fr items = Err e) /\ Exists (fun item => ~ fits r item) items).
Proof.
  revert fr. induction items as [|item items IH]; intros fr Hnd Hroom; [left; by exists fr|].
  rewrite fmap_cons in Hnd. apply NoDup_cons in Hnd as [Hnew Hnd]. apply Forall_cons in Hroom as [Hr1 Hroom].
  cbn [foldM_o]. destruct (record_one_exact r fr item Hr1) as [(fr1 & -> & Hf1 & Hfut & Hret & Hrec & Hoth)|[[e ->] Hn]];
    [|right; split; [by eexists|by left]].
  cbn [obind].
  assert (Hroom1 : Forall (fun item => fits r item -> has_room fr1 item) items).
  { rewrite Forall_forall in Hroom |- *. intros it Hit Hfit. apply (has_room_same fr); [|by apply Hroom].
    apply Hoth. intros He. destruct Hnew. rewrite <- He. apply list_elem_of_fmap. eauto. }
  destruct (IH fr1 Hnd Hroom1) as [(fr2 & -> & Hf & Hfut2 & Hret2 & Hrecs & Hoth2)|[He Hex]]; [left|right; split; [done|by right]].
  exists fr2. split_and!; [done|by constructor|congruence|congruence| |].
  - constructor.
    + eapply recorded_same; [|by apply Hoth2|exact Hrec]. by split.
    + rewrite Forall_forall in Hrecs |- *. intros it Hit. eapply recorded_same; [|by split|by apply Hrecs].
      apply Hoth. intros He. destruct Hnew. rewrite <- He. apply list_elem_of_fmap. eauto.
  - intros t [Ht1 Ht2]%not_elem_of_cons. destruct (Hoth t Ht1) as [H1 H2]. destruct (Hoth2 t Ht2) as [H3 H4].
    split; congruence.
Qed.

Section Sched.
Context {T : Type} `{KvTransaction T}.
Context (rmp_to_vec : PrimitiveValue -> bytes) (rmp_from_slice : bytes -> anyhow PrimitiveValue).
Context (schedule : nat -> nat) (vm : TwVm) (txn : T).
Context (g : TwGraph) (info : GraphTypeInfo) (Hg : graph_shape g info).
Context (gparams : list VmValue) (nrun : TwGraphNode -> list VmValue -> option VmType -> xres (option VmValue)).

Abbreviation N := (length (g_nodes g)).
Definition values : list NodeState := seq_values nrun [] (zip (g_nodes g) (gi_nodes info)).
Abbreviation V := values.
Context (Hnp : existsb is_panic V = false).

Lemma values_lookup t n :
  g_nodes g !! t = Some n -> exists ty, gi_nodes info !! t = Some ty /\ V !! t = Some (node_state nrun V n ty).
Proof.
  intros Hn. assert (Ht : t < length (gi_nodes info)) by (rewrite (gs_length _ _ Hg); by eapply lookup_lt_Some).
  apply lookup_lt_is_Some in Ht as [ty Hty]. exists ty. split; [done|].
  apply (seq_values_lookup nrun [] _ t n ty).
  - apply lookup_zip_with_Some. eauto.
  - intros i m ty' s (? & ? & [= <- <-] & Hm & _)%lookup_zip_with_Some Hs. simpl. by eapply gs_sources.
Qed.

Lemma length_values : length V = N.
Proof.
  unfold values. destruct (seq_values_app nrun [] (zip (g_nodes g) (gi_nodes info))) as (W & -> & Hl). simpl.
  rewrite Hl, length_zip_with, (gs_length _ _ Hg). lia.
Qed.

Lemma no_panic t x : V !! t = Some x -> is_panic x = false.
Proof.
  intros Hx. destruct (is_panic x) eqn:E; [|done]. rewrite <- Hnp. symmetry. apply existsb_exists.
  exists x. split; [|done]. apply list_elem_of_In. by eapply list_elem_of_lookup_2.
Qed.

(** ** The invariant *)
Definition dep_of (don : list nat) (s : nat) : option VmValue := if decide (s ∈ don) then value_at V s else None.
Definition pre_done (don : list nat) (n : GNode) : bool :=
  match precondition n with None => true | Some p => bool_decide (p ∈ don) && pre_holds V n end.

(** The dependencies that are there do not fire the node. *)
Definition not_ready (don : list nat) (n : GNode) : Prop :=
  pre_done don n = false \/
  (if is_select (gn_node n) then omap id (dep_of don <$> in_edges n) = []
   else mapM_opt id (dep_of don <$> in_edges n) = None).

Definition task_is (t : nat) (task : Task) : Prop :=
  exists n ty, g_nodes g !! t = Some n /\ gi_nodes info !! t = Some ty /\
  match task with
  | TaskRun ps => V !! t = Some (Some (nrun (gn_node n) ps ty))
  | TaskSelect v => V !! t = Some (Some (Ok (Some v)))
  end.

Record fired_as (don : list nat) (n : GNode) : Prop := {
  fa_pre : forall p, precondition n = Some p -> p ∈ don;
  fa_holds : pre_holds V n = true;
  fa_edges : is_select (gn_node n) = false -> forall s, s ∈ in_edges n -> s ∈ don;
  fa_candidate : is_select (gn_node n) = true -> exists s, s ∈ in_edges n /\ s ∈ don /\ is_Some (value_at V s)
}.

Definition accepted (s : nat) : Prop :=
  forall t n, g_nodes g !! t = Some n ->
    (s ∈ in_edges n -> result_of V s <> Some None) /\
    (precondition n = Some s -> result_of V s ≫= pre_value <> None).

(** [ready] are the nodes that may have become ready and were not looked at yet. *)
Record sinv (ready : list nat) (don : list nat) (fr : Frame) : Prop := {
  si_nodup : NoDup (don ++ pending fr);
  si_range : forall t, t ∈ don ++ pending fr -> t < N;
  si_don : forall s, s ∈ don -> is_Some (result_of V s) /\ accepted s;
  si_tasks : forall t task, (t, task) ∈ futures fr -> task_is t task;
  si_fired : forall t n, g_nodes g !! t = Some n -> t ∈ don ++ pending fr -> fired_as don n;
  si_unfired : forall t n, g_nodes g !! t = Some n -> t ∉ don ++ pending fr ->
    deps_satisfied fr !! t = Some (dep_of don <$> in_edges n) /\
    precondition_satisfied fr !! t = Some (pre_done don n);
  si_ready : forall t n, g_nodes g !! t = Some n -> t ∉ don ++ pending fr -> t ∉ ready -> not_ready don n;
  si_ret : fr_ret fr = (o ← output g; dep_of don o)
}.

(** An error of the sequential evaluation. *)
Definition bad : Prop := existsb is_err V || existsb (rejected V) (g_nodes g) = true.

Context (rules : FireRuleTable) (Hrules : generate_fire_rules g = Ok rules).

Lemma source_lt t n s : g_nodes g !! t = Some n -> s ∈ sources n -> s < t.
Proof. apply (gs_sources _ _ Hg). Qed.

Lemma rules_at s : s < N -> exists items, rules !! s = Some items /\ NoDup (target_node <$> items) /\
  forall item, item ∈ items <-> rule_for g s item.
Proof.
  intros Hs. destruct (generate_fire_rules_spec g) as (rules' & Hr & Hl & Hspec).
  { intros n x [t Ht]%list_elem_of_lookup Hx. pose proof (source_lt t n x Ht Hx). apply lookup_lt_Some in Ht. lia. }
  rewrite Hrules in Hr. injection Hr as <-. rewrite <- Hl in Hs. apply lookup_lt_is_Some in Hs as [items Hi].
  destruct (Hspec _ _ Hi) as [Hel Hnd]. exists items. split; [done|]. split; [apply Hnd, Hg|done].
Qed.

Lemma rule_source s item : rule_for g s item -> exists n, g_nodes g !! target_node item = Some n /\ s ∈ sources n.
Proof.
  intros (n & Hn & Hk). exists n. split; [done|]. unfold sources. apply elem_of_app.
  destruct (fr_kind item); [left; by eapply list_elem_of_lookup_2|right; rewrite Hk; by left].
Qed.

Lemma source_rule s t n : g_nodes g !! t = Some n -> s ∈ sources n -> exists k, rule_for g s (MkFireRule t k).
Proof.
  intros Hn [Hs|Hs]%elem_of_app.
  - apply list_elem_of_lookup in Hs as [pos Hp]. by exists (ParamDep pos), n.
  - exists Precondition, n. split; [done|]. simpl. destruct (precondition n); [|by apply elem_of_nil in Hs].
    by apply list_elem_of_singleton in Hs as ->.
Qed.

(** A value that is there comes from a source, and is the value of that source. *)
Lemma dep_of_Some don s v : dep_of don s = Some v -> s ∈ don /\ value_at V s = Some v.
Proof. unfold dep_of. by case_decide. Qed.

Lemma mapM_deps don (es : list nat) ps :
  mapM_opt id (dep_of don <$> es) = Some ps -> mapM_opt id (value_at V <$> es) = Some ps /\ forall s, s ∈ es -> s ∈ don.
Proof.
  rewrite !mapM_opt_Some. revert ps. induction es as [|e es IH]; intros ps Hp; inversion Hp as [|? v ? ps' Hv Hps]; subst.
  { split; [constructor|]. by intros s ?%elem_of_nil. }
  destruct (IH _ Hps) as [H1 H2]. apply dep_of_Some in Hv as [Hd Hv]. split; [by constructor|]. set_solver.
Qed.

Lemma omap_deps_elem don (es : list nat) v : v ∈ omap id (dep_of don <$> es) -> exists s, s ∈ es /\ s ∈ don /\ value_at V s = Some v.
Proof.
  rewrite list_elem_of_omap. intros (o & Ho & Hv). unfold id in Hv. subst o.
  apply list_elem_of_fmap in Ho as (s & Hs & Hin). symmetry in Hs. apply dep_of_Some in Hs as [? ?]. eauto.
Qed.

Lemma first_some_omap (l : list (option VmValue)) : first_some l = head (omap id l).
Proof. induction l as [|[v|] l IH]; simpl; [done..|exact IH]. Qed.

(** A select whose state is known has one candidate. *)
Lemma select_state t n v :
  g_nodes g !! t = Some n -> is_select (gn_node n) = true -> pre_holds V n = true ->
  v ∈ omap id (value_at V <$> in_edges n) ->
  omap id (value_at V <$> in_edges n) = [v] /\ V !! t = Some (Some (Ok (Some v))).
Proof.
  intros Hn Hs Hp Hv. destruct (values_lookup t n Hn) as (ty & _ & HV). pose proof (no_panic _ _ HV) as Hnpt.
  unfold SeqEval.node_state in HV, Hnpt. rewrite Hp, Hs in HV, Hnpt.
  destruct (omap id (value_at V <$> in_edges n)) as [|a [|b l]]; [by apply elem_of_nil in Hv| |done].
  by apply list_elem_of_singleton in Hv as ->.
Qed.

Lemma omap_value_elem (es : list nat) s v : s ∈ es -> value_at V s = Some v -> v ∈ omap id (value_at V <$> es).
Proof. intros Hs Hv. apply list_elem_of_omap. exists (Some v). split; [|done]. apply list_elem_of_fmap. eauto. Qed.

Lemma two_candidates (es : list nat) s s' v v' x :
  s ∈ es -> s' ∈ es -> value_at V s = Some v -> value_at V s' = Some v' ->
  omap id (value_at V <$> es) = [x] -> s = s'.
Proof.
  intros H1 H2 Hv Hv' Ho. induction es as [|e es IH]; [by apply elem_of_nil in H1|].
  assert (Hne : forall y w, y ∈ es -> value_at V y = Some w -> omap id (value_at V <$> es) <> []).
  { intros y w Hy Hw He. pose proof (omap_value_elem es y w Hy Hw) as Hin. rewrite He in Hin. by apply elem_of_nil in Hin. }
  rewrite fmap_cons in Ho. cbn [omap list_omap] in Ho.
  apply elem_of_cons in H1 as [->|H1], H2 as [->|H2]; [done|..].
  - rewrite Hv in Ho. injection Ho as _ Ho. by destruct (Hne s' v').
  - rewrite Hv' in Ho. injection Ho as _ Ho. by destruct (Hne s v).
  - apply IH; [done..|]. destruct (id (value_at V e)); [|exact Ho]. injection Ho as _ Ho. by destruct (Hne s v).
Qed.

(** *** Firing one target *)
Lemma fire_step ready don fr t n :
  sinv ready don fr -> g_nodes g !! t = Some n -> t ∉ don ++ pending fr ->
  exists fr', fire_ready g fr (MkFireRule t Precondition) = Ok fr' /\
    sinv (filter (fun x => x <> t) ready) don fr' /\ (forall x, x <> t -> x ∈ don ++ pending fr' -> x ∈ don ++ pending fr).
Proof.
  intros Hi Hn Ht. destruct (si_unfired _ _ _ Hi t n Hn Ht) as [Hd Hp]. unfold fire_ready. simpl.
  rewrite Hn, Hp. cbn [xunwrap obind].
  assert (Hstay : not_ready don n -> exists fr', Ok (E := ExecFail) fr = Ok fr' /\ sinv (filter (fun x => x <> t) ready) don fr' /\
    (forall x, x <> t -> x ∈ don ++ pending fr' -> x ∈ don ++ pending fr)).
  { intros Hnr. exists fr. split; [done|]. split; [|done]. destruct Hi as [? ? ? ? ? ? Hr ?]. split; try done.
    intros t' n' Hn' Ht' Hnot. destruct (decide (t' = t)) as [->|Hne]; [by simplify_eq|].
    apply (Hr t' n' Hn' Ht'). intros Hin. apply Hnot. by apply list_elem_of_filter. }
  destruct (pre_done don n) eqn:Epd; [|apply Hstay; by left].
  assert (Hpre : forall p, precondition n = Some p -> p ∈ don).
  { intros p Ep. unfold pre_done in Epd. rewrite Ep in Epd. apply andb_true_iff in Epd as [Hb _]. by apply bool_decide_eq_true_1 in Hb. }
  assert (Hholds : pre_holds V n = true).
  { unfold pre_done in Epd. unfold pre_holds in *. destruct (precondition n); [|done]. by apply andb_true_iff in Epd as [_ ?]. }
  rewrite Hd. cbn [xunwrap obind].
  assert (Hfire : forall task, task_is t task -> fired_as don n ->
    exists fr', Ok (E := ExecFail) (fire fr t task) = Ok fr' /\ sinv (filter (fun x => x <> t) ready) don fr' /\
    (forall x, x <> t -> x ∈ don ++ pending fr' -> x ∈ don ++ pending fr)).
  { intros task Htask Hfa. exists (fire fr t task). split; [done|].
    assert (Hpend : pending (fire fr t task) = pending fr ++ [t]) by (unfold pending; simpl; by rewrite fmap_app).
    split; [|intros x Hx; rewrite Hpend; set_solver].
    destruct Hi as [I1 I2 I3 I4 I5 I6 I7 I8]. split; rewrite ?Hpend.
    - rewrite (assoc_L (++)). apply NoDup_app. split; [done|]. split; [|apply NoDup_singleton].
      intros x Hx Hx'. by apply list_elem_of_singleton in Hx' as ->.
    - intros x. rewrite (assoc_L (++)). intros [Hx|Hx]%elem_of_app; [auto|]. apply list_elem_of_singleton in Hx as ->.
      by eapply lookup_lt_Some.
    - done.
    - intros x task' [Hx|Hx]%elem_of_app; [by apply I4|]. by apply list_elem_of_singleton in Hx as [= -> ->].
    - intros x m Hm. rewrite (assoc_L (++)). intros [Hx|Hx]%elem_of_app; [by eapply I5|].
      apply list_elem_of_singleton in Hx as ->. by simplify_eq.
    - intros x m Hm Hx. rewrite (assoc_L (++)) in Hx. apply not_elem_of_app in Hx as [Hx Hx'].
      destruct (I6 x m Hm Hx) as [H1 H2]. simpl. rewrite list_lookup_insert_ne by set_solver. done.
    - intros x m Hm Hx Hnot. rewrite (assoc_L (++)) in Hx. apply not_elem_of_app in Hx as [Hx Hx'].
      apply (I7 x m Hm Hx). intros Hin. apply Hnot. apply list_elem_of_filter. split; [set_solver|done].
    - done. }
  destruct (values_lookup t n Hn) as (ty & Hty & HV).
  destruct (is_select (gn_node n)) eqn:Es.
  - destruct (dep_of don <$> in_edges n) as [|d ds] eqn:El.
    { apply fmap_nil_inv in El. exfalso. apply (gs_select _ _ Hg n); [by eapply list_elem_of_lookup_2|done..]. }
    rewrite <- El, first_some_omap. destruct (omap id (dep_of don <$> in_edges n)) as [|v l] eqn:Eo.
    + apply Hstay. right. by rewrite Es.
    + destruct (omap_deps_elem don (in_edges n) v) as (s & Hs & Hsd & Hsv); [rewrite Eo; by left|].
      destruct (select_state t n v Hn Es Hholds (omap_value_elem _ _ _ Hs Hsv)) as [_ HVt].
      apply Hfire; [by exists n, ty|]. split; [done..|congruence|]. intros _. exists s. by rewrite Hsv.
  - destruct (mapM_opt id (dep_of don <$> in_edges n)) as [ps|] eqn:Em.
    + destruct (mapM_deps _ _ _ Em) as [Hps Hall]. apply Hfire.
      * exists n, ty. split; [done|]. split; [done|]. rewrite HV. f_equal. unfold SeqEval.node_state.
        by rewrite Hholds, Es, Hps.
      * split; [done..|auto|congruence].
    + apply Hstay. right. by rewrite Es.
Qed.

Lemma sinv_mono ready ready' don fr : ready ⊆ ready' -> sinv ready don fr -> sinv ready' don fr.
Proof. intros Hs [? ? ? ? ? ? Hr ?]. split; try done. intros t n Hn Ht Hnot. apply (Hr t n Hn Ht). set_solver. Qed.

Lemma fire_fold don fr items :
  sinv (target_node <$> items) don fr -> NoDup (target_node <$> items) ->
  (forall item, item ∈ items -> is_Some (g_nodes g !! target_node item) /\ target_node item ∉ don ++ pending fr) ->
  exists fr', foldM_o (fire_ready g) fr items = Ok fr' /\ sinv [] don fr'.
Proof.
  revert fr. induction items as [|item items IH]; intros fr Hi Hnd Hall; [by exists fr|].
  rewrite fmap_cons in Hi, Hnd. apply NoDup_cons in Hnd as [Hnew Hnd].
  destruct (Hall item) as [[n Hn] Ht]; [by left|]. cbn [foldM_o].
  destruct (fire_step _ _ _ _ n Hi Hn Ht) as (fr1 & Hf & Hi1 & Hkeep).
  change (fire_ready g fr item) with (fire_ready g fr (MkFireRule (target_node item) Precondition)).
  rewrite Hf. cbn [obind]. apply IH; [|done|].
  - eapply sinv_mono; [|exact Hi1]. intros x [Hx Hin]%list_elem_of_filter. apply elem_of_cons in Hin as [->|Hin]; done.
  - intros item' Hin. destruct (Hall item') as [Hs Hnot]; [by right|]. split; [done|]. intros Hx. apply Hnot.
    apply Hkeep; [|done]. intros He. apply Hnew. rewrite <- He. apply list_elem_of_fmap. eauto.
Qed.

(** *** Completing a node *)
Instance fits_dec r item : Decision (fits r item).
Proof. unfold fits. destruct (fr_kind item); apply _. Defined.

Lemma unfit_bad s r item : result_of V s = Some r -> rule_for g s item -> ~ fits r item -> bad.
Proof.
  intros Hr (n & Hn & Hk) Hfit. unfold bad. apply orb_true_iff. right. apply existsb_exists. exists n.
  split; [apply list_elem_of_In; by eapply list_elem_of_lookup_2|]. unfold rejected. apply orb_true_iff.
  unfold fits in Hfit. destruct (fr_kind item) as [pos|].
  - left. apply existsb_exists. exists s. split; [apply list_elem_of_In; by eapply list_elem_of_lookup_2|].
    rewrite Hr. destruct r; [|done]. by destruct Hfit.
  - right. rewrite Hk, Hr. apply bool_decide_eq_true_2. destruct (pre_value r); [|done]. by destruct Hfit.
Qed.

(** The targets of a node that completes have not fired. *)
Lemma target_unfired don fr s r item :
  sinv [] don fr -> s ∈ pending fr -> result_of V s = Some r -> rule_for g s item -> fits r item ->
  target_node item ∉ don ++ pending fr.
Proof.
  intros Hi Hs Hr (n & Hn & Hk) Hfit Ht.
  assert (Hsd : s ∉ don) by (pose proof (si_nodup _ _ _ Hi) as Hnd; apply NoDup_app in Hnd as (_ & Hd & _); intros Hin; by apply (Hd s)).
  destruct (si_fired _ _ _ Hi _ n Hn Ht) as [F1 F2 F3 F4]. unfold fits in Hfit.
  destruct (fr_kind item) as [pos|]; [|by apply Hsd, F1].
  assert (Hse : s ∈ in_edges n) by (by eapply list_elem_of_lookup_2).
  destruct (is_select (gn_node n)) eqn:Es; [|by apply Hsd, F3].
  destruct (F4 eq_refl) as (s' & Hs' & Hd' & [v' Hv']). destruct Hfit as [v ->].
  assert (Hv : value_at V s = Some v) by (unfold value_at; by rewrite Hr).
  destruct (select_state _ n v Hn Es F2 (omap_value_elem _ _ _ Hse Hv)) as [Ho _].
  apply Hsd. by rewrite (two_candidates (in_edges n) s s' v v' v).
Qed.

Lemma dep_of_cons don s x : x <> s -> dep_of (s :: don) x = dep_of don x.
Proof. intros Hx. unfold dep_of. repeat case_decide; set_solver. Qed.

Lemma deps_other don s (es : list nat) : s ∉ es -> dep_of (s :: don) <$> es = dep_of don <$> es.
Proof. intros Hs. apply list_fmap_ext. intros i x Hx. apply dep_of_cons. intros ->. apply Hs. by eapply list_elem_of_lookup_2. Qed.

Lemma pre_done_other don s n : precondition n <> Some s -> pre_done (s :: don) n = pre_done don n.
Proof.
  intros Hs. unfold pre_done. destruct (precondition n) as [p|]; [|done]. f_equal. apply bool_decide_ext. set_solver.
Qed.

Lemma deps_insert don s (es : list nat) pos v :
  s ∉ don -> NoDup es -> es !! pos = Some s -> value_at V s = Some v ->
  <[pos := Some v]> (dep_of don <$> es) = dep_of (s :: don) <$> es.
Proof.
  intros Hs Hnd Hp Hv. apply list_eq. intros i. destruct (decide (i = pos)) as [->|Hne].
  - rewrite list_lookup_insert_eq by (rewrite length_fmap; by eapply lookup_lt_Some). rewrite list_lookup_fmap, Hp. simpl.
    unfold dep_of. rewrite decide_True by (by left). by rewrite Hv.
  - rewrite list_lookup_insert_ne by done. rewrite !list_lookup_fmap. destruct (es !! i) as [x|] eqn:Ex; [|done]. simpl.
    f_equal. symmetry. apply dep_of_cons. intros ->. by apply Hne, (NoDup_lookup es i pos s).
Qed.

Lemma distinct_node t n : g_nodes g !! t = Some n -> NoDup (sources n).
Proof. intros Hn. pose proof (gs_distinct _ _ Hg) as Hd. unfold distinct_sources in Hd. rewrite Forall_lookup in Hd. by eapply Hd. Qed.

(** What is recorded for an unfired node. *)
Lemma unfired_after don fr fr' s r t n :
  s ∉ don -> result_of V s = Some r -> g_nodes g !! t = Some n ->
  deps_satisfied fr !! t = Some (dep_of don <$> in_edges n) -> precondition_satisfied fr !! t = Some (pre_done don n) ->
  (s ∉ sources n -> same_at fr fr' t) ->
  (forall k, rule_for g s (MkFireRule t k) -> recorded r fr fr' (MkFireRule t k)) ->
  deps_satisfied fr' !! t = Some (dep_of (s :: don) <$> in_edges n) /\
  precondition_satisfied fr' !! t = Some (pre_done (s :: don) n).
Proof.
  intros Hs Hr Hn Hd Hp Hsame Hrec. pose proof (distinct_node _ _ Hn) as Hnd. unfold sources in Hnd.
  apply NoDup_app in Hnd as (Hnde & Hdis & _).
  destruct (decide (s ∈ sources n)) as [Hin|Hnot].
  - destruct (source_rule s t n Hn Hin) as [k Hk]. specialize (Hrec k Hk). destruct Hk as (n' & Hn' & Hk). simpl in Hn', Hk.
    simplify_eq. destruct k as [pos|]; unfold recorded in Hrec; simpl in Hrec.
    + destruct Hrec as (ds & v & -> & Hds & -> & ->). rewrite Hd in Hds. injection Hds as <-.
      assert (Hse : s ∈ in_edges n) by (by eapply list_elem_of_lookup_2).
      rewrite (deps_insert don s _ pos v) by (done || unfold value_at; by rewrite Hr). split; [done|].
      rewrite pre_done_other; [done|]. intros He. apply (Hdis s Hse). rewrite He. by left.
    + destruct Hrec as (b & Hb & -> & ->). rewrite Hd. split.
      * rewrite deps_other; [done|]. intros Hse. apply (Hdis s Hse). rewrite Hk. by left.
      * f_equal. unfold pre_done, pre_holds. rewrite Hk, bool_decide_eq_true_2 by (by left). simpl. rewrite Hr. simpl. rewrite Hb.
        by destruct b.
  - destruct (Hsame Hnot) as [-> ->]. rewrite Hd, Hp. unfold sources in Hnot. apply not_elem_of_app in Hnot as [He Hq].
    rewrite deps_other, pre_done_other; [done| |done]. intros E. apply Hq. rewrite E. by left.
Qed.

Lemma not_ready_other don s n : s ∉ sources n -> not_ready don n -> not_ready (s :: don) n.
Proof.
  unfold sources, not_ready. intros [He Hq]%not_elem_of_app. rewrite deps_other, pre_done_other; [done| |done].
  intros E. apply Hq. rewrite E. by left.
Qed.

Lemma fired_as_mono don s n : fired_as don n -> fired_as (s :: don) n.
Proof.
  intros [F1 F2 F3 F4]. split; [intros; right; auto|done|intros; right; auto|].
  intros Hs. destruct (F4 Hs) as (x & ? & ? & ?). exists x. split_and!; [done|by right|done].
Qed.

Lemma complete_step don fr s task rest r :
  sinv [] don fr -> futures fr ≡ₚ (s, task) :: rest -> V !! s = Some (Some (Ok r)) ->
  (exists fr', complete g rules s r (pop fr rest (fr_ret fr)) = Ok fr' /\ sinv [] (s :: don) fr') \/
  ((exists e, complete g rules s r (pop fr rest (fr_ret fr)) = Err e) /\ bad).
Proof.
  intros Hi Hperm HV. assert (Hr : result_of V s = Some r) by (unfold result_of; by rewrite HV).
  assert (Hpend : pending fr ≡ₚ s :: rest.*1) by (unfold pending; by rewrite Hperm).
  assert (Hsp : s ∈ pending fr) by (rewrite Hpend; by left).
  pose proof (si_nodup _ _ _ Hi) as Hnd. rewrite Hpend in Hnd.
  assert (Hsd : s ∉ don) by (apply NoDup_app in Hnd as (_ & Hd & _); intros Hin; apply (Hd s Hin); by left).
  assert (HsN : s < N) by (rewrite <- length_values; by eapply lookup_lt_Some).
  destruct (rules_at s HsN) as (items & Hit & Hndi & Hel). unfold complete. rewrite Hit. cbn [xunwrap obind pop fr_ret].
  set (fr0 := MkFrame _ _ _ _).
  assert (Hun : forall item, item ∈ items -> fits r item -> target_node item ∉ don ++ pending fr).
  { intros item Hin Hfit. apply Hel in Hin. by eapply target_unfired. }
  assert (Hroom : Forall (fun item => fits r item -> has_room fr0 item) items).
  { apply Forall_forall. intros item Hin Hfit. pose proof (Hun item Hin Hfit) as Hnot. apply Hel in Hin as (n & Hn & Hk).
    destruct (si_unfired _ _ _ Hi _ n Hn Hnot) as [Hd Hp]. unfold has_room. simpl. rewrite Hd, Hp.
    destruct (fr_kind item); [|by eexists]. eexists. split; [done|]. rewrite length_fmap. by eapply lookup_lt_Some. }
  destruct (record_fold r fr0 items Hndi Hroom) as [(fr1 & -> & Hfit & Hfut & Hret & Hrec & Hsame)|[[e ->] Hex]]; cbn [obind].
  2: { right. split; [by eexists|]. apply Exists_exists in Hex as (item & Hin & Hnf). apply Hel in Hin. by eapply unfit_bad. }
  left. rewrite Forall_forall in Hfit, Hrec.
  assert (Hset : forall t, t ∈ (s :: don) ++ pending fr1 <-> t ∈ don ++ pending fr).
  { intros t. unfold pending at 1. rewrite Hfut. simpl. rewrite !elem_of_cons, !elem_of_app, Hpend, elem_of_cons. tauto. }
  assert (Hsv : sinv (target_node <$> items) (s :: don) fr1).
  { split.
    - unfold pending. rewrite Hfut. simpl. by rewrite Permutation_middle.
    - intros t Ht. by apply (si_range _ _ _ Hi), Hset.
    - intros x [->|Hx]%elem_of_cons; [|by apply Hi]. split; [by rewrite Hr|]. intros t n Hn. rewrite Hr. split.
      + intros [pos Hpos]%list_elem_of_lookup [= ->]. destruct (Hfit (MkFireRule t (ParamDep pos))) as [? ?]; [|done].
        apply Hel. by exists n.
      + intros Hpn Hnone. destruct (Hfit (MkFireRule t Precondition)) as [b Hb]; [|simpl in *; congruence].
        apply Hel. by exists n.
    - intros t task' Hin. apply (si_tasks _ _ _ Hi). rewrite Hperm. right. by rewrite Hfut in Hin.
    - intros t n Hn Ht. apply fired_as_mono, (si_fired _ _ _ Hi t n Hn). by apply Hset.
    - intros t n Hn Ht. assert (Ht' : t ∉ don ++ pending fr) by (by rewrite <- Hset).
      destruct (si_unfired _ _ _ Hi t n Hn Ht') as [Hd Hp].
      apply (unfired_after don fr0 fr1 s r t n Hsd Hr Hn Hd Hp).
      + intros Hnot. apply Hsame. intros (item & -> & Hin)%list_elem_of_fmap. apply Hel, rule_source in Hin as (n' & Hn' & Hs').
        by simplify_eq.
      + intros k Hk. apply Hrec. by apply Hel.
    - intros t n Hn Ht Hnot. apply not_ready_other.
      + intros Hs'. destruct (source_rule s t n Hn Hs') as [k Hk]. apply Hnot. apply list_elem_of_fmap.
        exists (MkFireRule t k). split; [done|]. by apply Hel.
      + apply (si_ready _ _ _ Hi t n Hn); [by rewrite <- Hset|apply not_elem_of_nil].
    - rewrite Hret. simpl. rewrite (si_ret _ _ _ Hi). destruct (output g) as [o|] eqn:Eo; simpl.
      + case_decide as E.
        * injection E as ->. unfold dep_of. rewrite decide_True by (by left). unfold value_at. by rewrite Hr.
        * rewrite dep_of_cons by congruence. done.
      + done. }
  apply (fire_fold (s :: don) fr1 items Hsv Hndi). intros item Hin.
  pose proof (Hun item Hin (Hfit item Hin)) as Hnot. apply Hel in Hin as (n & Hn & _). split; [by eexists|]. by rewrite Hset.
Qed.

(** *** The first batch *)
Lemma deps_none (es : list nat) : dep_of [] <$> es = replicate (length es) None.
Proof. induction es as [|e es IH]; [done|]. rewrite fmap_cons, IH. done. Qed.

Lemma initial_task t task : (t, task) ∈ futures (initial_frame g) -> task = TaskRun [].
Proof.
  unfold initial_frame. simpl. intros Hin. apply list_elem_of_In, in_concat in Hin as (l & Hl & Hin).
  apply list_elem_of_In in Hl, Hin. apply elem_of_lookup_imap in Hl as (i & n & -> & _).
  destruct (_ && _) in Hin; [|by apply elem_of_nil in Hin]. by apply list_elem_of_singleton in Hin as [= _ ->].
Qed.

Lemma initial_sinv : sinv [] [] (initial_frame g).
Proof.
  pose proof (initial_pending g) as Hpend. split; simpl.
  - apply (initial_futures_nodup 0).
  - intros t (n & Hn & _)%Hpend. by eapply lookup_lt_Some.
  - by intros s ?%elem_of_nil.
  - intros t task Hin. rewrite (initial_task _ _ Hin).
    assert (Ht : t ∈ pending (initial_frame g)) by (apply list_elem_of_fmap; by exists (t, task)).
    apply Hpend in Ht as (n & Hn & He & Hp). destruct (values_lookup t n Hn) as (ty & Hty & HV).
    exists n, ty. split; [done|]. split; [done|]. rewrite HV. unfold SeqEval.node_state, pre_holds. rewrite Hp, He. simpl.
    destruct (is_select (gn_node n)) eqn:Es; [|done].
    destruct (gs_select _ _ Hg n); [by eapply list_elem_of_lookup_2|done..].
  - intros t n Hn (n' & Hn' & He & Hp)%Hpend. simplify_eq. split; rewrite ?He.
    + by rewrite Hp.
    + unfold pre_holds. by rewrite Hp.
    + by intros _ s ?%elem_of_nil.
    + intros Es. destruct (gs_select _ _ Hg n); [by eapply list_elem_of_lookup_2|done..].
  - intros t n Hn Ht. rewrite !list_lookup_fmap, Hn. simpl. split; [by rewrite deps_none|].
    unfold pre_done. destruct (precondition n); [|done]. by rewrite !bool_decide_eq_false_2 by (done || set_solver).
  - intros t n Hn Ht _. unfold not_ready. destruct (precondition n) as [p|] eqn:Ep.
    + left. unfold pre_done. rewrite Ep. by rewrite bool_decide_eq_false_2 by set_solver.
    + right. rewrite deps_none. destruct (in_edges n) as [|e es] eqn:Ee; [by destruct Ht; apply Hpend; eauto|].
      simpl. destruct (is_select (gn_node n)); [|done]. by induction (length es).
  - destruct (output g); [|done]. simpl. unfold dep_of. by rewrite decide_False by set_solver.
Qed.

(** *** The end *)
Lemma node_state_fired n ty R :
  node_state nrun V n ty = Some R ->
  pre_holds V n = true /\ (forall p, precondition n = Some p -> is_Some (result_of V p)) /\
  (if is_select (gn_node n) then exists s, s ∈ in_edges n /\ is_Some (value_at V s)
   else is_Some (mapM_opt id (value_at V <$> in_edges n))).
Proof.
  unfold SeqEval.node_state. destruct (pre_holds V n) eqn:Eh; [|done]. intros Hn. split; [done|]. split.
  - intros p Ep. unfold pre_holds in Eh. rewrite Ep in Eh. apply bool_decide_eq_true_1 in Eh.
    destruct (result_of V p); [by eexists|done].
  - destruct (is_select (gn_node n)).
    + destruct (omap id (value_at V <$> in_edges n)) as [|v l] eqn:Eo; [done|].
      assert (Hv : v ∈ omap id (value_at V <$> in_edges n)) by (rewrite Eo; by left).
      apply list_elem_of_omap in Hv as (o & Ho & Hv). unfold id in Hv. subst o.
      apply list_elem_of_fmap in Ho as (s & Hs & Hin). exists s. by rewrite <- Hs.
    + by destruct (mapM_opt id _); [eexists|].
Qed.

Lemma result_fired s : is_Some (result_of V s) -> exists R, V !! s = Some (Some R).
Proof. unfold result_of. destruct (V !! s) as [[R|]|]; [by eexists|by intros [? ?]..]. Qed.

Lemma value_result s : is_Some (value_at V s) -> is_Some (result_of V s).
Proof. unfold value_at. destruct (result_of V s); [by eexists|by intros [? ?]]. Qed.

(** When nothing is pending, every node with a state is done. *)
Lemma all_done don fr t R :
  sinv [] don fr -> futures fr = [] -> V !! t = Some (Some R) -> t ∈ don.
Proof.
  intros Hi Hfut. assert (Hd : don ++ pending fr = don) by (unfold pending; rewrite Hfut; apply app_nil_r).
  revert R. induction (lt_wf t) as [t _ IH]. intros R HVt. destruct (decide (t ∈ don)) as [|Hnot]; [done|exfalso].
  assert (Ht : t < N) by (rewrite <- length_values; by eapply lookup_lt_Some).
  apply lookup_lt_is_Some in Ht as [n Hn]. destruct (values_lookup t n Hn) as (ty & Hty & HV).
  rewrite HV in HVt. injection HVt as Hst. destruct (node_state_fired _ _ _ Hst) as (Hh & Hp & He).
  assert (Hdone : forall s, s ∈ sources n -> is_Some (result_of V s) -> s ∈ don).
  { intros s Hs [R' HR']%result_fired. eapply IH; [by eapply source_lt|done]. }
  assert (Hdep : forall s, s ∈ in_edges n -> is_Some (value_at V s) -> dep_of don s = value_at V s).
  { intros s Hs Hv. unfold dep_of. rewrite decide_True; [done|]. apply Hdone; [|by apply value_result].
    unfold sources. apply elem_of_app. by left. }
  destruct (si_ready _ _ _ Hi t n Hn) as [Hpd|Hnr]; [by rewrite Hd|apply not_elem_of_nil|..].
  - unfold pre_done in Hpd. rewrite Hh in Hpd. destruct (precondition n) as [p|] eqn:Ep; [|done].
    rewrite bool_decide_eq_true_2 in Hpd; [done|]. apply Hdone; [|by apply Hp]. unfold sources. rewrite Ep. set_solver.
  - destruct (is_select (gn_node n)).
    + destruct He as (s & Hs & Hv). destruct Hv as [v Hv]. assert (Hin : v ∈ omap id (dep_of don <$> in_edges n)).
      { apply list_elem_of_omap. exists (Some v). split; [|done]. apply list_elem_of_fmap. exists s. split; [|done].
        rewrite Hdep; [done|done|by rewrite Hv]. }
      rewrite Hnr in Hin. by apply elem_of_nil in Hin.
    + destruct He as [ps He]. assert (dep_of don <$> in_edges n = value_at V <$> in_edges n) as Heq.
      { apply list_fmap_ext. intros i s Hs. apply Hdep; [by eapply list_elem_of_lookup_2|].
        apply mapM_opt_Some in He. assert (Hl : (value_at V <$> in_edges n) !! i = Some (value_at V s)) by (by rewrite list_lookup_fmap, Hs).
        destruct (Forall2_lookup_l _ _ _ _ _ He Hl) as (v & _ & Hv). unfold id in Hv. by rewrite Hv. }
      rewrite Heq in Hnr. congruence.
Qed.

Lemma end_not_bad don fr : sinv [] don fr -> futures fr = [] -> ~ bad.
Proof.
  intros Hi Hfut Hb. apply orb_true_iff in Hb as [Hb|Hb]; apply existsb_exists in Hb as (x & Hx & Hb); apply list_elem_of_In in Hx.
  - apply list_elem_of_lookup in Hx as [t Ht]. destruct x as [R|]; [|done].
    destruct (si_don _ _ _ Hi t (all_done don fr t R Hi Hfut Ht)) as [Hs _]. unfold result_of in Hs. rewrite Ht in Hs.
    by destruct R, Hs.
  - apply list_elem_of_lookup in Hx as [t Ht]. unfold rejected in Hb. apply orb_true_iff in Hb as [Hb|Hb].
    + apply existsb_exists in Hb as (s & Hs & Hr). apply list_elem_of_In in Hs. destruct (result_of V s) as [[r|]|] eqn:Er; try done.
      destruct (result_fired s) as [R HR]; [by rewrite Er|]. pose proof (all_done don fr s R Hi Hfut HR) as Hd.
      destruct (si_don _ _ _ Hi s Hd) as [_ Ha]. by destruct (Ha t x Ht) as [Ha' _]; apply Ha' in Er.
    + destruct (precondition x) as [p|] eqn:Ep; [|done]. destruct (result_of V p) as [r|] eqn:Er; [|done].
      apply bool_decide_eq_true_1 in Hb. destruct (result_fired p) as [R HR]; [by rewrite Er|].
      pose proof (all_done don fr p R Hi Hfut HR) as Hd. destruct (si_don _ _ _ Hi p Hd) as [_ Ha].
      destruct (Ha t x Ht) as [_ Ha']. apply Ha'; [done|]. by rewrite Er.
Qed.

(** *** The loop *)
Context (run : nat -> list VmValue -> XState T -> xres (option VmValue * XState T)).
Context (Hnode : forall n ps ty k, n ∈ g_nodes g ->
  agrees txn (run_node rmp_to_vec rmp_from_slice vm run (gn_node n) ps gparams ty (MkXState txn k)) (nrun (gn_node n) ps ty)).

Abbreviation loop := (graph_loop rmp_to_vec rmp_from_slice schedule vm run).

Lemma seq_graph_bad c : bad -> (exists e, c = Err e) -> agrees txn c (seq_graph nrun g info).
Proof. intros Hb He. unfold seq_graph. fold values. rewrite Hnp. unfold bad in Hb. by rewrite Hb. Qed.

Lemma ret_value don fr : sinv [] don fr -> futures fr = [] -> fr_ret fr = (o ← output g; value_at V o).
Proof.
  intros Hi Hfut. rewrite (si_ret _ _ _ Hi). destruct (output g) as [o|]; [|done]. simpl. unfold dep_of. case_decide as Hd; [done|].
  destruct (value_at V o) as [v|] eqn:Ev; [|done]. destruct (result_fired o) as [R HR]; [by apply value_result; rewrite Ev|].
  by destruct Hd; eapply all_done.
Qed.

Lemma run_task_agrees s task k :
  task_is s task -> exists R, V !! s = Some (Some R) /\
    agrees txn (run_task rmp_to_vec rmp_from_slice vm run g info gparams s task (MkXState txn k)) R.
Proof.
  intros (n & ty & Hn & Hty & HV). destruct task as [ps|v]; simpl.
  - eexists. split; [exact HV|]. rewrite Hn, Hty. cbn [xunwrap obind]. apply Hnode. by eapply list_elem_of_lookup_2.
  - eexists. split; [exact HV|]. by exists k.
Qed.

Lemma fuel_left don fr s task rest fuel :
  sinv [] don fr -> futures fr ≡ₚ (s, task) :: rest -> N <= fuel + length don -> fuel <> 0.
Proof.
  intros Hi Hperm Hf ->. pose proof (si_nodup _ _ _ Hi) as Hnd. pose proof (si_range _ _ _ Hi) as Hr.
  unfold pending in Hnd, Hr. assert (Hlen : length (don ++ (futures fr).*1) <= length (seq 0 N)).
  { apply NoDup_incl_length; [by apply NoDup_ListNoDup|]. intros x Hx. apply list_elem_of_In in Hx. apply in_seq.
    split; [lia|]. by apply Hr. }
  rewrite length_app, length_seq, Hperm in Hlen. simpl in Hlen. lia.
Qed.

Lemma graph_loop_agrees fuel don fr k :
  sinv [] don fr -> N <= fuel + length don ->
  agrees txn (loop fuel g info rules gparams fr (MkXState txn k)) (seq_graph nrun g info).
Proof.
  revert don fr k. induction fuel as [|fuel IH]; intros don fr k Hi Hf; cbn [graph_loop];
    (destruct (pick _ _) as [[[s task] rest]|] eqn:Ep; [apply pick_perm in Ep|apply pick_none in Ep]).
  1: by destruct (fuel_left don fr s task rest 0 Hi Ep Hf).
  2: set (st1 := MkXState _ _); assert (Htask : task_is s task) by (apply (si_tasks _ _ _ Hi); rewrite Ep; by left);
    destruct (run_task_agrees s task (S k) Htask) as (R & HV & Ha); pose proof (no_panic _ _ HV) as Hnps;
    unfold st1; cbn [xs_txn xs_clock]; destruct R as [r|e| |]; try done; cbn [agrees] in Ha.
  2: { destruct Ha as [k1 ->]. cbn [obind]. destruct (complete_step don fr s task rest r Hi Ep HV) as [(fr' & Hc & Hi')|[[e Hc] Hb]];
       unfold pop in Hc; rewrite Hc; cbn [obind]; [|apply seq_graph_bad; [done|by eexists]].
       apply (IH (s :: don)); [done|simpl; lia]. }
  2: { destruct Ha as [e' ->]. apply seq_graph_bad; [|by eexists]. unfold bad. apply orb_true_iff. left. apply existsb_exists.
       exists (Some (Err e)). split; [|done]. apply list_elem_of_In. by eapply list_elem_of_lookup_2. }
  all: pose proof (end_not_bad don fr Hi Ep) as Hb; pose proof (ret_value don fr Hi Ep) as Hret;
    unfold seq_graph; fold values; rewrite Hnp; unfold bad in Hb; destruct (_ || _); [done|]; rewrite <- Hret; by eexists.
Qed.
End Sched.

(** ** Scripts *)
Section Script.
Context {T : Type} `{KvTransaction T}.
Context (rmp_to_vec : PrimitiveValue -> bytes) (rmp_from_slice : bytes -> anyhow PrimitiveValue).
Context (schedule : nat -> nat) (vm : TwVm) (txn : T).
Context (infos : list GraphTypeInfo) (ex : Executor).
Context (Hex : executor_new vm infos = Ok ex) (Hro : read_only vm = true).
Context (Hshape : forall i g info, graphs (vm_script vm) !! i = Some g -> infos !! i = Some info -> graph_shape g info).

Lemma seq_graph_panic nrun g info :
  existsb is_panic (values g info nrun) = true -> seq_graph nrun g info = Panic.
Proof. intros Hp. unfold seq_graph. fold (values g info nrun). by rewrite Hp. Qed.

Lemma seq_run_agrees depth_left i args k :
  agrees txn (recursively_run_graph rmp_to_vec rmp_from_slice schedule vm ex depth_left i args (MkXState txn k))
    (seq_run rmp_to_vec rmp_from_slice vm infos txn depth_left i args).
Proof.
  revert i args k. unfold executor_new in Hex. apply obind_ok in Hex as (tables & Htab & [= <-]).
  apply mapM_o_ok in Htab. induction depth_left as [|d IH]; intros i args k; [by eexists|].
  cbn [recursively_run_graph seq_run ex_type_info ex_fire_rule_tables].
  destruct (graphs (vm_script vm) !! i) as [g|] eqn:Eg; cbn [xunwrap obind]; [|by eexists].
  destruct (infos !! i) as [info|] eqn:Ei; cbn [xunwrap obind]; [|by eexists].
  destruct (Forall2_lookup_l _ _ _ _ _ Htab Eg) as (rules & Hr & Hgen). rewrite Hr. cbn [xunwrap obind].
  set (nrun := seq_node _ _ _ _ _ _). destruct (existsb is_panic (values g info nrun)) eqn:Enp.
  { by rewrite (seq_graph_panic nrun g info Enp). }
  apply (graph_loop_agrees rmp_to_vec rmp_from_slice schedule vm txn g info (Hshape _ _ _ Eg Ei) args nrun Enp rules Hgen)
    with (don := []).
  - intros n ps ty k' Hn. unfold nrun, seq_node. apply run_node_agrees; [exact IH|].
    unfold read_only in Hro. rewrite forallb_forall in Hro. apply list_elem_of_lookup_2, list_elem_of_In, Hro in Eg.
    rewrite forallb_forall in Eg. apply Eg. by apply list_elem_of_In.
  - eapply initial_sinv; eauto.
  - unfold loop_fuel. simpl. lia.
Qed.
End Script.

(** The type checker gives the shape. *)
Lemma checked_shape vm g info : graph_checked vm g info -> distinct_sources g -> graph_shape g info.
Proof.
  intros Hc Hd. split; [apply Hc| |done|].
  - intros i n s Hn Hs. destruct (gc_nodes _ _ _ Hc i n Hn) as (t & _ & He & _). unfold check_edges in He.
    destruct (existsb _ _) eqn:Ee; [done|]. apply elem_of_app in Hs as [Hs|Hs].
    + destruct (decide (s < i)) as [|Hge]; [done|]. exfalso. apply not_true_iff_false in Ee. apply Ee.
      apply existsb_exists. exists s. split; [by apply list_elem_of_In|]. apply bool_decide_eq_true. lia.
    + destruct (precondition n) as [p|]; [|by apply elem_of_nil in Hs]. apply list_elem_of_singleton in Hs as ->.
      destruct (decide (i <= p)); [done|]. lia.
  - intros n Hn Hsel Hnil. apply list_elem_of_lookup in Hn as [i Hi].
    destruct (gc_nodes _ _ _ Hc i n Hi) as (t & _ & _ & sink & sink' & Ht). rewrite Hnil in Ht.
    destruct (gn_node n); try done.
Qed.

Lemma checked_script_shape vm ctx ctx' infos :
  sccs_cover vm ctx -> typeck vm ctx = Ok (infos, ctx') -> distinct_script vm = true ->
  forall i g info, graphs (vm_script vm) !! i = Some g -> infos !! i = Some info -> graph_shape g info.
Proof.
  intros Hs Ht Hd i g info Hg Hi. destruct (typeck_checked vm ctx infos ctx' Hs Ht) as [_ Hall].
  destruct (Hall i g Hg) as (info' & Hi' & Hc). rewrite Hi in Hi'. injection Hi' as <-.
  apply (checked_shape vm); [done|]. unfold distinct_script in Hd. rewrite forallb_forall in Hd.
  apply list_elem_of_lookup_2, list_elem_of_In, Hd in Hg. rewrite forallb_forall in Hg.
  apply Forall_forall. intros n Hn. apply list_elem_of_In, Hg in Hn. by apply bool_decide_eq_true in Hn.
Qed.
