(* ===== verification/Serialize.v ===== *)
(** * Values on the wire: [data/treewalker/serialize.rs]

    [SerializedVmValue] is the form in which arguments reach a script and results
    leave it; [encode] and [decode] convert between it and run-time values,
    [decode] directed by the type of the parameter.  Its own textual form (serde)
    is generated code.  An [f64] is kept as its bits ([F64]).  Printing an [f64]
    ([fmt_f64]) and base64 are parameters. *)
From stdpp Require Import prelude gmap strings list.
From Stdlib Require Import Strings.Byte Strings.Ascii ZArith Floats.SpecFloat.
From S2P Require Import Prelude OrdMap Schema StoragePlan Planner Value PathWalker VmValue F64.
Local Open Scope Z_scope.

Inductive SerializeError :=
| Unserializable
| TypeMismatch
| UnwrapTypeMismatch
| UnexpectedNullValue
| MissingRequiredField (name : string).

(** The errors of the two functions: their own, and those of the parsers they
    call with [?]. *)
Inductive SerializeFail := SErr (e : SerializeError) | SParseInt | SBase64.

Abbreviation sres := (outcome SerializeFail).

Inductive SerializedVmValue :=
| SString (x : string)
| SBool (x : bool)
| SBytes (x : bytes)
| SInt64 (x : Z)
| SDouble (x : Z)
| SNull
| STaggedM (m : list (string * SerializedVmValue))
| STaggedL (l : list SerializedVmValue).

Record VmValueEncodeConfig := MkEncodeConfig {
  enable_bytes : bool;
  enable_int64 : bool;
  enable_double : bool
}.

(** ** Accessors *)
Definition try_unwrap_bool (s : SerializedVmValue) : sres bool :=
  match s with SBool x => Ok x | _ => Err (SErr UnwrapTypeMismatch) end.

Definition try_unwrap_list (s : SerializedVmValue) : sres (list SerializedVmValue) :=
  match s with STaggedL x => Ok x | _ => Err (SErr UnwrapTypeMismatch) end.

Definition check_nonnull (s : SerializedVmValue) : sres unit :=
  match s with SNull => Err (SErr UnexpectedNullValue) | _ => Ok tt end.

Fixpoint check_required (required_fields : list string) (x : list (string * SerializedVmValue)) : sres unit :=
  match required_fields with
  | [] => Ok tt
  | f :: fs => if bt_contains f x then check_required fs x else Err (SErr (MissingRequiredField f))
  end.

Definition try_unwrap_map (required_fields : list string) (s : SerializedVmValue)
    : sres (list (string * SerializedVmValue)) :=
  match s with
  | STaggedM x => let? _ := check_required required_fields x in Ok x
  | _ => Err (SErr UnwrapTypeMismatch)
  end.

Definition try_unwrap_string (s : SerializedVmValue) : sres string :=
  match s with SString x => Ok x | _ => Err (SErr UnwrapTypeMismatch) end.

Definition try_unwrap_bytes (s : SerializedVmValue) : sres bytes :=
  match s with SBytes x => Ok x | _ => Err (SErr UnwrapTypeMismatch) end.

Definition try_unwrap_int64 (s : SerializedVmValue) : sres Z :=
  match s with SInt64 x => Ok x | _ => Err (SErr UnwrapTypeMismatch) end.

(** ** Integers in decimal *)
Definition digit (n : Z) : ascii := ascii_of_N (Z.to_N (48 + n)).

Definition digit_value (c : ascii) : option Z :=
  let n := Z.of_N (N_of_ascii c) - 48 in
  if decide (0 <= n < 10) then Some n else None.

(** The digits of [n] before [acc]. *)
Fixpoint digits (fuel : nat) (n : Z) (acc : string) : string :=
  match fuel with
  | O => acc
  | S fuel => if n <? 10 then String (digit n) acc
              else digits fuel (n / 10) (String (digit (n mod 10)) acc)
  end.

(** Twenty digits are enough for 64 bits. *)
Definition fmt_u64 (n : Z) : string := digits 20 n "".

(** [format!("{}", x)] of an [i64]. *)
Definition fmt_i64 (x : Z) : string := if x <? 0 then String "-" (fmt_u64 (- x)) else fmt_u64 x.

Fixpoint parse_digits (acc : Z) (s : string) : option Z :=
  match s with
  | EmptyString => Some acc
  | String c s => d ← digit_value c; parse_digits (acc * 10 + d) s
  end.

(** The digits after an optional sign: at least one. *)
Definition parse_magnitude (s : string) : option Z :=
  match s with EmptyString => None | _ => parse_digits 0 s end.

Definition in_bounds (lo hi z : Z) : option Z := if decide (lo <= z <= hi) then Some z else None.

(** [str::parse::<i64>] and [str::parse::<u64>]. *)
Definition parse_i64 (s : string) : option Z :=
  match s with
  | String "-" s => m ← parse_magnitude s; in_bounds (- 2 ^ 63) (2 ^ 63 - 1) (- m)
  | String "+" s => m ← parse_magnitude s; in_bounds (- 2 ^ 63) (2 ^ 63 - 1) m
  | s => m ← parse_magnitude s; in_bounds (- 2 ^ 63) (2 ^ 63 - 1) m
  end.

Definition parse_u64 (s : string) : option Z :=
  match s with
  | String "+" s => m ← parse_magnitude s; in_bounds 0 (2 ^ 64 - 1) m
  | s => m ← parse_magnitude s; in_bounds 0 (2 ^ 64 - 1) m
  end.

(** ** Conversions of numbers *)
Definition clamp_i64 (v : Z) : Z := Z.max (- 2 ^ 63) (Z.min (2 ^ 63 - 1) v).

(** [x as i64] of an [f64]: toward zero, saturating, zero for a NaN. *)
Definition f64_as_i64 (x : Z) : Z :=
  match f64_from_bits x with
  | S754_finite s m e =>
      let v := if 0 <=? e then Zpos m * 2 ^ e else Zpos m / 2 ^ (- e) in
      clamp_i64 (if s then - v else v)
  | S754_infinity s => if s then - 2 ^ 63 else 2 ^ 63 - 1
  | S754_zero _ | S754_nan => 0
  end.

(** [(x as f64).to_bits()] of an [i64]: the nearest double. *)
Definition i64_as_f64 (x : Z) : Z := f64_to_bits (binary_normalize 53 1024 x 0 false).

(** ** [String::from_utf8_lossy] *)
Definition is_cont (b : byte) : bool := (128 <=? u8 b) && (u8 b <? 192).

(** How many of the bytes after a first byte belong to its character, and how
    many it needs; the ranges of the second byte exclude overlong forms and
    surrogates. *)
Definition second_ok (a b : byte) : bool :=
  let x := u8 b in
  if u8 a =? 224 then (160 <=? x) && (x <? 192)
  else if u8 a =? 237 then (128 <=? x) && (x <? 160)
  else if u8 a =? 240 then (144 <=? x) && (x <? 192)
  else if u8 a =? 244 then (128 <=? x) && (x <? 144)
  else is_cont b.

Definition utf8_width (a : byte) : nat :=
  let x := u8 a in
  if x <? 128 then 1
  else if (194 <=? x) && (x <? 224) then 2
  else if (224 <=? x) && (x <? 240) then 3
  else if (240 <=? x) && (x <? 245) then 4
  else 0.

(** The number of leading continuation bytes, at most [n]. *)
Fixpoint take_cont (n : nat) (b : bytes) : nat :=
  match n, b with
  | S n, c :: b => if is_cont c then S (take_cont n b) else O
  | _, _ => O
  end.

(** The bytes after [a] that go with it. *)
Definition utf8_tail (a : byte) (b : bytes) : nat :=
  match utf8_width a, b with
  | S (S n), c :: b => if second_ok a c then S (take_cont n b) else O
  | _, _ => O
  end.

Definition replacement : bytes := [xef; xbf; xbd].

(** Each maximal ill-formed part becomes one replacement character. *)
Fixpoint from_utf8_lossy (fuel : nat) (b : bytes) : bytes :=
  match fuel, b with
  | S fuel, a :: b =>
      let n := utf8_tail a b in
      (if decide (S n = utf8_width a) then a :: take n b else replacement)
        ++ from_utf8_lossy fuel (drop n b)
  | _, _ => []
  end.

Definition string_from_utf8_lossy (b : bytes) : string := of_bytes (from_utf8_lossy (length b) b).

(** ** [encode] and [decode] *)
Section Codec.
Context (fmt_f64 : Z -> string) (base64_encode : bytes -> string) (base64_decode : string -> option bytes).

Definition encode_primitive (config : VmValueEncodeConfig) (x : PrimitiveValue) : SerializedVmValue :=
  match x with
  | VBytes x => if enable_bytes config then SBytes x else SString (base64_encode x)
  | VDouble x => if enable_double config then SDouble x else SString (fmt_f64 x)
  | VInt64 x => if enable_int64 config then SInt64 x else SString (fmt_i64 x)
  | VString x => SString x
  end.

Fixpoint encode (config : VmValueEncodeConfig) (v : VmValue) : sres SerializedVmValue :=
  match v with
  | VmMap elements =>
      let? m := mapM_o (fun p => let? x := encode config p.2 in Ok (p.1, x)) elements in
      Ok (STaggedM m)
  | VmNull _ => Ok SNull
  | VmBool x => Ok (SBool x)
  | VmPrimitive x => Ok (encode_primitive config x)
  | VmList _ node => let? out := mapM_o (encode config) node in Ok (STaggedL out)
  | VmTable _ _ | VmSet _ _ => Err (SErr Unserializable)
  end.

Definition decode_primitive (s : SerializedVmValue) (p : PrimitiveType) : sres PrimitiveValue :=
  match s, p with
  | SString x, String_ => Ok (VString x)
  | SBytes x, String_ => Ok (VString (string_from_utf8_lossy x))
  | SString x, Int64 => let? z := ok_or (parse_i64 x) SParseInt in Ok (VInt64 z)
  | SInt64 x, Int64 => Ok (VInt64 x)
  | SDouble x, Int64 => Ok (VInt64 (f64_as_i64 x))
  | SString x, Double => let? z := ok_or (parse_u64 x) SParseInt in Ok (VDouble z)
  | SInt64 x, Double => Ok (VDouble (i64_as_f64 x))
  | SDouble x, Double => Ok (VDouble x)
  | SString x, Bytes_ => let? b := ok_or (base64_decode x) SBase64 in Ok (VBytes b)
  | SBytes x, Bytes_ => Ok (VBytes x)
  | _, _ => Err (SErr TypeMismatch)
  end.

Fixpoint decode (s : SerializedVmValue) (ty : VmType) {struct ty} : sres VmValue :=
  match s with
  | SNull => Ok (VmNull ty)
  | _ =>
      match ty with
      | TyMap map_ty =>
          match s with
          | STaggedM x =>
              let? res := foldM_o (fun res p =>
                match bt_get p.1 x with
                | Some v => let? v := decode v p.2 in Ok (bt_insert p.1 v res)
                | None => Ok (bt_insert p.1 (VmNull p.2) res)
                end) [] map_ty in
              Ok (VmMap res)
          | _ => Err (SErr TypeMismatch)
          end
      | TyList ty =>
          match s with
          | STaggedL x => let? node := mapM_o (fun x => decode x ty) x in Ok (VmList ty node)
          | _ => Err (SErr TypeMismatch)
          end
      | TyBool => match s with SBool x => Ok (VmBool x) | _ => Err (SErr TypeMismatch) end
      | TyPrimitive p => let? x := decode_primitive s p in Ok (VmPrimitive x)
      | _ => Err (SErr TypeMismatch)
      end
  end.
End Codec.
