(* ===== verification/SerializeFacts.v ===== *)
(** * Facts about [serialize.rs]

    What [decode] gives has the type it was asked for; what [encode] wrote,
    [decode] reads back; integers survive their decimal form. *)
From stdpp Require Import prelude gmap strings list.
From Stdlib Require Import Strings.Byte Strings.Ascii ZArith.
From S2P Require Import Prelude OrdMap Schema StoragePlan Planner Value PathWalker VmValue ValueTyping Serialize.
Local Open Scope Z_scope.

(** ** Decimal integers *)
Lemma digit_value_digit n : 0 <= n < 10 -> digit_value (digit n) = Some n.
Proof.
  intros Hn. unfold digit_value, digit. rewrite N_ascii_embedding by lia.
  rewrite Z2N.id by lia. rewrite decide_True by lia. f_equal. lia.
Qed.

Lemma parse_digits_digits fuel n acc :
  0 <= n < 10 ^ Z.of_nat fuel -> (0 < fuel)%nat -> parse_digits 0 (digits fuel n acc) = parse_digits n acc.
Proof.
  revert n acc. induction fuel as [|fuel IH]; intros n acc Hn Hf; [lia|]. cbn [digits].
  destruct (Z.ltb_spec n 10) as [Hlt|Hge].
  - cbn [parse_digits]. by rewrite digit_value_digit by lia.
  - assert (Hp : 10 ^ Z.of_nat (S fuel) = 10 * 10 ^ Z.of_nat fuel) by (rewrite Nat2Z.inj_succ, Z.pow_succ_r by lia; lia).
    assert (Hd : 0 <= n / 10 < 10 ^ Z.of_nat fuel) by (split; [apply Z.div_pos; lia|apply Z.div_lt_upper_bound; lia]).
    assert (0 < fuel)%nat by (destruct fuel; [change (10 ^ Z.of_nat 0) with 1 in *; lia|lia]).
    rewrite IH by done. cbn [parse_digits]. pose proof (Z.mod_pos_bound n 10 ltac:(lia)).
    rewrite digit_value_digit by lia. cbn. f_equal. pose proof (Z.div_mod n 10 ltac:(lia)). lia.
Qed.

(** The text starts with a digit. *)
Lemma digits_head fuel n acc :
  0 <= n -> (0 < fuel)%nat ->
  (exists d s, 0 <= d < 10 /\ digits fuel n acc = String (digit d) s).
Proof.
  revert n acc. induction fuel as [|fuel IH]; intros n acc Hn Hf; [lia|]. cbn [digits].
  destruct (Z.ltb_spec n 10) as [Hlt|Hge]; [by exists n, acc|].
  pose proof (Z.mod_pos_bound n 10 ltac:(lia)). pose proof (Z.div_pos n 10 ltac:(lia) ltac:(lia)).
  destruct fuel as [|fuel]; [by exists (n mod 10), acc|]. apply IH; lia.
Qed.

Lemma digit_no_sign d : 0 <= d < 10 -> digit d <> "-"%char /\ digit d <> "+"%char.
Proof.
  intros Hd. pose proof (digit_value_digit d Hd) as Hv.
  split; intros He; rewrite He in Hv; vm_compute in Hv; discriminate Hv.
Qed.

Lemma parse_magnitude_u64 n : 0 <= n < 2 ^ 64 -> parse_magnitude (fmt_u64 n) = Some n.
Proof.
  intros Hn. destruct (digits_head 20 n "" ltac:(lia) ltac:(lia)) as (d & s & _ & Hs).
  unfold parse_magnitude, fmt_u64. rewrite Hs, <- Hs.
  rewrite parse_digits_digits; [done| |lia]. split; [lia|]. transitivity (2 ^ 64); [lia|]. reflexivity.
Qed.

Lemma parse_i64_unsigned d r :
  0 <= d < 10 -> parse_i64 (String (digit d) r) =
  (m ← parse_magnitude (String (digit d) r); in_bounds (- 2 ^ 63) (2 ^ 63 - 1) m).
Proof.
  intros Hd. destruct (digit_no_sign d Hd) as [H1 H2].
  destruct (digit d) as [[] [] [] [] [] [] [] []]; try reflexivity; by destruct H1 || by destruct H2.
Qed.

Lemma in_bounds_ok lo hi z : lo <= z <= hi -> in_bounds lo hi z = Some z.
Proof. intros. unfold in_bounds. by rewrite decide_True. Qed.

Lemma parse_i64_fmt x : is_i64 x -> parse_i64 (fmt_i64 x) = Some x.
Proof.
  unfold is_i64. intros Hx. unfold fmt_i64. destruct (Z.ltb_spec x 0) as [Hneg|Hpos].
  - unfold parse_i64. rewrite parse_magnitude_u64 by lia. cbn. rewrite in_bounds_ok by lia. f_equal. lia.
  - destruct (digits_head 20 x "" ltac:(lia) ltac:(lia)) as (d & s & Hd & Hs).
    unfold fmt_u64 in *. rewrite Hs, parse_i64_unsigned, <- Hs by done.
    fold (fmt_u64 x). rewrite parse_magnitude_u64 by lia. cbn. by rewrite in_bounds_ok by lia.
Qed.

Section Decode.
Context (s : CompiledSchema) (p : Plan) (rec : gset string).
Context (base64_decode : string -> option bytes).
Abbreviation typed := (has_type s p rec).

Lemma decode_primitive_type x q v : decode_primitive base64_decode x q = Ok v -> get_type v = q.
Proof. destruct x, q; simpl; try done; intros Hd; inv_ok; by injection Hd as <- || done. Qed.

(** The fields of a decoded map, one after the other. *)
Definition decode_field (x : list (string * SerializedVmValue)) (res : list (string * VmValue))
    (e : string * VmType) : sres (list (string * VmValue)) :=
  match bt_get e.1 x with
  | Some v => let? v := decode base64_decode v e.2 in Ok (bt_insert e.1 v res)
  | None => Ok (bt_insert e.1 (VmNull e.2) res)
  end.

Lemma decode_fields_get x m acc res :
  NoDup m.*1 -> foldM_o (decode_field x) acc m = Ok res ->
  (forall k, k ∉ m.*1 -> bt_get k res = bt_get k acc) /\
  (forall k t, (k, t) ∈ m -> exists v, bt_get k res = Some v /\
     match bt_get k x with Some y => decode base64_decode y t = Ok v | None => v = VmNull t end).
Proof.
  revert acc. induction m as [|[k t] m IH]; intros acc Hnd Hf.
  { injection Hf as ->. split; [done|]. by intros ? ? ?%elem_of_nil. }
  cbn [foldM_o] in Hf. apply obind_ok in Hf as (acc' & Hk & Hf).
  apply NoDup_cons in Hnd as [Hnk Hnd]. destruct (IH acc' Hnd Hf) as [H1 H2].
  assert (Hacc : exists v, acc' = bt_insert k v acc /\
    match bt_get k x with Some y => decode base64_decode y t = Ok v | None => v = VmNull t end).
  { unfold decode_field in Hk. cbn [fst snd] in Hk. destruct (bt_get k x) as [y|].
    - apply obind_ok in Hk as (v & Hv & [= <-]). by exists v.
    - injection Hk as <-. by eexists. }
  destruct Hacc as (v & -> & Hv). split.
  - intros k' Hk'. cbn [fmap list_fmap fst] in Hk'. apply not_elem_of_cons in Hk' as [Hne Hk'].
    rewrite H1 by done. by rewrite bt_get_insert_ne.
  - intros k' t' [[= -> ->]|Hin]%elem_of_cons; [|by apply H2].
    exists v. split; [|done]. rewrite H1 by done. apply bt_get_insert_eq.
Qed.

Lemma decode_map x m :
  decode base64_decode (STaggedM x) (TyMap m) = let? res := foldM_o (decode_field x) [] m in Ok (VmMap res).
Proof. reflexivity. Qed.

Lemma decode_typed_gen x t v : ty_wf t -> decode base64_decode x t = Ok v -> typed v t.
Proof.
  revert x v. induction t as [q|n|t IH| |t IH|m IH| |] using vmtype_ind'; intros x v Hwf Hd.
  - destruct x; try (simpl in Hd; injection Hd as <-; done);
      (cbn [decode] in Hd; apply obind_ok in Hd as (y & Hy & [= <-]); apply decode_primitive_type in Hy as <-; done).
  - destruct x; try done. by injection Hd as <-.
  - destruct x; try done. by injection Hd as <-.
  - destruct x; try done; by injection Hd as <-.
  - destruct x; try done; [by injection Hd as <-|].
    cbn [decode] in Hd. apply obind_ok in Hd as (l' & Hl & [= <-]). split; [done|].
    apply allP_Forall. apply mapM_o_ok in Hl. apply Forall_forall. intros y Hy.
    apply list_elem_of_lookup in Hy as [i Hy]. destruct (Forall2_lookup_r _ _ _ _ _ Hl Hy) as (z & _ & Hz).
    by apply (IH z).
  - destruct x as [| | | | | |x|]; try done; [by injection Hd as <-|]. rewrite decode_map in Hd.
    apply obind_ok in Hd as (res & Hres & [= <-]). destruct Hwf as [Hsort Hm%allP_Forall].
    pose proof (bt_sorted_nodup _ Hsort) as Hnd.
    destruct (decode_fields_get _ _ _ _ Hnd Hres) as [H1 H2]. apply has_type_map_intro.
    + intros k tk Hk%bt_get_elem. destruct (H2 _ _ Hk) as (y & Hy & Hdy). exists y. split; [done|].
      destruct (bt_get k x) as [z|]; [|by subst y].
      rewrite Forall_forall in IH, Hm. by eapply (IH _ Hk), Hdy; apply (Hm _ Hk).
    + intros k [y Hy]. destruct (bt_get k m) eqn:E; [by eexists|].
      apply bt_get_none_keys in E. rewrite H1 in Hy by done. done.
  - destruct x; try done. by injection Hd as <-.
  - destruct x; try done. by injection Hd as <-.
Qed.
End Decode.

(** ** Reading back *)
(** Equal up to the types that nulls carry and the representation of maps. *)
Inductive same_value : VmValue -> VmValue -> Prop :=
| same_null t t' : same_value (VmNull t) (VmNull t')
| same_prim x : same_value (VmPrimitive x) (VmPrimitive x)
| same_bool b : same_value (VmBool b) (VmBool b)
| same_list t l l' : Forall2 same_value l l' -> same_value (VmList t l) (VmList t l')
| same_map m m' :
    (forall k v, bt_get k m = Some v -> exists v', bt_get k m' = Some v' /\ same_value v v') ->
    (forall k, is_Some (bt_get k m') -> is_Some (bt_get k m)) -> same_value (VmMap m) (VmMap m').

(** The machine words of a value are in range. *)
Fixpoint prims_ok (v : VmValue) : Prop :=
  match v with
  | VmPrimitive x => prim_ok x
  | VmMap els => allP (fun e => prims_ok e.2) els
  | VmList _ l => allP prims_ok l
  | _ => True
  end.

Section RoundTrip.
Context (s : CompiledSchema) (p : Plan) (rec : gset string).
Context (fmt_f64 : Z -> string) (base64_encode : bytes -> string) (base64_decode : string -> option bytes).
Context (Hbase64 : forall b, base64_decode (base64_encode b) = Some b).
Context (config : VmValueEncodeConfig) (Hdouble : enable_double config = true).

Lemma primitive_roundtrip x :
  prim_ok x -> decode_primitive base64_decode (encode_primitive fmt_f64 base64_encode config x) (get_type x) = Ok x.
Proof.
  destruct x as [y|y|y|y]; simpl; intros Hx; [done|..].
  - destruct (enable_bytes config); simpl; [done|]. by rewrite Hbase64.
  - destruct (enable_int64 config); simpl; [done|]. by rewrite parse_i64_fmt.
  - by rewrite Hdouble.
Qed.

Lemma encode_entries_get (els : list (string * VmValue)) x k :
  mapM_o (fun e => let? y := encode fmt_f64 base64_encode config e.2 in Ok (e.1, y)) els = Ok x ->
  match bt_get k els with
  | Some v => exists y, bt_get k x = Some y /\ encode fmt_f64 base64_encode config v = Ok y
  | None => bt_get k x = None
  end.
Proof.
  intros Hx%mapM_o_ok. induction Hx as [|[k' v] e els x He Hx IH]; [done|].
  apply obind_ok in He as (y & Hy & [= <-]). cbn [fst snd] in *. simpl. destruct (cmp k k'); eauto.
Qed.

Lemma decode_fields_ok x m acc :
  (forall k t y, (k, t) ∈ m -> bt_get k x = Some y -> exists v, decode base64_decode y t = Ok v) ->
  exists res, foldM_o (decode_field base64_decode x) acc m = Ok res.
Proof.
  revert acc. induction m as [|[k t] m IH]; intros acc Hm; [by eexists|]. cbn [foldM_o].
  assert (Hk : exists acc', decode_field base64_decode x acc (k, t) = Ok acc').
  { unfold decode_field. cbn [fst snd]. destruct (bt_get k x) as [y|] eqn:E; [|by eexists].
    destruct (Hm k t y) as [v ->]; [left|done|]. by eexists. }
  destruct Hk as [acc' ->]. apply IH. intros. eapply Hm; [by right|done].
Qed.

Definition reads_back (t : VmType) : Prop := forall v x,
  ty_wf t -> has_type s p rec v t -> prims_ok v -> encode fmt_f64 base64_encode config v = Ok x ->
  exists v', decode base64_decode x t = Ok v' /\ same_value v v'.

Lemma null_reads_back t v x : is_null v = true -> encode fmt_f64 base64_encode config v = Ok x ->
  exists v', decode base64_decode x t = Ok v' /\ same_value v v'.
Proof. destruct v; try done. intros _ [= <-]. exists (VmNull t). split; [by destruct t|constructor]. Qed.

Lemma list_reads_back t l x : reads_back t -> ty_wf t -> Forall (fun v => has_type s p rec v t) l -> allP prims_ok l ->
  encode fmt_f64 base64_encode config (VmList t l) = Ok x ->
  exists v', decode base64_decode x (TyList t) = Ok v' /\ same_value (VmList t l) v'.
Proof.
  intros IH Hwf Hl Hp%allP_Forall (l' & Hl'%mapM_o_ok & [= <-])%obind_ok.
  assert (Hd : exists l2, Forall2 (fun z y => decode base64_decode z t = Ok y) l' l2 /\ Forall2 same_value l l2).
  { induction Hl' as [|a b l l' Hab Hl' IHl]; [by exists []|].
    apply Forall_cons in Hl as [Ha Hl], Hp as [Hpa Hp]. destruct (IHl Hl Hp) as (l2 & H1 & H2).
    destruct (IH a b Hwf Ha Hpa Hab) as (c & Hc & Hs). exists (c :: l2). split; by constructor. }
  destruct Hd as (l2 & H1 & H2). exists (VmList t l2). split; [|by constructor].
  cbn [decode]. apply mapM_o_ok in H1. by rewrite H1.
Qed.

Lemma map_reads_back m els x :
  Forall (fun e => reads_back e.2) m -> ty_wf (TyMap m) -> allP (fun e => prims_ok e.2) els ->
  (forall k tk, bt_get k m = Some tk -> exists x, bt_get k els = Some x /\ has_type s p rec x tk) ->
  (forall k x, bt_get k els = Some x -> exists tk, bt_get k m = Some tk /\ has_type s p rec x tk) ->
  encode fmt_f64 base64_encode config (VmMap els) = Ok x ->
  exists v', decode base64_decode x (TyMap m) = Ok v' /\ same_value (VmMap els) v'.
Proof.
  intros IH [Hsort Hm%allP_Forall] Hp%allP_Forall H1 H2 (xs & Hxs & [= <-])%obind_ok.
  rewrite Forall_forall in IH, Hm. rewrite Forall_forall in Hp.
  assert (Hkey : forall k tk, (k, tk) ∈ m -> exists v y v', bt_get k els = Some v /\ bt_get k xs = Some y /\
    decode base64_decode y tk = Ok v' /\ same_value v v').
  { intros k tk Hk. destruct (H1 k tk (bt_elem_get _ _ _ Hsort Hk)) as (v & Hv & Ht).
    pose proof (encode_entries_get els xs k Hxs) as Hg. rewrite Hv in Hg. destruct Hg as (y & Hy & Hey).
    destruct (IH _ Hk v y (Hm _ Hk) Ht) as (v' & ? & ?); [by apply (Hp _ (bt_get_elem _ _ _ Hv))|done|].
    by exists v, y, v'. }
  destruct (decode_fields_ok xs m []) as [res Hres].
  { intros k t y Hk Hy. destruct (Hkey k t Hk) as (v & y' & v' & _ & Hy' & Hd & _). exists v'. congruence. }
  destruct (decode_fields_get base64_decode xs m [] res (bt_sorted_nodup _ Hsort) Hres) as [G1 G2].
  exists (VmMap res). split; [by rewrite decode_map, Hres|]. constructor.
  - intros k v Hv. destruct (H2 _ _ Hv) as (tk & Htk & _). apply bt_get_elem in Htk.
    destruct (Hkey k tk Htk) as (v0 & y & v' & Hv0 & Hy & Hd & Hs). destruct (G2 _ _ Htk) as (v2 & Hv2 & Hd2).
    rewrite Hy in Hd2. exists v2. split; [done|]. assert (v2 = v') as -> by congruence.
    by assert (v = v0) as -> by congruence.
  - intros k [y Hy]. destruct (bt_get k m) as [tk|] eqn:Hk.
    + destruct (H1 _ _ Hk) as (v & Hv & _). by eexists.
    + apply bt_get_none_keys in Hk. rewrite G1 in Hy by done. done.
Qed.

Lemma no_value_of_type v t : (t = TyUnknown \/ t = TySchema) -> has_type s p rec v t -> is_null v = true.
Proof. intros Ht Hv. destruct v; simpl in Hv; try done; destruct Ht; subst; naive_solver. Qed.

Lemma encode_decode_gen t : reads_back t.
Proof.
  induction t as [q|n|t IH| |t IH|m IH| |] using vmtype_ind'; intros v x Hwf Hv Hp He;
    (destruct (is_null v) eqn:Hn; [by eapply null_reads_back|]).
  - apply has_type_prim in Hv as (y & -> & <-); [|done]. injection He as <-.
    exists (VmPrimitive y). split; [|constructor]. pose proof (primitive_roundtrip y Hp) as Hy.
    destruct (encode_primitive _ _ _ y) eqn:E; cbn [decode]; try (by rewrite Hy);
      by destruct y, config as [[] [] []].
  - apply has_type_table in Hv as (k & sty & -> & _); done.
  - apply has_type_set in Hv as (k & ty & -> & _); done.
  - apply has_type_bool in Hv as [b ->]; [|done]. injection He as <-. exists (VmBool b). split; [done|constructor].
  - apply has_type_list in Hv as (l & -> & Hl); [|done]. by apply list_reads_back.
  - apply has_type_map in Hv as (els & -> & H1 & H2); [|done]. by apply map_reads_back.
  - by rewrite (no_value_of_type v TyUnknown (or_introl eq_refl) Hv) in Hn.
  - by rewrite (no_value_of_type v TySchema (or_intror eq_refl) Hv) in Hn.
Qed.
End RoundTrip.
