(* ===== verification/Query.v ===== *)
(** * Loading and answering queries: [rdb-server/src/exec_core.rs], [exec.rs]

    A query script is compiled, checked and kept with its root map
    ([ExecContext::load]); a call decodes the arguments by the checked parameter
    types, runs the exported graph and encodes the result.  Panics below are
    caught and a timeout cuts the run off ([run_exported_graph]).  The script
    compiler is a parameter here. *)
From stdpp Require Import prelude gmap strings list.
From S2P Require Import Prelude OrdMap Schema SchemaFacts StoragePlan Planner Value PathWalker.
From S2P Require Import WalkerTyping Kv VmValue Bytecode Typeck Exec ValueTyping NodeSound.
From S2P Require Import GraphSound TypeckSound RunGraph Serialize SerializeFacts.

(** What the [anyhow] error of a query holds. *)
Inductive QueryError :=
| QCompile (message : string)
| QValue (e : VmValueError)
| QTypeck (e : TypeckError)
| QLookup (e : VmError)
| QExec (e : ExecError)
| QSerialize (e : SerializeFail)
| ParamCountMismatchIn (expected got : nat)
| GraphExecutorPanic
| Timeout.

(** An error, or a panic of the executor with its site. *)
Inductive Failed (E : Type) := QErr (e : E) | QPanic (p : PanicSite).
Arguments QErr {E} _.
Arguments QPanic {E} _.

Abbreviation QueryFail := (Failed QueryError).
Abbreviation qres := (outcome QueryFail).

Definition failed {E A} (f : ExecError -> E) (c : xres A) : outcome (Failed E) A :=
  map_err (fun e => match e with XErr e => QErr (f e) | XPanic p => QPanic p end) c.

Definition of_exec {A} (c : xres A) : qres A := failed QExec c.

Record ExecContext := MkExecContext {
  ec_vm : TwVm;
  ec_type_info : list GraphTypeInfo;
  ec_root_map : VmValue
}.

Definition load (compile_twscript : string -> anyhow TwScript)
    (kosaraju_scc : nat -> list (nat * nat) -> list (list nat)) (schema : CompiledSchema) (plan : Plan)
    (script : string) : qres ExecContext :=
  let? script := map_err (fun m => QErr (QCompile m)) (compile_twscript script) in
  let? vm := map_err (fun e => QErr (QValue e)) (vm_new schema plan script) in
  let? ctx := map_err (fun e => QErr (QTypeck e)) (tyck_new kosaraju_scc vm) in
  let? (type_info, _) := map_err (fun e => QErr (QTypeck e)) (typeck vm ctx) in
  let? root_map := of_exec (generate_root_map schema plan) in
  Ok (MkExecContext vm type_info root_map).

Section Run.
Context {S T : Type} `{KvTransaction T} `{!KeyValueStore S T}.
Context (rmp_to_vec : PrimitiveValue -> bytes) (rmp_from_slice : bytes -> anyhow PrimitiveValue).
Context (schedule : nat -> nat) (others : nat -> S -> S).
Context (fmt_f64 : Z -> string) (base64_encode : bytes -> string) (base64_decode : string -> option bytes).
Context (ec : ExecContext).

(** The argument of a parameter: the root map for the pseudo-type [schema]. *)
Definition decode_param (p : SerializedVmValue * VmType * VmType) : qres VmValue :=
  match p.2 with
  | TySchema => Ok (ec_root_map ec)
  | _ => map_err (fun e => QErr (QSerialize e)) (decode base64_decode p.1.1 p.1.2)
  end.

Definition encode_output (config : VmValueEncodeConfig) (output : option VmValue) : qres SerializedVmValue :=
  match output with
  | Some x => map_err (fun e => QErr (QSerialize e)) (encode fmt_f64 base64_encode config x)
  | None => Ok SNull
  end.

(** The part before the run: the graph, its executor and the decoded arguments. *)
Definition prepare_call (name : string) (params : list SerializedVmValue) : qres (Executor * nat * list VmValue) :=
  let vm := ec_vm ec in
  let? graph_index := map_err (fun e => QErr (QLookup e)) (lookup_exported_graph_by_name vm name) in
  let? info := unwrap (ec_type_info ec !! graph_index) in
  let? g := unwrap (graphs (vm_script vm) !! graph_index) in
  let? raw_param_types := unwrap (mapM_opt (fun x => vm_types vm !! x) (param_types g)) in
  if decide (length (gi_params info) <> length raw_param_types) then Panic
  else if decide (length (gi_params info) <> length params) then
    Err (QErr (ParamCountMismatchIn (length (gi_params info)) (length params)))
  else
    let? executor := of_exec (executor_new vm (ec_type_info ec)) in
    let? params := mapM_o decode_param (zip (zip params (gi_params info)) raw_param_types) in
    Ok (executor, graph_index, params).

(** The answer, and the store that is left, which an error after the commit does
    not take back.  [attempts] bounds the attempts of [run_graph] that are made. *)
Definition run_for (attempts : nat) (name : string) (params : list SerializedVmValue)
    (config : VmValueEncodeConfig) (s : S) : qres SerializedVmValue * S :=
  match prepare_call name params with
  | Ok (executor, graph_index, params) =>
      let '(output, s) :=
        run_attempts rmp_to_vec rmp_from_slice schedule others attempts 0 executor graph_index params s in
      (let? output := of_exec output in encode_output config output, s)
  | Err e => (Err e, s)
  | Panic => (Panic, s)
  | NoFuel => (NoFuel, s)
  end.

(** With [run_graph], which is [run_attempts MAX_ATTEMPTS 0]. *)
Definition run_exported_graph_inner : string -> list SerializedVmValue -> VmValueEncodeConfig -> S ->
    qres SerializedVmValue * S :=
  run_for MAX_ATTEMPTS.

(** The timer may win the race against the run: [timer] is how many of its attempts
    had ended then.  The attempt that was going on is dropped, unless it was
    committing, in which case it counts as ended. *)
Definition run_exported_graph (timer : option nat) (name : string) (params : list SerializedVmValue)
    (config : VmValueEncodeConfig) (s : S) : outcome QueryError SerializedVmValue * S :=
  match timer with
  | Some ended => (Err Timeout, (run_for (ended `min` MAX_ATTEMPTS) name params config s).2)
  | None =>
      let '(r, s) := run_exported_graph_inner name params config s in
      (match r with
       | Ok v => Ok v
       | Err (QErr e) => Err e
       | Err (QPanic _) | Panic => Err GraphExecutorPanic
       | NoFuel => NoFuel
       end, s)
  end.
End Run.

(** ** Lemmas *)
(** The end of a query: an answer of [Q], an error, or an allowed panic. *)
Definition qsafe {E A} (Q : A -> Prop) (c : outcome (Failed E) A) : Prop :=
  match c with
  | Ok a => Q a
  | Err (QErr _) => True
  | Err (QPanic p) => allowed p
  | Panic | NoFuel => False
  end.

Section Safe.
Context {E : Type}.
Abbreviation res := (outcome (Failed E)).

Lemma qsafe_bind {A B} (P : A -> Prop) (Q : B -> Prop) (c : res A) (k : A -> res B) :
  qsafe P c -> (forall a, P a -> qsafe Q (k a)) -> qsafe Q (obind c k).
Proof. destruct c as [a|[e|x]| |]; simpl; auto. Qed.

Lemma qsafe_exec {A} (Q : A -> Prop) (f : ExecError -> E) (c : xres A) : xsafe Q c -> qsafe Q (failed f c).
Proof. by destruct c as [a|[e|x]| |]. Qed.

Lemma qsafe_err {F A} (Q : A -> Prop) (f : F -> E) (c : outcome F A) :
  returns c -> (forall a, c = Ok a -> Q a) -> qsafe Q (map_err (fun e => QErr (f e)) c).
Proof. destruct c; simpl; auto. Qed.

Lemma qsafe_mapM {A B} (P : A -> B -> Prop) (f : A -> res B) l :
  (forall x, x ∈ l -> qsafe (P x) (f x)) -> qsafe (Forall2 P l) (mapM_o f l).
Proof.
  induction l as [|x l IH]; intros Hf; [constructor|]. cbn [mapM_o].
  eapply qsafe_bind; [apply Hf; left|]. intros y Hy. cbn beta in Hy.
  eapply qsafe_bind; [apply IH; intros; apply Hf; by right|]. intros ys Hys. by constructor.
Qed.
End Safe.

(** Decoding and encoding neither panic nor diverge. *)
Lemma decode_returns base64_decode x t : returns (decode base64_decode x t).
Proof.
  revert x. induction t as [q|n|t IH| |t IH|m IH| |] using vmtype_ind'; intros x; try (by destruct x).
  - assert (Hp : returns (decode_primitive base64_decode x q)).
    { destruct x, q; simpl; try done; apply obind_returns; try done; apply ok_or_returns. }
    destruct x; try done; cbn [decode]; by apply obind_returns.
  - destruct x as [| | | | | | |l]; try done. cbn [decode]. apply obind_returns; [|done].
    apply mapM_o_returns, Forall_forall. auto.
  - destruct x as [| | | | | |x|]; try done. rewrite decode_map. apply obind_returns; [|done].
    rewrite Forall_forall in IH. apply (foldM_o_returns _ (fun _ => True)); [done| |done].
    intros acc e He _. unfold decode_field. destruct (bt_get e.1 x) as [y|]; [|done].
    apply obind_returns; [by apply IH|done].
Qed.

Lemma encode_returns fmt_f64 base64_encode config v : returns (encode fmt_f64 base64_encode config v).
Proof.
  induction v as [x|n kind IH|t kind IH|b|els IH|t|t l IH] using vmvalue_ind'; try done; cbn [encode];
    (apply obind_returns; [|done]); apply mapM_o_returns.
  - eapply Forall_impl; [exact IH|]. intros e He. by apply obind_returns.
  - exact IH.
Qed.

(** ** Loading *)
Lemma root_map_exports schema plan v e q :
  wf_schema schema -> generate_root_map schema plan = Ok v -> bt_get e (exports schema) <> Some (FPrimitive q).
Proof.
  intros Hwf (m & Hm & _)%obind_ok He.
  apply bt_get_elem in He. apply list_elem_of_split in He as (l1 & l2 & He). rewrite He in Hm.
  rewrite foldM_o_app in Hm. by apply obind_ok in Hm as (m1 & _ & Hm).
Qed.

Lemma map_err_ok {E F A} (f : E -> F) (c : outcome E A) a : map_err f c = Ok a <-> c = Ok a.
Proof. destruct c; simpl; split; congruence. Qed.

Lemma load_inv compile_twscript kosaraju schema plan text ec :
  load compile_twscript kosaraju schema plan text = Ok ec ->
  exists script ctx ctx', compile_twscript text = Ok script /\ vm_new schema plan script = Ok (ec_vm ec) /\
    tyck_new kosaraju (ec_vm ec) = Ok ctx /\ typeck (ec_vm ec) ctx = Ok (ec_type_info ec, ctx') /\
    generate_root_map schema plan = Ok (ec_root_map ec).
Proof.
  unfold load. intros (script & Hs & (vm & Hvm & (ctx & Hctx & ([infos ctx'] & Hti & (root & Hr & [= <-])
    %obind_ok)%obind_ok)%obind_ok)%obind_ok)%obind_ok. simpl.
  unfold of_exec in Hr. apply map_err_ok in Hs, Hvm, Hctx, Hti, Hr. by exists script, ctx, ctx'.
Qed.

(** What [petgraph]'s [kosaraju_scc] promises that matters here: every node is
    in one of the components. *)
Definition covers (kosaraju : nat -> list (nat * nat) -> list (list nat)) : Prop :=
  forall n edges i, i < n -> i ∈ concat (kosaraju n edges).

Lemma tyck_new_cover kosaraju vm ctx : covers kosaraju -> tyck_new kosaraju vm = Ok ctx -> sccs_cover vm ctx.
Proof. intros Hc (u & _ & [= <-])%obind_ok i Hi. by apply Hc. Qed.

(** ** Answering *)
Section Answer.
Context {S T : Type} `{KvTransactionLaws T} `{!KvReturns T} `{!KeyValueStore S T}.
Context (rmp_to_vec : PrimitiveValue -> bytes) (rmp_from_slice : bytes -> anyhow PrimitiveValue).
Context (schedule : nat -> nat) (others : nat -> S -> S).
Context (fmt_f64 : Z -> string) (base64_encode : bytes -> string) (base64_decode : string -> option bytes).
Context (ec : ExecContext) (rec : gset string).
Abbreviation vm := (ec_vm ec).
Abbreviation typed := (has_type (vm_schema vm) (vm_storage_plan vm) rec).

(** The answer to a call of [name]: the encoding of what the exported graph of
    that name returned, a value of its output type. *)
Definition answer_of (name : string) (config : VmValueEncodeConfig) (v : SerializedVmValue) : Prop :=
  exists i g output, lookup_exported_graph_by_name vm name = Ok i /\ graphs (vm_script vm) !! i = Some g /\
    exported g = true /\ g_name g = name /\ out_ok vm rec (subgraph_output vm g) output /\
    encode_output fmt_f64 base64_encode config output = Ok v.

(** A call ends well: with its answer, an error or an allowed panic; and in every
    case with a store that is good again, if the codec of stored values keeps their
    types. *)
Definition answer_ok (good : S -> Prop) (name : string) (config : VmValueEncodeConfig)
    (r : qres SerializedVmValue * S) : Prop :=
  qsafe (answer_of name config) r.1 /\ (codec_ok rmp_to_vec rmp_from_slice -> good r.2).

(** Every argument gets the type of its parameter. *)
Lemma decode_params_typed raw ptys params :
  typed (ec_root_map ec) (ty_of_schema (vm_schema vm)) ->
  (forall i, raw !! i = Some TySchema -> ptys !! i = Some (ty_of_schema (vm_schema vm))) ->
  Forall ty_wf ptys -> length params = length ptys -> length raw = length ptys ->
  qsafe (fun args => Forall2 typed args ptys) (mapM_o (decode_param base64_decode ec) (zip (zip params ptys) raw)).
Proof.
  intros Hroot Hraw Hwf Hl1 Hl2.
  assert (Hm : qsafe (Forall2 (fun x v => typed v x.1.2) (zip (zip params ptys) raw))
                 (mapM_o (decode_param base64_decode ec) (zip (zip params ptys) raw))).
  { apply qsafe_mapM. intros [[y t] r] (i & Hi)%list_elem_of_lookup.
    apply lookup_zip_with_Some in Hi as (? & ? & [= <- <-] & (? & ? & [= <- <-] & _ & Ht)%lookup_zip_with_Some & Hr).
    unfold decode_param. cbn [fst snd]. destruct (decide (r = TySchema)) as [->|Hne].
    - apply Hraw in Hr. by simplify_eq.
    - assert (Hdec : qsafe (fun v => typed v t) (map_err (fun e => QErr (QSerialize e)) (decode base64_decode y t))).
      { apply qsafe_err; [apply decode_returns|]. intros v Hv. eapply decode_typed_gen; [|done].
        rewrite Forall_forall in Hwf. apply Hwf. by eapply list_elem_of_lookup_2. }
      by destruct r. }
  destruct (mapM_o _ _) as [args|[]| |]; try done. simpl in *.
  clear Hraw. revert params raw args Hl1 Hl2 Hm. induction Hwf as [|t ptys _ _ IH]; intros [|y params] [|r raw] args;
    try done; intros Hl1 Hl2 Hm; [by inversion Hm; constructor|].
  simpl in Hm. inversion Hm as [|? v ? args' Hv Hm']; subst. constructor; [exact Hv|]. eapply IH; [..|exact Hm']; simpl in *; lia.
Qed.

(** What the run of a prepared call needs. *)
Definition prepared (name : string) (c : Executor * nat * list VmValue) : Prop :=
  let '(ex, i, args) := c in
  exists g info, lookup_exported_graph_by_name vm name = Ok i /\ graphs (vm_script vm) !! i = Some g /\
    exported g = true /\ g_name g = name /\ ec_type_info ec !! i = Some info /\
    executor_new vm (ec_type_info ec) = Ok ex /\ Forall2 typed args (gi_params info).

Lemma prepare_call_safe compile_twscript kosaraju schema plan text name params :
  wf_schema schema -> load compile_twscript kosaraju schema plan text = Ok ec -> covers kosaraju ->
  vm_ok rmp_from_slice vm rec -> exact_script vm (ec_type_info ec) = true ->
  Forall (fun info => Forall ty_wf (gi_params info)) (ec_type_info ec) ->
  qsafe (prepared name) (prepare_call base64_decode ec name params).
Proof.
  intros Hwf Hload Hcov Hvm Hex Htys.
  destruct (load_inv _ _ _ _ _ _ Hload) as (script & ctx & ctx' & _ & Hnew & Hctx & Htc & Hroot).
  destruct (vm_new_inv _ _ _ _ Hnew) as (Hsch & Hpl & Hscr & _ & _).
  apply (tyck_new_cover _ _ _ Hcov) in Hctx as Hc.
  assert (Hrt : typed (ec_root_map ec) (ty_of_schema (vm_schema vm))).
  { rewrite Hsch, Hpl. pose proof (vo_plan _ _ _ Hvm) as Hp. rewrite Hsch, Hpl in Hp.
    destruct (root_map_typed schema plan rec Hwf Hp) as (v & Hv & Ht); [|congruence].
    intros e q. by eapply root_map_exports. }
  unfold prepare_call.
  eapply qsafe_bind; [apply qsafe_err; [apply ok_or_returns|intros i Hi; exact Hi]|]. intros i Hi. cbn beta in Hi.
  destruct (lookup_exported_found _ _ _ _ _ _ Hnew Hi) as (g & Hg & He & Hn). rewrite <- Hscr in Hg.
  destruct (typeck_checked vm ctx _ ctx' Hc Htc) as [_ Hck]. destruct (Hck i g Hg) as (info & Hinfo & Hgc).
  destruct (gc_raw _ _ _ Hgc) as (raw & Hraw & Hres).
  assert (Hsty : forall j, raw !! j = Some TySchema -> gi_params info !! j = Some (ty_of_schema (vm_schema vm)))
    by (intros j Hj; by apply (Hres j TySchema)).
  rewrite Hinfo, Hg. cbn [unwrap obind]. rewrite Hraw. cbn [unwrap obind].
  pose proof (gc_params _ _ _ Hgc) as Hlp. apply mapM_opt_Some, Forall2_length in Hraw as Hlr.
  destruct (decide _) as [Hne|_]; [lia|]. destruct (decide _) as [|Hlen%dec_stable]; [done|].
  destruct (typeck_executor_total vm ctx _ ctx' Hc Htc Hex) as [ex Hexec]. rewrite Hexec. cbn [of_exec failed map_err obind].
  eapply qsafe_bind; [eapply decode_params_typed; eauto; [|lia]|].
  { rewrite Forall_forall in Htys. apply Htys. by eapply list_elem_of_lookup_2. }
  intros args Hargs. cbn beta in Hargs. by exists g, info.
Qed.

Lemma run_for_answers compile_twscript kosaraju schema plan text good open attempts name params config s :
  wf_schema schema -> load compile_twscript kosaraju schema plan text = Ok ec -> covers kosaraju ->
  vm_ok rmp_from_slice vm rec -> exact_script vm (ec_type_info ec) = true ->
  Forall (fun info => Forall ty_wf (gi_params info)) (ec_type_info ec) ->
  store_ok rmp_from_slice others vm rec good open -> good s ->
  answer_ok good name config
    (run_for (T := T) rmp_to_vec rmp_from_slice schedule others fmt_f64 base64_encode base64_decode
       ec attempts name params config s).
Proof.
  intros Hwf Hload Hcov Hvm Hex Htys Hstore Hs.
  destruct (load_inv _ _ _ _ _ _ Hload) as (script & ctx & ctx' & _ & _ & Hctx & Htc & _).
  apply (tyck_new_cover _ _ _ Hcov) in Hctx as Hc.
  pose proof (prepare_call_safe _ _ _ _ _ name params Hwf Hload Hcov Hvm Hex Htys) as Hprep.
  unfold run_for. destruct (prepare_call _ _ _ _) as [[[ex i] args]|[e|x]| |]; try done.
  destruct Hprep as (g & info & Hi & Hg & He & Hn & Hinfo & Hexec & Hargs).
  pose proof (run_attempts_sound rmp_to_vec rmp_from_slice schedule others vm rec good open ctx (ec_type_info ec) ctx' ex i g
    info args attempts 0 s Hstore Hvm Hc Htc Hex Hexec Hg Hinfo Hargs Hs) as [Hout Hgood].
  destruct (run_attempts _ _ _ _ _ _ _ _ _ _) as [output s']. split; [|exact Hgood]. cbn [fst snd] in *.
  eapply qsafe_bind; [by apply qsafe_exec|]. intros out Hok. cbn beta in Hok.
  assert (Hr : returns (encode_output fmt_f64 base64_encode config out)).
  { destruct out as [v|]; [|done]. pose proof (encode_returns fmt_f64 base64_encode config v) as Hr. simpl.
    by destruct (encode _ _ _ _). }
  destruct (encode_output _ _ _ _) as [r|[e|x]| |] eqn:Henc; try done; [by exists i, g, out|].
  destruct out as [v|]; simpl in Henc; [by destruct (encode _ _ _ _)|done].
Qed.
End Answer.

(** ** Sequences of queries *)
Section Served.
Context {S T : Type} `{KvTransactionLaws T} `{!KvReturns T} `{!KeyValueStore S T}.
Context (rmp_to_vec : PrimitiveValue -> bytes) (rmp_from_slice : bytes -> anyhow PrimitiveValue).
Context (schedule : nat -> nat) (others : nat -> S -> S).
Context (fmt_f64 : Z -> string) (base64_encode : bytes -> string) (base64_decode : string -> option bytes).
Context (schema : CompiledSchema) (plan : Plan) (rec : gset string).

Abbreviation query ec timer name params config s :=
  (run_exported_graph (T := T) rmp_to_vec rmp_from_slice schedule others fmt_f64 base64_encode base64_decode
     ec timer name params config s).
Abbreviation inner ec name params config s :=
  (run_exported_graph_inner (T := T) rmp_to_vec rmp_from_slice schedule others fmt_f64 base64_encode base64_decode
     ec name params config s).

(** A script that was loaded against the schema and the plan, with the conditions of
    its soundness. *)
Record client_ok (good : S -> Prop) (open : T -> Prop) (ec : ExecContext) : Prop := {
  cl_load : exists compile_twscript kosaraju text,
    load compile_twscript kosaraju schema plan text = Ok ec /\ covers kosaraju;
  cl_vm : vm_ok rmp_from_slice (ec_vm ec) rec;
  cl_exact : exact_script (ec_vm ec) (ec_type_info ec) = true;
  cl_params : Forall (fun info => Forall ty_wf (gi_params info)) (ec_type_info ec);
  cl_store : store_ok rmp_from_slice others (ec_vm ec) rec good open
}.

(** From one store to a later one: queries of the clients, however they ended, and
    what others did. *)
Inductive served (clients : list ExecContext) : S -> S -> Prop :=
| served_none s : served clients s s
| served_query ec timer name params config s s2 :
    ec ∈ clients -> served clients (query ec timer name params config s).2 s2 -> served clients s s2
| served_other i s s2 : served clients (others i s) s2 -> served clients s s2.

Lemma client_answers good open ec attempts name params config s :
  wf_schema schema -> client_ok good open ec -> good s ->
  answer_ok rmp_to_vec rmp_from_slice fmt_f64 base64_encode ec rec good name config
    (run_for (T := T) rmp_to_vec rmp_from_slice schedule others fmt_f64 base64_encode base64_decode ec attempts name params config s).
Proof.
  intros Hwf [(ct & ks & text & Hl & Hcov) Hvm Hex Hps Hst] Hs. by eapply run_for_answers.
Qed.

Lemma query_keeps_good good open ec timer name params config s :
  wf_schema schema -> codec_ok rmp_to_vec rmp_from_slice -> client_ok good open ec -> good s ->
  good (query ec timer name params config s).2.
Proof.
  intros Hwf Hcodec Hec Hs. unfold run_exported_graph. destruct timer as [n|].
  - by apply (client_answers good open ec (n `min` MAX_ATTEMPTS) name params config s Hwf Hec Hs).
  - pose proof (client_answers good open ec MAX_ATTEMPTS name params config s Hwf Hec Hs) as [_ Hg].
    unfold run_exported_graph_inner. destruct (run_for _ _ _ _ _ _ _ _ _ _ _ _ _). by apply Hg.
Qed.

Lemma served_good good open clients s s' :
  wf_schema schema -> codec_ok rmp_to_vec rmp_from_slice -> Forall (client_ok good open) clients -> clients <> [] ->
  good s -> served clients s s' ->
  good s' /\ forall ec name params config, ec ∈ clients ->
    answer_ok rmp_to_vec rmp_from_slice fmt_f64 base64_encode ec rec good name config (inner ec name params config s').
Proof.
  intros Hwf Hcodec Hcl Hne Hs Hserved. rewrite Forall_forall in Hcl.
  assert (Hs' : good s').
  { induction Hserved as [s|ec timer name params config s s2 Hec _ IH|i s s2 _ IH]; [done|..].
    - apply IH. eapply query_keeps_good; [done..| |done]. by apply Hcl.
    - apply IH. destruct clients as [|ec clients]; [done|]. eapply so_others; [|done].
      exact (cl_store _ _ _ (Hcl ec (list_elem_of_here _ _))). }
  split; [done|]. intros ec name params config Hec. by eapply client_answers; [|apply Hcl|].
Qed.
End Served.
