(* ===== verification/QueryCache.v ===== *)
(** * The query cache: [rdb-server/src/query_cache.rs]

    Loaded queries, kept under the identity of their script and deployment, and a
    small cache of hot queries under the name a client calls them by, whose items
    expire.  The two maps have a lock each: an operation below is one critical
    section, and [cache_step] interleaves those of any number of clients with
    the collector.  The LRU map of the crate [lru] is the class [Lru]. *)
From stdpp Require Import prelude gmap strings list sorting.
From Stdlib Require Import ZArith.
From S2P Require Import Prelude Query.

(** ** The LRU map *)
Class Lru (K V C : Type) := {
  lru_unbounded : C;
  lru_peek : C -> K -> option V;
  lru_put : C -> K -> V -> C;
  lru_peek_lru : C -> option (K * V);
  lru_pop_lru : C -> option (K * V) * C;
  lru_len : C -> nat
}.

(** The entries of a map, the least recently used first. *)
Fixpoint lru_find {K V} `{EqDecision K} (k : K) (l : list (K * V)) : option V :=
  match l with
  | [] => None
  | (k', v) :: l => if decide (k' = k) then Some v else lru_find k l
  end.

Definition lru_remove {K V} `{EqDecision K} (k : K) (l : list (K * V)) : list (K * V) :=
  filter (fun p => p.1 <> k) l.

(** What the documentation of the crate says of the operations used here. *)
Class LruLaws (K V C : Type) `{EqDecision K} `{!Lru K V C} := {
  lru_view : C -> list (K * V);
  lru_view_unbounded : lru_view lru_unbounded = [];
  lru_peek_view c k : lru_peek c k = lru_find k (lru_view c);
  lru_put_view c k v : lru_view (lru_put c k v) = lru_remove k (lru_view c) ++ [(k, v)];
  lru_peek_lru_view c : lru_peek_lru c = head (lru_view c);
  lru_pop_lru_view c : (lru_pop_lru c).1 = head (lru_view c) /\ lru_view (lru_pop_lru c).2 = tail (lru_view c);
  lru_len_view c : lru_len c = length (lru_view c)
}.

(** ** The cache *)
Definition MIN_QUERY_CACHE_SIZE : nat := 64.
Definition QUERY_CACHE_SHRINK_STEP_SIZE : nat := 16.

(** Instants and durations are in nanoseconds. *)
Definition HOT_ITEM_TTL : Z := 3000000000.

Record QueryCacheKey := MkQueryCacheKey {
  namespace_id : string;
  deployment_id : string;
  query_script_id : string;
  query_script_create_time : Z
}.

#[global] Instance query_cache_key_eq_dec : EqDecision QueryCacheKey.
Proof. solve_decision. Defined.

Record HotItem := MkHotItem { exec_ctx : ExecContext; create_time : Z }.

Section Cache.
Context {I C : Type} `{!Lru QueryCacheKey ExecContext I} `{!Lru (string * string) HotItem C}.

Record QueryCache := MkQueryCache { items : I; hot_items : C }.

Definition cache_new : QueryCache := MkQueryCache lru_unbounded lru_unbounded.

Definition get_hot (c : QueryCache) (namespace query_script : string) : option ExecContext :=
  exec_ctx <$> lru_peek (hot_items c) (namespace, query_script).

(** [get]: the look-up, and the insertion into the hot cache of what it found. *)
Definition get_item (c : QueryCache) (key : QueryCacheKey) : option ExecContext := lru_peek (items c) key.

Definition insert_hot (c : QueryCache) (key : QueryCacheKey) (item : ExecContext) (now : Z) : QueryCache :=
  MkQueryCache (items c) (lru_put (hot_items c) (namespace_id key, query_script_id key) (MkHotItem item now)).

Definition cache_put (c : QueryCache) (key : QueryCacheKey) (value : ExecContext) : QueryCache :=
  MkQueryCache (lru_put (items c) key value) (hot_items c).

(** [Instant::duration_since] saturates. *)
Definition duration_since (now earlier : Z) : Z := Z.max 0 (now - earlier).

(** The loop of step 1 of [gc]. *)
Fixpoint expire_loop (fuel : nat) (now : Z) (hot : C) : outcome unit C :=
  match fuel with
  | O => NoFuel
  | S fuel =>
      match lru_peek_lru hot with
      | Some (_, v) =>
          if (HOT_ITEM_TTL <? duration_since now (create_time v))%Z then
            let '(popped, hot) := lru_pop_lru hot in
            let? _ := unwrap popped in expire_loop fuel now hot
          else Ok hot
      | None => Ok hot
      end
  end.

Definition expire_hot (c : QueryCache) (now : Z) : outcome unit QueryCache :=
  let? hot := expire_loop (S (lru_len (hot_items c))) now (hot_items c) in Ok (MkQueryCache (items c) hot).

(** Step 2 of [gc]. *)
Definition shrink (c : QueryCache) (memory_usage_kb process_memory_threshold_kb : Z) : QueryCache :=
  if (process_memory_threshold_kb <? memory_usage_kb)%Z then
    if decide (MIN_QUERY_CACHE_SIZE < lru_len (items c)) then
      MkQueryCache (Nat.iter QUERY_CACHE_SHRINK_STEP_SIZE (fun m => (lru_pop_lru m).2) (items c)) (hot_items c)
    else c
  else c.

(** ** Interleavings *)
(** The cache with the calls of [get] that have found an item and not yet made it
    hot, the last instant read, and the queries put so far. *)
Record CacheState := MkCacheState {
  st_cache : QueryCache;
  st_pending : list (QueryCacheKey * ExecContext);
  st_clock : Z;
  st_put : list (QueryCacheKey * ExecContext)
}.

Inductive cache_step : CacheState -> CacheState -> Prop :=
| step_put c p t l key value :
    cache_step (MkCacheState c p t l) (MkCacheState (cache_put c key value) p t ((key, value) :: l))
| step_get_item c p t l key item : get_item c key = Some item ->
    cache_step (MkCacheState c p t l) (MkCacheState c ((key, item) :: p) t l)
| step_insert_hot c p1 p2 t l key item now : (t <= now)%Z ->
    cache_step (MkCacheState c (p1 ++ (key, item) :: p2) t l)
      (MkCacheState (insert_hot c key item now) (p1 ++ p2) now l)
| step_expire c c' p t l now : (t <= now)%Z -> expire_hot c now = Ok c' ->
    cache_step (MkCacheState c p t l) (MkCacheState c' p now l)
| step_shrink c p t l memory threshold :
    cache_step (MkCacheState c p t l) (MkCacheState (shrink c memory threshold) p t l).

Definition cache_reachable (st : CacheState) : Prop :=
  exists t, rtc cache_step (MkCacheState cache_new [] t []) st.
End Cache.
Arguments QueryCache I C : clear implicits.
Arguments CacheState I C : clear implicits.

(** ** A list as LRU map *)
Definition list_lru {K V} `{EqDecision K} : Lru K V (list (K * V)) := {|
  lru_unbounded := [];
  lru_peek c k := lru_find k c;
  lru_put c k v := lru_remove k c ++ [(k, v)];
  lru_peek_lru c := head c;
  lru_pop_lru c := (head c, tail c);
  lru_len c := length c
|}.

Definition list_lru_laws {K V} `{EqDecision K} : @LruLaws K V (list (K * V)) _ list_lru.
Proof. by refine (@Build_LruLaws K V _ _ list_lru (fun c => c) _ _ _ _ _ _). Defined.

(** ** Lemmas *)
Lemma lru_find_elem {K V} `{EqDecision K} (k : K) (l : list (K * V)) v : lru_find k l = Some v -> (k, v) ∈ l.
Proof.
  induction l as [|[k' v'] l IH]; simpl; [done|]. case_decide as Hk.
  - intros [= ->]. subst. left.
  - intros Hv%IH. by right.
Qed.

Lemma Forall_filter {A} (P Q : A -> Prop) `{!forall x, Decision (P x)} l : Forall Q l -> Forall Q (filter P l).
Proof. rewrite !Forall_forall. intros Hl x [_ Hx]%list_elem_of_filter. by apply Hl. Qed.

Lemma StronglySorted_filter {A} (R : A -> A -> Prop) (P : A -> Prop) `{!forall x, Decision (P x)} l :
  StronglySorted R l -> StronglySorted R (filter P l).
Proof.
  induction 1 as [|x l _ IH Hx]; [constructor|]. rewrite filter_cons. case_decide; [|done].
  constructor; [done|]. by apply Forall_filter.
Qed.

Lemma filter_all {A} (P : A -> Prop) `{!forall x, Decision (P x)} l : Forall P l -> filter P l = l.
Proof. induction 1 as [|x l Hx _ IH]; [done|]. rewrite filter_cons_True by done. by rewrite IH. Qed.

Section Facts.
Context {I C : Type} `{!Lru QueryCacheKey ExecContext I} `{!Lru (string * string) HotItem C}.
Context `{!LruLaws QueryCacheKey ExecContext I} `{!LruLaws (string * string) HotItem C}.
Abbreviation hot_view c := (lru_view (hot_items c)).
Abbreviation item_view c := (lru_view (items c)).

Definition older (a b : (string * string) * HotItem) : Prop := (create_time a.2 <= create_time b.2)%Z.
Definition live (now : Z) (p : (string * string) * HotItem) : Prop := (now - create_time p.2 <= HOT_ITEM_TTL)%Z.
#[local] Instance live_dec now p : Decision (live now p).
Proof. unfold live. apply _. Defined.

(** The loop stops at the first live item; in a sorted map that is right. *)
Lemma expire_loop_view fuel now hot :
  StronglySorted older (lru_view hot) -> length (lru_view hot) < fuel ->
  exists hot', expire_loop fuel now hot = Ok hot' /\ lru_view hot' = filter (live now) (lru_view hot).
Proof.
  revert hot. induction fuel as [|fuel IH]; intros hot Hs Hl; [lia|]. cbn [expire_loop].
  rewrite lru_peek_lru_view. destruct (lru_pop_lru_view hot) as [Hp1 Hp2].
  destruct (lru_view hot) as [|[k v] l] eqn:E; cbn [head].
  { exists hot. split; [done|]. by rewrite E. }
  apply StronglySorted_inv in Hs as [Hs Hv].
  destruct (Z.ltb_spec HOT_ITEM_TTL (duration_since now (create_time v))) as [Hlt|Hge]; unfold duration_since in *.
  - destruct (lru_pop_lru hot) as [popped hot1]. cbn [fst snd head tail] in *. subst popped. cbn [unwrap obind].
    destruct (IH hot1) as (hot' & Hr & Hw); rewrite ?Hp2; [done|simpl in Hl; lia|].
    exists hot'. split; [done|]. rewrite Hw, Hp2, filter_cons_False; [done|]. unfold live, HOT_ITEM_TTL in *. simpl. lia.
  - exists hot. split; [done|]. rewrite E. symmetry. apply filter_all. constructor; [unfold live; simpl; lia|].
    eapply Forall_impl; [exact Hv|]. intros x Hx. unfold older, live in *. simpl in *. lia.
Qed.

Lemma expire_hot_view (c : QueryCache I C) now :
  StronglySorted older (hot_view c) ->
  exists c' : QueryCache I C, expire_hot c now = Ok c' /\ items c' = items c /\ hot_view c' = filter (live now) (hot_view c).
Proof.
  intros Hs. unfold expire_hot. rewrite lru_len_view.
  destruct (expire_loop_view (S (length (hot_view c))) now (hot_items c)) as (hot & -> & Hw); [done|lia|].
  by eexists.
Qed.

Lemma pop_many_view n (m : I) : lru_view (Nat.iter n (fun m => (lru_pop_lru m).2) m) = drop n (lru_view m).
Proof.
  induction n as [|n IH]; [done|]. simpl. destruct (lru_pop_lru_view (Nat.iter n (fun m => (lru_pop_lru m).2) m)) as [_ ->].
  rewrite IH. generalize (lru_view m). clear. induction n as [|n IH]; intros [|x l]; try done. apply IH.
Qed.

Lemma shrink_view (c : QueryCache I C) memory threshold :
  hot_items (shrink c memory threshold) = hot_items c /\
  item_view (shrink c memory threshold) =
    if decide ((threshold < memory)%Z /\ 64 < length (item_view c)) then drop 16 (item_view c) else item_view c.
Proof.
  unfold shrink, MIN_QUERY_CACHE_SIZE. rewrite lru_len_view. destruct (Z.ltb_spec threshold memory); repeat case_decide; try lia; try done.
  split; [done|]. apply pop_many_view.
Qed.

(** ** The invariant *)
Definition was_put (l : list (QueryCacheKey * ExecContext)) (p : (string * string) * HotItem) : Prop :=
  exists key, (key, exec_ctx p.2) ∈ l /\ p.1 = (namespace_id key, query_script_id key).

Record cache_ok (st : CacheState I C) : Prop := {
  co_sorted : StronglySorted older (hot_view (st_cache st));
  co_clock : Forall (fun p => (create_time p.2 <= st_clock st)%Z) (hot_view (st_cache st));
  co_hot : Forall (was_put (st_put st)) (hot_view (st_cache st));
  co_items : item_view (st_cache st) ⊆ st_put st;
  co_pending : st_pending st ⊆ st_put st
}.

Lemma older_remove k l : StronglySorted older l -> StronglySorted older (lru_remove k l).
Proof. apply StronglySorted_filter. Qed.

(** Expiring and shrinking only remove entries. *)
Lemma expire_hot_ok c c' p t l now :
  (t <= now)%Z -> expire_hot c now = Ok c' -> cache_ok (MkCacheState c p t l) -> cache_ok (MkCacheState c' p now l).
Proof.
  intros Hle He [Hs Hc Hh Hi Hp]. cbn [st_cache st_clock st_put st_pending] in *.
  destruct (expire_hot_view c now Hs) as (c1 & Hc1 & Hit & Hv). assert (c1 = c') as -> by congruence.
  split; cbn [st_cache st_clock st_put st_pending]; rewrite ?Hv, ?Hit; try done.
  - by apply StronglySorted_filter.
  - apply Forall_filter. eapply Forall_impl; [exact Hc|]. simpl. intros. lia.
  - by apply Forall_filter.
Qed.

Lemma shrink_ok c p t l memory threshold :
  cache_ok (MkCacheState c p t l) -> cache_ok (MkCacheState (shrink c memory threshold) p t l).
Proof.
  intros [Hs Hc Hh Hi Hp]. cbn [st_cache st_clock st_put st_pending] in *.
  destruct (shrink_view c memory threshold) as [H1 H2].
  split; cbn [st_cache st_clock st_put st_pending]; rewrite ?H1, ?H2; try done.
  case_decide; [|done]. intros x Hx. apply Hi. by eapply subseteq_drop.
Qed.

Lemma cache_step_ok st st' : cache_step st st' -> cache_ok st -> cache_ok st'.
Proof.
  intros Hst Hok. destruct Hst as [c p t l key value|c p t l key item Hg|c p1 p2 t l key item now Hle
    |c c' p t l now Hle He|c p t l memory threshold]; [..|by eapply expire_hot_ok|by apply shrink_ok];
    destruct Hok as [Hs Hc Hh Hi Hp]; simpl in *; split; simpl; try done.
  - eapply Forall_impl; [exact Hh|]. intros x (k & Hk & Hx). exists k. split; [by right|done].
  - rewrite lru_put_view. unfold lru_remove. intros x [Hx|Hx]%elem_of_app.
    + apply list_elem_of_filter in Hx as [_ Hx]. right. by apply Hi.
    + apply list_elem_of_singleton in Hx as ->. left.
  - intros x Hx. right. by apply Hp.
  - unfold get_item in Hg. rewrite lru_peek_view in Hg. apply lru_find_elem in Hg. set_solver.
  - rewrite lru_put_view. apply StronglySorted_snoc; [by apply older_remove|]. unfold lru_remove.
    apply Forall_filter. eapply Forall_impl; [exact Hc|]. intros x Hx. unfold older. simpl in *. lia.
  - rewrite lru_put_view. apply Forall_app. split; [|repeat constructor; simpl; lia]. apply Forall_filter.
    eapply Forall_impl; [exact Hc|]. simpl. intros. lia.
  - rewrite lru_put_view. apply Forall_app. split; [by apply Forall_filter|]. repeat constructor. exists key.
    split; [|done]. apply Hp. set_solver.
  - set_solver.
Qed.

Lemma cache_reachable_ok st : cache_reachable st -> cache_ok st.
Proof.
  intros [t Ht]. assert (Hok : cache_ok (MkCacheState (C := C) cache_new [] t [])).
  { split; simpl; rewrite ?lru_view_unbounded; try done; constructor. }
  revert Ht Hok. generalize (MkCacheState (C := C) (I := I) cache_new [] t []).
  induction 1 as [|st1 st2 st3 Hst _ IH]; [done|]. intros Hok. by eapply IH, cache_step_ok.
Qed.

(** A hot item answers for a query that was put under its names. *)
Lemma get_hot_was_put st namespace query_script ctx :
  cache_ok st -> get_hot (st_cache st) namespace query_script = Some ctx ->
  exists key, (key, ctx) ∈ st_put st /\ namespace_id key = namespace /\ query_script_id key = query_script.
Proof.
  intros Hok Hg. unfold get_hot in Hg. rewrite lru_peek_view in Hg.
  destruct (lru_find _ _) as [h|] eqn:E; [|done]. injection Hg as <-. apply lru_find_elem in E.
  pose proof (co_hot _ Hok) as Hh. rewrite Forall_forall in Hh. destruct (Hh _ E) as (key & Hk & [= -> ->]).
  by exists key.
Qed.
End Facts.
