(* ===== verification/AsmAst.v ===== *)
(** * The syntax of scripts: [data/treewalker/asm/ast.rs], errors of [asm/mod.rs]

    What the generated parser hands to the code generator.  Type and constructor
    names that the bytecode or the schema grammar have too carry a prefix. *)
From stdpp Require Import prelude gmap strings list.
From S2P Require Import Prelude Schema.

Inductive TwAsmError :=
| InvalidLiteral
| TypeUnsupportedInTable
| NodeNotFound (name : string)
| IdentifierNotFound (name : string)
| DuplicateReturn
| ParamNotFound (name : string)
| DuplicateParam (name : string)
| DuplicateGraph (name : string)
| DuplicateNodeName (name : string)
| DuplicateTypeAlias (name : string)
| GraphNotFound (name : string).

Inductive AstType :=
| ATable (name : string) (params : list AstType)
| APrimitive (p : PrimitiveType)
| ASet (t : AstType)
| AList (t : AstType)
| AMap (m : list (string * AstType))
| ABool
| ASchema.

Inductive AstLiteral :=
| LNull (t : AstType)
| LBool (b : bool)
| LInteger (x : Z)
| LHexBytes (x : bytes)
| LString (x : string)
| LEmptySet (member_ty : AstType).

(** [K] is the name the code generator gives to [ExprKind]. *)
Inductive Expr :=
| MkExpr (location_start location_end : nat) (kind : ExprKind)
with ExprKind :=
| KLoadConst (x : AstLiteral)
| KBuildTable (ty : AstType) (map : Expr)
| KBuildSet (x : Expr)
| KCreateMap
| KGetField (field : string) (x : Expr)
| KGetSetElement (set selector : Expr)
| KInsertIntoMap (field : string) (v map : Expr)
| KInsertIntoTable (field : string) (table v : Expr)
| KInsertIntoSet (set v : Expr)
| KDeleteFromSet (set selector : Expr)
| KDeleteFromMap (field : string) (map : Expr)
| KEq (l r : Expr)
| KNe (l r : Expr)
| KAnd (l r : Expr)
| KOr (l r : Expr)
| KNot (x : Expr)
| KSelect (l r : Expr)
| KNode (x : string)
| KIsPresent (x : Expr)
| KIsNull (x : Expr)
| KOrElse (l r : Expr)
| KCall (target_graph : string) (params : list Expr)
| KAdd (l r : Expr)
| KSub (l r : Expr)
| KCreateList (ty : AstType)
| KReduce (target_graph : string) (subgraph_param reduce_init list_or_set : Expr)
| KRangeReduce (target_graph : string) (range_start range_end subgraph_param reduce_init list_or_set : Expr)
| KPrepend (l r : Expr)
| KPop (x : Expr)
| KHead (x : Expr).

Inductive Stmt :=
| MkStmt (location : nat) (kind : StmtKind)
with StmtKind :=
| SReturn (value : Expr)
| SNode (name : option string) (value : Expr)
| SIf (precondition : Expr) (if_body : list Stmt) (else_body : option (list Stmt))
| SThrow (value : Expr).

Record AstGraph := MkAstGraph {
  ag_name : string;
  ag_exported : bool;
  ag_params : list (string * option AstType);
  ag_return_type : option AstType;
  ag_stmts : list Stmt
}.

Record TypeAlias := MkTypeAlias { ta_name : string; ta_ty : AstType }.

Record AstRoot := MkAstRoot { root_graphs : list AstGraph; root_type_aliases : list TypeAlias }.
