(* ===== verification/Codegen.v ===== *)
(** * The code generator: [data/treewalker/asm/codegen.rs], [util.rs]

    [compile_twscript] lowers the syntax tree of a script to graphs: every
    expression becomes a node whose edges go to the nodes of its operands, a
    statement under an [if] gets the node of its condition as precondition, and
    identifiers, types and constants are numbered in pools.  The functions thread
    the state of the two Rust structs [Builder] and [GraphContext]; the [Vec] of
    conditions is a list with its last element first.  A pool is a hash map, here an
    association list, which [emit_pools] sorts by index.  The parser is a
    parameter. *)
From stdpp Require Import prelude gmap strings list sorting.
From S2P Require Import Prelude OrdMap Schema StoragePlan Planner Value PathWalker Kv VmValue Bytecode AsmAst.

(** [first_duplicate] of [util.rs]. *)
Fixpoint first_duplicate_from {T} `{EqDecision T} (uniq : list T) (l : list T) : option T :=
  match l with
  | [] => None
  | x :: l => if decide (x ∈ uniq) then Some x else first_duplicate_from (x :: uniq) l
  end.

Definition first_duplicate {T} `{EqDecision T} (l : list T) : option T := first_duplicate_from [] l.

(** ** Equality of constants *)
Fixpoint const_eqb (a b : VmConst) : bool :=
  match a, b with
  | CPrimitive x, CPrimitive y => bool_decide (x = y)
  | CTable t f, CTable u g => bool_decide (t = u) && entries_eqb const_eqb f g
  | CSet t l, CSet u m => bool_decide (t = u) && elems_eqb const_eqb l m
  | CBool x, CBool y => bool_decide (x = y)
  | CNull t, CNull u => ty_eqb t u
  | _, _ => false
  end.

(** ** The builder *)
Section Pool.
Context {K : Type} (eqb : K -> K -> bool).

Fixpoint pool_get (k : K) (pool : list (K * nat)) : option nat :=
  match pool with
  | [] => None
  | (k', x) :: pool => if eqb k k' then Some x else pool_get k pool
  end.

Definition pool_alloc (pool : list (K * nat)) (k : K) : nat * list (K * nat) :=
  match pool_get k pool with
  | Some x => (x, pool)
  | None => (length pool, (k, length pool) :: pool)
  end.
End Pool.

Record Builder := MkBuilder {
  ident_pool : list (string * nat);
  vmtype_pool : list (VmType * nat);
  const_pool : list (VmConst * nat);
  type_aliases : gmap string VmType
}.

Definition alloc_vmtype (b : Builder) (ty : VmType) : nat * Builder :=
  let '(id, pool) := pool_alloc ty_eqb (vmtype_pool b) ty in
  (id, MkBuilder (ident_pool b) pool (const_pool b) (type_aliases b)).

Definition alloc_ident (b : Builder) (id : string) : nat * Builder :=
  let '(index, pool) := pool_alloc String.eqb (ident_pool b) id in
  (index, MkBuilder pool (vmtype_pool b) (const_pool b) (type_aliases b)).

(** The same up to where the string lives. *)
Definition alloc_ident_external (b : Builder) (id : string) : nat * Builder := alloc_ident b id.

Definition alloc_const (b : Builder) (x : VmConst) : nat * Builder :=
  let '(index, pool) := pool_alloc const_eqb (const_pool b) x in
  (index, MkBuilder (ident_pool b) (vmtype_pool b) pool (type_aliases b)).

(** [sort_by] on the index. *)
Definition by_index {K} (a b : K * nat) : Prop := a.2 <= b.2.
#[export] Instance by_index_dec {K} : RelDecision (@by_index K) := fun a b => Compare_dec.le_dec a.2 b.2.

Definition emit_pool {K} (pool : list (K * nat)) : list K := (merge_sort by_index pool).*1.

Definition emit_pools (b : Builder) (gs : list TwGraph) : TwScript :=
  MkScript gs 0 (emit_pool (const_pool b)) (emit_pool (ident_pool b)) (emit_pool (vmtype_pool b)).

(** ** Types and literals *)
Abbreviation ares := (outcome TwAsmError).

Fixpoint format_type_for_table (ty : AstType) : ares string :=
  match ty with
  | APrimitive x => Ok (fmt_primitive_type x)
  | ASet x => let? s := format_type_for_table x in Ok ("set<" +:+ s +:+ ">")
  | ATable name params =>
      let? ps := mapM_o format_type_for_table params in Ok (name +:+ "<" +:+ join ", " ps +:+ ">")
  | _ => Err TypeUnsupportedInTable
  end.

(** Collecting into a map, the last entry of a key wins. *)
Definition collect_map {V} (l : list (string * V)) : list (string * V) :=
  foldl (fun m p => bt_insert p.1 p.2 m) [] l.

Fixpoint generate_vmtype (aliases : gmap string VmType) (ty : AstType) : ares VmType :=
  match ty with
  | APrimitive x => Ok (TyPrimitive x)
  | ATable name _ =>
      match aliases !! name with
      | Some x => Ok x
      | None => let? s := format_type_for_table ty in Ok (TyTable s)
      end
  | ASet x => let? t := generate_vmtype aliases x in Ok (TySet t)
  | AMap x =>
      let? l := mapM_o (fun p => let? t := generate_vmtype aliases p.2 in Ok (p.1, t)) x in
      Ok (TyMap (collect_map l))
  | ABool => Ok TyBool
  | ASchema => Ok TySchema
  | AList x => let? t := generate_vmtype aliases x in Ok (TyList t)
  end.

Definition literal_to_vmconst (aliases : gmap string VmType) (x : AstLiteral) : ares VmConst :=
  match x with
  | LNull ty => let? t := generate_vmtype aliases ty in Ok (CNull t)
  | LBool x => Ok (CBool x)
  | LInteger x => Ok (CPrimitive (VInt64 x))
  | LHexBytes x => Ok (CPrimitive (VBytes x))
  | LString x => Ok (CPrimitive (VString x))
  | LEmptySet member_ty => let? s := format_type_for_table member_ty in Ok (CSet s [])
  end.

(** ** The context of a graph, and its monad *)
Record GraphContext := MkGraphContext {
  names : gmap string nat;
  builder : Builder;
  target : TwGraph;
  condition_stack : list nat
}.

Definition Gen (A : Type) : Type := GraphContext -> ares (A * GraphContext).

Definition gret {A} (a : A) : Gen A := fun c => Ok (a, c).
Definition gbind {A B} (m : Gen A) (k : A -> Gen B) : Gen B := fun c => let? (a, c) := m c in k a c.
Definition glift {A} (m : ares A) : Gen A := fun c => let? a := m in Ok (a, c).
Notation "'let!' x := c 'in' k" := (gbind c (fun x => k))
  (at level 10, x pattern, c at level 200, k at level 200,
   format "'[v' 'let!'  x  :=  c  'in' '/' k ']'") : rust_scope.

Fixpoint mapM_g {A B} (f : A -> Gen B) (l : list A) : Gen (list B) :=
  match l with
  | [] => gret []
  | x :: l => let! y := f x in let! ys := mapM_g f l in gret (y :: ys)
  end.

(** An operation of the builder. *)
Definition on_builder {A} (f : Builder -> A * Builder) : Gen A := fun c =>
  let '(a, b) := f (builder c) in Ok (a, MkGraphContext (names c) b (target c) (condition_stack c)).

Definition with_aliases {A} (f : gmap string VmType -> ares A) : Gen A := fun c =>
  let? a := f (type_aliases (builder c)) in Ok (a, c).

Definition set_nodes (g : TwGraph) (ns : list GNode) : TwGraph :=
  MkGraph (g_name g) (exported g) ns (output g) (param_types g) (output_type g).

Definition push_node (node : TwGraphNode) (edges : list nat) (pre : option nat) (name : option string) : Gen nat := fun c =>
  let g := target c in
  let index := length (g_nodes g) in
  let g := set_nodes g (g_nodes g ++ [MkGNode node edges pre]) in
  match name with
  | Some x =>
      match names c !! x with
      | Some _ => Err (DuplicateNodeName x)
      | None => Ok (index, MkGraphContext (<[x := index]> (names c)) (builder c) g (condition_stack c))
      end
  | None => Ok (index, MkGraphContext (names c) (builder c) g (condition_stack c))
  end.

Definition lookup_node (name : string) : Gen nat := fun c =>
  let? x := ok_or (names c !! name) (NodeNotFound name) in Ok (x, c).

(** [condition_stack.last().copied()], [push] and [pop().unwrap()]. *)
Definition last_condition : Gen (option nat) := fun c => Ok (head (condition_stack c), c).

Definition push_condition (x : nat) : Gen unit := fun c =>
  Ok (tt, MkGraphContext (names c) (builder c) (target c) (x :: condition_stack c)).

Definition pop_condition : Gen unit := fun c =>
  match condition_stack c with
  | [] => Panic
  | _ :: s => Ok (tt, MkGraphContext (names c) (builder c) (target c) s)
  end.

Definition generate_condition (condition : nat) : Gen nat :=
  let! last := last_condition in
  match last with
  | Some last => push_node NAnd [condition; last] None None
  | None => gret condition
  end.

(** ** Expressions *)
Section Expressions.
Context (root : AstRoot).

(** [enumerate().find(...)] on the graphs of the script. *)
Fixpoint find_graph (i : nat) (gs : list AstGraph) (name : string) : option nat :=
  match gs with
  | [] => None
  | g :: gs => if decide (ag_name g = name) then Some i else find_graph (S i) gs name
  end.

Definition graph_index (name : string) : Gen nat :=
  glift (ok_or (find_graph 0 (root_graphs root) name) (GraphNotFound name)).

Fixpoint generate_expr (name : option string) (expr : Expr) : Gen nat :=
  let! pre := last_condition in
  match expr with
  | MkExpr _ _ kind =>
      match kind with
      | KNode x => lookup_node x
      | KAnd l r =>
          let! l := generate_expr None l in
          let! r := generate_expr None r in
          push_node NAnd [l; r] pre name
      | KBuildTable ty map =>
          let! s := glift (format_type_for_table ty) in
          let! ty := on_builder (fun b => alloc_ident_external b s) in
          let! map := generate_expr None map in
          push_node (BuildTable ty) [map] pre name
      | KCreateMap => push_node CreateMap [] pre name
      | KDeleteFromMap field map =>
          let! field := on_builder (fun b => alloc_ident b field) in
          let! map := generate_expr None map in
          push_node (DeleteFromMap field) [map] pre name
      | KDeleteFromSet set selector =>
          let! set := generate_expr None set in
          let! selector := generate_expr None selector in
          push_node DeleteFromSet [selector; set] pre name
      | KEq l r =>
          let! l := generate_expr None l in
          let! r := generate_expr None r in
          push_node NEq [l; r] pre name
      | KGetField field table_or_set =>
          let! field := on_builder (fun b => alloc_ident b field) in
          let! table_or_set := generate_expr None table_or_set in
          push_node (GetField field) [table_or_set] pre name
      | KGetSetElement set selector =>
          let! set := generate_expr None set in
          let! selector := generate_expr None selector in
          push_node GetSetElement [selector; set] pre name
      | KInsertIntoMap field v map =>
          let! field := on_builder (fun b => alloc_ident b field) in
          let! v := generate_expr None v in
          let! map := generate_expr None map in
          push_node (InsertIntoMap field) [v; map] pre name
      | KInsertIntoSet set v =>
          let! set := generate_expr None set in
          let! v := generate_expr None v in
          push_node InsertIntoSet [v; set] pre name
      | KInsertIntoTable field table v =>
          let! field := on_builder (fun b => alloc_ident b field) in
          let! table := generate_expr None table in
          let! v := generate_expr None v in
          push_node (InsertIntoTable field) [v; table] pre name
      | KLoadConst x =>
          let! vmconst := with_aliases (fun a => literal_to_vmconst a x) in
          let! x := on_builder (fun b => alloc_const b vmconst) in
          push_node (LoadConst x) [] pre name
      | KSelect l r =>
          let! l := generate_expr None l in
          let! r := generate_expr None r in
          push_node Select [l; r] pre name
      | KNe l r =>
          let! l := generate_expr None l in
          let! r := generate_expr None r in
          push_node NNe [l; r] pre name
      | KOr l r =>
          let! l := generate_expr None l in
          let! r := generate_expr None r in
          push_node NOr [l; r] pre name
      | KNot x =>
          let! x := generate_expr None x in
          push_node NNot [x] pre name
      | KIsPresent x =>
          let! x := generate_expr None x in
          push_node IsPresent [x] pre name
      | KIsNull x =>
          let! x := generate_expr None x in
          push_node IsNull [x] pre name
      | KOrElse l r =>
          let! l := generate_expr None l in
          let! comparator := push_node IsNull [l] None None in
          let! not_comparator := push_node NNot [comparator] None None in
          let! condition := generate_condition comparator in
          let! _ := push_condition condition in
          let! on_null := generate_expr None r in
          let! _ := pop_condition in
          let! condition := generate_condition not_comparator in
          let! on_notnull := push_node Nop [l] (Some condition) None in
          push_node Select [on_null; on_notnull] pre name
      | KCall target_graph params =>
          let! i := graph_index target_graph in
          let! params := mapM_g (generate_expr None) params in
          push_node (Call i) params pre name
      | KAdd l r =>
          let! l := generate_expr None l in
          let! r := generate_expr None r in
          push_node NAdd [l; r] pre name
      | KSub l r =>
          let! l := generate_expr None l in
          let! r := generate_expr None r in
          push_node NSub [l; r] pre name
      | KCreateList ty =>
          let! ty := with_aliases (fun a => generate_vmtype a ty) in
          let! ty := on_builder (fun b => alloc_vmtype b ty) in
          push_node (CreateList ty) [] pre name
      | KReduce target_graph subgraph_param reduce_init list_or_set =>
          let! i := graph_index target_graph in
          let! a := generate_expr None subgraph_param in
          let! b := generate_expr None reduce_init in
          let! c := generate_expr None list_or_set in
          push_node (Reduce i false) [a; b; c] pre name
      | KRangeReduce target_graph range_start range_end subgraph_param reduce_init list_or_set =>
          let! i := graph_index target_graph in
          let! a := generate_expr None subgraph_param in
          let! b := generate_expr None reduce_init in
          let! c := generate_expr None list_or_set in
          let! d := generate_expr None range_start in
          let! e := generate_expr None range_end in
          push_node (Reduce i true) [a; b; c; d; e] pre name
      | KPrepend l r =>
          let! l := generate_expr None l in
          let! r := generate_expr None r in
          push_node PrependToList [l; r] pre name
      | KPop x =>
          let! x := generate_expr None x in
          push_node PopFromList [x] pre name
      | KHead x =>
          let! x := generate_expr None x in
          push_node ListHead [x] pre name
      | KBuildSet x =>
          let! x := generate_expr None x in
          push_node BuildSet [x] pre name
      end
  end.

(** ** Statements *)
Definition set_output (node : nat) : Gen unit := fun c =>
  let g := target c in
  match output g with
  | Some _ => Err DuplicateReturn
  | None =>
      Ok (tt, MkGraphContext (names c) (builder c)
                (MkGraph (g_name g) (exported g) (g_nodes g) (Some node) (param_types g) (output_type g))
                (condition_stack c))
  end.

Fixpoint each_g {A} (f : A -> Gen unit) (l : list A) : Gen unit :=
  match l with
  | [] => gret tt
  | x :: l => let! _ := f x in each_g f l
  end.

Fixpoint generate_stmt (stmt : Stmt) : Gen unit :=
  match stmt with
  | MkStmt _ kind =>
      match kind with
      | SReturn value =>
          let! node := generate_expr None value in
          set_output node
      | SIf precondition if_body else_body =>
          let! precondition := generate_expr None precondition in
          let! condition_true := generate_condition precondition in
          let! _ := push_condition condition_true in
          let! _ := each_g generate_stmt if_body in
          let! _ := pop_condition in
          match else_body with
          | Some else_body =>
              let! precondition := push_node NNot [precondition] None None in
              let! condition_false := generate_condition precondition in
              let! _ := push_condition condition_false in
              let! _ := each_g generate_stmt else_body in
              pop_condition
          | None => gret tt
          end
      | SNode name value =>
          let! _ := generate_expr name value in gret tt
      | SThrow value =>
          let! x := generate_expr None value in
          let! pre := last_condition in
          let! _ := push_node Throw [x] pre None in gret tt
      end
  end.

(** ** Graphs and scripts *)
Fixpoint generate_params (i : nat) (params : list (string * option AstType)) : Gen unit :=
  match params with
  | [] => gret tt
  | (p, _) :: params =>
      let! _ := push_node (LoadParam i) [] None (Some p) in generate_params (S i) params
  end.

Definition param_type (b : Builder) (ty : option AstType) : ares (nat * Builder) :=
  let? t := match ty with Some x => generate_vmtype (type_aliases b) x | None => Ok TyUnknown end in
  Ok (alloc_vmtype b t).

Fixpoint generate_param_types (b : Builder) (params : list (string * option AstType)) : ares (list nat * Builder) :=
  match params with
  | [] => Ok ([], b)
  | (_, ty) :: params =>
      let? (t, b) := param_type b ty in
      let? (ts, b) := generate_param_types b params in Ok (t :: ts, b)
  end.

Definition generate_return_type (b : Builder) (ty : option AstType) : ares (option nat * Builder) :=
  match ty with
  | Some x => let? t := generate_vmtype (type_aliases b) x in let '(t, b) := alloc_vmtype b t in Ok (Some t, b)
  | None => Ok (None, b)
  end.

Definition generate_graph (b : Builder) (g : AstGraph) : ares (TwGraph * Builder) :=
  match first_duplicate (ag_params g).*1 with
  | Some x => Err (DuplicateParam x)
  | None =>
      let? (param_types, b) := generate_param_types b (ag_params g) in
      let? (output_type, b) := generate_return_type b (ag_return_type g) in
      let empty := MkGraph (ag_name g) (ag_exported g) [] None param_types output_type in
      let ctx := MkGraphContext ∅ b empty [] in
      let? (_, ctx) := generate_params 0 (ag_params g) ctx in
      let? (_, ctx) := each_g generate_stmt (ag_stmts g) ctx in
      Ok (target ctx, builder ctx)
  end.

Fixpoint generate_graphs (b : Builder) (gs : list AstGraph) : ares (list TwGraph * Builder) :=
  match gs with
  | [] => Ok ([], b)
  | g :: gs =>
      let? (x, b) := generate_graph b g in
      let? (xs, b) := generate_graphs b gs in Ok (x :: xs, b)
  end.

Definition add_alias (aliases : gmap string VmType) (a : TypeAlias) : ares (gmap string VmType) :=
  let? t := generate_vmtype aliases (ta_ty a) in Ok (<[ta_name a := t]> aliases).

Definition compile_root : ares TwScript :=
  match first_duplicate (ag_name <$> root_graphs root) with
  | Some x => Err (DuplicateGraph x)
  | None =>
      match first_duplicate (ta_name <$> root_type_aliases root) with
      | Some x => Err (DuplicateTypeAlias x)
      | None =>
          let? aliases := foldM_o add_alias ∅ (root_type_aliases root) in
          let? (gs, b) := generate_graphs (MkBuilder [] [] [] aliases) (root_graphs root) in
          Ok (emit_pools b gs)
      end
  end.
End Expressions.

(** [Display for TwAsmError]. *)
Definition fmt_asm_error (e : TwAsmError) : string :=
  match e with
  | InvalidLiteral => "invalid literal"
  | TypeUnsupportedInTable => "type unsupported in table"
  | NodeNotFound x => "node not found: " +:+ x
  | IdentifierNotFound x => "identifier not found: " +:+ x
  | DuplicateReturn => "duplicate return"
  | ParamNotFound x => "param not found: " +:+ x
  | DuplicateParam x => "duplicate param: " +:+ x
  | DuplicateGraph x => "duplicate graph: " +:+ x
  | DuplicateNodeName x => "duplicate node name: " +:+ x
  | DuplicateTypeAlias x => "duplicate type alias: " +:+ x
  | GraphNotFound x => "graph not found: " +:+ x
  end.

Definition compile_twscript (parse : string -> anyhow AstRoot) (input : string) : anyhow TwScript :=
  let? root := parse input in map_err fmt_asm_error (compile_root root).
