(* ===== verification/CodegenFacts.v ===== *)
(** * What the code generator promises

    A state of the generator only grows ([ctx_le]), and the graph built so far is
    well formed with respect to the pools of its state ([ctx_ok]): edges go to
    earlier nodes, indices point into the pools and the script.  The triples
    [ok_from] carry both through the generator monad.  The emitted script is then
    well formed ([script_wf]). *)
From stdpp Require Import prelude gmap strings list sorting.
From S2P Require Import Prelude OrdMap Schema StoragePlan Planner Value PathWalker Kv VmValue Bytecode AsmAst Codegen.

(** ** [first_duplicate] *)
Section FirstDuplicate.
Context {T : Type} `{EqDecision T}.

Lemma first_duplicate_from_None (uniq l : list T) :
  first_duplicate_from uniq l = None <-> NoDup l /\ forall x, x ∈ l -> x ∉ uniq.
Proof.
  revert uniq. induction l as [|x l IH]; intros uniq; simpl.
  { split; [|done]. intros _. split; [constructor|by intros x ?%elem_of_nil]. }
  case_decide as Hx.
  - split; [done|]. intros [_ Hn]. by destruct (Hn x); [left|].
  - rewrite IH, NoDup_cons. set_solver.
Qed.

Lemma first_duplicate_None (l : list T) : first_duplicate l = None <-> NoDup l.
Proof.
  unfold first_duplicate. rewrite first_duplicate_from_None. split; [by intros [? _]|].
  intros Hn. split; [done|]. intros x _. apply not_elem_of_nil.
Qed.
End FirstDuplicate.

(** ** Equality of constants *)
Section ConstInd.
Context (P : VmConst -> Prop).
Context (HPrim : forall p, P (CPrimitive p)) (HTable : forall t f, Forall (fun e => P e.2) f -> P (CTable t f)).
Context (HSet : forall t l, Forall P l -> P (CSet t l)) (HBool : forall b, P (CBool b)) (HNull : forall t, P (CNull t)).

Fixpoint vmconst_ind' (c : VmConst) : P c :=
  match c with
  | CPrimitive p => HPrim p
  | CTable t f =>
      HTable t f ((fix go (f : list (string * VmConst)) : Forall (fun e => P e.2) f :=
                     match f with
                     | [] => @List.Forall_nil _ _
                     | e :: f => @List.Forall_cons _ _ e f (vmconst_ind' e.2) (go f)
                     end) f)
  | CSet t l =>
      HSet t l ((fix go (l : list VmConst) : Forall P l :=
                   match l with
                   | [] => @List.Forall_nil _ _
                   | e :: l => @List.Forall_cons _ _ e l (vmconst_ind' e) (go l)
                   end) l)
  | CBool b => HBool b
  | CNull t => HNull t
  end.
End ConstInd.

Lemma elems_eqb_eq {B} (f : B -> B -> bool) (l m : list B) :
  Forall (fun x => forall y, f x y = true <-> x = y) l -> elems_eqb f l m = true <-> l = m.
Proof.
  intros Hl. revert m. induction Hl as [|x l Hx Hl IH]; intros [|y m]; simpl; try done.
  rewrite andb_true_iff, IH, (Hx y). naive_solver.
Qed.

Lemma const_eqb_eq a b : const_eqb a b = true <-> a = b.
Proof.
  revert b. induction a as [p|t f IH|t l IH|x|t] using vmconst_ind'; intros []; simpl; try done;
    rewrite ?andb_true_iff, ?bool_decide_eq_true.
  - naive_solver.
  - rewrite (entries_eqb_eq const_eqb) by exact IH. naive_solver.
  - rewrite (elems_eqb_eq const_eqb) by exact IH. naive_solver.
  - naive_solver.
  - rewrite ty_eqb_eq. naive_solver.
Qed.

(** ** Pools *)
#[local] Instance by_index_trans {K} : Transitive (@by_index K).
Proof. intros a b c. unfold by_index. lia. Qed.
#[local] Instance by_index_total {K} : Total (@by_index K).
Proof. intros a b. unfold by_index. lia. Qed.

Section Pools.
Context {K : Type} (eqb : K -> K -> bool) (Heqb : forall a b, eqb a b = true <-> a = b).

(** The keys are distinct and numbered in the order of their insertion. *)
Record pool_ok (pool : list (K * nat)) : Prop := {
  po_index : pool.*2 = reverse (seq 0 (length pool));
  po_keys : NoDup pool.*1
}.

Lemma pool_ok_nil : pool_ok [].
Proof. split; [done|constructor]. Qed.

Lemma pool_get_Some k pool i : pool_get eqb k pool = Some i -> (k, i) ∈ pool.
Proof.
  induction pool as [|[k' x] pool IH]; simpl; [done|]. destruct (eqb k k') eqn:E.
  - intros [= ->]. apply Heqb in E as ->. by left.
  - intros Hi%IH. by right.
Qed.

Lemma pool_get_None k pool : pool_get eqb k pool = None -> k ∉ pool.*1.
Proof.
  induction pool as [|[k' x] pool IH]; simpl; [intros _; apply not_elem_of_nil|].
  destruct (eqb k k') eqn:E; [done|]. intros Hn%IH [->|?]%elem_of_cons; [|done].
  assert (eqb k' k' = true) by (by apply Heqb). congruence.
Qed.

Lemma pool_alloc_spec pool k i pool' :
  pool_ok pool -> pool_alloc eqb pool k = (i, pool') -> pool_ok pool' /\ (k, i) ∈ pool' /\ pool `suffix_of` pool'.
Proof.
  intros [Hi Hk]. unfold pool_alloc. destruct (pool_get eqb k pool) as [x|] eqn:E; intros [= <- <-].
  - split; [done|]. split; [by apply pool_get_Some|done].
  - split; [|split; [by left|by apply suffix_cons_r]]. split.
    + cbn [fmap list_fmap length snd]. fold (fmap (M := list) (@snd K nat) pool). rewrite Hi. change (S (length pool)) with (1 + length pool).
      rewrite Nat.add_comm, seq_app, reverse_app. done.
    + cbn [fmap list_fmap fst]. apply NoDup_cons. split; [by apply pool_get_None|done].
Qed.

(** Sorting by index gives the keys in the order of their insertion. *)
Lemma pool_sorted pool : pool_ok pool -> Sorted by_index (reverse pool).
Proof.
  intros [Hi _]. revert Hi. induction pool as [|[k x] pool IH]; intros Hi; [constructor|].
  cbn [fmap list_fmap length snd] in Hi. change (S (length pool)) with (1 + length pool) in Hi.
  rewrite Nat.add_comm, seq_app, reverse_app in Hi. simpl in Hi. injection Hi as -> Hi. specialize (IH Hi).
  rewrite reverse_cons. apply StronglySorted_Sorted. apply Sorted_StronglySorted in IH; [|apply _].
  assert (Hlt : Forall (fun p => p.2 <= length pool) (reverse pool)).
  { apply Forall_forall. intros p Hp. rewrite elem_of_reverse in Hp. assert (Hp2 : p.2 ∈ pool.*2) by (apply list_elem_of_fmap; by exists p).
    rewrite Hi in Hp2. rewrite elem_of_reverse in Hp2. apply elem_of_seq in Hp2. lia. }
  clear Hi. revert IH Hlt. generalize (reverse pool), (length pool). intros l n.
  induction 1 as [|y l _ IHl Hy]; intros Hlt; simpl; [by repeat constructor|]. apply Forall_cons in Hlt as [Hyn Hlt].
  constructor; [by apply IHl|]. apply Forall_app. split; [done|]. by repeat constructor.
Qed.

(** [sort_by] returns the pool in insertion order whatever order the hash map
    lists it in. *)
Lemma emit_pool_perm pool l : pool_ok pool -> l ≡ₚ pool -> emit_pool l = reverse pool.*1.
Proof.
  intros Hp Hl. unfold emit_pool. rewrite <- fmap_reverse. f_equal.
  apply (StronglySorted_unique_strong by_index).
  - intros [k i] [k' i'] H1 H2 H12 H21. unfold by_index in *. simpl in *. assert (i' = i) as -> by lia.
    rewrite merge_sort_Permutation, Hl in H1. rewrite elem_of_reverse in H2.
    apply list_elem_of_lookup in H1 as [a Ha], H2 as [b Hb].
    assert (Hnd : NoDup pool.*2) by (rewrite (po_index _ Hp); rewrite reverse_Permutation; apply NoDup_seq).
    assert (a = b) as ->; [|congruence].
    apply (NoDup_lookup pool.*2 a b i); [done|by rewrite list_lookup_fmap, Ha|by rewrite list_lookup_fmap, Hb].
  - apply StronglySorted_merge_sort; apply _.
  - apply Sorted_StronglySorted; [apply _|by apply pool_sorted].
  - by rewrite merge_sort_Permutation, reverse_Permutation, Hl.
Qed.

Lemma length_emit_pool (pool : list (K * nat)) : length (emit_pool pool) = length pool.
Proof. unfold emit_pool. rewrite length_fmap. by rewrite merge_sort_Permutation. Qed.

(** The script finds a key at its index. *)
Lemma emit_pool_lookup (pool : list (K * nat)) k i : pool_ok pool -> (k, i) ∈ pool -> emit_pool pool !! i = Some k.
Proof.
  intros Hp Hin. rewrite (emit_pool_perm pool pool Hp) by done.
  apply list_elem_of_lookup in Hin as [j Hj]. pose proof (lookup_lt_Some _ _ _ Hj) as Hlt.
  assert (Hi : pool.*2 !! j = Some i) by (by rewrite list_lookup_fmap, Hj).
  rewrite (po_index _ Hp) in Hi. rewrite reverse_lookup in Hi by (by rewrite length_seq). rewrite length_seq in Hi.
  apply lookup_seq in Hi as [-> _]. rewrite reverse_lookup by (rewrite length_fmap; lia).
  rewrite length_fmap. replace (length pool - S (0 + (length pool - S j))) with j by lia.
  by rewrite list_lookup_fmap, Hj.
Qed.

Lemma pool_index_lt (pool : list (K * nat)) k i : pool_ok pool -> (k, i) ∈ pool -> i < length pool.
Proof. intros Hp Hin%(emit_pool_lookup pool k i Hp)%lookup_lt_Some. by rewrite length_emit_pool in Hin. Qed.
End Pools.

(** ** Well-formed graphs and scripts *)
(** How many parameters the graph has, identifiers, constants and types the
    pools, graphs the script. *)
Record Sizes := MkSizes { sz_params : nat; sz_idents : nat; sz_consts : nat; sz_types : nat; sz_graphs : nat }.

Definition sizes_le (a b : Sizes) : Prop :=
  sz_params a = sz_params b /\ sz_idents a <= sz_idents b /\ sz_consts a <= sz_consts b /\ sz_types a <= sz_types b /\
  sz_graphs a = sz_graphs b.

(** The index of an operation is in range, and it has the number of edges that
    the executor and the type checker take from it. *)
Definition op_ok (sz : Sizes) (n : TwGraphNode) (edges : nat) : Prop :=
  match n with
  | LoadParam i => i < sz_params sz /\ edges = 0
  | LoadConst i => i < sz_consts sz /\ edges = 0
  | BuildTable i | GetField i | DeleteFromMap i => i < sz_idents sz /\ edges = 1
  | InsertIntoMap i | InsertIntoTable i => i < sz_idents sz /\ edges = 2
  | CreateList i => i < sz_types sz /\ edges = 0
  | Call i => i < sz_graphs sz
  | Reduce i has_range => i < sz_graphs sz /\ edges = if has_range then 5 else 3
  | FilterSet _ => False
  | CreateMap => edges = 0
  | BuildSet | PopFromList | ListHead | NNot | IsPresent | IsNull | Nop | Throw => edges = 1
  | PrependToList | GetSetElement | InsertIntoSet | DeleteFromSet | NEq | NNe | NAnd | NOr | Select | NAdd | NSub => edges = 2
  end.

Record node_ok (sz : Sizes) (i : nat) (n : GNode) : Prop := {
  no_edges : forall s, s ∈ in_edges n -> s < i;
  no_pre : forall s, precondition n = Some s -> s < i;
  no_op : op_ok sz (gn_node n) (length (in_edges n))
}.

Record graph_wf (sz : Sizes) (g : TwGraph) : Prop := {
  gw_nodes : forall i n, g_nodes g !! i = Some n -> node_ok sz i n;
  gw_output : forall o, output g = Some o -> o < length (g_nodes g);
  gw_params : length (param_types g) = sz_params sz;
  gw_param_types : Forall (fun t => t < sz_types sz) (param_types g);
  gw_output_type : forall t, output_type g = Some t -> t < sz_types sz
}.

Definition script_sizes (s : TwScript) (g : TwGraph) : Sizes :=
  MkSizes (length (param_types g)) (length (idents s)) (length (consts s)) (length (script_types s)) (length (graphs s)).

Definition script_wf (s : TwScript) : Prop := Forall (fun g => graph_wf (script_sizes s g) g) (graphs s).

Lemma op_ok_le a b n e : sizes_le a b -> op_ok a n e -> op_ok b n e.
Proof. unfold sizes_le. destruct n; simpl; intros; lia. Qed.

Lemma node_ok_le a b i n : sizes_le a b -> node_ok a i n -> node_ok b i n.
Proof. intros Hle [H1 H2 H3]. split; [done..|]. by eapply op_ok_le. Qed.

Lemma graph_wf_le a b g : sizes_le a b -> graph_wf a g -> graph_wf b g.
Proof.
  intros Hle [H1 H2 H3 H4 H5]. pose proof Hle as (Hp & _ & _ & Ht & _). split; [|done|lia|..].
  - intros i n Hn. eapply node_ok_le; eauto.
  - eapply Forall_impl; [exact H4|]. simpl. lia.
  - intros t Ht'. specialize (H5 t Ht'). lia.
Qed.

(** ** States of the generator *)
Definition builder_le (b b' : Builder) : Prop :=
  ident_pool b `suffix_of` ident_pool b' /\ vmtype_pool b `suffix_of` vmtype_pool b' /\
  const_pool b `suffix_of` const_pool b' /\ type_aliases b = type_aliases b'.

Record builder_ok (b : Builder) : Prop := {
  bo_idents : pool_ok (ident_pool b);
  bo_types : pool_ok (vmtype_pool b);
  bo_consts : pool_ok (const_pool b)
}.

#[export] Instance builder_le_preorder : PreOrder builder_le.
Proof.
  split; [by intros b|]. intros a b c (H1 & H2 & H3 & H4) (H1' & H2' & H3' & H4').
  split_and!; [by etrans..|congruence].
Qed.

Definition builder_sizes (np ng : nat) (b : Builder) : Sizes :=
  MkSizes np (length (ident_pool b)) (length (const_pool b)) (length (vmtype_pool b)) ng.

Lemma builder_sizes_le np ng b b' : builder_le b b' -> sizes_le (builder_sizes np ng b) (builder_sizes np ng b').
Proof. intros (H1%suffix_length & H2%suffix_length & H3%suffix_length & _). unfold sizes_le. simpl. lia. Qed.

Abbreviation ctx_nodes c := (g_nodes (target c)).

Record ctx_le (c c' : GraphContext) : Prop := {
  cl_builder : builder_le (builder c) (builder c');
  cl_nodes : ctx_nodes c `prefix_of` ctx_nodes c';
  cl_names : names c ⊆ names c';
  cl_params : param_types (target c') = param_types (target c);
  cl_name : g_name (target c') = g_name (target c) /\ exported (target c') = exported (target c) /\
            output_type (target c') = output_type (target c)
}.

#[export] Instance ctx_le_preorder : PreOrder ctx_le.
Proof.
  split; [by intros c|]. intros a b c [A1 A2 A3 A4 (A5 & A6 & A7)] [B1 B2 B3 B4 (B5 & B6 & B7)].
  split; [by etrans..|congruence|split_and!; congruence].
Qed.

Lemma ctx_le_length c c' : ctx_le c c' -> length (ctx_nodes c) <= length (ctx_nodes c').
Proof. intros Hle. by apply prefix_length, Hle. Qed.

Section Triples.
Context (np ng : nat).

Record ctx_ok (c : GraphContext) : Prop := {
  co_builder : builder_ok (builder c);
  co_nodes : forall i n, ctx_nodes c !! i = Some n -> node_ok (builder_sizes np ng (builder c)) i n;
  co_names : forall x i, names c !! x = Some i -> i < length (ctx_nodes c);
  co_stack : Forall (fun i => i < length (ctx_nodes c)) (condition_stack c);
  co_output : forall o, output (target c) = Some o -> o < length (ctx_nodes c)
}.

(** From [c] the operation does not panic, and if it succeeds, leads to a larger
    state and a result with [Q]. *)
Definition ok_from {A} (c : GraphContext) (m : Gen A) (Q : A -> GraphContext -> Prop) : Prop :=
  match m c with
  | Ok (a, c') => ctx_ok c' /\ ctx_le c c' /\ Q a c'
  | Err _ => True
  | Panic | NoFuel => False
  end.

Lemma ok_bind {A B} c (m : Gen A) (k : A -> Gen B) P Q :
  ok_from c m P ->
  (forall a c', ctx_ok c' -> ctx_le c c' -> P a c' -> ok_from c' (k a) Q) -> ok_from c (gbind m k) Q.
Proof.
  unfold ok_from, gbind. destruct (m c) as [[a c1]| | |]; cbn [obind]; [|done..]. intros (Hok & Hle & HP) Hk.
  specialize (Hk a c1 Hok Hle HP). destruct (k a c1) as [[b c2]| | |]; [|done..]. destruct Hk as (? & ? & ?).
  split_and!; [done|by etrans|done].
Qed.

Lemma ok_ret {A} c (a : A) (Q : A -> GraphContext -> Prop) : ctx_ok c -> Q a c -> ok_from c (gret a) Q.
Proof. by intros Hc HQ. Qed.

Lemma ok_weaken {A} c (m : Gen A) (P Q : A -> GraphContext -> Prop) :
  ok_from c m P -> (forall a c', ctx_le c c' -> P a c' -> Q a c') -> ok_from c m Q.
Proof. unfold ok_from. destruct (m c) as [[a c1]| | |]; naive_solver. Qed.

Lemma ok_lift {A} c (m : ares A) (Q : A -> GraphContext -> Prop) :
  ctx_ok c -> returns m -> (forall a, m = Ok a -> Q a c) -> ok_from c (glift m) Q.
Proof. unfold ok_from, glift. destruct m; simpl; naive_solver. Qed.

Lemma ok_aliases {A} c (f : gmap string VmType -> ares A) (Q : A -> GraphContext -> Prop) :
  ctx_ok c -> returns (f (type_aliases (builder c))) -> (forall a, f (type_aliases (builder c)) = Ok a -> Q a c) ->
  ok_from c (with_aliases f) Q.
Proof. unfold ok_from, with_aliases. destruct (f _); simpl; naive_solver. Qed.

(** An operation of the builder that keeps it in order. *)
Lemma ok_builder {A} c (f : Builder -> A * Builder) (Q : A -> GraphContext -> Prop) :
  ctx_ok c ->
  (forall a b, f (builder c) = (a, b) -> builder_ok b /\ builder_le (builder c) b /\
     Q a (MkGraphContext (names c) b (target c) (condition_stack c))) ->
  ok_from c (on_builder f) Q.
Proof.
  intros [C1 C2 C3 C4 C5] Hf. unfold ok_from, on_builder. destruct (f (builder c)) as [a b] eqn:E.
  destruct (Hf a b eq_refl) as (Hb & Hle & HQ). split; [|split; [|done]].
  - split; simpl; try done. intros i n Hn. eapply node_ok_le; [by apply builder_sizes_le|by apply C2].
  - split; simpl; done.
Qed.

(** The index of a node that is there, under the conditions of [c0]. *)
Definition indexed (c0 : GraphContext) (i : nat) (c : GraphContext) : Prop :=
  i < length (ctx_nodes c) /\ condition_stack c = condition_stack c0.

Lemma ok_push c node edges pre name :
  ctx_ok c -> (forall s, s ∈ edges -> s < length (ctx_nodes c)) ->
  (forall s, pre = Some s -> s < length (ctx_nodes c)) ->
  op_ok (builder_sizes np ng (builder c)) node (length edges) ->
  ok_from c (push_node node edges pre name) (indexed c).
Proof.
  intros [C1 C2 C3 C4 C5] He Hp Hop. unfold ok_from, push_node.
  set (g := set_nodes _ _). assert (Hlen : length (g_nodes g) = S (length (ctx_nodes c))) by (unfold g; simpl; rewrite length_app; simpl; lia).
  assert (Hnew : forall i n, g_nodes g !! i = Some n -> node_ok (builder_sizes np ng (builder c)) i n).
  { intros i n. unfold g. simpl. intros [Hi|[Hi Hn]]%lookup_app_Some; [by apply C2|].
    destruct (i - length (ctx_nodes c)) as [|k] eqn:Ek; [|done]. injection Hn as <-.
    assert (i = length (ctx_nodes c)) as -> by lia. by split. }
  assert (Hok : forall names', (forall x i, names' !! x = Some i -> i < S (length (ctx_nodes c))) ->
    ctx_ok (MkGraphContext names' (builder c) g (condition_stack c))).
  { intros names' Hn. split; cbn [target names builder condition_stack]; [done|exact Hnew|..].
    - intros x i Hi. rewrite Hlen. by eapply Hn.
    - eapply Forall_impl; [exact C4|]. cbn beta. rewrite Hlen. lia.
    - intros o Ho. assert (o < length (ctx_nodes c)) by (by apply C5). rewrite Hlen. lia. }
  assert (Hle : forall names', names c ⊆ names' -> ctx_le c (MkGraphContext names' (builder c) g (condition_stack c))).
  { intros names' Hn. split; simpl; try done. by apply prefix_app_r. }
  destruct name as [x|]; [destruct (names c !! x) eqn:Ex; [done|]|].
  - split; [|split; [|split; cbn [target condition_stack]; [rewrite Hlen; lia|done]]].
    + apply Hok. intros y i Hi. destruct (decide (x = y)) as [->|Hne].
      * rewrite lookup_insert_eq in Hi. injection Hi as <-. lia.
      * rewrite lookup_insert_ne in Hi by done. specialize (C3 y i Hi). lia.
    + apply Hle. by apply insert_subseteq.
  - split; [|split; [|split; cbn [target condition_stack]; [rewrite Hlen; lia|done]]].
    + apply Hok. intros y i Hi. specialize (C3 y i Hi). lia.
    + by apply Hle.
Qed.

Lemma ok_lookup c x : ctx_ok c -> ok_from c (lookup_node x) (indexed c).
Proof.
  intros Hc. unfold ok_from, lookup_node. destruct (names c !! x) as [i|] eqn:E; [|done]. cbn.
  split; [done|]. split; [done|]. split; [|done]. by eapply co_names.
Qed.

Lemma ok_last c : ctx_ok c ->
  ok_from c last_condition (fun pre c' => c' = c /\ pre = head (condition_stack c) /\ forall s, pre = Some s -> s < length (ctx_nodes c)).
Proof.
  intros Hc. unfold ok_from, last_condition. split; [done|]. split; [done|]. split; [done|]. split; [done|].
  intros s Hs. pose proof (co_stack _ Hc) as Hst. destruct (condition_stack c); [done|]. injection Hs as ->.
  by apply Forall_cons in Hst as [? _].
Qed.

Lemma ok_push_condition c i : ctx_ok c -> i < length (ctx_nodes c) ->
  ok_from c (push_condition i) (fun _ c' => condition_stack c' = i :: condition_stack c).
Proof. intros [C1 C2 C3 C4 C5] Hi. split; [|split; [|done]]; [split; simpl; try done; by constructor|by split]. Qed.

Lemma ok_pop_condition c i st : ctx_ok c -> condition_stack c = i :: st ->
  ok_from c pop_condition (fun _ c' => condition_stack c' = st).
Proof.
  intros [C1 C2 C3 C4 C5] Hs. unfold ok_from, pop_condition. rewrite Hs in *. apply Forall_cons in C4 as [_ C4].
  split; [|split; [|done]]; [by split|by split].
Qed.

Lemma ok_generate_condition c i : ctx_ok c -> i < length (ctx_nodes c) -> ok_from c (generate_condition i) (indexed c).
Proof.
  intros Hc Hi. eapply ok_bind; [by apply ok_last|]. intros pre c' Hc' _ (-> & -> & Hp).
  destruct (head (condition_stack c)) as [l|]; [|by apply ok_ret].
  apply ok_push; [done| |done|done]. intros s [->|[->|Hs]%elem_of_cons]%elem_of_cons; [done|by apply Hp|by apply elem_of_nil in Hs].
Qed.

Lemma ok_ident c x : ctx_ok c ->
  ok_from c (on_builder (fun b => alloc_ident b x)) (fun i c' => i < length (ident_pool (builder c')) /\ condition_stack c' = condition_stack c).
Proof.
  intros Hc. apply ok_builder; [done|]. intros i b. unfold alloc_ident. destruct (pool_alloc _ _ _) as [j pool] eqn:E. intros [= <- <-].
  destruct (co_builder _ Hc) as [B1 B2 B3]. destruct (pool_alloc_spec String.eqb String.eqb_eq _ _ _ _ B1 E) as (Hok & Hin & Hs).
  split; [by split|]. split; [by split_and!|]. simpl. split; [|done]. by eapply pool_index_lt.
Qed.

Lemma ok_const c x : ctx_ok c ->
  ok_from c (on_builder (fun b => alloc_const b x)) (fun i c' => i < length (const_pool (builder c')) /\ condition_stack c' = condition_stack c).
Proof.
  intros Hc. apply ok_builder; [done|]. intros i b. unfold alloc_const. destruct (pool_alloc _ _ _) as [j pool] eqn:E. intros [= <- <-].
  destruct (co_builder _ Hc) as [B1 B2 B3]. destruct (pool_alloc_spec const_eqb const_eqb_eq _ _ _ _ B3 E) as (Hok & Hin & Hs).
  split; [by split|]. split; [by split_and!|]. simpl. split; [|done]. by eapply pool_index_lt.
Qed.

Lemma alloc_vmtype_ok b t i b' : builder_ok b -> alloc_vmtype b t = (i, b') ->
  builder_ok b' /\ builder_le b b' /\ i < length (vmtype_pool b') /\ (t, i) ∈ vmtype_pool b'.
Proof.
  unfold alloc_vmtype. destruct (pool_alloc _ _ _) as [j pool] eqn:E. intros [B1 B2 B3] [= <- <-].
  destruct (pool_alloc_spec ty_eqb ty_eqb_eq _ _ _ _ B2 E) as (Hok & Hin & Hs).
  split; [by split|]. split; [by split_and!|]. split; [by eapply pool_index_lt|done].
Qed.

Lemma ok_vmtype c t : ctx_ok c ->
  ok_from c (on_builder (fun b => alloc_vmtype b t)) (fun i c' => i < length (vmtype_pool (builder c')) /\ condition_stack c' = condition_stack c).
Proof.
  intros Hc. apply ok_builder; [done|]. intros i b Hb. destruct (alloc_vmtype_ok _ _ _ _ (co_builder _ Hc) Hb) as (? & ? & ? & ?).
  done.
Qed.
End Triples.

(** ** Types *)
Section AstTypeInd.
Context (P : AstType -> Prop).
Context (HTable : forall n ps, Forall P ps -> P (ATable n ps)) (HPrim : forall p, P (APrimitive p)).
Context (HSet : forall t, P t -> P (ASet t)) (HList : forall t, P t -> P (AList t)).
Context (HMap : forall m, Forall (fun e => P e.2) m -> P (AMap m)) (HBool : P ABool) (HSchema : P ASchema).

Fixpoint asttype_ind' (t : AstType) : P t :=
  match t with
  | ATable n ps =>
      HTable n ps ((fix go (l : list AstType) : Forall P l :=
                      match l with
                      | [] => @List.Forall_nil _ _
                      | e :: l => @List.Forall_cons _ _ e l (asttype_ind' e) (go l)
                      end) ps)
  | APrimitive p => HPrim p
  | ASet t => HSet t (asttype_ind' t)
  | AList t => HList t (asttype_ind' t)
  | AMap m =>
      HMap m ((fix go (l : list (string * AstType)) : Forall (fun e => P e.2) l :=
                 match l with
                 | [] => @List.Forall_nil _ _
                 | e :: l => @List.Forall_cons _ _ e l (asttype_ind' e.2) (go l)
                 end) m)
  | ABool => HBool
  | ASchema => HSchema
  end.
End AstTypeInd.

Lemma format_type_returns t : returns (format_type_for_table t).
Proof.
  induction t as [n ps IH|p|t IH|t IH|m IH| |] using asttype_ind'; try done; cbn [format_type_for_table];
    (apply obind_returns; [|done]); [by apply mapM_o_returns|done].
Qed.

Lemma generate_vmtype_returns aliases t : returns (generate_vmtype aliases t).
Proof.
  induction t as [n ps IH|p|t IH|t IH|m IH| |] using asttype_ind'; try done; cbn [generate_vmtype].
  - destruct (aliases !! n); [done|]. apply obind_returns; [apply format_type_returns|done].
  - by apply obind_returns.
  - by apply obind_returns.
  - apply obind_returns; [|done]. apply mapM_o_returns. eapply Forall_impl; [exact IH|]. intros e He. by apply obind_returns.
Qed.

Lemma literal_returns aliases x : returns (literal_to_vmconst aliases x).
Proof.
  destruct x; try done; cbn [literal_to_vmconst]; apply obind_returns; try done;
    [apply generate_vmtype_returns|apply format_type_returns].
Qed.

(** ** Expressions and statements *)
Section ExprInd.
Context (P : Expr -> Prop).

(** [P] holds of the operands. *)
Definition operands (k : ExprKind) : Prop :=
  match k with
  | KLoadConst _ | KCreateMap | KNode _ | KCreateList _ => True
  | KBuildTable _ x | KBuildSet x | KGetField _ x | KDeleteFromMap _ x | KNot x | KIsPresent x | KIsNull x | KPop x
  | KHead x => P x
  | KGetSetElement x y | KInsertIntoMap _ x y | KInsertIntoTable _ x y | KInsertIntoSet x y | KDeleteFromSet x y
  | KEq x y | KNe x y | KAnd x y | KOr x y | KSelect x y | KOrElse x y | KAdd x y | KSub x y | KPrepend x y => P x /\ P y
  | KCall _ l => Forall P l
  | KReduce _ x y z => P x /\ P y /\ P z
  | KRangeReduce _ v w x y z => P v /\ P w /\ P x /\ P y /\ P z
  end.

Context (HE : forall a b k, operands k -> P (MkExpr a b k)).

Fixpoint expr_ind' (e : Expr) : P e :=
  match e with
  | MkExpr a b k =>
      HE a b k
        match k return operands k with
        | KLoadConst _ | KCreateMap | KNode _ | KCreateList _ => I
        | KBuildTable _ x | KBuildSet x | KGetField _ x | KDeleteFromMap _ x | KNot x | KIsPresent x | KIsNull x | KPop x
        | KHead x => expr_ind' x
        | KGetSetElement x y | KInsertIntoMap _ x y | KInsertIntoTable _ x y | KInsertIntoSet x y | KDeleteFromSet x y
        | KEq x y | KNe x y | KAnd x y | KOr x y | KSelect x y | KOrElse x y | KAdd x y | KSub x y | KPrepend x y =>
            conj (expr_ind' x) (expr_ind' y)
        | KCall _ l =>
            (fix go (l : list Expr) : Forall P l :=
               match l with
               | [] => @List.Forall_nil _ _
               | e :: l => @List.Forall_cons _ _ e l (expr_ind' e) (go l)
               end) l
        | KReduce _ x y z => conj (expr_ind' x) (conj (expr_ind' y) (expr_ind' z))
        | KRangeReduce _ v w x y z =>
            conj (expr_ind' v) (conj (expr_ind' w) (conj (expr_ind' x) (conj (expr_ind' y) (expr_ind' z))))
        end
  end.
End ExprInd.

Section StmtInd.
Context (P : Stmt -> Prop).

Definition bodies (k : StmtKind) : Prop :=
  match k with
  | SIf _ b e => Forall P b /\ match e with Some e => Forall P e | None => True end
  | _ => True
  end.

Context (HS : forall a k, bodies k -> P (MkStmt a k)).

Fixpoint stmt_ind' (s : Stmt) : P s :=
  let all := fix go (l : list Stmt) : Forall P l :=
    match l with
    | [] => @List.Forall_nil _ _
    | e :: l => @List.Forall_cons _ _ e l (stmt_ind' e) (go l)
    end in
  match s with
  | MkStmt a k =>
      HS a k
        match k return bodies k with
        | SIf _ b e => conj (all b) match e return match e with Some e => Forall P e | None => True end with
                                    | Some e => all e | None => I end
        | _ => I
        end
  end.
End StmtInd.

(** *** The code of an expression *)
Section Generate.
Context (root : AstRoot) (np : nat).
Abbreviation ng := (length (root_graphs root)).
Abbreviation ok_from := (ok_from np ng).
Abbreviation ctx_ok := (ctx_ok np ng).

Lemma find_graph_lt i gs name j : find_graph i gs name = Some j -> i <= j < i + length gs /\ exists g, gs !! (j - i) = Some g /\ ag_name g = name.
Proof.
  revert i. induction gs as [|g gs IH]; intros i; simpl; [done|]. case_decide as Hg.
  - intros [= ->]. split; [lia|]. exists g. by rewrite Nat.sub_diag.
  - intros Hj%IH. destruct Hj as (Hlt & g' & Hg' & Hn). split; [lia|]. exists g'. split; [|done].
    by replace (j - i) with (S (j - S i)) by lia.
Qed.

Lemma ok_graph_index c name : ctx_ok c -> ok_from c (graph_index root name) (fun i c' => i < ng /\ condition_stack c' = condition_stack c).
Proof.
  intros Hc. apply ok_lift; [done|apply ok_or_returns|]. intros i Hi%ok_or_ok.
  apply find_graph_lt in Hi as [Hi _]. split; [lia|done].
Qed.

(** The facts of earlier operations, brought to the last state. *)
Ltac facts := repeat match goal with
  | Hx : ctx_le _ _ |- _ => pose proof (ctx_le_length _ _ Hx);
      pose proof (builder_sizes_le np ng _ _ (cl_builder _ _ Hx)) as [_ [? [? [? _]]]]; simpl in *; clear Hx
  | Hx : indexed _ _ _ |- _ => destruct Hx as [? ?]
  | Hx : _ /\ _ |- _ => destruct Hx
  end.

Ltac in_range := facts; simpl in *;
  repeat match goal with
  | |- forall s, s ∈ _ -> _ => let Hs := fresh in intros ? Hs; set_unfold in Hs; simpl in Hs
  | Hx : _ \/ _ |- _ => destruct Hx as [Hx|Hx]
  end; try done; try congruence; subst; try lia;
  try (match goal with Hx : forall s, ?p = Some s -> _ |- forall s, ?p = Some s -> _ =>
         let s := fresh in let Hs := fresh in intros s Hs; specialize (Hx s Hs); lia end).

Ltac le_chain := first [eassumption | reflexivity | etransitivity; [|eassumption]; le_chain].

(** One operation after the other. *)
Ltac gstep IH :=
  eapply ok_bind;
  [ first [ by apply IH | apply ok_ident; done | apply ok_const; done | apply ok_vmtype; done | apply ok_graph_index; done
          | match goal with Hc : ctx_ok ?c |- ok_from ?c _ _ =>
              first [ eapply (ok_lift _ _ c _ (fun _ c' => condition_stack c' = condition_stack c)); [done|apply format_type_returns|done]
                    | eapply (ok_aliases _ _ c _ (fun _ c' => condition_stack c' = condition_stack c));
                      [done|apply generate_vmtype_returns || apply literal_returns|done] ] end ]
  | intros ? ? ? ? ?; cbn beta in * ].

Definition expr_ok (e : Expr) : Prop := forall name c, ctx_ok c -> ok_from c (generate_expr root name e) (indexed c).

(** The last node of an expression. *)
Lemma ok_last_node c0 c node edges pre name :
  ctx_ok c -> ctx_le c0 c -> condition_stack c = condition_stack c0 ->
  (forall s, pre = Some s -> s < length (ctx_nodes c0)) -> (forall s, s ∈ edges -> s < length (ctx_nodes c)) ->
  op_ok (builder_sizes np ng (builder c)) node (length edges) ->
  ok_from c (push_node node edges pre name) (indexed c0).
Proof.
  intros Hc Hle Hst Hp He Hop. pose proof (ctx_le_length _ _ Hle). eapply ok_weaken.
  - apply ok_push; [done|done|intros s Hs; specialize (Hp s Hs); lia|done].
  - intros i c' _ [Hi Hs]. split; [done|]. by rewrite Hs.
Qed.

Lemma ok_exprs l c : Forall expr_ok l -> ctx_ok c ->
  ok_from c (mapM_g (generate_expr root None) l)
    (fun ids c' => (forall i, i ∈ ids -> i < length (ctx_nodes c')) /\ condition_stack c' = condition_stack c).
Proof.
  intros Hl. revert c. induction Hl as [|e l He Hl IH]; intros c Hc.
  { apply ok_ret; [done|]. split; [by intros i ?%elem_of_nil|done]. }
  cbn [mapM_g]. eapply ok_bind; [by apply He|]. intros i c1 Hc1 Hle1 [Hi Hs1].
  eapply ok_bind; [by apply IH|]. intros ids c2 Hc2 Hle2 [His Hs2]. apply ok_ret; [done|].
  split; [|congruence]. intros j [->|Hj]%elem_of_cons; [|by apply His]. pose proof (ctx_le_length _ _ Hle2). lia.
Qed.

(** Operations under a condition of their own. *)
Lemma ok_under {A B} c i (m : Gen A) (k : A -> Gen B) (P : A -> nat -> Prop) Q :
  ctx_ok c -> i < length (ctx_nodes c) ->
  (forall c1, ctx_ok c1 -> ctx_le c c1 ->
     ok_from c1 m (fun a c' => P a (length (ctx_nodes c')) /\ condition_stack c' = condition_stack c1)) ->
  (forall a c', ctx_ok c' -> ctx_le c c' -> P a (length (ctx_nodes c')) -> condition_stack c' = condition_stack c ->
     ok_from c' (k a) Q) ->
  ok_from c (let! _ := push_condition i in let! a := m in let! _ := pop_condition in k a) Q.
Proof.
  intros Hc Hi Hm Hk. unfold ok_from, gbind, push_condition; cbn [obind].
  pose proof (ok_push_condition np ng c i Hc Hi) as (Hc1 & Hle1 & _).
  specialize (Hm _ Hc1 Hle1). unfold ok_from in Hm. destruct (m _) as [[a c2]| | |]; cbn [obind]; try done.
  destruct Hm as (Hc2 & Hle2 & HP & Hs2). cbn [condition_stack] in Hs2.
  pose proof (ok_pop_condition np ng c2 i _ Hc2 Hs2) as Hpop. unfold ok_from, pop_condition in *. rewrite Hs2 in *.
  destruct Hpop as (Hc3 & Hle3 & _). cbn [obind].
  specialize (Hk a _ Hc3 (transitivity Hle1 (transitivity Hle2 Hle3)) HP eq_refl).
  destruct (k a _) as [[b c4]| | |]; try done. destruct Hk as (? & ? & ?). split; [done|]. split; [|done].
  by do 3 (etransitivity; [eassumption|]).
Qed.

Lemma ok_under_last c i (m : Gen unit) : ctx_ok c -> i < length (ctx_nodes c) ->
  (forall c1, ctx_ok c1 -> ok_from c1 m (fun _ c' => condition_stack c' = condition_stack c1)) ->
  ok_from c (let! _ := push_condition i in let! _ := m in pop_condition) (fun _ c' => condition_stack c' = condition_stack c).
Proof.
  intros Hc Hi Hm.
  assert (Hu : ok_from c (let! _ := push_condition i in let! a := m in let! _ := pop_condition in gret tt)
                 (fun _ c' => condition_stack c' = condition_stack c)).
  { eapply (ok_under _ _ _ _ (fun _ _ => True)); [done|done| |by intros; apply ok_ret].
    intros c1 Hc1 _. eapply ok_weaken; [by apply Hm|done]. }
  revert Hu. unfold ok_from, gbind, push_condition. cbn [obind]. destruct (m _) as [[a c2]| | |]; cbn [obind]; try done.
  unfold pop_condition. by destruct (condition_stack c2).
Qed.

(** The nodes that are pushed without a name. *)
Ltac pstep :=
  eapply ok_bind; [first [apply ok_push; [done|in_range..|done] | apply ok_generate_condition; [done|in_range]]|intros ? ? ? ? ?].

Lemma generate_expr_ok e : expr_ok e.
Proof.
  induction e as [a b k IH] using expr_ind'. intros name c Hc. cbn [generate_expr].
  eapply ok_bind; [by apply ok_last|]. intros pre c' Hc' _ (-> & _ & Hp). cbn beta.
  destruct k; cbn [operands] in IH; rewrite ?and_assoc in IH.
  all: try (repeat gstep IH; apply ok_last_node; [done|le_chain|in_range..]; fail).
  - by apply ok_lookup.
  - gstep IH. do 3 pstep.
    eapply (ok_under _ _ _ _ (fun i n => i < n)); [done|in_range|intros c1 Hc1 _; by apply IH|]. intros on_null c5 Hc5 Hle5 Hi Hs.
    do 2 pstep. apply ok_last_node; [done|le_chain|in_range..].
  - gstep IH. eapply ok_bind; [by apply ok_exprs|]. intros ids c2 Hc2 Hle2 [Hi Hs].
    apply ok_last_node; [done|le_chain|in_range|in_range|exact Hi|in_range].
Qed.

(** *** Statements *)
Definition unit_ok (m : Gen unit) : Prop :=
  forall c, ctx_ok c -> ok_from c m (fun _ c' => condition_stack c' = condition_stack c).

Lemma unit_ok_each {A} (f : A -> Gen unit) l : Forall (fun x => unit_ok (f x)) l -> unit_ok (each_g f l).
Proof.
  induction 1 as [|x l Hx Hl IH]; intros c Hc; cbn [each_g]; [by apply ok_ret|].
  eapply ok_bind; [by apply Hx|]. intros [] c1 Hc1 Hle1 Hs1. cbn beta. eapply ok_weaken; [by apply IH|].
  intros ? c2 _ Hs2. simpl in *. congruence.
Qed.

Lemma set_output_ok i c : ctx_ok c -> i < length (ctx_nodes c) ->
  ok_from c (set_output i) (fun _ c' => condition_stack c' = condition_stack c).
Proof.
  intros [C1 C2 C3 C4 C5] Hi. unfold ok_from, set_output. destruct (output (target c)); [done|].
  split; [split; simpl; try done; by intros ? [= <-]|]. split; [by split|done].
Qed.

Lemma generate_stmt_ok s : unit_ok (generate_stmt root s).
Proof.
  induction s as [a k IH] using stmt_ind'. intros c Hc. cbn [generate_stmt].
  destruct k as [v|name v|p b e|v]; cbn [bodies] in IH.
  - eapply ok_bind; [by apply generate_expr_ok|]. intros i c1 Hc1 Hle1 [Hi Hs]. eapply ok_weaken; [by apply set_output_ok|].
    intros ? c2 _ H2. simpl in H2. congruence.
  - eapply ok_bind; [by apply generate_expr_ok|]. intros i c1 Hc1 Hle1 [Hi Hs]. by apply ok_ret.
  - destruct IH as [Hb He]. eapply ok_bind; [by apply generate_expr_ok|]. intros i c1 Hc1 Hle1 Hi1. pstep.
    eapply (ok_under _ _ _ _ (fun _ _ => True)); [done|in_range| |].
    { intros c3 Hc3 _. eapply ok_weaken; [by apply unit_ok_each|]. done. }
    intros _ c4 Hc4 Hle4 _ Hs4. destruct e as [e|]; [|by apply ok_ret; [|in_range]]. do 2 pstep.
    eapply ok_weaken; [apply ok_under_last; [done|in_range|by apply unit_ok_each]|]. intros ? c7 _ Hs7. in_range.
  - eapply ok_bind; [by apply generate_expr_ok|]. intros i c1 Hc1 Hle1 Hi1.
    eapply ok_bind; [by apply ok_last|]. intros pre c2 Hc2 _ (-> & _ & Hp). pstep. apply ok_ret; [done|in_range].
Qed.

Lemma generate_params_ok params : forall i, i + length params = np -> unit_ok (generate_params i params).
Proof.
  induction params as [|[p t] params IH]; intros i Hi c Hc; cbn [generate_params]; [by apply ok_ret|].
  cbn [length] in Hi. eapply ok_bind; [apply ok_push; [done|in_range|done|cbn; lia]|].
  intros j c1 Hc1 _ [_ Hs]. eapply ok_weaken; [apply IH; [lia|done]|]. intros ? c2 _ H2. simpl in *. congruence.
Qed.
End Generate.

(** ** Graphs and scripts *)
(** [m] does not panic, and what it returns has [Q]. *)
Definition sound {A} (m : ares A) (Q : A -> Prop) : Prop :=
  match m with Ok a => Q a | Err _ => True | Panic | NoFuel => False end.

Lemma sound_bind {A B} (m : ares A) (k : A -> ares B) P Q :
  sound m P -> (forall a, P a -> sound (k a) Q) -> sound (let? a := m in k a) Q.
Proof. destruct m; simpl; naive_solver. Qed.

Lemma sound_returns {A} (m : ares A) : returns m -> sound m (fun a => m = Ok a).
Proof. by destruct m. Qed.

Lemma param_types_ok ps : forall b, builder_ok b ->
  sound (generate_param_types b ps) (fun r => builder_ok r.2 /\ builder_le b r.2 /\ length r.1 = length ps /\
    Forall (fun t => t < length (vmtype_pool r.2)) r.1).
Proof.
  induction ps as [|[p t] ps IH]; intros b Hb; cbn [generate_param_types]; [by split_and!; simpl; [done|done|done|constructor]|].
  apply (sound_bind _ _ (fun r => builder_ok r.2 /\ builder_le b r.2 /\ r.1 < length (vmtype_pool r.2))).
  - unfold param_type. eapply sound_bind.
    { apply sound_returns. destruct t; [apply generate_vmtype_returns|done]. }
    intros ty _. cbn [sound]. destruct (alloc_vmtype b ty) as [i b'] eqn:E. destruct (alloc_vmtype_ok _ _ _ _ Hb E) as (? & ? & ? & _). done.
  - intros [i b1] (Hb1 & Hle1 & Hi). simpl in *. eapply sound_bind; [by apply IH|].
    intros [l b2] (Hb2 & Hle2 & Hl & Hf). simpl in *. split_and!; [done|by etrans|lia|]. constructor; [|done].
    destruct Hle2 as (_ & Hs%suffix_length & _). lia.
Qed.

Lemma return_type_ok b t : builder_ok b ->
  sound (generate_return_type b t) (fun r => builder_ok r.2 /\ builder_le b r.2 /\
    forall x, r.1 = Some x -> x < length (vmtype_pool r.2)).
Proof.
  intros Hb. destruct t as [t|]; [|by split_and!]. cbn [generate_return_type]. eapply sound_bind; [apply sound_returns, generate_vmtype_returns|].
  intros ty _. destruct (alloc_vmtype b ty) as [i b'] eqn:E. destruct (alloc_vmtype_ok _ _ _ _ Hb E) as (? & ? & ? & _).
  cbn [sound fst snd]. split_and!; [done..|]. by intros ? [= <-].
Qed.

Lemma Forall2_fmap_eq {A B C} (f : A -> C) (g : B -> C) l m : Forall2 (fun x y => g y = f x) l m -> f <$> l = g <$> m.
Proof. induction 1 as [|x y l m Hx _ IH]; [done|]. csimpl. by rewrite IH, Hx. Qed.

Section Script.
Context (root : AstRoot).

Record graph_ok (b : Builder) (g : AstGraph) (x : TwGraph) : Prop := {
  go_wf : graph_wf (builder_sizes (length (param_types x)) (length (root_graphs root)) b) x;
  go_name : g_name x = ag_name g;
  go_exported : exported x = ag_exported g;
  go_params : length (param_types x) = length (ag_params g)
}.

Lemma graph_ok_le b b' g x : builder_le b b' -> graph_ok b g x -> graph_ok b' g x.
Proof. intros Hle [H1 H2 H3]. split; [|done..]. eapply graph_wf_le; [by apply builder_sizes_le|done]. Qed.

Lemma generate_graph_ok b g : builder_ok b ->
  sound (generate_graph root b g) (fun r => builder_ok r.2 /\ builder_le b r.2 /\ graph_ok r.2 g r.1).
Proof.
  intros Hb. unfold generate_graph. destruct (first_duplicate _); [done|].
  eapply sound_bind; [by apply param_types_ok|]. intros [ts b1] (Hb1 & Hle1 & Hl & Hts). simpl in Hb1, Hle1, Hl, Hts.
  eapply sound_bind; [by apply return_type_ok|]. intros [ot b2] (Hb2 & Hle2 & Hot). simpl in Hb2, Hle2, Hot.
  set (np := length (ag_params g)). set (ng := length (root_graphs root)).
  assert (Hc : ctx_ok np ng (MkGraphContext ∅ b2 (MkGraph (ag_name g) (ag_exported g) [] None ts ot) [])).
  { by split. }
  pose proof (generate_params_ok root np (ag_params g) 0 eq_refl _ Hc) as H1.
  unfold ok_from in H1. destruct (generate_params _ _ _) as [[[] c1]| | |]; simpl in H1 |- *; try done.
  destruct H1 as (Hc1 & Hlec1 & _).
  pose proof (unit_ok_each root np (generate_stmt root) (ag_stmts g)) as H2.
  assert (Hall : Forall (fun s => unit_ok root np (generate_stmt root s)) (ag_stmts g)).
  { apply Forall_forall. intros s _. apply generate_stmt_ok. }
  specialize (H2 Hall c1 Hc1). unfold ok_from in H2. destruct (each_g _ _ _) as [[[] c2]| | |]; simpl in H2 |- *; try done.
  destruct H2 as (Hc2 & Hlec2 & _). pose proof (transitivity Hlec1 Hlec2) as [Hb3 _ _ Hp (Hn & He & Ho)]. simpl in Hb3, Hp, Hn, He, Ho.
  destruct Hle2 as (Hi2 & Ht2 & Hk2 & Ha2). pose proof (suffix_length _ _ Ht2).
  pose proof Hb3 as (_ & Ht3%suffix_length & _).
  split; [apply Hc2|]. split; [by etransitivity; [exact Hle1|]; etransitivity; [|exact Hb3]|].
  split; [|done..|by rewrite Hp]. rewrite Hp, Hl. fold np. split.
  - apply Hc2.
  - apply Hc2.
  - by rewrite Hp.
  - rewrite Hp. eapply Forall_impl; [exact Hts|]. simpl. lia.
  - intros t. rewrite Ho. intros Hlt%Hot. simpl. lia.
Qed.

Lemma generate_graphs_ok gs : forall b, builder_ok b ->
  sound (generate_graphs root b gs) (fun r => builder_ok r.2 /\ builder_le b r.2 /\ Forall2 (graph_ok r.2) gs r.1).
Proof.
  induction gs as [|g gs IH]; intros b Hb; cbn [generate_graphs]; [by split_and!; simpl; [done|done|constructor]|].
  eapply sound_bind; [by apply generate_graph_ok|]. intros [x b1] (Hb1 & Hle1 & Hx). simpl in Hb1, Hle1, Hx.
  eapply sound_bind; [by apply IH|]. intros [xs b2] (Hb2 & Hle2 & Hxs). simpl in Hb2, Hle2, Hxs |- *.
  split_and!; [done|by etrans|]. constructor; [|done]. by eapply graph_ok_le.
Qed.

Lemma aliases_sound l : forall a, sound (foldM_o add_alias a l) (fun _ => True).
Proof.
  induction l as [|x l IH]; intros a; cbn [foldM_o]; [done|]. apply (sound_bind _ _ (fun _ => True)); [|intros a' _; apply IH].
  apply (sound_bind _ _ (fun _ => True)); [|done]. pose proof (generate_vmtype_returns a (ta_ty x)) as Hr.
  by destruct (generate_vmtype _ _).
Qed.

Lemma compile_root_ok :
  sound (compile_root root) (fun s => script_wf s /\
    Forall2 (fun g x => g_name x = ag_name g /\ exported x = ag_exported g /\ length (param_types x) = length (ag_params g))
      (root_graphs root) (graphs s) /\
    NoDup (g_name <$> graphs s)).
Proof.
  unfold compile_root. destruct (first_duplicate (ag_name <$> _)) eqn:Hd; [done|]. apply first_duplicate_None in Hd.
  destruct (first_duplicate (ta_name <$> _)); [done|]. eapply sound_bind; [apply aliases_sound|]. intros aliases _.
  eapply sound_bind; [apply generate_graphs_ok; split; apply pool_ok_nil|]. intros [gs b] (Hb & _ & Hgs). simpl in Hb, Hgs.
  cbn [sound]. split_and!.
  - unfold script_wf, script_sizes, emit_pools. cbn [graphs idents consts script_types]. rewrite !length_emit_pool.
    pose proof (Forall2_length _ _ _ Hgs) as Hlen. apply Forall_forall. intros x Hx.
    apply list_elem_of_lookup in Hx as [i Hi]. destruct (Forall2_lookup_r _ _ _ _ _ Hgs Hi) as (g & _ & Hg).
    pose proof (go_wf _ _ _ Hg) as Hwf. by rewrite Hlen in Hwf.
  - eapply Forall2_impl; [exact Hgs|]. intros g x [_ ? ? ?]. done.
  - simpl. replace (g_name <$> gs) with (ag_name <$> root_graphs root); [done|].
    apply Forall2_fmap_eq. eapply Forall2_impl; [exact Hgs|]. by intros g x [_ ? _ _].
Qed.
End Script.
