(* ===== verification/CodegenTypes.v ===== *)
(** * Types and constants of generated code

    The pools of the code generator hold only types with sorted maps, and only the
    constants a literal can denote.  So a compiled script that loads has well-formed
    types, and constants of the types they claim. *)
From stdpp Require Import prelude gmap strings list sorting.
From S2P Require Import Prelude OrdMap Schema SchemaFacts StoragePlan Planner Value PathWalker WalkerTyping Kv.
From S2P Require Import VmValue Bytecode AsmAst Codegen Typeck Exec ValueTyping NodeSound GraphSound TypeckSound TypeckWf CodegenFacts.

(** ** Types and literals *)
Definition aliases_wf (aliases : gmap string VmType) : Prop := forall x t, aliases !! x = Some t -> ty_wf t.

Lemma generate_vmtype_wf aliases t u : aliases_wf aliases -> generate_vmtype aliases t = Ok u -> ty_wf u.
Proof.
  intros Ha. revert u. induction t as [n ps IH|p|t IH|t IH|m IH| |] using asttype_ind'; intros u; cbn [generate_vmtype];
    try (by intros [= <-]); try (intros (x & Hx & [= <-])%obind_ok; exact (IH _ Hx)).
  - destruct (aliases !! n) as [x|] eqn:E; [intros [= <-]; by eapply Ha|]. by intros (s & _ & [= <-])%obind_ok.
  - intros (l & Hl & [= <-])%obind_ok. apply mapM_o_ok in Hl.
    apply (ty_wf_collect (fun x => x) l []); [by split; [constructor|]|]. intros x Hx.
    apply list_elem_of_lookup in Hx as [i Hi]. destruct (Forall2_lookup_r _ _ _ _ _ Hl Hi) as (e & He & Ht).
    rewrite Forall_forall in IH. apply obind_ok in Ht as (v & Hv & [= <-]).
    eapply IH; [by eapply list_elem_of_lookup_2|exact Hv].
Qed.

(** What a literal denotes. *)
Definition literal_const (c : VmConst) : Prop :=
  match c with
  | CPrimitive _ | CBool _ => True
  | CNull t => ty_wf t
  | CSet _ l => l = []
  | CTable _ _ => False
  end.

Lemma literal_to_vmconst_literal aliases x c : aliases_wf aliases -> literal_to_vmconst aliases x = Ok c -> literal_const c.
Proof.
  intros Ha. destruct x; cbn [literal_to_vmconst]; try (by intros [= <-]).
  - intros (y & Hy & [= <-])%obind_ok. by eapply generate_vmtype_wf.
  - by intros (y & Hy & [= <-])%obind_ok.
Qed.

(** ** The generator *)
Record pools_wf (b : Builder) : Prop := {
  pw_types : Forall (fun p => ty_wf p.1) (vmtype_pool b);
  pw_consts : Forall (fun p => literal_const p.1) (const_pool b);
  pw_aliases : aliases_wf (type_aliases b)
}.

Lemma pool_alloc_forall {K} (eqb : K -> K -> bool) (P : K -> Prop) pool k :
  Forall (fun p => P p.1) pool -> P k -> Forall (fun p => P p.1) (pool_alloc eqb pool k).2.
Proof. intros Hp Hk. unfold pool_alloc. destruct (pool_get _ _ _); [done|]. by constructor. Qed.

Lemma alloc_vmtype_wf b t : pools_wf b -> ty_wf t -> pools_wf (alloc_vmtype b t).2.
Proof.
  intros [H1 H2 H3] Ht. pose proof (pool_alloc_forall ty_eqb ty_wf _ t H1 Ht) as Hp. unfold alloc_vmtype.
  destruct (pool_alloc _ _ _). by split.
Qed.

(** An operation that leads from well-formed pools to well-formed pools, and to a
    result with [Q]. *)
Definition keeps {A} (m : Gen A) (Q : A -> Prop) : Prop :=
  forall c a c', pools_wf (builder c) -> m c = Ok (a, c') -> pools_wf (builder c') /\ Q a.

Abbreviation any := (fun _ => True).

Lemma keeps_bind {A B} (m : Gen A) (k : A -> Gen B) P Q :
  keeps m P -> (forall a, P a -> keeps (k a) Q) -> keeps (gbind m k) Q.
Proof. intros Hm Hk c b c' Hc ([a c1] & Ha & Hb)%obind_ok. destruct (Hm _ _ _ Hc Ha) as [? HP]. by eapply (Hk a HP). Qed.

Lemma keeps_ret {A} (a : A) : keeps (gret a) any.
Proof. by intros c x c' Hc [= <- <-]. Qed.

Lemma keeps_lift {A} (m : ares A) : keeps (glift m) any.
Proof. by intros c x c' Hc (y & _ & [= <- <-])%obind_ok. Qed.

Lemma keeps_aliases {A} (f : gmap string VmType -> ares A) (Q : A -> Prop) :
  (forall al a, aliases_wf al -> f al = Ok a -> Q a) -> keeps (with_aliases f) Q.
Proof. intros Hf c x c' Hc (y & Hy & [= <- <-])%obind_ok. split; [done|]. eapply Hf; [apply Hc|done]. Qed.

Lemma keeps_builder {A} (f : Builder -> A * Builder) :
  (forall b, pools_wf b -> pools_wf (f b).2) -> keeps (on_builder f) any.
Proof.
  intros Hf c x c' Hc. unfold on_builder. destruct (f (builder c)) as [a b] eqn:E. intros [= <- <-]. split; [|done].
  simpl. specialize (Hf _ Hc). by rewrite E in Hf.
Qed.

Lemma keeps_ident x : keeps (on_builder (fun b => alloc_ident b x)) any.
Proof.
  apply keeps_builder. intros b [H1 H2 H3]. unfold alloc_ident. destruct (pool_alloc _ _ _). by split.
Qed.

Lemma keeps_const c : literal_const c -> keeps (on_builder (fun b => alloc_const b c)) any.
Proof.
  intros Hc. apply keeps_builder. intros b [H1 H2 H3]. pose proof (pool_alloc_forall const_eqb literal_const _ c H2 Hc) as Hp.
  unfold alloc_const. destruct (pool_alloc _ _ _). by split.
Qed.

Lemma keeps_vmtype t : ty_wf t -> keeps (on_builder (fun b => alloc_vmtype b t)) any.
Proof. intros Ht. apply keeps_builder. intros b Hb. by apply alloc_vmtype_wf. Qed.

Lemma keeps_push node edges pre name : keeps (push_node node edges pre name) any.
Proof. intros c a c' Hc. unfold push_node. destruct name as [x|]; [destruct (names c !! x); [done|]|]; by intros [= <- <-]. Qed.

Lemma keeps_lookup x : keeps (lookup_node x) any.
Proof. by intros c a c' Hc (y & _ & [= <- <-])%obind_ok. Qed.

Lemma keeps_last : keeps last_condition any.
Proof. by intros c a c' Hc [= <- <-]. Qed.

Lemma keeps_push_condition i : keeps (push_condition i) any.
Proof. by intros c a c' Hc [= <- <-]. Qed.

Lemma keeps_pop_condition : keeps pop_condition any.
Proof. intros c a c' Hc. unfold pop_condition. destruct (condition_stack c); [done|]. by intros [= <- <-]. Qed.

Lemma keeps_mapM {A B} (f : A -> Gen B) l : Forall (fun x => keeps (f x) any) l -> keeps (mapM_g f l) any.
Proof.
  induction 1 as [|x l Hx _ IH]; cbn [mapM_g]; [apply keeps_ret|].
  eapply keeps_bind; [exact Hx|]. intros y _. eapply keeps_bind; [exact IH|]. intros ys _. apply keeps_ret.
Qed.

Create HintDb keeps.
#[local] Hint Resolve keeps_ret keeps_lift keeps_ident keeps_const keeps_vmtype keeps_push keeps_lookup keeps_last
  keeps_push_condition keeps_pop_condition keeps_mapM : keeps.

(** One operation after the other. *)
Ltac kstep := repeat first [ eapply keeps_bind; [solve [eauto with keeps]|intros ? ?; cbn beta in *] | solve [eauto with keeps] ].

Lemma keeps_literal x : keeps (with_aliases (fun a => literal_to_vmconst a x)) literal_const.
Proof. apply keeps_aliases. intros. by eapply literal_to_vmconst_literal. Qed.

Lemma keeps_type t : keeps (with_aliases (fun a => generate_vmtype a t)) ty_wf.
Proof. apply keeps_aliases. intros. by eapply generate_vmtype_wf. Qed.

Lemma keeps_condition i : keeps (generate_condition i) any.
Proof. unfold generate_condition. kstep. destruct a; kstep. Qed.

#[local] Hint Resolve keeps_literal keeps_type keeps_condition : keeps.

Section Root.
Context (root : AstRoot).

Lemma keeps_graph_index x : keeps (graph_index root x) any.
Proof. apply keeps_lift. Qed.

#[local] Hint Resolve keeps_graph_index : keeps.

Lemma generate_expr_keeps e : forall name, keeps (generate_expr root name e) any.
Proof.
  induction e as [a b k IH] using expr_ind'. intros name. cbn [generate_expr]. eapply keeps_bind; [apply keeps_last|].
  intros pre _. destruct k; cbn [operands] in IH; repeat match goal with Hx : _ /\ _ |- _ => destruct Hx end; kstep.
  eapply keeps_bind; [apply keeps_mapM; eapply Forall_impl; [exact IH|]; auto|]. intros ps _. kstep.
Qed.

#[local] Hint Resolve generate_expr_keeps : keeps.

Lemma keeps_output i : keeps (set_output i) any.
Proof. intros c a c' Hc. unfold set_output. destruct (output (target c)); [done|]. by intros [= <- <-]. Qed.

Lemma keeps_each {A} (f : A -> Gen unit) l : Forall (fun x => keeps (f x) any) l -> keeps (each_g f l) any.
Proof.
  induction 1 as [|x l Hx _ IH]; cbn [each_g]; [apply keeps_ret|]. eapply keeps_bind; [exact Hx|]. by intros _ _.
Qed.

#[local] Hint Resolve keeps_output keeps_each : keeps.

Lemma generate_stmt_keeps st : keeps (generate_stmt root st) any.
Proof.
  induction st as [a k IH] using stmt_ind'. destruct k; cbn [generate_stmt]; kstep.
  destruct IH as [Hb He]. kstep. case_match; kstep.
Qed.

Lemma generate_params_keeps i ps : keeps (generate_params i ps) any.
Proof. revert i. induction ps as [|[p t] ps IH]; intros i; cbn [generate_params]; kstep. Qed.

Abbreviation ok_wf m := (forall r, m = Ok r -> pools_wf r.2).

Lemma param_types_keep ps : forall b, pools_wf b -> ok_wf (generate_param_types b ps).
Proof.
  induction ps as [|[p t] ps IH]; intros b Hb r; cbn [generate_param_types]; [by intros [= <-]|].
  intros ([i b1] & H1 & ([ks b2] & H2 & [= <-])%obind_ok)%obind_ok. apply IH in H2; [done|].
  unfold param_type in H1. apply obind_ok in H1 as (u & Hu & [= H1]).
  change b1 with (i, b1).2. rewrite <- H1. apply alloc_vmtype_wf; [done|].
  destruct t; [by eapply generate_vmtype_wf; [apply Hb|]|by injection Hu as <-].
Qed.

Lemma return_type_keep b t : pools_wf b -> ok_wf (generate_return_type b t).
Proof.
  intros Hb r. destruct t as [t|]; cbn [generate_return_type]; [|by intros [= <-]].
  intros (u & Hu & Hr)%obind_ok. pose proof (alloc_vmtype_wf b u Hb) as Hw.
  destruct (alloc_vmtype b u) as [i b']. injection Hr as <-. apply Hw. by eapply generate_vmtype_wf; [apply Hb|].
Qed.

Lemma generate_graph_keep b g : pools_wf b -> ok_wf (generate_graph root b g).
Proof.
  intros Hb r. unfold generate_graph. destruct (first_duplicate _); [done|].
  intros ([ts b1] & H1 & ([ot b2] & H2 & ([[] c1] & H3 & ([[] c2] & H4 & [= <-])%obind_ok)%obind_ok)%obind_ok)%obind_ok.
  apply param_types_keep in H1; [|done]. apply return_type_keep in H2; [|done].
  apply generate_params_keeps in H3 as [H3 _]; [|done].
  apply (keeps_each (generate_stmt root) (ag_stmts g)) in H4 as [H4 _]; [done| |done].
  apply Forall_forall. intros x _. apply generate_stmt_keeps.
Qed.

Lemma generate_graphs_keep gs : forall b, pools_wf b -> ok_wf (generate_graphs root b gs).
Proof.
  induction gs as [|g gs IH]; intros b Hb r; cbn [generate_graphs]; [by intros [= <-]|].
  intros ([x b1] & H1 & ([xs b2] & H2 & [= <-])%obind_ok)%obind_ok. apply generate_graph_keep in H1; [|done].
  by apply IH in H2.
Qed.

Lemma add_alias_wf al a al' : aliases_wf al -> add_alias al a = Ok al' -> aliases_wf al'.
Proof.
  intros Ha (t & Ht & [= <-])%obind_ok x u. intros [[_ <-]|[_ Hu]]%lookup_insert_Some; [|by eapply Ha].
  by eapply generate_vmtype_wf.
Qed.

(** Every type and every constant of a compiled script. *)
Lemma compile_root_types s : compile_root root = Ok s -> Forall ty_wf (script_types s) /\ Forall literal_const (consts s).
Proof.
  unfold compile_root. destruct (first_duplicate _); [done|]. destruct (first_duplicate _); [done|].
  intros (al & Hal & ([gs b] & Hg & [= <-])%obind_ok)%obind_ok.
  assert (Hw : aliases_wf al).
  { refine (foldM_o_inv add_alias aliases_wf _ _ _ _ _ Hal); [intros x t Hx; by rewrite lookup_empty in Hx|].
    intros ? ? ? _. apply add_alias_wf. }
  apply generate_graphs_keep in Hg as [H1 H2 _]; [|by split; [constructor..|]]. cbn [snd emit_pools script_types consts] in *.
  unfold emit_pools. cbn [script_types consts]. unfold emit_pool.
  split; apply Forall_fmap; by rewrite merge_sort_Permutation.
Qed.
End Root.

(** ** The loaded script *)
Section Loaded.
Context (schema : CompiledSchema) (plan : Plan) (rec : gset string) (Hwf : wf_schema schema).

Lemma literal_const_typed c v : literal_const c -> from_const schema c = Ok v ->
  has_type schema plan rec v (ty_of_value v) /\ ty_wf (ty_of_value v).
Proof.
  destruct c as [p|ty fs|ty ms|b|t]; intros Hc Hv; try done; try by injection Hv as <-.
  simpl in Hc. subst. cbn [from_const] in Hv. apply obind_ok in Hv as (sty & _ & Hv). cbn zeta in Hv.
  apply obind_ok in Hv as (pk & Hpk%ok_or_ok & Hv). apply obind_ok in Hv as (ms & [= <-] & [= <-]).
  cbn [set_primary_key] in Hpk. apply bind_Some in Hpk as (sty' & Hsty & _). split; [|done]. split; [done|]. by eexists.
Qed.

Lemma compiled_vm_ok rmp_from_slice root s vm :
  compile_root root = Ok s -> vm_new schema plan s = Ok vm -> plan_ok schema plan rec ->
  (forall x, returns (rmp_from_slice x)) -> vm_ok rmp_from_slice vm rec /\ declares_wf vm.
Proof.
  intros [Ht Hc]%compile_root_types Hvm Hp Hr. destruct (vm_new_inv _ _ _ _ Hvm) as (Hs & Hpl & Hscr & Hty & Hcs).
  assert (Hall : Forall (fun v => has_type schema plan rec v (ty_of_value v) /\ ty_wf (ty_of_value v)) (vm_consts vm)).
  { apply Forall_forall. intros v Hv. apply list_elem_of_lookup in Hv as [i Hi].
    destruct (Forall2_lookup_r _ _ _ _ _ Hcs Hi) as (c & Hc' & Hfc). eapply literal_const_typed; [|done].
    rewrite Forall_forall in Hc. apply Hc. by eapply list_elem_of_lookup_2. }
  split; split; rewrite ?Hs, ?Hpl, ?Hscr, ?Hty; try done; (eapply Forall_impl; [exact Hall|]); simpl; tauto.
Qed.
End Loaded.
