(* ===== verification/Visualize.v ===== *)
(** * Drawing the graphs of a script: [rdb-pgsvc/src/dfvis.rs]

    The picture has a vertex for each graph, in order, then one for each node of each
    graph.  Its JSON form is a parameter ([vis_to_string]). *)
From stdpp Require Import prelude gmap strings list.
From Stdlib Require Import ZArith.
From S2P Require Import Prelude OrdMap Schema StoragePlan Planner Value PathWalker Kv VmValue Bytecode Serialize AsmAst Codegen CodegenFacts.

Record VisNodeFixed := MkVisFixed { vf_x : bool; vf_y : bool }.

Record VisNode := MkVisNode {
  vn_id : nat;
  vn_label : string;
  vn_shape : option string;
  vn_group : nat;
  vn_x : option Z;
  vn_y : option Z;
  vn_fixed : option VisNodeFixed
}.

Record VisEdge := MkVisEdge {
  ve_from : nat;
  ve_to : nat;
  ve_dashes : bool;
  ve_color : option string;
  ve_arrows : string;
  ve_label : option string
}.

Record VisualizedDataflow := MkVis { vis_nodes : list VisNode; vis_edges : list VisEdge }.

Abbreviation fmt_index n := (fmt_u64 (Z.of_nat n)).

(** [Debug for TwGraphNode], which is derived. *)
Definition fmt_node (n : TwGraphNode) : string :=
  let one name i := name +:+ "(" +:+ fmt_index i +:+ ")" in
  match n with
  | LoadParam i => one "LoadParam" i
  | LoadConst i => one "LoadConst" i
  | BuildTable i => one "BuildTable" i
  | BuildSet => "BuildSet"
  | CreateMap => "CreateMap"
  | CreateList i => one "CreateList" i
  | PrependToList => "PrependToList"
  | PopFromList => "PopFromList"
  | ListHead => "ListHead"
  | Reduce i has_range =>
      "Reduce(" +:+ fmt_index i +:+ ", " +:+ (if has_range then "true" else "false") +:+ ")"
  | GetField i => one "GetField" i
  | GetSetElement => "GetSetElement"
  | FilterSet i => one "FilterSet" i
  | InsertIntoMap i => one "InsertIntoMap" i
  | InsertIntoTable i => one "InsertIntoTable" i
  | InsertIntoSet => "InsertIntoSet"
  | DeleteFromSet => "DeleteFromSet"
  | DeleteFromMap i => one "DeleteFromMap" i
  | NEq => "Eq"
  | NNe => "Ne"
  | NAnd => "And"
  | NOr => "Or"
  | NNot => "Not"
  | Select => "Select"
  | IsPresent => "IsPresent"
  | IsNull => "IsNull"
  | Nop => "Nop"
  | Call i => one "Call" i
  | NAdd => "Add"
  | NSub => "Sub"
  | Throw => "Throw"
  end.

Abbreviation vres := (outcome Empty_set).

Definition push_vertex (out : VisualizedDataflow) (n : VisNode) : VisualizedDataflow :=
  MkVis (vis_nodes out ++ [n]) (vis_edges out).

Definition push_edge (out : VisualizedDataflow) (e : VisEdge) : VisualizedDataflow :=
  MkVis (vis_nodes out) (vis_edges out ++ [e]).

Definition vertex (id : nat) (label : string) (shape : option string) (group : nat) : VisNode :=
  MkVisNode id label shape group None None None.

(** [node_id_in_output[i]]. *)
Definition vertex_of (node_id_in_output : list nat) (i : nat) : vres nat := unwrap (node_id_in_output !! i).

(** One node: its vertex, the edges from its operands and its condition, or from the
    graph if it has neither, and those to the graphs it refers to. *)
Definition visualize_node (graph_index : nat) (st : VisualizedDataflow * list nat) (n : GNode)
    : vres (VisualizedDataflow * list nat) :=
  let '(out, node_id_in_output) := st in
  let id := length (vis_nodes out) in
  let out := push_vertex out (vertex id (fmt_node (gn_node n)) None graph_index) in
  let? out := foldM_o (fun out p =>
    let? from := vertex_of node_id_in_output p.2 in
    Ok (push_edge out (MkVisEdge from id false None "to" (Some (fmt_index p.1)))))
    out (imap pair (in_edges n)) in
  let? out :=
    match precondition n with
    | Some x =>
        let? from := vertex_of node_id_in_output x in Ok (push_edge out (MkVisEdge from id true None "to" None))
    | None => Ok out
    end in
  let has_deps := negb (bool_decide (in_edges n = [])) || bool_decide (is_Some (precondition n)) in
  let out := if has_deps then out else push_edge out (MkVisEdge graph_index id true None "to" None) in
  let out := foldl (fun out subgraph_id => push_edge out (MkVisEdge id subgraph_id true (Some "red") "to" None))
               out (subgraph_references (gn_node n)) in
  Ok (out, node_id_in_output ++ [id]).

Definition visualize_graph (graphs : list TwGraph) (out : VisualizedDataflow) (graph_index : nat)
    : vres VisualizedDataflow :=
  let? g := unwrap (graphs !! graph_index) in
  let? (out, _) := foldM_o (visualize_node graph_index) (out, []) (g_nodes g) in Ok out.

Definition visualize_vertex (out : VisualizedDataflow) (p : nat * TwGraph) : vres VisualizedDataflow :=
  let id := length (vis_nodes out) in
  if decide (id = p.1) then
    Ok (push_vertex out (vertex id ("graph:" +:+ g_name p.2) (Some "diamond") p.1))
  else Panic.

(** [Visualizer::visualize_df] on the output it starts with. *)
Definition visualize (graphs : list TwGraph) : vres VisualizedDataflow :=
  let? out := foldM_o visualize_vertex (MkVis [] []) (imap pair graphs) in
  foldM_o (visualize_graph graphs) out (seq 0 (length graphs)).

Definition visualize_df (vis_to_string : VisualizedDataflow -> anyhow string) (vm : TwVm) : anyhow string :=
  let? out := map_err (fun e : Empty_set => match e with end) (visualize (graphs (vm_script vm))) in
  vis_to_string out.

(** ** What is drawn *)
(** Node [j] of graph [i], whose first node is vertex [off]. *)
Definition node_edges (off i j : nat) (n : GNode) : list VisEdge :=
  imap (fun k s => MkVisEdge (off + s) (off + j) false None "to" (Some (fmt_index k))) (in_edges n)
  ++ (match precondition n with
      | Some x => [MkVisEdge (off + x) (off + j) true None "to" None]
      | None => if decide (in_edges n = []) then [MkVisEdge i (off + j) true None "to" None] else []
      end)
  ++ ((fun g => MkVisEdge (off + j) g true (Some "red") "to" None) <$> subgraph_references (gn_node n)).

Definition graph_edges (off i : nat) (g : TwGraph) : list VisEdge := concat (imap (node_edges off i) (g_nodes g)).

Definition graph_vertices (off i : nat) (g : TwGraph) : list VisNode :=
  imap (fun j n => vertex (off + j) (fmt_node (gn_node n)) None i) (g_nodes g).

(** The vertices and edges of the nodes of [gs], of which the first is graph [i]. *)
Fixpoint drawn_vertices (off i : nat) (gs : list TwGraph) : list VisNode :=
  match gs with
  | [] => []
  | g :: gs => graph_vertices off i g ++ drawn_vertices (off + length (g_nodes g)) (S i) gs
  end.

Fixpoint drawn_edges (off i : nat) (gs : list TwGraph) : list VisEdge :=
  match gs with
  | [] => []
  | g :: gs => graph_edges off i g ++ drawn_edges (off + length (g_nodes g)) (S i) gs
  end.

Definition drawing (gs : list TwGraph) : VisualizedDataflow :=
  MkVis (imap (fun i g => vertex i ("graph:" +:+ g_name g) (Some "diamond") i) gs ++ drawn_vertices (length gs) 0 gs)
    (drawn_edges (length gs) 0 gs).

(** The operands and conditions of a graph's nodes come before them. *)
Definition edges_back (g : TwGraph) : Prop :=
  forall j n, g_nodes g !! j = Some n -> (forall s, s ∈ in_edges n -> s < j) /\ forall s, precondition n = Some s -> s < j.

Lemma imap_shift {A B} (f g : nat -> A -> B) x l :
  (forall k y, f (S k) y = g k y) -> imap f (x :: l) = f 0 x :: imap g l.
Proof. intros Hf. cbn [imap]. f_equal. apply imap_ext. intros k y _. apply Hf. Qed.

Lemma push_edge_mk ns es e : push_edge (MkVis ns es) e = MkVis ns (es ++ [e]).
Proof. done. Qed.

Lemma vertex_of_seq off j s : s < j -> vertex_of (seq off j) s = Ok (off + s).
Proof. intros Hs. unfold vertex_of. rewrite lookup_seq_lt by done. done. Qed.

Lemma draw_operands off j k0 l ns es :
  (forall s, s ∈ l -> s < j) ->
  foldM_o (fun out p =>
    let? from := vertex_of (seq off j) p.2 in
    Ok (push_edge out (MkVisEdge from (off + j) false None "to" (Some (fmt_index p.1)))))
    (MkVis ns es) (imap (fun k s => (k0 + k, s)) l) =
  Ok (MkVis ns (es ++ imap (fun k s => MkVisEdge (off + s) (off + j) false None "to" (Some (fmt_index (k0 + k)))) l)).
Proof.
  revert k0 es. induction l as [|s l IH]; intros k0 es Hl; [simpl; by rewrite app_nil_r|].
  cbn [imap foldM_o fst snd]. rewrite vertex_of_seq by (apply Hl; left). cbn [obind].
  rewrite push_edge_mk, Nat.add_0_r.
  replace (imap ((fun k s => (k0 + k, s)) ∘ S) l) with (imap (fun k s => (S k0 + k, s)) l)
    by (apply imap_ext; intros; simpl; f_equal; lia).
  rewrite IH by (intros; apply Hl; by right). rewrite <- (assoc_L (++)). do 3 f_equal.
  cbn [app]. f_equal. apply imap_ext. intros i x _. unfold compose. by replace (k0 + S i) with (S k0 + i) by lia.
Qed.

Lemma draw_references ns es id l :
  foldl (fun out subgraph_id => push_edge out (MkVisEdge id subgraph_id true (Some "red") "to" None)) (MkVis ns es) l =
  MkVis ns (es ++ ((fun g => MkVisEdge id g true (Some "red") "to" None) <$> l)).
Proof.
  revert es. induction l as [|g l IH]; intros es; [simpl; by rewrite app_nil_r|].
  cbn [foldl fmap list_fmap]. by rewrite push_edge_mk, IH, <- (assoc_L (++)).
Qed.

Lemma visualize_node_drawn off i j n ns es :
  length ns = off + j -> (forall s, s ∈ in_edges n -> s < j) -> (forall s, precondition n = Some s -> s < j) ->
  visualize_node i (MkVis ns es, seq off j) n =
  Ok (MkVis (ns ++ [vertex (off + j) (fmt_node (gn_node n)) None i]) (es ++ node_edges off i j n), seq off (S j)).
Proof.
  intros Hl He Hp. unfold visualize_node. cbn [vis_nodes]. rewrite Hl. unfold push_vertex. cbn [vis_nodes vis_edges].
  pose proof (draw_operands off j 0 (in_edges n) (ns ++ [vertex (off + j) (fmt_node (gn_node n)) None i]) es He) as Hd.
  change (imap (fun k s => (0 + k, s)) (in_edges n)) with (imap pair (in_edges n)) in Hd. rewrite Hd. clear Hd. cbn [obind Nat.add].
  replace (seq off j ++ [off + j]) with (seq off (S j)) by (by rewrite <- seq_snoc || by rewrite seq_S).
  unfold node_edges. destruct (precondition n) as [x|] eqn:Ex.
  - rewrite vertex_of_seq by (by apply Hp). cbn [obind].
    rewrite (bool_decide_true (is_Some (Some x))) by eauto. rewrite orb_true_r.
    rewrite push_edge_mk, draw_references. by rewrite <- !(assoc_L (++)).
  - cbn [obind]. rewrite (bool_decide_false (is_Some None)) by (by intros [? ?]). rewrite orb_false_r.
    destruct (decide (in_edges n = [])) as [E|E].
    + rewrite bool_decide_true by done. cbn [negb].
      rewrite push_edge_mk, draw_references. by rewrite <- !(assoc_L (++)).
    + rewrite bool_decide_false by done. cbn [negb]. rewrite draw_references. by rewrite <- !(assoc_L (++)).
Qed.

Lemma visualize_nodes_drawn off i j gn ns es :
  length ns = off + j ->
  (forall k n, gn !! k = Some n -> (forall s, s ∈ in_edges n -> s < j + k) /\ forall s, precondition n = Some s -> s < j + k) ->
  foldM_o (visualize_node i) (MkVis ns es, seq off j) gn =
  Ok (MkVis (ns ++ imap (fun k n => vertex (off + (j + k)) (fmt_node (gn_node n)) None i) gn)
        (es ++ concat (imap (fun k => node_edges off i (j + k)) gn)), seq off (j + length gn)).
Proof.
  revert j ns es. induction gn as [|n gn IH]; intros j ns es Hl Hb.
  { cbn. by rewrite !app_nil_r, Nat.add_0_r. }
  destruct (Hb 0 n eq_refl) as [He Hp]. rewrite Nat.add_0_r in He, Hp.
  cbn [foldM_o]. rewrite (visualize_node_drawn off i j n) by done. cbn [obind].
  rewrite IH; [|rewrite length_app; simpl; lia|].
  - rewrite (imap_shift (fun k n => vertex (off + (j + k)) (fmt_node (gn_node n)) None i)
               (fun k n => vertex (off + (S j + k)) (fmt_node (gn_node n)) None i)),
      (imap_shift (fun k => node_edges off i (j + k)) (fun k => node_edges off i (S j + k)))
      by (intros k y; by replace (j + S k) with (S j + k) by lia).
    cbn [concat length]. by rewrite Nat.add_0_r, <- !(assoc_L (++)), Nat.add_succ_r.
  - intros k m Hk. destruct (Hb (S k) m Hk) as [H1 H2]. rewrite Nat.add_succ_r in H1, H2. by split.
Qed.

Lemma length_graph_vertices off i g : length (graph_vertices off i g) = length (g_nodes g).
Proof. apply length_imap. Qed.

Lemma visualize_graphs_drawn gs pre post ns es :
  Forall edges_back post -> gs = pre ++ post ->
  foldM_o (visualize_graph gs) (MkVis ns es) (seq (length pre) (length post)) =
  Ok (MkVis (ns ++ drawn_vertices (length ns) (length pre) post) (es ++ drawn_edges (length ns) (length pre) post)).
Proof.
  intros Hb. revert pre ns es. induction Hb as [|g post Hg _ IH]; intros pre ns es Hgs.
  { cbn. by rewrite !app_nil_r. }
  cbn [length seq foldM_o]. unfold visualize_graph at 1. subst gs. rewrite list_lookup_middle by done. cbn [unwrap obind].
  pose proof (visualize_nodes_drawn (length ns) (length pre) 0 (g_nodes g) ns es) as Hd. rewrite Nat.add_0_r in Hd.
  change (seq (length ns) 0) with (@nil nat) in Hd. rewrite (Hd eq_refl Hg). cbn [obind Nat.add].
  specialize (IH (pre ++ [g]) (ns ++ graph_vertices (length ns) (length pre) g) (es ++ graph_edges (length ns) (length pre) g)).
  rewrite !length_app, (Nat.add_comm (length pre)) in IH. cbn [length Nat.add] in IH.
  etransitivity; [apply IH; by rewrite <- (assoc_L (++))|]. rewrite length_graph_vertices.
  cbn [drawn_vertices drawn_edges]. by rewrite <- !(assoc_L (++)).
Qed.

Lemma visualize_vertices_drawn gs ns :
  foldM_o visualize_vertex (MkVis ns []) (imap (fun i g => (length ns + i, g)) gs) =
  Ok (MkVis (ns ++ imap (fun i g => vertex (length ns + i) ("graph:" +:+ g_name g) (Some "diamond") (length ns + i)) gs) []).
Proof.
  revert ns. induction gs as [|g gs IH]; intros ns; [cbn; by rewrite app_nil_r|].
  cbn [imap foldM_o]. unfold visualize_vertex at 1. cbn [fst snd vis_nodes]. rewrite Nat.add_0_r, decide_True by done.
  cbn [obind]. unfold push_vertex. cbn [vis_nodes vis_edges].
  specialize (IH (ns ++ [vertex (length ns) ("graph:" +:+ g_name g) (Some "diamond") (length ns)])).
  rewrite length_app in IH. cbn [length] in IH.
  replace (imap ((fun i g => (length ns + i, g)) ∘ S) gs) with (imap (fun i g => (length ns + 1 + i, g)) gs)
    by (apply imap_ext; intros; simpl; f_equal; lia).
  rewrite IH, <- (assoc_L (++)). cbn [app]. do 4 f_equal. apply imap_ext. intros i x _. unfold compose.
  by replace (length ns + 1 + i) with (length ns + S i) by lia.
Qed.

Lemma visualize_drawn gs : Forall edges_back gs -> visualize gs = Ok (drawing gs).
Proof.
  intros Hb. unfold visualize. pose proof (visualize_vertices_drawn gs []) as Hv. cbn [length Nat.add app] in Hv.
  change (imap (fun i g => (i, g)) gs) with (imap pair gs) in Hv. rewrite Hv. cbn [obind].
  rewrite (visualize_graphs_drawn gs [] gs) by done. cbn [length app]. by rewrite length_imap.
Qed.

Lemma script_wf_back s : script_wf s -> Forall edges_back (graphs s).
Proof.
  intros Hw. eapply Forall_impl; [exact Hw|]. intros g Hg j n Hn. destruct (gw_nodes _ _ Hg j n Hn) as [He Hp _]. by split.
Qed.

(** Every edge of the drawing ends at vertices of it. *)
Definition edge_below (n : nat) (e : VisEdge) : Prop := ve_from e < n /\ ve_to e < n.

Lemma edges_below_le n m l : n <= m -> Forall (edge_below n) l -> Forall (edge_below m) l.
Proof. intros Hle Hl. eapply Forall_impl; [exact Hl|]. intros e [? ?]. split; lia. Qed.

Lemma node_edges_below off i j n m :
  off + j < m -> i < m -> (forall s, s ∈ in_edges n -> s < j) -> (forall s, precondition n = Some s -> s < j) ->
  (forall r, r ∈ subgraph_references (gn_node n) -> r < m) -> Forall (edge_below m) (node_edges off i j n).
Proof.
  intros Hm Hi He Hp Hr. unfold node_edges. rewrite !Forall_app. split_and!.
  - apply Forall_forall. intros e (k & s & -> & Hs%list_elem_of_lookup_2)%elem_of_lookup_imap. apply He in Hs. split; simpl; lia.
  - destruct (precondition n) as [x|]; [|case_decide; [|constructor]]; (constructor; [|constructor]).
    + specialize (Hp x eq_refl). split; simpl; lia.
    + by split.
  - apply Forall_fmap, Forall_forall. intros r Hin. split; simpl; [lia|by apply Hr].
Qed.

Lemma drawn_edges_below ng gs : forall off i,
  Forall edges_back gs -> Forall (fun g => forall n r, n ∈ g_nodes g -> r ∈ subgraph_references (gn_node n) -> r < ng) gs ->
  i + length gs <= ng -> ng <= off ->
  Forall (edge_below (off + length (drawn_vertices off i gs))) (drawn_edges off i gs).
Proof.
  induction gs as [|g gs IH]; intros off i Hb Hr Hi Ho; [constructor|]. apply Forall_cons in Hb as [Hb Hbs].
  apply Forall_cons in Hr as [Hr Hrs]. cbn [drawn_edges drawn_vertices length] in *. rewrite length_app, length_graph_vertices.
  apply Forall_app. split.
  - apply Forall_concat, Forall_forall. intros es (j & n & -> & Hn)%elem_of_lookup_imap. destruct (Hb j n Hn) as [He Hp].
    pose proof (lookup_lt_Some _ _ _ Hn). apply node_edges_below; [lia|lia|done|done|].
    intros r Hin. apply list_elem_of_lookup_2 in Hn. specialize (Hr n r Hn Hin). lia.
  - eapply edges_below_le; [|apply IH; [done|done|lia|lia]]. lia.
Qed.

Lemma drawing_closed s : script_wf s ->
  Forall (edge_below (length (vis_nodes (drawing (graphs s))))) (vis_edges (drawing (graphs s))).
Proof.
  intros Hw. cbn [drawing vis_nodes vis_edges]. rewrite length_app, length_imap.
  apply (drawn_edges_below (length (graphs s))); [by apply script_wf_back| |lia|lia].
  eapply Forall_impl; [exact Hw|]. intros g Hg n r (j & Hj)%list_elem_of_lookup Hr.
  destruct (gw_nodes _ _ Hg j n Hj) as [_ _ Hop]. unfold script_sizes in Hop.
  destruct (gn_node n); cbn [subgraph_references op_ok sz_graphs] in *;
    try (by apply elem_of_nil in Hr); apply list_elem_of_singleton in Hr as ->; naive_solver.
Qed.

Lemma imap_ids {A} off (f : nat -> A -> VisNode) l :
  (forall j x, vn_id (f j x) = off + j) -> vn_id <$> imap f l = seq off (length l).
Proof.
  intros Hf. apply list_eq. intros j. rewrite list_lookup_fmap, list_lookup_imap.
  destruct (l !! j) as [x|] eqn:E; cbn.
  - rewrite lookup_seq_lt by (by eapply lookup_lt_Some). by rewrite Hf.
  - symmetry. apply lookup_seq_ge. by apply lookup_ge_None.
Qed.

Lemma drawn_ids gs : forall off i,
  vn_id <$> drawn_vertices off i gs = seq off (length (drawn_vertices off i gs)).
Proof.
  induction gs as [|g gs IH]; intros off i; [done|]. cbn [drawn_vertices].
  rewrite fmap_app, length_app, seq_app, IH, length_graph_vertices. f_equal. by apply imap_ids.
Qed.

Lemma drawing_ids gs : vn_id <$> vis_nodes (drawing gs) = seq 0 (length (vis_nodes (drawing gs))).
Proof.
  cbn [drawing vis_nodes]. rewrite fmap_app, length_app, seq_app, drawn_ids, length_imap. f_equal. by apply imap_ids.
Qed.
