(* ===== verification/Pipeline.v ===== *)
(** * From source to answers

    What a script that the code generator compiled, the VM loaded and the checker
    accepted satisfies without further assumptions: it is fit for the soundness of
    scripts ([compiled_ec_ok]), so a deployment whose plan the planner made serves
    any sequence of queries of such scripts ([pipeline_serves]). *)
From stdpp Require Import prelude gmap strings list.
From S2P Require Import Prelude OrdMap Schema SchemaFacts StoragePlan Planner PlannerFacts Value PathWalker.
From S2P Require Import WalkerTyping Kv VmValue Bytecode AsmAst Codegen Typeck Exec ValueTyping NodeSound.
From S2P Require Import GraphSound TypeckSound TypeckWf RunGraph Serialize SerializeFacts Query CodegenFacts CodegenTypes.

(** A script that was compiled from a text, loaded and checked, and relies on
    covariance between map types nowhere. *)
Definition compiled_client (schema : CompiledSchema) (plan : Plan) (ec : ExecContext) : Prop :=
  exists parse kosaraju text, load (compile_twscript parse) kosaraju schema plan text = Ok ec /\ covers kosaraju /\
    exact_script (ec_vm ec) (ec_type_info ec) = true.

Lemma compile_twscript_inv parse text script :
  compile_twscript parse text = Ok script -> exists root, parse text = Ok root /\ compile_root root = Ok script.
Proof. intros (root & Hp & Hc%map_err_ok)%obind_ok. by exists root. Qed.

Lemma compiled_ec_ok rmp_from_slice parse kosaraju schema plan text ec rec :
  wf_schema schema -> plan_ok schema plan rec -> (forall x, returns (rmp_from_slice x)) ->
  load (compile_twscript parse) kosaraju schema plan text = Ok ec ->
  vm_ok rmp_from_slice (ec_vm ec) rec /\ Forall (fun info => Forall ty_wf (gi_params info)) (ec_type_info ec).
Proof.
  intros Hwf Hp Hr Hl. apply load_inv in Hl as (script & ctx & ctx' & Hs & Hvm & Hctx & Hti & _).
  apply compile_twscript_inv in Hs as (root & _ & Hs).
  destruct (compiled_vm_ok schema plan rec Hwf rmp_from_slice root script _ Hs Hvm Hp Hr) as [Hok Hd].
  split; [done|]. eapply typeck_wf; [exact Hd| |exact Hti]. by eapply tyck_new_wf.
Qed.

Section Serves.
Context {S T : Type} `{KvTransactionLaws T} `{!KvReturns T} `{!KeyValueStore S T}.
Context (rmp_to_vec : PrimitiveValue -> bytes) (rmp_from_slice : bytes -> anyhow PrimitiveValue).
Context (schedule : nat -> nat) (others : nat -> S -> S).
Context (fmt_f64 : Z -> string) (base64_encode : bytes -> string) (base64_decode : string -> option bytes).
Context (schema : CompiledSchema) (plan : Plan) (rec : gset string) (Hwf : wf_schema schema) (Hplan : plan_ok schema plan rec).
Context (Hcodec : codec_ok rmp_to_vec rmp_from_slice) (Hrmp : forall x, returns (rmp_from_slice x)).

Lemma compiled_client_ok good open ec :
  compiled_client schema plan ec -> store_ok rmp_from_slice others (ec_vm ec) rec good open ->
  client_ok rmp_from_slice others schema plan rec good open ec.
Proof.
  intros (parse & kosaraju & text & Hl & Hc & Hx) Hs.
  destruct (compiled_ec_ok rmp_from_slice _ _ _ _ _ _ _ Hwf Hplan Hrmp Hl) as [Hv Hp]. split; [|done..].
  by exists (compile_twscript parse), kosaraju, text.
Qed.

Lemma pipeline_serves good open clients s s' :
  Forall (fun ec => compiled_client schema plan ec /\ store_ok rmp_from_slice others (ec_vm ec) rec good open) clients ->
  clients <> [] -> good s ->
  served rmp_to_vec rmp_from_slice schedule others fmt_f64 base64_encode base64_decode clients s s' ->
  good s' /\ forall ec name params config, ec ∈ clients ->
    answer_ok rmp_to_vec rmp_from_slice fmt_f64 base64_encode ec rec good name config
      (run_exported_graph_inner (T := T) rmp_to_vec rmp_from_slice schedule others fmt_f64 base64_encode base64_decode
         ec name params config s').
Proof.
  intros Hcl Hne Hs Hserved. eapply served_good; try done.
  eapply Forall_impl; [exact Hcl|]. intros ec [Hc Hst]. by apply compiled_client_ok.
Qed.
End Serves.
