(* ===== verification/Playground.v ===== *)
(** * The playground: [rdb-pgsvc/src/query.rs], [main.rs], [memkv.rs]

    Queries on a script that is loaded but not deployed, and the C functions through
    which an editor drives the analyzer.  A C string is the bytes before its zero.
    The JSON forms are parameters.  [MemKv] is the store of [MemKv.v]. *)
From stdpp Require Import prelude gmap strings list.
From Stdlib Require Import Strings.Byte ZArith.
From S2P Require Import Prelude OrdMap Schema SchemaFacts StoragePlan Planner PlannerFacts Value PathWalker WalkerTyping Kv.
From S2P Require Import MemKv VmValue Bytecode AsmAst Codegen Typeck Exec ValueTyping NodeSound GraphSound TypeckSound TypeckWf RunGraph.
From S2P Require Import Serialize SerializeFacts Query CodegenFacts CodegenTypes Visualize Pipeline.

(** ** [query.rs] *)
Record VmGraphInfo := MkVmGraphInfo { vg_name : string; vg_query_template : string; vg_params : list string }.

Record VmGraphQuery := MkVmGraphQuery { vq_graph : string; vq_params : list SerializedVmValue }.

Inductive PlaygroundError :=
| QueryGraphNotFound
| QueryParamCountMismatch
| PgSerialize (e : SerializeFail)
| PgExec (e : ExecError)
| PgText (message : string).

Abbreviation gres := (outcome (Failed PlaygroundError)).

Definition of_run {A} (c : xres A) : gres A := failed PgExec c.

Fixpoint generate_example_param (ty : VmType) : anyhow SerializedVmValue :=
  match ty with
  | TyBool => Ok (SBool false)
  | TyMap x =>
      let? m := mapM_o (fun p => let? y := generate_example_param p.2 in Ok (p.1, y)) x in
      Ok (STaggedM (bt_collect m))
  | TyPrimitive x =>
      Ok (match x with
          | Bytes_ => SString ""
          | String_ => SString ""
          | Int64 => SString "0"
          | Double => SString "0.0"
          end)
  | _ => Ok SNull
  end.

(** [vm.types[i]] of the parameters of a graph. *)
Definition graph_param_types {E} (vm : TwVm) (g : TwGraph) : outcome E (list VmType) :=
  unwrap (mapM_opt (fun x => vm_types vm !! x) (param_types g)).

Definition generate_example_query (vm : TwVm) (g : TwGraph) : anyhow VmGraphQuery :=
  let? tys := graph_param_types vm g in
  let? params := mapM_o generate_example_param tys in
  Ok (MkVmGraphQuery (g_name g) params).

(** An example that cannot be printed is an [unwrap] of an error. *)
Definition graph_info (query_to_string_pretty : VmGraphQuery -> anyhow string) (vm : TwVm) (g : TwGraph)
    : gres VmGraphInfo :=
  let? query_template :=
    match generate_example_query vm g with
    | Ok x => match query_to_string_pretty x with Ok text => Ok text | _ => Panic end
    | Err e => Ok "// example query generation failed"
    | Panic => Panic
    | NoFuel => NoFuel
    end in
  let? tys := graph_param_types vm g in
  Ok (MkVmGraphInfo (g_name g) query_template (fmt_vm_type <$> tys)).

Definition get_vm_graphs (query_to_string_pretty : VmGraphQuery -> anyhow string) (vm : TwVm) : gres (list VmGraphInfo) :=
  mapM_o (graph_info query_to_string_pretty vm) (List.filter exported (graphs (vm_script vm))).

(** [graphs.iter().enumerate().find(..)]: the first graph of that name. *)
Fixpoint find_by_name (i : nat) (gs : list TwGraph) (name : string) : option (nat * TwGraph) :=
  match gs with
  | [] => None
  | g :: gs => if decide (g_name g = name) then Some (i, g) else find_by_name (S i) gs name
  end.

Section Run.
Context {S T : Type} `{KvTransaction T} `{!KeyValueStore S T}.
Context (rmp_to_vec : PrimitiveValue -> bytes) (rmp_from_slice : bytes -> anyhow PrimitiveValue).
Context (schedule : nat -> nat) (others : nat -> S -> S).
Context (fmt_f64 : Z -> string) (base64_encode : bytes -> string) (base64_decode : string -> option bytes).

Definition decode_query_param (vm : TwVm) (p : SerializedVmValue * VmType) : gres VmValue :=
  match p.2 with
  | TySchema => of_run (generate_root_map (vm_schema vm) (vm_storage_plan vm))
  | _ => map_err (fun e => QErr (PgSerialize e)) (decode base64_decode p.1 p.2)
  end.

Definition prepare_query (vm : TwVm) (type_info : list GraphTypeInfo) (query : VmGraphQuery)
    : gres (Executor * nat * list VmValue) :=
  let? executor := of_run (executor_new vm type_info) in
  let? (i, g) := ok_or (find_by_name 0 (graphs (vm_script vm)) (vq_graph query)) (QErr QueryGraphNotFound) in
  if decide (length (vq_params query) <> length (param_types g)) then Err (QErr QueryParamCountMismatch)
  else
    let? param_types := graph_param_types vm g in
    let? params := mapM_o (decode_query_param vm) (zip (vq_params query) param_types) in
    Ok (executor, i, params).

Definition plain_config : VmValueEncodeConfig := MkEncodeConfig false false false.

Definition encode_result (res : option VmValue) : gres (option SerializedVmValue) :=
  match res with
  | Some x => let? y := map_err (fun e => QErr (PgSerialize e)) (encode fmt_f64 base64_encode plain_config x) in Ok (Some y)
  | None => Ok None
  end.

(** The answer, and the store that is left. *)
Definition run_vm_query (vm : TwVm) (type_info : list GraphTypeInfo) (query : VmGraphQuery) (kv : S)
    : gres (option SerializedVmValue) * S :=
  match prepare_query vm type_info query with
  | Ok (executor, i, params) =>
      let '(res, kv) := run_graph rmp_to_vec rmp_from_slice schedule others executor i params kv in
      (let? res := of_run res in encode_result res, kv)
  | Err e => (Err e, kv)
  | Panic => (Panic, kv)
  | NoFuel => (NoFuel, kv)
  end.
End Run.

(** ** [memkv.rs] *)
(** The store of [mock_kv.rs] under other names. *)
Definition MemKv (M : Type -> Type) : Type := MockStore M.

Definition dump {M} (s : MemKv M) : M (option bytes * Z)%type := data s.

(** ** [main.rs] *)
(** [catch_unwind], and the error or the panic logged: a null pointer for the
    caller. *)
Definition wrap {E A} (x : outcome E A) : outcome Empty_set (option A) :=
  match x with
  | Ok x => Ok (Some x)
  | Err _ | Panic => Ok None
  | NoFuel => NoFuel
  end.

(** A copy of the text with a zero at its end. *)
Definition mkcstr (s : string) : bytes := as_bytes s ++ [x00].

(** [str::from_utf8]: text in which the lossy reader would replace nothing. *)
Definition to_str (s : bytes) : anyhow string :=
  if decide (from_utf8_lossy (length s) s = s) then Ok (of_bytes s) else Err "invalid utf-8".

Section Ffi.
Context (parse_schema : string -> anyhow AstSchema) (fuel : AstSchema -> nat).
Context (parse_script : string -> anyhow AstRoot) (kosaraju_scc : nat -> list (nat * nat) -> list (list nat)).

Definition rdb_compile_schema (schema : bytes) : outcome Empty_set (option CompiledSchema) :=
  wrap (let? schema := to_str schema in
        let? ast := parse_schema schema in
        map_err (fun _ => "schema error") (compile (fuel ast) ast)).

Definition rdb_dfasm (source : bytes) : outcome Empty_set (option TwScript) :=
  wrap (let? source := to_str source in compile_twscript parse_script source).

Definition rdb_vm_create (schema : CompiledSchema) (plan : Plan) (script : TwScript) : outcome Empty_set (option TwVm) :=
  wrap (vm_new schema plan script).

Definition rdb_vm_tyck (vm : TwVm) : outcome Empty_set (option (list GraphTypeInfo)) :=
  wrap (let? ctx := tyck_new kosaraju_scc vm in let? (info, _) := typeck vm ctx in Ok info).

Definition rdb_vm_visualize_df (vis_to_string : VisualizedDataflow -> anyhow string) (vm : TwVm)
    : outcome Empty_set (option bytes) :=
  wrap (let? text := visualize_df vis_to_string vm in Ok (mkcstr text)).

Definition rdb_vm_get_graphs (query_to_string_pretty : VmGraphQuery -> anyhow string)
    (graphs_to_string : list VmGraphInfo -> anyhow string) (vm : TwVm) : outcome Empty_set (option bytes) :=
  wrap (let? info := get_vm_graphs query_to_string_pretty vm in
        let? text := map_err (fun m => QErr (PgText m)) (graphs_to_string info) in Ok (mkcstr text)).

(** The old plan is read only if there is an old schema, and must then be there. *)
Definition rdb_generate_storage_plan (ent : Entropy) (schema : CompiledSchema) (old_schema : option CompiledSchema)
    (old_plan : option Plan) : outcome Empty_set (option Plan) :=
  wrap (let? (reference_schema, reference_plan) :=
          match old_schema with
          | Some old_schema => let? old_plan := unwrap old_plan in Ok (old_schema, old_plan)
          | None => Ok (empty_schema, empty_plan)
          end in
        generate_plan_for_schema (plan_fuel schema) ent reference_plan reference_schema schema).

Definition rdb_pretty_print_storage_plan (base64_encode : bytes -> string)
    (yaml_to_string : StoragePlan string -> anyhow string) (plan : Plan) : outcome Empty_set (option bytes) :=
  wrap (match yaml_to_string (plan_to_string base64_encode plan) with
        | Ok s => Ok (mkcstr s)
        | _ => @Panic string bytes
        end).
End Ffi.

Section FfiRun.
Context {S T : Type} `{KvTransaction T} `{!KeyValueStore S T}.
Context (rmp_to_vec : PrimitiveValue -> bytes) (rmp_from_slice : bytes -> anyhow PrimitiveValue).
Context (schedule : nat -> nat) (others : nat -> S -> S).
Context (fmt_f64 : Z -> string) (base64_encode : bytes -> string) (base64_decode : string -> option bytes).
Context (query_from_str : string -> anyhow VmGraphQuery) (answer_to_string : option SerializedVmValue -> anyhow string).

Definition rdb_vm_run_query (vm : TwVm) (kv : S) (type_info : list GraphTypeInfo) (query : bytes)
    : outcome Empty_set (option bytes) * S :=
  match (let? text := to_str query in query_from_str text) with
  | Ok query =>
      let '(res, kv) := run_vm_query (T := T) rmp_to_vec rmp_from_slice schedule others fmt_f64 base64_encode base64_decode
                          vm type_info query kv in
      (wrap (let? res := res in
             let? text := map_err (fun m => QErr (PgText m)) (answer_to_string res) in Ok (mkcstr text)), kv)
  | Err _ | Panic => (Ok None, kv)
  | NoFuel => (NoFuel, kv)
  end.
End FfiRun.

(** ** Running queries is safe *)
Lemma find_by_name_spec gs name off i g :
  find_by_name off gs name = Some (i, g) -> off <= i /\ gs !! (i - off) = Some g /\ g_name g = name.
Proof.
  revert off. induction gs as [|h gs IH]; intros off; simpl; [done|]. case_decide as Hn.
  - intros [= -> ->]. by rewrite Nat.sub_diag.
  - intros (Hle & Hg & Hx)%IH. split; [lia|]. split; [|done]. by replace (i - off) with (S (i - S off)) by lia.
Qed.

Section Safe.
Context {S T : Type} `{KvTransactionLaws T} `{!KvReturns T} `{!KeyValueStore S T}.
Context (rmp_to_vec : PrimitiveValue -> bytes) (rmp_from_slice : bytes -> anyhow PrimitiveValue).
Context (schedule : nat -> nat) (others : nat -> S -> S).
Context (fmt_f64 : Z -> string) (base64_encode : bytes -> string) (base64_decode : string -> option bytes).
Context (vm : TwVm) (rec : gset string) (infos : list GraphTypeInfo) (ctx ctx' : GlobalTyckContext).
Context (Hvm : vm_ok rmp_from_slice vm rec) (Hwf : declares_wf vm) (Hcov : sccs_cover vm ctx).
Context (Htc : typeck vm ctx = Ok (infos, ctx')) (Hex : exact_script vm infos = true).
Abbreviation typed := (has_type (vm_schema vm) (vm_storage_plan vm) rec).

Lemma root_entries_safe es acc :
  Forall (fun e => bt_get e.1 (exports (vm_schema vm)) = Some e.2) es ->
  xsafe (fun _ => True) (foldM_o (root_entry (vm_storage_plan vm)) acc es).
Proof.
  intros Hes. revert acc. induction Hes as [|[e t] es He _ IH]; intros acc; [done|]. cbn [foldM_o].
  apply (xsafe_bind (fun _ => True)); [|by intros; apply IH].
  destruct (from_export_typed _ _ _ (vo_plan _ _ _ Hvm) _ _ He) as (w & Hw & _).
  unfold root_entry. simpl in *. by destruct t; [rewrite Hw| |rewrite Hw].
Qed.

(** What [generate_root_map] makes, if anything, is the root map of the type. *)
Lemma root_map_safe : qsafe (fun v => typed v (ty_of_schema (vm_schema vm)))
  (of_run (generate_root_map (vm_schema vm) (vm_storage_plan vm))).
Proof.
  apply qsafe_exec. pose proof (vo_schema _ _ _ Hvm) as Hs.
  assert (He : Forall (fun e => bt_get e.1 (exports (vm_schema vm)) = Some e.2) (exports (vm_schema vm))).
  { apply Forall_forall. intros [e t] He. apply bt_elem_get; [apply Hs|done]. }
  pose proof (root_entries_safe _ [] He) as Hsafe.
  destruct (generate_root_map (vm_schema vm) (vm_storage_plan vm)) as [v|e| |] eqn:Hr.
  - destruct (root_map_typed _ _ rec Hs (vo_plan _ _ _ Hvm)) as (v' & Hv' & Ht).
    { intros e q. by eapply root_map_exports. }
    rewrite Hr in Hv'. injection Hv' as ->. exact Ht.
  - unfold generate_root_map in Hr. by destruct (foldM_o _ _ _); try done; injection Hr as ->.
  - unfold generate_root_map in Hr. by destruct (foldM_o _ _ _).
  - unfold generate_root_map in Hr. by destruct (foldM_o _ _ _).
Qed.

(** An argument has the type of its parameter: the declared one, or if the script
    declares none, any type, since then only null is accepted. *)
Lemma decode_query_param_safe x raw t :
  ty_wf raw -> (raw <> TyUnknown -> t = resolved vm raw) ->
  qsafe (fun v => typed v t) (decode_query_param base64_decode vm (x, raw)).
Proof.
  intros Hw Ht. unfold decode_query_param. cbn [fst snd]. destruct (decide (raw = TySchema)) as [->|Hns].
  { rewrite Ht by done. exact root_map_safe. }
  assert (Hd : qsafe (fun v => typed v t) (map_err (fun e => QErr (PgSerialize e)) (decode base64_decode x raw))).
  { apply qsafe_err; [apply decode_returns|]. intros v Hv. destruct (decide (raw = TyUnknown)) as [->|Hnu].
    - destruct x; try done. injection Hv as <-. apply has_type_null.
    - rewrite Ht by done. replace (resolved vm raw) with raw by (by destruct raw). by eapply decode_typed_gen. }
  by destruct raw.
Qed.

Lemma decode_query_params_safe xs raw ts :
  Forall ty_wf raw -> Forall2 (fun r t => r <> TyUnknown -> t = resolved vm r) raw ts -> length xs = length raw ->
  qsafe (fun args => Forall2 typed args ts) (mapM_o (decode_query_param base64_decode vm) (zip xs raw)).
Proof.
  intros Hw Hr. revert xs Hw. induction Hr as [|r t raw ts Hrt _ IH]; intros [|x xs] Hw Hl; try done; [by simpl|].
  apply Forall_cons in Hw as [Hw Hws]. cbn [zip zip_with mapM_o].
  eapply qsafe_bind; [by apply decode_query_param_safe|]. intros v Hv. cbn beta in Hv.
  eapply qsafe_bind; [apply IH; [done|simpl in Hl; lia]|]. intros vs Hvs. by constructor.
Qed.

Definition query_prepared (name : string) (c : Executor * nat * list VmValue) : Prop :=
  let '(ex, i, args) := c in
  exists g info, find_by_name 0 (graphs (vm_script vm)) name = Some (i, g) /\ infos !! i = Some info /\
    executor_new vm infos = Ok ex /\ Forall2 typed args (gi_params info).

Lemma prepare_query_safe q : qsafe (query_prepared (vq_graph q)) (prepare_query base64_decode vm infos q).
Proof.
  destruct (typeck_executor_total vm ctx _ ctx' Hcov Htc Hex) as [ex Hexec]. unfold prepare_query.
  rewrite Hexec. cbn [of_run failed map_err obind].
  destruct (find_by_name _ _ _) as [[i g]|] eqn:Hf; [|done]. cbn [ok_or obind].
  case_decide as Hlen; [done|].
  destruct (find_by_name_spec _ _ _ _ _ Hf) as (_ & Hg & Hn). rewrite Nat.sub_0_r in Hg.
  destruct (typeck_checked vm ctx _ ctx' Hcov Htc) as [_ Hck]. destruct (Hck i g Hg) as (info & Hinfo & Hgc).
  destruct (gc_raw _ _ _ Hgc) as (raw & Hraw & Hres). unfold graph_param_types. rewrite Hraw. cbn [unwrap obind].
  pose proof (gc_params _ _ _ Hgc) as Hlp. apply mapM_opt_Some in Hraw.
  assert (Hwr : Forall ty_wf raw).
  { apply Forall_forall. intros t (j & Hj)%list_elem_of_lookup. destruct (Forall2_lookup_r _ _ _ _ _ Hraw Hj) as (o & _ & Ho).
    by eapply vm_type_wf. }
  apply Forall2_length in Hraw.
  apply (qsafe_bind (fun args => Forall2 typed args (gi_params info))); [|intros args Hargs; by exists g, info].
  apply decode_query_params_safe; [done| |lia]. apply Forall2_same_length_lookup. split; [lia|].
  intros j r t Hr Ht Hne. specialize (Hres j r Hr Hne). congruence.
Qed.

(** The answer: the encoding of what the graph returned, a value of its output
    type. *)
Definition query_answer (name : string) (r : option SerializedVmValue) : Prop :=
  exists i g output, find_by_name 0 (graphs (vm_script vm)) name = Some (i, g) /\
    out_ok vm rec (subgraph_output vm g) output /\ encode_result fmt_f64 base64_encode output = Ok r.

Lemma run_vm_query_safe good open q s :
  store_ok rmp_from_slice others vm rec good open -> good s ->
  let r := run_vm_query (T := T) rmp_to_vec rmp_from_slice schedule others fmt_f64 base64_encode base64_decode vm infos q s in
  qsafe (query_answer (vq_graph q)) r.1 /\ (codec_ok rmp_to_vec rmp_from_slice -> good r.2).
Proof.
  intros Hstore Hs. unfold run_vm_query. pose proof (prepare_query_safe q) as Hp.
  destruct (prepare_query _ _ _ _) as [[[ex i] args]|[e|x]| |]; try done.
  destruct Hp as (g & info & Hf & Hinfo & Hexec & Hargs).
  destruct (find_by_name_spec _ _ _ _ _ Hf) as (_ & Hg & _). rewrite Nat.sub_0_r in Hg.
  pose proof (run_attempts_sound rmp_to_vec rmp_from_slice schedule others vm rec good open ctx infos ctx' ex i g
    info args MAX_ATTEMPTS 0 s Hstore Hvm Hcov Htc Hex Hexec Hg Hinfo Hargs Hs) as [Hout Hgood].
  unfold run_graph. destruct (run_attempts _ _ _ _ _ _ _ _ _ _) as [output s']. split; [|exact Hgood]. cbn [fst snd] in *.
  eapply qsafe_bind; [by apply qsafe_exec|]. intros out Hok. cbn beta in Hok.
  destruct (encode_result fmt_f64 base64_encode out) as [r|[e|x]| |] eqn:He; [by exists i, g, out|..]; try done;
    (destruct out as [v|]; [|done]; pose proof (encode_returns fmt_f64 base64_encode plain_config v) as Hr;
     simpl in He; by destruct (encode _ _ _ _)).
Qed.
End Safe.

(** ** The example queries *)
(** The value [bt_collect] has for a key that occurs once. *)
Lemma bt_collect_get {V} (l : list (string * V)) k v : NoDup l.*1 -> (k, v) ∈ l -> bt_get k (bt_collect l) = Some v.
Proof.
  unfold bt_collect. induction l as [|[k' v'] l IH] using rev_ind; intros Hnd Hin; [by apply elem_of_nil in Hin|].
  rewrite foldl_app. cbn [foldl fst snd]. rewrite fmap_app in Hnd. apply NoDup_app in Hnd as (Hnd & Hk & _).
  apply elem_of_app in Hin as [Hin|Hin].
  - rewrite bt_get_insert_ne; [by apply IH|]. intros ->. apply (Hk k).
    + apply list_elem_of_fmap. by exists (k, v).
    + by left.
  - apply list_elem_of_singleton in Hin as [= -> ->]. apply bt_get_insert_eq.
Qed.

(** Types without doubles. *)
Fixpoint no_double (t : VmType) : Prop :=
  match t with
  | TyPrimitive q => q <> Double
  | TyMap m => allP (fun p => no_double p.2) m
  | _ => True
  end.

Section Examples.
Context (base64_decode : string -> option bytes) (Hb64 : base64_decode "" = Some []).

Lemma example_param_decodes t :
  ty_wf t -> no_double t ->
  exists y v, generate_example_param t = Ok y /\ decode base64_decode y t = Ok v.
Proof.
  induction t as [q|n|t IH| |t IH|m IH| |] using vmtype_ind'; intros Hw Hd; try (by eexists _, _).
  - destruct q; try done; eexists _, _; (split; [done|]); cbn; rewrite ?Hb64; done.
  - destruct Hw as [Hs Hw%allP_Forall]. cbn [no_double] in Hd. apply allP_Forall in Hd.
    assert (Hm : exists l, mapM_o (fun p => let? y := generate_example_param p.2 in Ok (p.1, y)) m = Ok l /\
      Forall2 (fun p e => e.1 = p.1 /\ exists v, decode base64_decode e.2 p.2 = Ok v) m l).
    { clear Hs. induction m as [|p m IHm]; [by exists []|]. apply Forall_cons in IH as [Hp IH], Hw as [Hwp Hw], Hd as [Hdp Hd].
      destruct (Hp Hwp Hdp) as (y & v & Hy & Hv). destruct (IHm IH Hw Hd) as (l & Hl & Hf).
      exists ((p.1, y) :: l). cbn [mapM_o]. rewrite Hy. cbn [obind]. rewrite Hl. split; [done|]. constructor; [|done].
      split; [done|]. by exists v. }
    destruct Hm as (l & Hl & Hf). exists (STaggedM (bt_collect l)). cbn [generate_example_param]. rewrite Hl. cbn [obind].
    assert (Hkeys : l.*1 = m.*1) by (clear -Hf; induction Hf as [|p e m l [He _] _ IHf]; [done|]; csimpl; by rewrite He, IHf).
    assert (Hnd : NoDup l.*1) by (rewrite Hkeys; by apply bt_sorted_nodup).
    assert (Hdec : forall acc, exists res, foldM_o (decode_field base64_decode (bt_collect l)) acc m = Ok res).
    { assert (Hall : forall p, p ∈ m -> exists y v, bt_get p.1 (bt_collect l) = Some y /\ decode base64_decode y p.2 = Ok v).
      { intros p (i & Hi)%list_elem_of_lookup. destruct (Forall2_lookup_l _ _ _ _ _ Hf Hi) as ([k y] & Hk & [Hke (v & Hv)]).
        exists y, v. split; [|done]. apply bt_collect_get; [done|]. simpl in Hke. subst k. by eapply list_elem_of_lookup_2. }
      clear -Hall. induction m as [|p m IHm]; intros acc; [by eexists|]. cbn [foldM_o].
      destruct (Hall p) as (y & v & Hy & Hv); [left|]. unfold decode_field at 1. rewrite Hy, Hv. cbn [obind].
      apply IHm. intros p' Hp'. apply Hall. by right. }
    destruct (Hdec []) as [res Hres]. exists (VmMap res). split; [done|]. rewrite decode_map, Hres. done.
Qed.

Lemma example_params_decode raw :
  Forall ty_wf raw -> Forall no_double raw ->
  exists ys, mapM_o generate_example_param raw = Ok ys /\ Forall2 (fun y t => exists v, decode base64_decode y t = Ok v) ys raw.
Proof.
  intros Hw. induction Hw as [|t raw Ht _ IH]; intros Hd; [by exists []|]. apply Forall_cons in Hd as [Hdt Hd].
  destruct (example_param_decodes t Ht Hdt) as (y & v & Hy & Hv). destruct (IH Hd) as (ys & Hys & Hf).
  exists (y :: ys). cbn [mapM_o]. rewrite Hy. cbn [obind]. rewrite Hys. split; [done|]. constructor; [by exists v|done].
Qed.

(** The example of a double is refused. *)
Lemma example_double_refused :
  (let? y := map_err (fun _ => SErr TypeMismatch) (generate_example_param (TyPrimitive Double)) in
   decode base64_decode y (TyPrimitive Double)) = Err SParseInt.
Proof. reflexivity. Qed.
End Examples.

Lemma find_by_name_unique gs off i g :
  NoDup (g_name <$> gs) -> gs !! i = Some g -> find_by_name off gs (g_name g) = Some (off + i, g).
Proof.
  revert off i. induction gs as [|h gs IH]; intros off i Hnd Hi; [done|]. apply NoDup_cons in Hnd as [Hh Hnd]. cbn [find_by_name].
  destruct i as [|i]; cbn in Hi; [injection Hi as ->; by rewrite decide_True, Nat.add_0_r|].
  rewrite decide_False by (intros He; apply Hh; apply list_elem_of_fmap; exists g; by split; [|eapply list_elem_of_lookup_2]).
  rewrite (IH (S off) i Hnd Hi). f_equal. f_equal. lia.
Qed.

Section ExampleRun.
Context (rmp_from_slice : bytes -> anyhow PrimitiveValue) (base64_decode : string -> option bytes).
Context (Hb64 : base64_decode "" = Some []).
Context (vm : TwVm) (infos : list GraphTypeInfo) (ctx ctx' : GlobalTyckContext).
Context (Hwf : declares_wf vm) (Hcov : sccs_cover vm ctx) (Htc : typeck vm ctx = Ok (infos, ctx')).
Context (Hex : exact_script vm infos = true) (Hnames : NoDup (g_name <$> graphs (vm_script vm))).

(** The example query of a graph without parameters of type double is accepted. *)
Lemma example_query_prepared i g raw root :
  graphs (vm_script vm) !! i = Some g -> mapM_opt (fun x => vm_types vm !! x) (param_types g) = Some raw ->
  Forall no_double raw -> generate_root_map (vm_schema vm) (vm_storage_plan vm) = Ok root ->
  exists q ex args, generate_example_query vm g = Ok q /\ vq_graph q = g_name g /\
    prepare_query base64_decode vm infos q = Ok (ex, i, args).
Proof.
  intros Hg Hraw Hd Hroot.
  assert (Hwr : Forall ty_wf raw).
  { apply mapM_opt_Some in Hraw. apply Forall_forall. intros t (j & Hj)%list_elem_of_lookup.
    destruct (Forall2_lookup_r _ _ _ _ _ Hraw Hj) as (o & _ & Ho). by eapply vm_type_wf. }
  destruct (example_params_decode base64_decode Hb64 raw Hwr Hd) as (ys & Hys & Hf).
  destruct (typeck_executor_total vm ctx _ ctx' Hcov Htc Hex) as [ex Hexec].
  assert (Hq : generate_example_query vm g = Ok (MkVmGraphQuery (g_name g) ys)).
  { unfold generate_example_query, graph_param_types. rewrite Hraw. cbn [unwrap obind]. by rewrite Hys. }
  assert (Hargs : exists args, mapM_o (decode_query_param base64_decode vm) (zip ys raw) = Ok args).
  { clear -Hf Hroot. induction Hf as [|y t ys raw (v & Hv) _ (args & Ha)]; [by eexists|].
    change (zip (y :: ys) (t :: raw)) with ((y, t) :: zip ys raw). cbn [mapM_o].
    assert (Hp : exists a, decode_query_param base64_decode vm (y, t) = Ok a).
    { unfold decode_query_param. cbn [fst snd]. destruct t; rewrite ?Hv, ?Hroot; by eexists. }
    destruct Hp as [a ->]. cbn [obind]. rewrite Ha. by eexists. }
  destruct Hargs as [args Hargs]. exists (MkVmGraphQuery (g_name g) ys), ex, args. split; [done|]. split; [done|].
  unfold prepare_query. rewrite Hexec. cbn [of_run failed map_err obind vq_graph vq_params].
  rewrite (find_by_name_unique _ 0 i g) by done. cbn [ok_or obind Nat.add].
  pose proof Hraw as Hl. apply mapM_opt_Some, Forall2_length in Hl. apply Forall2_length in Hf.
  rewrite decide_False by lia.
  unfold graph_param_types. rewrite Hraw. cbn [unwrap obind]. by rewrite Hargs.
Qed.
End ExampleRun.
