(* ===== verification/SourceSem.v ===== *)
(** * The meaning of a script, from its syntax

    A compositional semantics of the syntax tree: an operation is applied to the
    meanings of its operands, names stand for meanings, and a condition is the
    meaning of an expression; there are no nodes, indices or pools.  Its domain [D]
    and the meaning [op] of an operation are parameters.  The meaning of a phrase
    comes with the meanings of all operations performed, in order.
    [generate_graph_means]: evaluating the nodes of the generated graph in order,
    with the same [op], gives the meaning of its source. *)
From stdpp Require Import prelude gmap strings list sorting.
From S2P Require Import Prelude OrdMap Schema StoragePlan Planner Value PathWalker Kv VmValue Bytecode AsmAst Codegen.
From S2P Require Import CodegenFacts.

(** ** Meanings *)
(** A result and the operations performed for it; [None] where the source is not
    accepted. *)
Section Monad.
Context {D : Type}.

Definition Den (A : Type) : Type := option (A * list D).

Definition dret {A} (a : A) : Den A := Some (a, []).

Definition dbind {A B} (m : Den A) (k : A -> Den B) : Den B :=
  match m with
  | Some (a, tr) => match k a with Some (b, tr') => Some (b, tr ++ tr') | None => None end
  | None => None
  end.

Definition dlift {A} (o : option A) : Den A := match o with Some a => dret a | None => None end.

Fixpoint mapM_d {A B} (f : A -> Den B) (l : list A) : Den (list B) :=
  match l with
  | [] => dret []
  | x :: l => dbind (f x) (fun y => dbind (mapM_d f l) (fun ys => dret (y :: ys)))
  end.

Fixpoint each_d {A S} (f : A -> S -> Den S) (l : list A) (st : S) : Den S :=
  match l with
  | [] => dret st
  | x :: l => dbind (f x st) (each_d f l)
  end.
End Monad.
Arguments Den : clear implicits.
Notation "'let^' x := c 'in' k" := (dbind c (fun x => k))
  (at level 10, x pattern, c at level 200, k at level 200,
   format "'[v' 'let^'  x  :=  c  'in' '/' k ']'") : rust_scope.

Definition option_ok {E A} (c : outcome E A) : option A := match c with Ok a => Some a | _ => None end.

(** The position of an element of a list of distinct elements. *)
Fixpoint index_of {A} (eqb : A -> A -> bool) (x : A) (l : list A) : nat :=
  match l with
  | [] => 0
  | y :: l => if eqb x y then 0 else S (index_of eqb x l)
  end.

Section Denote.
Context {D : Type} (op : TwGraphNode -> list D -> option D -> D).
Context (s : TwScript) (aliases : gmap string VmType) (root : AstRoot).
Abbreviation Den := (Den D).

(** Where the script keeps identifiers, constants and types. *)
Definition ident_no (x : string) : nat := index_of String.eqb x (idents s).
Definition const_no (x : VmConst) : nat := index_of const_eqb x (consts s).
Definition type_no (x : VmType) : nat := index_of ty_eqb x (script_types s).

Definition emit (n : TwGraphNode) (operands : list D) (pre : option D) : Den D :=
  let d := op n operands pre in Some (d, [d]).

(** The condition [c] together with the enclosing one. *)
Definition both (pre : option D) (c : D) : Den D :=
  match pre with Some p => emit NAnd [c; p] None | None => dret c end.

(** The meaning of an expression with names [env] under the condition [pre]. *)
Fixpoint denote (env : gmap string D) (pre : option D) (e : Expr) : Den D :=
  match e with
  | MkExpr _ _ kind =>
      match kind with
      | KNode x => dlift (env !! x)
      | KAnd l r => let^ l := denote env pre l in let^ r := denote env pre r in emit NAnd [l; r] pre
      | KOr l r => let^ l := denote env pre l in let^ r := denote env pre r in emit NOr [l; r] pre
      | KEq l r => let^ l := denote env pre l in let^ r := denote env pre r in emit NEq [l; r] pre
      | KNe l r => let^ l := denote env pre l in let^ r := denote env pre r in emit NNe [l; r] pre
      | KAdd l r => let^ l := denote env pre l in let^ r := denote env pre r in emit NAdd [l; r] pre
      | KSub l r => let^ l := denote env pre l in let^ r := denote env pre r in emit NSub [l; r] pre
      | KSelect l r => let^ l := denote env pre l in let^ r := denote env pre r in emit Select [l; r] pre
      | KPrepend l r => let^ l := denote env pre l in let^ r := denote env pre r in emit PrependToList [l; r] pre
      | KNot x => let^ x := denote env pre x in emit NNot [x] pre
      | KIsPresent x => let^ x := denote env pre x in emit IsPresent [x] pre
      | KIsNull x => let^ x := denote env pre x in emit IsNull [x] pre
      | KPop x => let^ x := denote env pre x in emit PopFromList [x] pre
      | KHead x => let^ x := denote env pre x in emit ListHead [x] pre
      | KBuildSet x => let^ x := denote env pre x in emit BuildSet [x] pre
      | KCreateMap => emit CreateMap [] pre
      | KCreateList ty =>
          let^ t := dlift (option_ok (generate_vmtype aliases ty)) in emit (CreateList (type_no t)) [] pre
      | KLoadConst x =>
          let^ c := dlift (option_ok (literal_to_vmconst aliases x)) in emit (LoadConst (const_no c)) [] pre
      | KBuildTable ty map =>
          let^ t := dlift (option_ok (format_type_for_table ty)) in
          let^ map := denote env pre map in emit (BuildTable (ident_no t)) [map] pre
      | KDeleteFromMap field map => let^ map := denote env pre map in emit (DeleteFromMap (ident_no field)) [map] pre
      | KGetField field x => let^ x := denote env pre x in emit (GetField (ident_no field)) [x] pre
      | KInsertIntoMap field v map =>
          let^ v := denote env pre v in let^ map := denote env pre map in emit (InsertIntoMap (ident_no field)) [v; map] pre
      | KInsertIntoTable field table v =>
          let^ table := denote env pre table in let^ v := denote env pre v in
          emit (InsertIntoTable (ident_no field)) [v; table] pre
      | KGetSetElement set selector =>
          let^ set := denote env pre set in let^ selector := denote env pre selector in
          emit GetSetElement [selector; set] pre
      | KDeleteFromSet set selector =>
          let^ set := denote env pre set in let^ selector := denote env pre selector in
          emit DeleteFromSet [selector; set] pre
      | KInsertIntoSet set v =>
          let^ set := denote env pre set in let^ v := denote env pre v in emit InsertIntoSet [v; set] pre
      | KCall target_graph params =>
          let^ i := dlift (find_graph 0 (root_graphs root) target_graph) in
          let^ params := mapM_d (denote env pre) params in emit (Call i) params pre
      | KReduce target_graph subgraph_param reduce_init list_or_set =>
          let^ i := dlift (find_graph 0 (root_graphs root) target_graph) in
          let^ a := denote env pre subgraph_param in let^ b := denote env pre reduce_init in
          let^ c := denote env pre list_or_set in emit (Reduce i false) [a; b; c] pre
      | KRangeReduce target_graph range_start range_end subgraph_param reduce_init list_or_set =>
          let^ i := dlift (find_graph 0 (root_graphs root) target_graph) in
          let^ a := denote env pre subgraph_param in let^ b := denote env pre reduce_init in
          let^ c := denote env pre list_or_set in let^ d := denote env pre range_start in
          let^ e := denote env pre range_end in emit (Reduce i true) [a; b; c; d; e] pre
      | KOrElse l r =>
          let^ l := denote env pre l in
          let^ null := emit IsNull [l] None in
          let^ notnull := emit NNot [null] None in
          let^ c := both pre null in
          let^ r := denote env (Some c) r in
          let^ c := both pre notnull in
          let^ l := emit Nop [l] (Some c) in
          emit Select [r; l] pre
      end
  end.

Definition is_variable (e : Expr) : bool := match e with MkExpr _ _ (KNode _) => true | _ => false end.

(** A definition names its meaning; one that is only a variable is forgotten. *)
Definition define (name : option string) (e : Expr) (d : D) (env : gmap string D) : gmap string D :=
  match name with
  | Some x => if is_variable e then env else <[x := d]> env
  | None => env
  end.

(** Names and the returned meaning. *)
Abbreviation Locals := (gmap string D * option D)%type.

Fixpoint denote_stmt (pre : option D) (stmt : Stmt) (st : Locals) : Den Locals :=
  match stmt with
  | MkStmt _ kind =>
      match kind with
      | SReturn value =>
          let^ d := denote st.1 pre value in
          match st.2 with Some _ => None | None => dret (st.1, Some d) end
      | SNode name value => let^ d := denote st.1 pre value in dret (define name value d st.1, st.2)
      | SThrow value => let^ d := denote st.1 pre value in let^ _ := emit Throw [d] pre in dret st
      | SIf precondition if_body else_body =>
          let^ p := denote st.1 pre precondition in
          let^ c := both pre p in
          let^ st := each_d (denote_stmt (Some c)) if_body st in
          match else_body with
          | Some else_body =>
              let^ q := emit NNot [p] None in
              let^ c := both pre q in
              each_d (denote_stmt (Some c)) else_body st
          | None => dret st
          end
      end
  end.

Fixpoint denote_params (i : nat) (params : list (string * option AstType)) (env : gmap string D) : Den (gmap string D) :=
  match params with
  | [] => dret env
  | (p, _) :: params => let^ d := emit (LoadParam i) [] None in denote_params (S i) params (<[p := d]> env)
  end.

(** The meaning of a graph: the returned meaning, and all operations. *)
Definition denote_graph (g : AstGraph) : Den (option D) :=
  let^ env := denote_params 0 (ag_params g) ∅ in
  let^ st := each_d (denote_stmt None) (ag_stmts g) (env, None) in dret st.2.

(** ** Evaluation of nodes *)
Definition eval_node (V : list D) (n : GNode) : D :=
  op (gn_node n) (omap (V !!.) (in_edges n)) (precondition n ≫= (V !!.)).

Fixpoint eval_nodes (V : list D) (ns : list GNode) : list D :=
  match ns with
  | [] => V
  | n :: ns => eval_nodes (V ++ [eval_node V n]) ns
  end.

Lemma eval_nodes_app V ns ms : eval_nodes V (ns ++ ms) = eval_nodes (eval_nodes V ns) ms.
Proof. revert V. induction ns as [|n ns IH]; intros V; simpl; [done|apply IH]. Qed.
End Denote.

(** ** The code generator only adds to the pools *)
Class Mono {A} (m : Gen A) : Prop := mono c a c' : m c = Ok (a, c') -> builder_le (builder c) (builder c').

Lemma gbind_ok {A B} (m : Gen A) (k : A -> Gen B) c r :
  gbind m k c = Ok r -> exists a c', m c = Ok (a, c') /\ k a c' = Ok r.
Proof. unfold gbind. intros ([a c'] & Hm & Hk)%obind_ok. eauto. Qed.

Lemma pool_alloc_suffix {K} (eqb : K -> K -> bool) pool k i pool' :
  pool_alloc eqb pool k = (i, pool') -> pool `suffix_of` pool'.
Proof. unfold pool_alloc. destruct (pool_get eqb k pool); intros [= _ <-]; [done|by apply suffix_cons_r]. Qed.

#[export] Instance mono_ret {A} (a : A) : Mono (gret a).
Proof. by intros c ? ? [= <- <-]. Qed.

#[export] Instance mono_bind {A B} (m : Gen A) (k : A -> Gen B) : Mono m -> (forall a, Mono (k a)) -> Mono (gbind m k).
Proof. intros Hm Hk c b c' (a & c1 & H1 & H2)%gbind_ok. etrans; [by eapply Hm|by eapply Hk]. Qed.

#[export] Instance mono_lift {A} (m : ares A) : Mono (glift m).
Proof. intros c a c' (? & _ & [= <- <-])%obind_ok. done. Qed.

#[export] Instance mono_aliases {A} (f : gmap string VmType -> ares A) : Mono (with_aliases f).
Proof. intros c a c' (? & _ & [= <- <-])%obind_ok. done. Qed.

#[export] Instance mono_ident x : Mono (on_builder (fun b => alloc_ident b x)).
Proof.
  intros c a c'. unfold on_builder, alloc_ident. destruct (pool_alloc _ _ _) as [i pool] eqn:E. intros [= <- <-].
  apply pool_alloc_suffix in E. by split_and!.
Qed.

#[export] Instance mono_const x : Mono (on_builder (fun b => alloc_const b x)).
Proof.
  intros c a c'. unfold on_builder, alloc_const. destruct (pool_alloc _ _ _) as [i pool] eqn:E. intros [= <- <-].
  apply pool_alloc_suffix in E. by split_and!.
Qed.

#[export] Instance mono_vmtype x : Mono (on_builder (fun b => alloc_vmtype b x)).
Proof.
  intros c a c'. unfold on_builder, alloc_vmtype. destruct (pool_alloc _ _ _) as [i pool] eqn:E. intros [= <- <-].
  apply pool_alloc_suffix in E. by split_and!.
Qed.

#[export] Instance mono_push n es p name : Mono (push_node n es p name).
Proof. intros c a c'. unfold push_node. destruct name as [x|]; [destruct (names c !! x); [done|]|]; by intros [= _ <-]. Qed.

#[export] Instance mono_lookup x : Mono (lookup_node x).
Proof. intros c a c' (? & _ & [= <- <-])%obind_ok. done. Qed.

#[export] Instance mono_last : Mono last_condition.
Proof. by intros c a c' [= <- <-]. Qed.

#[export] Instance mono_push_condition i : Mono (push_condition i).
Proof. by intros c a c' [= <- <-]. Qed.

#[export] Instance mono_pop_condition : Mono pop_condition.
Proof. intros c a c'. unfold pop_condition. destruct (condition_stack c); by intros [= <- <-]. Qed.

#[export] Instance mono_condition i : Mono (generate_condition i).
Proof. apply mono_bind; [apply _|]. intros [l|]; apply _. Qed.

#[export] Instance mono_graph_index root name : Mono (graph_index root name).
Proof. apply _. Qed.

#[export] Instance mono_set_output i : Mono (set_output i).
Proof. intros c a c'. unfold set_output. destruct (output (target c)); by intros [= <- <-]. Qed.

Lemma mono_mapM {A B} (f : A -> Gen B) l : Forall (fun x => Mono (f x)) l -> Mono (mapM_g f l).
Proof. induction 1; cbn [mapM_g]; apply _. Qed.

Lemma mono_each {A} (f : A -> Gen unit) l : Forall (fun x => Mono (f x)) l -> Mono (each_g f l).
Proof. induction 1; cbn [each_g]; apply _. Qed.

#[export] Instance mono_expr root name e : Mono (generate_expr root name e).
Proof.
  revert name. induction e as [a b k IH] using expr_ind'. intros name. cbn [generate_expr]. apply mono_bind; [apply _|]. intros pre.
  destruct k; cbn [operands] in IH; destruct_and?; try apply _.
  apply mono_bind; [apply _|]. intros i. apply mono_bind; [|apply _]. apply mono_mapM.
  eapply Forall_impl; [exact IH|]. by intros.
Qed.

#[export] Instance mono_exprs root l : Mono (mapM_g (generate_expr root None) l).
Proof. apply mono_mapM, Forall_forall. intros. apply _. Qed.

#[export] Instance mono_stmt root s : Mono (generate_stmt root s).
Proof.
  induction s as [a k IH] using stmt_ind'. cbn [generate_stmt]. destruct k as [v|name v|p b e|v]; cbn [bodies] in IH; try apply _.
  destruct IH as [Hb He]. apply mono_each in Hb. destruct e as [e|]; [apply mono_each in He|]; apply _.
Qed.

#[export] Instance mono_body root l : Mono (each_g (generate_stmt root) l).
Proof. apply mono_each, Forall_forall. intros. apply _. Qed.

(** ** Numbering *)
Section Index.
Context {K : Type} (eqb : K -> K -> bool) (Heqb : forall a b, eqb a b = true <-> a = b).

Lemma index_of_lookup k (l : list K) i : NoDup l -> l !! i = Some k -> index_of eqb k l = i.
Proof.
  intros Hn. revert i. induction Hn as [|y l Hy Hn IH]; intros [|i] Hi; try done; simpl in *.
  - injection Hi as ->. assert (eqb k k = true) as -> by by apply Heqb. done.
  - destruct (eqb k y) eqn:E; [|by rewrite (IH i)]. apply Heqb in E as ->. exfalso. apply Hy. by eapply list_elem_of_lookup_2.
Qed.

Lemma index_of_pool pool pool' k i :
  pool_alloc eqb pool k = (i, pool') -> forall final, pool' `suffix_of` final -> pool_ok final ->
  index_of eqb k (emit_pool final) = i.
Proof.
  intros Ha final [ext ->] Hok.
  assert (Hin : (k, i) ∈ pool').
  { unfold pool_alloc in Ha. destruct (pool_get eqb k pool) as [x|] eqn:E; injection Ha as <- <-; [|by left].
    by apply (pool_get_Some eqb Heqb). }
  apply index_of_lookup.
  - rewrite (emit_pool_perm _ _ Hok) by done. rewrite reverse_Permutation. apply Hok.
  - apply emit_pool_lookup; [done|]. apply elem_of_app. by right.
Qed.
End Index.

(** ** The generated nodes mean what the source means *)
Section Refine.
Context {D : Type} (op : TwGraphNode -> list D -> option D -> D).
Context (root : AstRoot) (s : TwScript) (final : Builder) (Hfinal : builder_ok final).
Context (Hidents : idents s = emit_pool (ident_pool final)) (Hconsts : consts s = emit_pool (const_pool final)).
Context (Htypes : script_types s = emit_pool (vmtype_pool final)).

Abbreviation denote := (denote op s (type_aliases final) root).
Abbreviation emit := (emit op).
Abbreviation both := (both op).
Abbreviation meanings c := (eval_nodes op [] (ctx_nodes c)).

(** The results of [m] from [c] and of [r] are related by [Q], and the nodes that
    [m] adds mean the operations of [r]. *)
Definition means {A A'} (c : GraphContext) (m : Gen A) (r : Den D A') (Q : A -> A' -> GraphContext -> Prop) : Prop :=
  forall a c', m c = Ok (a, c') -> builder_le (builder c') final ->
  exists a' tr, r = Some (a', tr) /\ meanings c' = meanings c ++ tr /\ Q a a' c'.

Lemma means_bind {A B A' B'} c (m : Gen A) (k : A -> Gen B) (r : Den D A') (k' : A' -> Den D B') P Q :
  (forall a, Mono (k a)) -> means c m r P ->
  (forall a a' c', meanings c `prefix_of` meanings c' -> P a a' c' -> means c' (k a) (k' a') Q) ->
  means c (gbind m k) (dbind r k') Q.
Proof.
  intros Hmono Hm Hk b c'' (a & c' & H1 & H2)%gbind_ok Hle.
  destruct (Hm a c' H1) as (a' & tr & -> & Htr & HP); [etrans; [by eapply Hmono|done]|].
  destruct (Hk a a' c') with b c'' as (b' & tr' & Hr & Htr' & HQ); [by rewrite Htr; eexists|done..|].
  exists b', (tr ++ tr'). unfold dbind. rewrite Hr, Htr', Htr, app_assoc. done.
Qed.

(** A step of the generator with no meaning of its own. *)
Lemma means_silent {A B B'} c (m : Gen A) (k : A -> Gen B) (r : Den D B') Q :
  (forall a, Mono (k a)) ->
  (forall a c', m c = Ok (a, c') -> builder_le (builder c') final ->
     meanings c' = meanings c /\ means c' (k a) r Q) ->
  means c (gbind m k) r Q.
Proof.
  intros Hmono Hm b c'' (a & c' & H1 & H2)%gbind_ok Hle.
  destruct (Hm a c' H1) as [He Hk]; [etrans; [by eapply Hmono|done]|].
  destruct (Hk b c'' H2 Hle) as (b' & tr & -> & Htr & HQ). exists b', tr. by rewrite Htr, He.
Qed.

Lemma means_ret {A A'} c (a : A) (a' : A') (Q : A -> A' -> GraphContext -> Prop) : Q a a' c -> means c (gret a) (dret a') Q.
Proof. intros HQ b c' [= <- <-] _. exists a', []. by rewrite app_nil_r. Qed.

Lemma means_weaken {A A'} c (m : Gen A) (r : Den D A') (P Q : A -> A' -> GraphContext -> Prop) :
  means c m r P -> (forall a a' c', meanings c `prefix_of` meanings c' -> P a a' c' -> Q a a' c') -> means c m r Q.
Proof.
  intros Hm HPQ a c' Ha Hle. destruct (Hm a c' Ha Hle) as (a' & tr & Hr & Htr & HP). exists a', tr.
  split; [done|]. split; [done|]. apply HPQ; [|done]. rewrite Htr. by eexists.
Qed.

(** The same names, conditions and returned node. *)
Record keeps (c c' : GraphContext) : Prop := {
  kp_stack : condition_stack c' = condition_stack c;
  kp_names : names c' = names c;
  kp_output : output (target c') = output (target c)
}.

#[export] Instance keeps_preorder : PreOrder keeps.
Proof. split; [by intros c|]. intros a b c [? ? ?] [? ? ?]. split; congruence. Qed.

(** Node [i] means [d]. *)
Definition node_means (c : GraphContext) (i : nat) (d : D) : Prop := meanings c !! i = Some d.

Lemma node_means_prefix c c' i d : meanings c `prefix_of` meanings c' -> node_means c i d -> node_means c' i d.
Proof. intros [tr He] Hi. unfold node_means in *. rewrite He. by apply lookup_app_l_Some. Qed.

(** The names and the condition of [c] mean [env] and [pre]. *)
Record ctx_means (c : GraphContext) (env : gmap string D) (pre : option D) : Prop := {
  cm_names : forall x i, names c !! x = Some i -> exists d, env !! x = Some d /\ node_means c i d;
  cm_fresh : forall x, names c !! x = None -> env !! x = None;
  cm_pre : match head (condition_stack c) with
           | Some i => exists d, pre = Some d /\ node_means c i d
           | None => pre = None
           end
}.

Lemma ctx_means_keeps c c' env pre :
  meanings c `prefix_of` meanings c' -> keeps c c' -> ctx_means c env pre -> ctx_means c' env pre.
Proof.
  intros Hp [Hs Hn _] [H1 H2 H3]. split.
  - intros x i. rewrite Hn. intros (d & ? & ?)%H1. exists d. split; [done|]. by eapply node_means_prefix.
  - intros x. rewrite Hn. apply H2.
  - rewrite Hs. destruct (head _); [|done]. destruct H3 as (d & ? & ?). exists d. split; [done|]. by eapply node_means_prefix.
Qed.

Lemma ctx_means_same c c' env pre :
  ctx_means c env pre -> meanings c = meanings c' -> keeps c c' -> ctx_means c' env pre.
Proof. intros Hc He Hk. eapply ctx_means_keeps; [|done..]. rewrite He. done. Qed.

(** A node that is pushed without a name. *)
Definition operands_mean (c : GraphContext) (es : list nat) (ds : list D) : Prop := Forall2 (node_means c) es ds.

Lemma operands_omap c es ds : operands_mean c es ds -> omap (meanings c !!.) es = ds.
Proof. induction 1 as [|i d es ds Hi _ IH]; csimpl; [done|]. by rewrite Hi, IH. Qed.

Definition pre_means (c : GraphContext) (p : option nat) (pre : option D) : Prop :=
  match p with Some i => exists d, pre = Some d /\ node_means c i d | None => pre = None end.

Lemma pre_bind c p pre : pre_means c p pre -> p ≫= (meanings c !!.) = pre.
Proof. destruct p as [i|]; simpl; [intros (d & -> & Hi); exact Hi|done]. Qed.

Definition bound (name : option string) (i : nat) (m : gmap string nat) : gmap string nat :=
  match name with Some x => <[x := i]> m | None => m end.

Lemma means_push c n es p name ds pre :
  operands_mean c es ds -> pre_means c p pre ->
  means c (push_node n es p name) (emit n ds pre)
    (fun i d c' => node_means c' i d /\ condition_stack c' = condition_stack c /\
       names c' = bound name i (names c) /\ output (target c') = output (target c)).
Proof.
  intros He Hp i c' Hi _. unfold push_node in Hi. set (c1 := set_nodes _ _) in Hi.
  assert (Hc : eval_nodes op [] (g_nodes c1) = meanings c ++ [op n ds pre]).
  { unfold c1. cbn [set_nodes g_nodes]. rewrite eval_nodes_app. cbn [eval_nodes]. unfold eval_node.
    cbn [gn_node in_edges precondition]. by rewrite (operands_omap _ _ _ He), (pre_bind _ _ _ Hp). }
  assert (Hlen : forall V ns, length (eval_nodes op V ns) = length V + length ns).
  { intros V ns. revert V. induction ns as [|m ns IH]; intros V; simpl; [lia|]. rewrite IH, length_app. simpl. lia. }
  assert (Hl : (meanings c ++ [op n ds pre]) !! length (ctx_nodes c) = Some (op n ds pre)).
  { rewrite lookup_app_r by (rewrite Hlen; simpl; lia). rewrite Hlen. simpl. by rewrite Nat.sub_diag. }
  exists (op n ds pre), [op n ds pre]. split; [done|].
  destruct name as [x|]; [destruct (names c !! x); [done|]|]; injection Hi as <- <-; unfold node_means;
    cbn [target condition_stack names bound]; rewrite Hc; done.
Qed.

(** *** The steps without a meaning *)
Lemma means_last {B B'} c (k : option nat -> Gen B) (r : Den D B') Q :
  (forall a, Mono (k a)) -> means c (k (head (condition_stack c))) r Q -> means c (gbind last_condition k) r Q.
Proof. intros Hm Hk. apply means_silent; [done|]. intros a c' [= <- <-] _. done. Qed.

Ltac alloc := intros Hm Hk; apply means_silent; [done|]; intros i c';
  unfold on_builder, alloc_ident, alloc_const, alloc_vmtype;
  destruct (pool_alloc _ _ _) as [j pool] eqn:E; intros [= <- <-] Hle; split; [done|]; destruct Hle as (? & ? & ? & ?);
  simpl in *.

Lemma means_ident {B B'} c x (k : nat -> Gen B) (r : Den D B') Q :
  (forall a, Mono (k a)) -> (forall c', meanings c = meanings c' -> keeps c c' -> means c' (k (ident_no s x)) r Q) ->
  means c (gbind (on_builder (fun b => alloc_ident b x)) k) r Q.
Proof.
  alloc. assert (ident_no s x = j) as <-; [|by apply Hk]. unfold ident_no. rewrite Hidents.
  by eapply (index_of_pool String.eqb String.eqb_eq); [exact E| |apply Hfinal].
Qed.

Lemma means_const {B B'} c x (k : nat -> Gen B) (r : Den D B') Q :
  (forall a, Mono (k a)) -> (forall c', meanings c = meanings c' -> keeps c c' -> means c' (k (const_no s x)) r Q) ->
  means c (gbind (on_builder (fun b => alloc_const b x)) k) r Q.
Proof.
  alloc. assert (const_no s x = j) as <-; [|by apply Hk]. unfold const_no. rewrite Hconsts.
  by eapply (index_of_pool const_eqb const_eqb_eq); [exact E| |apply Hfinal].
Qed.

Lemma means_vmtype {B B'} c x (k : nat -> Gen B) (r : Den D B') Q :
  (forall a, Mono (k a)) -> (forall c', meanings c = meanings c' -> keeps c c' -> means c' (k (type_no s x)) r Q) ->
  means c (gbind (on_builder (fun b => alloc_vmtype b x)) k) r Q.
Proof.
  alloc. assert (type_no s x = j) as <-; [|by apply Hk]. unfold type_no. rewrite Htypes.
  by eapply (index_of_pool ty_eqb ty_eqb_eq); [exact E| |apply Hfinal].
Qed.

Lemma means_lift {A B B'} c (m : ares A) (k : A -> Gen B) (k' : A -> Den D B') Q :
  (forall a, Mono (k a)) -> (forall a, means c (k a) (k' a) Q) ->
  means c (gbind (glift m) k) (dbind (dlift (option_ok m)) k') Q.
Proof.
  intros Hm Hk. apply means_silent; [done|]. intros a c' (a' & -> & [= <- <-])%obind_ok _. split; [done|].
  intros b c'' Hb Hle. destruct (Hk a' b c'' Hb Hle) as (b' & tr & Hr & ? & ?). exists b', tr. cbn [option_ok dlift dbind dret].
  by rewrite Hr.
Qed.

Lemma means_aliases {A B B'} c (f : gmap string VmType -> ares A) (k : A -> Gen B) (k' : A -> Den D B') Q :
  (forall a, Mono (k a)) -> (forall a, means c (k a) (k' a) Q) ->
  means c (gbind (with_aliases f) k) (dbind (dlift (option_ok (f (type_aliases final)))) k') Q.
Proof.
  intros Hm Hk. apply means_silent; [done|]. intros a c' (a' & Ha & [= <- <-])%obind_ok Hle. split; [done|].
  destruct Hle as (_ & _ & _ & <-). rewrite Ha.
  intros b c'' Hb Hle. destruct (Hk a' b c'' Hb Hle) as (b' & tr & Hr & ? & ?). exists b', tr. cbn [option_ok dlift dbind dret].
  by rewrite Hr.
Qed.

Lemma means_graph_index {B B'} c x (k : nat -> Gen B) (k' : nat -> Den D B') Q :
  (forall a, Mono (k a)) -> (forall i, means c (k i) (k' i) Q) ->
  means c (gbind (graph_index root x) k) (dbind (dlift (find_graph 0 (root_graphs root) x)) k') Q.
Proof.
  intros Hm Hk. assert (Ho : find_graph 0 (root_graphs root) x = option_ok (ok_or (find_graph 0 (root_graphs root) x) (GraphNotFound x))).
  { by destruct (find_graph _ _ _). }
  rewrite Ho. by apply means_lift.
Qed.

(** *** Expressions *)
Definition expr_post (c : GraphContext) (name : option string) (i : nat) (d : D) (c' : GraphContext) : Prop :=
  node_means c' i d /\ condition_stack c' = condition_stack c /\ names c' = bound name i (names c) /\
  output (target c') = output (target c).

Definition expr_means (e : Expr) : Prop := forall name c env pre, ctx_means c env pre ->
  means c (generate_expr root name e) (denote env pre e) (expr_post c (if is_variable e then None else name)).

Lemma means_operand {B B'} e c env pre (k : nat -> Gen B) (k' : D -> Den D B') Q :
  expr_means e -> ctx_means c env pre -> (forall a, Mono (k a)) ->
  (forall i d c', meanings c `prefix_of` meanings c' -> keeps c c' -> ctx_means c' env pre -> node_means c' i d ->
     means c' (k i) (k' d) Q) ->
  means c (gbind (generate_expr root None e) k) (dbind (denote env pre e) k') Q.
Proof.
  intros He Hc Hm Hk. eapply means_bind; [done|by apply He|]. intros i d c' Hp (Hi & Hs & Hn & Ho).
  assert (Hn' : names c' = names c) by (by destruct (is_variable e)).
  apply Hk; [done| | |done]; [done|]. by eapply ctx_means_keeps.
Qed.

(** A node that is pushed on the way. *)
Lemma means_emit {B B'} c n es p ds dp env pre (k : nat -> Gen B) (k' : D -> Den D B') Q :
  operands_mean c es ds -> pre_means c p dp -> ctx_means c env pre -> (forall a, Mono (k a)) ->
  (forall i d c', meanings c `prefix_of` meanings c' -> keeps c c' -> ctx_means c' env pre -> node_means c' i d ->
     means c' (k i) (k' d) Q) ->
  means c (gbind (push_node n es p None) k) (dbind (emit n ds dp) k') Q.
Proof.
  intros He Hp Hc Hm Hk. eapply means_bind; [done|by apply means_push|]. intros i d c' Hpre (Hi & Hs & Hn & Ho).
  apply Hk; [done| | |done]; [done|]. by eapply ctx_means_keeps.
Qed.

Lemma means_both {B B'} c i d env pre (k : nat -> Gen B) (k' : D -> Den D B') Q :
  node_means c i d -> ctx_means c env pre -> (forall a, Mono (k a)) ->
  (forall i d c', meanings c `prefix_of` meanings c' -> keeps c c' -> ctx_means c' env pre -> node_means c' i d ->
     means c' (k i) (k' d) Q) ->
  means c (gbind (generate_condition i) k) (dbind (both pre d) k') Q.
Proof.
  intros Hi Hc Hm Hk.
  eapply (means_bind _ _ _ _ _ (fun j d' c' => node_means c' j d' /\ keeps c c')); [done| |].
  - apply means_last; [intros [?|]; apply _|]. pose proof (cm_pre _ _ _ Hc) as Hp. destruct (head (condition_stack c)) as [l|].
    + destruct Hp as (p & -> & Hl). eapply means_weaken; [apply means_push; [by repeat constructor|done]|].
      by intros j d' c' _ (? & ? & ? & ?).
    + rewrite Hp. by apply means_ret.
  - intros j d' c' Hpre [Hj Hkp]. apply Hk; [done..| |done]. by eapply ctx_means_keeps.
Qed.

(** The node of the whole expression. *)
Lemma means_top c0 c n es name ds env pre :
  keeps c0 c -> ctx_means c env pre -> operands_mean c es ds ->
  means c (push_node n es (head (condition_stack c0)) name) (emit n ds pre) (expr_post c0 name).
Proof.
  intros [Hs Hn Ho] Hc He. eapply means_weaken.
  - apply means_push; [done|]. pose proof (cm_pre _ _ _ Hc) as Hp. rewrite <- Hs. exact Hp.
  - intros i d c' _ (? & ? & ? & ?). split_and!; [done|congruence..].
Qed.

(** Facts about the nodes of an earlier state hold in the last one. *)
Ltac transport Hp := repeat match goal with
  | Hx : node_means ?c _ _, Hp' : meanings ?c `prefix_of` meanings ?c' |- _ =>
      first [constr_eq Hp Hp'; apply (node_means_prefix c c' _ _ Hp) in Hx]
  end.

Ltac operands_done := repeat (constructor; [assumption|]); constructor.

Ltac keeps_chain := first [eassumption | reflexivity | etransitivity; [|eassumption]; keeps_chain].

Ltac mstep IH :=
  let i := fresh "i" in let d := fresh "d" in let c := fresh "c" in
  let Hp := fresh "Hp" in let Hk := fresh "Hk" in let Hc := fresh "Hc" in let Hi := fresh "Hi" in
  first
  [ eapply means_operand; [by apply IH|eassumption|intros; apply _|intros i d c Hp Hk Hc Hi; transport Hp]
  | eapply means_emit;
    [operands_done|first [reflexivity|eexists; split; [reflexivity|eassumption]]|eassumption|intros; apply _
    |intros i d c Hp Hk Hc Hi; transport Hp]
  | eapply means_both; [eassumption|eassumption|intros; apply _|intros i d c Hp Hk Hc Hi; transport Hp]
  | apply means_lift; [intros; apply _|intros i]
  | apply means_aliases; [intros; apply _|intros i]
  | apply means_graph_index; [intros; apply _|intros i]
  | match goal with Hc0 : ctx_means ?c0 ?env ?pre |- means ?c0 (gbind (on_builder _) _) _ _ =>
      first [apply means_ident|apply means_const|apply means_vmtype];
      [intros; apply _|intros c Hp Hk; assert (Hc : ctx_means c env pre) by (by apply (ctx_means_same c0))]
    end ].

Lemma means_operands l c env pre : Forall expr_means l -> ctx_means c env pre ->
  means c (mapM_g (generate_expr root None) l) (mapM_d (denote env pre) l)
    (fun js ds c' => operands_mean c' js ds /\ keeps c c').
Proof.
  intros Hl. revert c. induction Hl as [|e l He Hl IH]; intros c Hc; cbn [mapM_g mapM_d]; [apply means_ret; by split; [constructor|]|].
  eapply means_operand; [done|done|intros; apply _|].
  intros i d c1 Hp1 Hk1 Hc1 Hi. eapply means_bind; [intros; apply _|by apply IH|].
  intros js ds c2 Hp2 [Hjs Hk2]. apply means_ret. split; [|by etrans]. constructor; [by eapply node_means_prefix|done].
Qed.

(** Steps under a condition of their own. *)
Lemma means_under {A B A' B'} c i (m : Gen A) (k : A -> Gen B) (r : Den D A') (k' : A' -> Den D B') P Q :
  Mono m -> (forall a, Mono (k a)) ->
  (forall c1, meanings c = meanings c1 -> condition_stack c1 = i :: condition_stack c -> names c1 = names c ->
     output (target c1) = output (target c) ->
     means c1 m r (fun a a' c' => condition_stack c' = condition_stack c1 /\ P a a' (names c') (target c'))) ->
  (forall a a' c', meanings c `prefix_of` meanings c' -> condition_stack c' = condition_stack c ->
     P a a' (names c') (target c') -> means c' (k a) (k' a') Q) ->
  means c (let! _ := push_condition i in let! a := m in let! _ := pop_condition in k a) (dbind r k') Q.
Proof.
  intros Hmono Hmk Hm Hk. apply means_silent; [intros; apply _|]. intros [] c1 [= <-] _. split; [done|].
  set (c1 := MkGraphContext _ _ _ _).
  eapply means_bind; [intros; apply _|by apply Hm|]. intros a a' c2 Hp [Hs HP]. cbn [c1 condition_stack] in Hs.
  apply means_silent; [done|]. intros [] c3 Hc3 _. unfold pop_condition in Hc3. rewrite Hs in Hc3. injection Hc3 as <-.
  split; [done|]. by apply Hk.
Qed.

Lemma ctx_means_under c c1 i d env pre :
  ctx_means c env pre -> node_means c i d -> meanings c = meanings c1 -> condition_stack c1 = i :: condition_stack c ->
  names c1 = names c -> ctx_means c1 env (Some d).
Proof.
  intros [H1 H2 _] Hi He Hs Hn. unfold node_means in *. rewrite He in *. split; rewrite ?Hn; [done|done|].
  rewrite Hs. by exists d.
Qed.

Lemma expr_means_all e : expr_means e.
Proof.
  induction e as [a b k IH] using expr_ind'. intros name c0 env pre Hc. assert (Hk0 : keeps c0 c0) by done.
  destruct k; cbn [operands] in IH; rewrite ?and_assoc in IH; cbn [generate_expr SourceSem.denote is_variable];
    (apply means_last; [intros; apply _|]).
  all: try (repeat mstep IH; eapply means_top; [keeps_chain|eassumption|operands_done]; fail).
  - (* a variable *)
    intros i c' (i' & Hi & [= <- <-])%obind_ok _. apply ok_or_ok in Hi.
    destruct (cm_names _ _ _ Hc _ _ Hi) as (d & Hd & Hm). exists d, []. rewrite Hd, app_nil_r. by split_and!.
  - (* [l ?? r] *)
    do 4 mstep IH.
    eapply (means_under _ _ _ _ _ _ (fun i d ns g => eval_nodes op [] (g_nodes g) !! i = Some d /\ ns = names c0 /\
      output g = output (target c0))); [apply _|intros; apply _| |].
    + intros c5 He5 Hs5 Hn5 Ho5. eapply means_weaken; [apply IH; by eapply ctx_means_under|].
      intros j d' c6 _ (Hj & Hs & Hn & Ho). assert (keeps c0 c3) as [] by keeps_chain.
      split_and!; [done|done| |congruence]. rewrite Hn. destruct (is_variable r); cbn [bound]; congruence.
    + intros j d' c5 Hp5 Hs5 (Hj & Hn5 & Ho5). transport Hp5.
      assert (Hk5 : keeps c3 c5) by (assert (keeps c0 c3) as [] by keeps_chain; split; congruence).
      assert (Hc6 : ctx_means c5 env pre) by (by apply (ctx_means_keeps c3)).
      change (node_means c5 j d') in Hj. do 2 mstep IH. eapply means_top; [keeps_chain|eassumption|operands_done].
  - (* a call *)
    mstep IH. eapply means_bind; [intros; apply _|by apply means_operands|]. intros js ds c1 Hp1 [Hjs Hk1].
    eapply means_top; [done|by eapply ctx_means_keeps|done].
Qed.

(** *** Statements *)
Abbreviation denote_stmt := (denote_stmt op s (type_aliases final) root).
Abbreviation Locals := (gmap string D * option D)%type.

(** The names and the output of a graph under construction mean [st]. *)
Record locals_mean (ns : gmap string nat) (g : TwGraph) (st : Locals) : Prop := {
  lm_names : forall x i, ns !! x = Some i -> exists d, st.1 !! x = Some d /\ eval_nodes op [] (g_nodes g) !! i = Some d;
  lm_fresh : forall x, ns !! x = None -> st.1 !! x = None;
  lm_output : match output g with
              | Some o => exists d, st.2 = Some d /\ eval_nodes op [] (g_nodes g) !! o = Some d
              | None => st.2 = None
              end
}.

Abbreviation locals c := (locals_mean (names c) (target c)).
Abbreviation condition c := (pre_means c (head (condition_stack c))).

Lemma locals_ctx c st pre : locals c st -> condition c pre -> ctx_means c st.1 pre.
Proof. intros [H1 H2 _] Hp. by split. Qed.

Lemma condition_prefix c c' pre :
  meanings c `prefix_of` meanings c' -> condition_stack c' = condition_stack c -> condition c pre -> condition c' pre.
Proof.
  intros Hp ->. destruct (head _); [|done]. intros (d & -> & Hd). exists d. split; [done|]. by eapply node_means_prefix.
Qed.

Lemma locals_keeps c c' st : meanings c `prefix_of` meanings c' -> keeps c c' -> locals c st -> locals c' st.
Proof.
  intros Hp [_ Hn Ho] [H1 H2 H3]. split; rewrite ?Hn, ?Ho; [|done|].
  - intros x i (d & ? & Hd)%H1. exists d. split; [done|]. by eapply (node_means_prefix c).
  - destruct (output (target c)); [|done]. destruct H3 as (d & ? & Hd). exists d. split; [done|]. by eapply (node_means_prefix c).
Qed.

Definition steps (m : Gen unit) (r : option D -> Locals -> Den D Locals) : Prop := forall c st pre,
  locals c st -> condition c pre ->
  means c m (r pre st) (fun _ st' c' => condition_stack c' = condition_stack c /\ locals c' st').

Lemma steps_each {A} (f : A -> Gen unit) (f' : A -> option D -> Locals -> Den D Locals) l :
  Forall (fun x => Mono (f x) /\ steps (f x) (f' x)) l ->
  steps (each_g f l) (fun pre => each_d (fun x => f' x pre) l).
Proof.
  induction 1 as [|x l [Hm Hx] Hl IH]; intros c st pre Hst Hc; cbn [each_g each_d]; [by apply means_ret|].
  eapply means_bind; [|by apply Hx|].
  { intros []. apply mono_each. eapply Forall_impl; [exact Hl|]. by intros y []. }
  intros [] st1 c1 Hp1 [Hs1 Hst1]. eapply means_weaken; [apply IH; [done|by eapply condition_prefix]|].
  intros _ st2 c2 _ [Hs2 Hst2]. split; [congruence|done].
Qed.

Lemma locals_define c c' name e i d st :
  locals c st -> meanings c `prefix_of` meanings c' ->
  expr_post c (if is_variable e then None else name) i d c' -> locals c' (define name e d st.1, st.2).
Proof.
  intros [H1 H2 H3] Hp (Hi & Hs & Hn & Ho). split; cbn [fst snd].
  - intros x j Hj. unfold define. rewrite Hn in Hj. destruct name as [y|]; [destruct (is_variable e)|destruct (is_variable e)];
      cbn [bound] in Hj; try (destruct (H1 _ _ Hj) as (d' & ? & Hd'); exists d'; split; [done|by eapply (node_means_prefix c)]).
    destruct (decide (y = x)) as [->|Hne].
    + rewrite lookup_insert_eq in Hj. injection Hj as <-. exists d. by rewrite lookup_insert_eq.
    + rewrite lookup_insert_ne in Hj by done. destruct (H1 _ _ Hj) as (d' & ? & Hd'). exists d'. rewrite lookup_insert_ne by done. split; [done|]. by eapply (node_means_prefix c).
  - intros x Hx. unfold define. rewrite Hn in Hx. destruct name as [y|]; [|destruct (is_variable e); by apply H2].
    destruct (is_variable e); cbn [bound] in Hx; [by apply H2|]. apply lookup_insert_None in Hx as [Hx Hne].
    rewrite lookup_insert_ne by done. by apply H2.
  - rewrite Ho. destruct (output (target c)); [|done]. destruct H3 as (d' & ? & Hd'). exists d'. split; [done|]. by eapply (node_means_prefix c).
Qed.

Lemma means_return c i d st :
  locals c st -> node_means c i d ->
  means c (set_output i) (match st.2 with Some _ => None | None => dret (st.1, Some d) end)
    (fun _ st' c' => condition_stack c' = condition_stack c /\ locals c' st').
Proof.
  intros [H1 H2 H3] Hi [] c' Hc' _. unfold set_output in Hc'. destruct (output (target c)); [done|]. injection Hc' as <-.
  rewrite H3. exists (st.1, Some d), []. rewrite app_nil_r. split_and!; [done..|]. split; cbn [names target g_nodes output fst snd]; [done..|].
  by exists d.
Qed.

(** A body under the condition at node [i]. *)
Lemma means_body {B B'} c i d env pre st body (k : unit -> Gen B) (k' : Locals -> Den D B') Q :
  Forall (fun x => steps (generate_stmt root x) (fun pre => denote_stmt pre x)) body ->
  locals c st -> ctx_means c env pre -> node_means c i d -> (forall a, Mono (k a)) ->
  (forall st' c', meanings c `prefix_of` meanings c' -> condition_stack c' = condition_stack c -> locals c' st' ->
     means c' (k tt) (k' st') Q) ->
  means c (let! _ := push_condition i in let! a := each_g (generate_stmt root) body in let! _ := pop_condition in k a)
    (dbind (each_d (denote_stmt (Some d)) body st) k') Q.
Proof.
  intros Hb Hst Hc Hi Hm Hk.
  eapply (means_under _ _ _ _ _ _ (fun _ st' ns g => locals_mean ns g st')); [|done| |].
  - apply _.
  - intros c1 He Hs Hn Ho.
    eapply means_weaken; [apply (steps_each _ (fun x pre => denote_stmt pre x)); [| |]|by intros [] st' c' _ [? ?]].
    + eapply Forall_impl; [exact Hb|]. intros x Hx. split; [apply _|done].
    + destruct Hst as [H1 H2 H3]. split; rewrite ?Hn, ?Ho, <- ?He; done.
    + rewrite Hs. exists d. split; [done|]. unfold node_means in *. by rewrite <- He.
  - intros [] st' c' Hp Hs Hst'. by apply Hk.
Qed.

Lemma means_body_last c i d env pre st body :
  Forall (fun x => steps (generate_stmt root x) (fun pre => denote_stmt pre x)) body ->
  locals c st -> ctx_means c env pre -> node_means c i d ->
  means c (let! _ := push_condition i in let! _ := each_g (generate_stmt root) body in pop_condition)
    (each_d (denote_stmt (Some d)) body st)
    (fun _ st' c' => condition_stack c' = condition_stack c /\ locals c' st').
Proof.
  intros Hb Hst Hc Hi [] c' Hm Hle.
  destruct (means_body c i d env pre st body gret dret (fun _ st' c' => condition_stack c' = condition_stack c /\ locals c' st')
    Hb Hst Hc Hi ltac:(intros; apply _)) with tt c' as (st' & tr & Hr & HQ); [|clear -Hm|done|].
  - intros st' c1 _ Hs Hl. by apply means_ret.
  - apply gbind_ok in Hm as ([] & c1 & H1 & H2). apply gbind_ok in H2 as ([] & c2 & H2 & H3).
    unfold gbind. rewrite H1. cbn [obind]. rewrite H2. cbn [obind]. by rewrite H3.
  - exists st', tr. split; [|done]. revert Hr. unfold dbind, dret. destruct (each_d _ _ _) as [[? ?]|]; [|done].
    by rewrite app_nil_r.
Qed.

Lemma stmt_means_all x : steps (generate_stmt root x) (fun pre => denote_stmt pre x).
Proof.
  induction x as [a k IH] using stmt_ind'. intros c st pre Hst Hc. pose proof (locals_ctx _ _ _ Hst Hc) as Hctx.
  assert (Hk0 : keeps c c) by done. cbn [generate_stmt SourceSem.denote_stmt]. destruct k as [v|name v|p b e|v]; cbn [bodies] in IH.
  - mstep expr_means_all. eapply means_weaken; [apply means_return; [by eapply locals_keeps|done]|].
    intros [] st' c' _ [Hs' Hst']. split; [|done]. rewrite Hs'. apply Hk.
  - eapply means_bind; [intros; apply _|by apply expr_means_all|]. intros i d c' Hp Hpost. apply means_ret.
    split; [apply Hpost|]. by eapply locals_define.
  - destruct IH as [Hb He]. destruct e as [e|]; do 2 mstep expr_means_all;
      (assert (Hk2 : keeps c c1) by keeps_chain); (assert (Hst2 : locals c1 st) by (apply (locals_keeps c); [by etrans|done..]));
      (eapply means_body; [exact Hb|exact Hst2|done|done|intros; apply _|]); intros st3 c3 Hp3 Hs3 Hst3.
    + assert (Hc3 : ctx_means c3 st3.1 pre).
      { apply locals_ctx; [done|]. eapply (condition_prefix c); [by do 2 (etrans; [eassumption|])| |done]. rewrite Hs3. apply Hk2. }
      transport Hp3. do 2 mstep expr_means_all. assert (Hk34 : keeps c3 c4) by keeps_chain.
      eapply means_weaken; [eapply means_body_last; [exact He|by apply (locals_keeps c3); [etrans|..]|done|done]|].
      intros [] st' c' _ [Hs' Hst']. split; [|done]. rewrite Hs', (kp_stack _ _ Hk34), Hs3. apply Hk2.
    + apply means_ret. split; [|done]. rewrite Hs3. apply Hk2.
  - mstep expr_means_all. apply means_last; [intros; apply _|].
    eapply means_emit; [operands_done|exact (cm_pre _ _ _ Hc0)|exact Hc0|intros; apply _|].
    intros i1 d1 c1 Hp1 Hk1 Hc1 _. apply means_ret. assert (Hk2 : keeps c c1) by keeps_chain.
    split; [apply Hk2|]. by apply (locals_keeps c); [etrans|..].
Qed.

(** *** Graphs *)
Abbreviation denote_graph := (denote_graph op s (type_aliases final) root).

Lemma params_means ps : forall i c env, locals c (env, None) -> condition_stack c = [] ->
  means c (generate_params i ps) (denote_params op i ps env)
    (fun _ env' c' => locals c' (env', None) /\ condition_stack c' = []).
Proof.
  induction ps as [|[p t] ps IH]; intros i c env Hl Hs; cbn [generate_params denote_params]; [by apply means_ret|].
  eapply (means_bind _ _ _ _ _ (expr_post c (Some p))).
  - intros _. clear. generalize (S i). clear i. induction ps as [|[q u] ps IH]; intros i; cbn [generate_params]; apply _.
  - eapply means_weaken; [by apply means_push; [constructor|]|done].
  - intros j d c1 Hp Hpost. apply IH; [|destruct Hpost as (_ & -> & _); done].
    change (<[p := d]> env) with (define (Some p) (MkExpr 0 0 KCreateMap) d (env, None : option D).1).
    by eapply (locals_define c c1 (Some p) (MkExpr 0 0 KCreateMap)).
Qed.

(** The nodes of a graph mean the operations of its source, and its output means
    the result. *)
Definition graph_means (g : AstGraph) (x : TwGraph) : Prop :=
  exists out tr, denote_graph g = Some (out, tr) /\ eval_nodes op [] (g_nodes x) = tr /\
    match output x with Some o => exists d, out = Some d /\ tr !! o = Some d | None => out = None end.

Lemma generate_graph_means b g x b' :
  generate_graph root b g = Ok (x, b') -> builder_le b' final -> graph_means g x.
Proof.
  unfold generate_graph. destruct (first_duplicate _); [done|].
  intros ([ts b1] & _ & Hr)%obind_ok Hle. apply obind_ok in Hr as ([ot b2] & _ & Hr).
  apply obind_ok in Hr as ([[] c1] & H1 & Hr). apply obind_ok in Hr as ([[] c2] & H2 & [= <- <-]).
  assert (Hle1 : builder_le (builder c1) final) by (etrans; [by eapply mono_body|done]).
  set (c0 := MkGraphContext _ _ _ _) in H1.
  destruct (params_means (ag_params g) 0 c0 ∅) with tt c1 as (env & tr1 & Hr1 & Htr1 & Hl1 & Hs1); [|done..|].
  { split; [|done|done]. intros y i. cbn [c0 names]. by rewrite lookup_empty. }
  destruct (steps_each (generate_stmt root) (fun y pre => denote_stmt pre y) (ag_stmts g)) with c1 (env, None : option D) (None : option D) tt c2
    as (st & tr2 & Hr2 & Htr2 & Hs2 & Hl2); [|done| |done..|].
  { apply Forall_forall. intros y _. split; [apply _|apply stmt_means_all]. }
  { by rewrite Hs1. }
  exists st.2, (tr1 ++ tr2). unfold SourceSem.denote_graph, dbind. change (each_d (denote_stmt None) (ag_stmts g) (env, None) = Some (st, tr2)) in Hr2. rewrite Hr1, Hr2. cbn [dret]. rewrite app_nil_r.
  split; [done|]. rewrite Htr2, Htr1. cbn [c0 target g_nodes eval_nodes app]. split; [done|].
  pose proof (lm_output _ _ _ Hl2) as Ho. destruct (output (target c2)); [|done]. destruct Ho as (d & ? & Hd).
  exists d. rewrite Htr2, Htr1 in Hd. done.
Qed.

Lemma generate_graphs_means gs : forall b xs b', builder_ok b ->
  generate_graphs root b gs = Ok (xs, b') -> builder_le b' final -> Forall2 graph_means gs xs.
Proof.
  induction gs as [|g gs IH]; intros b xs b' Hb Hr Hle; cbn [generate_graphs] in Hr; [injection Hr as <- <-; constructor|].
  apply obind_ok in Hr as ([x b1] & H1 & Hr). apply obind_ok in Hr as ([xs' b2] & H2 & [= <- <-]).
  pose proof (generate_graph_ok root b g Hb) as Hg. rewrite H1 in Hg. destruct Hg as (Hb1 & _ & _). cbn [fst snd] in Hb1.
  pose proof (generate_graphs_ok root gs b1 Hb1) as Hgs. rewrite H2 in Hgs. destruct Hgs as (_ & Hle12 & _). cbn [fst snd] in Hle12.
  constructor; [|by eapply IH]. eapply generate_graph_means; [done|]. by etrans.
Qed.
End Refine.

(** ** Scripts *)
Definition source_aliases (root : AstRoot) : gmap string VmType :=
  default ∅ (option_ok (foldM_o add_alias ∅ (root_type_aliases root))).

Lemma compile_root_means {D} (op : TwGraphNode -> list D -> option D -> D) root s :
  compile_root root = Ok s ->
  Forall2 (fun g x => exists out tr,
    denote_graph op s (source_aliases root) root g = Some (out, tr) /\ eval_nodes op [] (g_nodes x) = tr /\
    match output x with Some o => exists d, out = Some d /\ tr !! o = Some d | None => out = None end)
    (root_graphs root) (graphs s).
Proof.
  unfold compile_root. destruct (first_duplicate _); [done|]. destruct (first_duplicate _); [done|].
  intros (aliases & Ha & Hr)%obind_ok. apply obind_ok in Hr as ([gs b] & Hgs & [= <-]).
  assert (Hb0 : builder_ok (MkBuilder [] [] [] aliases)) by (split; apply pool_ok_nil).
  pose proof (generate_graphs_ok root (root_graphs root) _ Hb0) as Hok. rewrite Hgs in Hok. destruct Hok as (Hb & Hle & _).
  cbn [fst snd] in Hb, Hle. destruct Hle as (_ & _ & _ & Hal). cbn [type_aliases] in Hal.
  assert (source_aliases root = type_aliases b) as ->.
  { unfold source_aliases. rewrite Ha. cbn [option_ok default]. done. }
  by apply (generate_graphs_means op root (emit_pools b gs) b Hb eq_refl eq_refl eq_refl _ (MkBuilder [] [] [] aliases) gs b).
Qed.
