(* ===== verification/SourceRun.v ===== *)
(** * Running a script from its syntax

    The semantics of [SourceSem] at the meanings the executor gives to operations:
    an operation has a type, found as by the type checker, and a state, found from
    the states of its operands and its condition: it is idle, or completes with an
    outcome.  [src_run] runs a graph of the source; [src_run_agrees] states that the
    compiled script, run by the executor under any schedule, does the same. *)
From stdpp Require Import prelude gmap strings list.
From S2P Require Import Prelude OrdMap Schema SchemaFacts StoragePlan Planner PlannerFacts Value PathWalker WalkerTyping Kv.
From S2P Require Import VmValue Bytecode Typeck Exec ValueTyping NodeSound GraphSound TypeckSound SeqEval SeqSched.
From S2P Require Import AsmAst Codegen CodegenFacts SourceSem.

(** ** The meaning of an operation *)
Record Meaning := MkMeaning {
  m_op : TwGraphNode;
  m_type : option VmType;
  m_state : NodeState;
  m_rejected : bool
}.

(** The result it completed with, and the value it passes on. *)
Definition m_result (d : Meaning) : option (option VmValue) := match m_state d with Some (Ok r) => Some r | _ => None end.
Definition m_value (d : Meaning) : option VmValue := mjoin (m_result d).

(** What it says as a condition. *)
Definition m_holds (d : Meaning) : bool := bool_decide (m_result d ≫= pre_value = Some true).

Section Perform.
Context (vm : TwVm) (params : list VmType).
Context (run : TwGraphNode -> list VmValue -> option VmType -> xres (option VmValue)).

Definition op_type (n : TwGraphNode) (operands : list Meaning) : option VmType :=
  match typeck_node vm params (m_type <$> operands) ∅ n (seq 0 (length operands)) with Ok (t, _) => t | _ => None end.

Definition op_state (n : TwGraphNode) (operands : list Meaning) (pre : option Meaning) (ty : option VmType) : NodeState :=
  if match pre with Some p => m_holds p | None => true end then
    if is_select n then
      match omap m_value operands with
      | [] => None
      | [v] => Some (Ok (Some v))
      | _ => Some Panic
      end
    else ps ← mapM_opt m_value operands; Some (run n ps ty)
  else None.

(** An operand without a value, or a condition that is neither a boolean nor null. *)
Definition op_rejected (operands : list Meaning) (pre : option Meaning) : bool :=
  existsb (fun d => match m_result d with Some None => true | _ => false end) operands ||
  match pre with
  | Some p => match m_result p with Some r => bool_decide (pre_value r = None) | None => false end
  | None => false
  end.

Definition perform (n : TwGraphNode) (operands : list Meaning) (pre : option Meaning) : Meaning :=
  let ty := op_type n operands in MkMeaning n ty (op_state n operands pre ty) (op_rejected operands pre).
End Perform.

(** The outcome of a graph with the meanings [tr] and the result [out]. *)
Definition outcome_of (out : option Meaning) (tr : list Meaning) : xres (option VmValue) :=
  if existsb (fun d => is_panic (m_state d)) tr then Panic
  else if existsb (fun d => is_err (m_state d)) tr || existsb m_rejected tr then Err (XPanic PInconsistent)
  else Ok (out ≫= m_value).

Section SrcRun.
Context {T : Type} `{KvTransaction T}.
Context (rmp_to_vec : PrimitiveValue -> bytes) (rmp_from_slice : bytes -> anyhow PrimitiveValue).
Context (vm : TwVm) (root : AstRoot) (infos : list GraphTypeInfo) (txn : T).

(** The [i]-th graph of the source on [args]. *)
Fixpoint src_run (depth_left : nat) (i : nat) (args : list VmValue) : xres (option VmValue) :=
  match depth_left with
  | O => Err (XErr (MaxRecursionDepthExceeded MAX_RECURSION_DEPTH))
  | S depth_left =>
      let? g := xunwrap PInconsistent (root_graphs root !! i) in
      let? info := xunwrap PInconsistent (infos !! i) in
      let op := perform vm (gi_params info) (seq_node rmp_to_vec rmp_from_slice vm txn (src_run depth_left) args) in
      match denote_graph op (vm_script vm) (source_aliases root) root g with
      | Some (out, tr) => outcome_of out tr
      | None => Err (XPanic PInconsistent)
      end
  end.
End SrcRun.

(** ** Types do not depend on where operands are *)
Lemma validate_in_edges_ext n node es es' types types' :
  mapM_o (edge_type types) es = mapM_o (edge_type types') es' -> length es = length es' ->
  validate_in_edges n node es types = validate_in_edges n node es' types'.
Proof. intros He Hl. unfold validate_in_edges. by rewrite He, Hl. Qed.

Lemma typeck_node_ext vm params types types' sink n es es' :
  mapM_o (edge_type types) es = mapM_o (edge_type types') es' -> length es = length es' ->
  typeck_node vm params types sink n es = typeck_node vm params types' sink n es'.
Proof.
  intros He Hl. pose proof (fun k => validate_in_edges_ext k n es es' types types' He Hl) as Hv.
  unfold typeck_node, tc_reduce_args, edges1, edges2, edges3, edges5. by rewrite !Hv, He.
Qed.

Lemma validate_subgraph_call_sink vm name i sink tys g s1 :
  validate_subgraph_call vm name i sink tys = Ok (g, s1) -> exists s2, validate_subgraph_call vm name i ∅ tys = Ok (g, s2).
Proof.
  unfold validate_subgraph_call. intros (g' & -> & Hr)%obind_ok. cbn [obind]. destruct (decide _); [done|].
  rewrite lookup_empty. cbn [default]. rewrite length_replicate. destruct (decide (length tys <> length tys)); [done|].
  destruct (decide _); [done|]. injection Hr as <- _. by eexists.
Qed.

Lemma typeck_node_sink vm params types sink n es t sink1 :
  typeck_node vm params types sink n es = Ok (t, sink1) ->
  exists sink2, typeck_node vm params types ∅ n es = Ok (t, sink2).
Proof.
  intros Ht. destruct n; cbn [typeck_node] in Ht |- *;
    try (unfold omap_ok in *; apply obind_ok in Ht as (t' & -> & [= <- _]); by eexists).
  - apply obind_ok in Ht as ([[a b] c] & Ha & Ht). rewrite Ha. cbn [obind]. unfold tc_Reduce in *.
    apply obind_ok in Ht as (m & -> & Ht). cbn [obind]. apply obind_ok in Ht as ([g s1] & Hg & Ht).
    destruct (validate_subgraph_call_sink _ _ _ _ _ _ _ Hg) as [s2 ->]. cbn [obind].
    apply obind_ok in Ht as (o & -> & Ht). cbn [obind]. apply obind_ok in Ht as ([] & -> & [= <- _]). cbn [obind]. by eexists.
  - apply obind_ok in Ht as ([a b] & Ha & Ht). rewrite Ha. cbn [obind]. unfold tc_FilterSet in *.
    apply obind_ok in Ht as (m & -> & Ht). cbn [obind]. apply obind_ok in Ht as ([g s1] & Hg & Ht).
    destruct (validate_subgraph_call_sink _ _ _ _ _ _ _ Hg) as [s2 ->]. cbn [obind].
    destruct (subgraph_output vm g) as [[]|]; try done. injection Ht as <- _. by eexists.
  - apply obind_ok in Ht as (ts & -> & Ht). cbn [obind]. unfold tc_Call in *. apply obind_ok in Ht as ([g s1] & Hg & [= <- _]).
    destruct (validate_subgraph_call_sink _ _ _ _ _ _ _ Hg) as [s2 ->]. cbn [obind]. by eexists.
Qed.

(** The operands [ds] are at the nodes [es]. *)
Definition operands_at (E : list Meaning) (es : list nat) (ds : list Meaning) : Prop :=
  Forall2 (fun e d => E !! e = Some d) es ds.

Lemma edge_types_eq (E E' : list Meaning) es es' :
  Forall2 (fun e e' => E !! e = E' !! e') es es' ->
  mapM_o (edge_type (m_type <$> E)) es = mapM_o (edge_type (m_type <$> E')) es'.
Proof.
  induction 1 as [|e e' es es' He _ IH]; [done|]. cbn [mapM_o]. unfold edge_type at 1 3.
  by rewrite !list_lookup_fmap, He, IH.
Qed.

Lemma operand_types E es ds : operands_at E es ds ->
  mapM_o (edge_type (m_type <$> E)) es = mapM_o (edge_type (m_type <$> ds)) (seq 0 (length ds)).
Proof.
  intros He. pose proof (Forall2_length _ _ _ He) as Hl. apply edge_types_eq, Forall2_same_length_lookup_2; [by rewrite length_seq|].
  intros i e e' Hi Hi'. apply lookup_seq in Hi' as [-> Hlt]. destruct (lookup_lt_is_Some_2 ds i Hlt) as [d Hd].
  cbn [Nat.add]. rewrite Hd. eapply Forall2_lookup_lr in He; eauto.
Qed.

Lemma op_type_checked vm params E es ds sink n t sink1 :
  operands_at E es ds -> typeck_node vm params (m_type <$> E) sink n es = Ok (t, sink1) -> op_type vm params n ds = t.
Proof.
  intros He (sink2 & Ht)%typeck_node_sink. unfold op_type.
  rewrite <- (typeck_node_ext vm params (m_type <$> E) (m_type <$> ds) ∅ n es (seq 0 (length ds))), Ht; [done| |].
  - by apply operand_types.
  - rewrite length_seq. by eapply Forall2_length.
Qed.

(** ** Performing the nodes of a graph is evaluating it in sequence *)
Section Eval.
Context (vm : TwVm) (params : list VmType).
Context (run : TwGraphNode -> list VmValue -> option VmType -> xres (option VmValue)).
Abbreviation perform := (perform vm params run).

Lemma result_at E e d : E !! e = Some d -> result_of (m_state <$> E) e = m_result d.
Proof. intros Hd. unfold result_of. by rewrite list_lookup_fmap, Hd. Qed.

Lemma operands_found E es : (forall e, e ∈ es -> e < length E) -> operands_at E es (omap (E !!.) es).
Proof.
  intros Hlt. induction es as [|e es IH]; [constructor|]. csimpl.
  destruct (lookup_lt_is_Some_2 E e) as [d Hd]; [apply Hlt; by left|]. rewrite Hd. constructor; [done|].
  apply IH. intros e' He'. apply Hlt. by right.
Qed.

Lemma state_at E n es p ds ty :
  operands_at E es ds -> (forall q, p = Some q -> q < length E) ->
  op_state run n ds (p ≫= (E !!.)) ty = node_state run (m_state <$> E) (MkGNode n es p) ty.
Proof.
  intros He Hp. unfold op_state, node_state. cbn [gn_node in_edges].
  assert (pre_holds (m_state <$> E) (MkGNode n es p) = match p ≫= (E !!.) with Some p => m_holds p | None => true end) as ->.
  { unfold pre_holds. cbn [precondition]. destruct p as [q|]; [|done]. cbn [mbind option_bind].
    destruct (lookup_lt_is_Some_2 E q) as [d Hd]; [by apply Hp|]. rewrite Hd. unfold m_holds. by rewrite (result_at E q d). }
  destruct (match p ≫= _ with Some _ => _ | None => _ end); [|done].
  assert (value_at (m_state <$> E) <$> es = m_value <$> ds) as ->.
  { induction He as [|e d es ds Hd _ IH]; [done|]. csimpl. rewrite IH. f_equal. unfold value_at. by rewrite (result_at E e d). }
  assert (omap id (m_value <$> ds) = omap m_value ds) as -> by (clear; induction ds; csimpl; [done|]; by case_match; f_equal).
  assert (mapM_opt id (m_value <$> ds) = mapM_opt m_value ds) as -> by (clear; induction ds as [|d ds IH]; csimpl; [done|]; by rewrite IH).
  done.
Qed.

Lemma rejected_at E n es p ds :
  operands_at E es ds -> (forall q, p = Some q -> q < length E) ->
  op_rejected ds (p ≫= (E !!.)) = rejected (m_state <$> E) (MkGNode n es p).
Proof.
  intros He Hp. unfold op_rejected, rejected. cbn [in_edges precondition]. f_equal.
  - induction He as [|e d es ds Hd _ IH]; [done|]. cbn [existsb]. by rewrite IH, (result_at E e d).
  - destruct p as [q|]; [|done]. cbn [mbind option_bind]. destruct (lookup_lt_is_Some_2 E q) as [d Hd]; [by apply Hp|].
    by rewrite Hd, (result_at E q d).
Qed.

Lemma rejected_app V W n : (forall s, s ∈ sources n -> s < length V) -> rejected (V ++ W) n = rejected V n.
Proof.
  intros Hs. unfold rejected, sources in *. f_equal.
  - assert (He : forall s, s ∈ in_edges n -> s < length V) by (intros; apply Hs; set_solver). clear Hs. revert He.
    generalize (in_edges n). induction l as [|e l IH]; intros He; [done|]. cbn [existsb].
    rewrite IH, result_of_app; [done|apply He; by left|]. intros s ?. apply He. by right.
  - destruct (precondition n) as [p|]; [|done]. rewrite result_of_app; [done|]. apply Hs. set_solver.
Qed.

Lemma eval_node_at E n types sink t sink1 :
  m_type <$> E = types -> check_edges (length E) types n = Ok tt ->
  typeck_node vm params types sink (gn_node n) (in_edges n) = Ok (t, sink1) ->
  (forall s, s ∈ sources n -> s < length E) ->
  let d := eval_node perform E n in
  m_type d = t /\ m_state d = node_state run (m_state <$> E) n t /\ m_rejected d = rejected (m_state <$> E) n.
Proof.
  intros <- _ Ht Hs. destruct n as [n es p]. unfold sources in Hs. cbn [gn_node in_edges precondition] in *.
  assert (He : operands_at E es (omap (E !!.) es)) by (apply operands_found; intros; apply Hs; set_solver).
  assert (Hp : forall q, p = Some q -> q < length E) by (intros q ->; apply Hs; set_solver).
  unfold eval_node. cbn [gn_node in_edges precondition]. unfold SourceRun.perform. cbn [m_type m_state m_rejected].
  rewrite (op_type_checked vm params E es _ sink n t sink1 He Ht). split_and!; [done|by apply state_at|by apply rejected_at].
Qed.

Context (g : TwGraph) (info : GraphTypeInfo) (Hc : graph_checked vm g info) (Hparams : params = gi_params info).
Context (Hshape : graph_shape g info).

Lemma eval_nodes_seq ns : forall E,
  g_nodes g = take (length E) (g_nodes g) ++ ns -> length E + length ns = length (g_nodes g) ->
  m_type <$> E = take (length E) (gi_nodes info) ->
  let E' := eval_nodes perform E ns in
  let V' := seq_values run (m_state <$> E) (zip ns (drop (length E) (gi_nodes info))) in
  m_state <$> E' = V' /\ length E' = length (g_nodes g) /\ drop (length E) (m_rejected <$> E') = rejected V' <$> ns /\
  E `prefix_of` E'.
Proof.
  induction ns as [|n ns IH]; intros E Hg Hl Ht; cbn zeta.
  { cbn [eval_nodes]. split; [done|]. cbn [length] in Hl. split; [lia|]. split; [|done].
    apply drop_ge. rewrite length_fmap. lia. }
  set (i := length E) in *.
  assert (Hn : g_nodes g !! i = Some n).
  { rewrite Hg, lookup_app_r by (rewrite length_take; lia). rewrite length_take. by replace (i - i `min` _) with 0 by lia. }
  destruct (gc_nodes _ _ _ Hc i n Hn) as (t & Hti & Hck & sink & sink' & Htc). rewrite <- Hparams in Htc.
  assert (Hs : forall s, s ∈ sources n -> s < i) by (intros s Hs; by eapply (gs_sources _ _ Hshape)).
  destruct (eval_node_at E n _ sink t sink' Ht Hck Htc Hs) as (Hty & Hst & Hrj).
  rewrite (drop_S _ _ _ Hti). cbn [zip zip_with eval_nodes seq_values].
  set (d := eval_node perform E n) in *. clearbody d. rewrite <- Hst.
  assert (Hl1 : length (E ++ [d]) = S i) by (rewrite length_app; simpl; lia).
  destruct (IH (E ++ [d])) as (H1 & H2 & H3 & H4).
  - rewrite Hl1, (take_S_r _ _ _ Hn), <- app_assoc. exact Hg.
  - rewrite Hl1. cbn [length] in Hl. lia.
  - rewrite Hl1, fmap_app, (take_S_r _ _ _ Hti), Ht. csimpl. by rewrite Hty.
  - rewrite fmap_app in *. csimpl in *. rewrite Hl1 in *. split; [done|]. split; [done|]. split; [|by etransitivity; [apply prefix_app_r|]].
    destruct H4 as [W HW]. rewrite <- H3. rewrite HW, !fmap_app. csimpl. rewrite <- app_assoc. cbn [app].
    rewrite drop_app_ge by (rewrite length_fmap; lia). rewrite length_fmap. replace (i - length E) with 0 by (unfold i; lia).
    cbn [drop]. rewrite Hrj. f_equal.
    + rewrite <- H1, HW, !fmap_app, <- app_assoc. symmetry. apply rejected_app. by rewrite length_fmap.
    + rewrite drop_app_ge by (rewrite length_fmap; lia). rewrite length_fmap. replace (S i - length E) with 1 by (unfold i; lia). done.
Qed.
End Eval.

Lemma existsb_fmap {A B} (f : A -> B) (p : B -> bool) (l : list A) : existsb p (f <$> l) = existsb (fun x => p (f x)) l.
Proof. induction l as [|x l IH]; [done|]. csimpl. by rewrite IH. Qed.

(** The outcome of the meanings is that of the sequential evaluation. *)
Lemma outcome_seq vm run g info out tr :
  graph_checked vm g info -> graph_shape g info ->
  eval_nodes (perform vm (gi_params info) run) [] (g_nodes g) = tr ->
  match output g with Some o => exists d, out = Some d /\ tr !! o = Some d | None => out = None end ->
  outcome_of out tr = seq_graph run g info.
Proof.
  intros Hc Hs He Ho.
  destruct (eval_nodes_seq vm (gi_params info) run g info Hc eq_refl Hs (g_nodes g) []) as (Hst & _ & Hrj & _); [done..|].
  rewrite He in Hst, Hrj. change (m_state <$> tr = seq_values run [] (zip (g_nodes g) (gi_nodes info))) in Hst.
  change (m_rejected <$> tr = rejected (seq_values run [] (zip (g_nodes g) (gi_nodes info))) <$> g_nodes g) in Hrj.
  rewrite <- Hst in Hrj.
  unfold outcome_of, seq_graph. cbn zeta. rewrite <- Hst. rewrite !existsb_fmap.
  assert (existsb m_rejected tr = existsb (rejected (m_state <$> tr)) (g_nodes g)) as ->.
  { transitivity (existsb id (m_rejected <$> tr)); [symmetry; exact (existsb_fmap m_rejected id tr)|].
    rewrite Hrj. exact (existsb_fmap _ id _). }
  destruct (existsb _ tr); [done|]. destruct (_ || _); [done|]. f_equal. destruct (output g) as [o|]; [|by subst].
  destruct Ho as (d & -> & Hd). cbn [mbind option_bind]. unfold value_at. by rewrite (result_at tr o d).
Qed.

(** ** Subgraphs with the same answers *)
Section Ext.
Context {T : Type} `{KvTransaction T}.
Context (rmp_to_vec : PrimitiveValue -> bytes) (rmp_from_slice : bytes -> anyhow PrimitiveValue).
Context (vm : TwVm) (txn : T) (rec rec' : nat -> list VmValue -> xres (option VmValue)).
Context (Hrec : forall i args, rec i args = rec' i args).

Lemma reduce_loop_ext {A} (element : A -> xres VmValue) i p l acc (st : XState T) :
  reduce_loop (fun i args st => omap_ok (fun r => (r, st)) (rec i args)) element i p l acc st =
  reduce_loop (fun i args st => omap_ok (fun r => (r, st)) (rec' i args)) element i p l acc st.
Proof.
  revert acc st. induction l as [|x l IH]; intros acc st; [done|]. cbn [reduce_loop]. destruct (element x); [|done..].
  cbn [obind]. rewrite Hrec. destruct (omap_ok _ _) as [[o st1]| | |]; [|done..]. cbn [obind].
  destruct (xunwrap _ _) as [o'| | |]; [|done..]. cbn [obind]. by destruct (is_null o').
Qed.

Lemma seq_node_ext args n ps ty :
  seq_node rmp_to_vec rmp_from_slice vm txn rec args n ps ty = seq_node rmp_to_vec rmp_from_slice vm txn rec' args n ps ty.
Proof.
  unfold seq_node. f_equal. unfold run_node. destruct (_ && _); [done|]. destruct n; try done.
  - unfold node_Reduce. destruct (param ps 0); [|done..]. destruct (param ps 1); [|done..]. destruct (param ps 2) as [v| | |]; [|done..].
    cbn [obind]. destruct (is_null v); [done|]. destruct v; try done.
    + destruct kind as [w|]; [|done]. destruct (match member_ty with TyTable x => _ | _ => _ end); [|done..]. cbn [obind].
      destruct (xwalk (set_fast_scan_prefix w)); [|done..]. cbn [obind]. destruct (reduce_range _ _ _) as [[]| | |]; [|done..]. cbn [obind].
      destruct (xkv (kv_scan_keys _ _ _)); [|done..]. cbn [obind]. by rewrite reduce_loop_ext.
    + by rewrite reduce_loop_ext.
  - by rewrite Hrec.
Qed.

Lemma eval_nodes_ext params args ns : forall V,
  eval_nodes (perform vm params (seq_node rmp_to_vec rmp_from_slice vm txn rec args)) V ns =
  eval_nodes (perform vm params (seq_node rmp_to_vec rmp_from_slice vm txn rec' args)) V ns.
Proof.
  induction ns as [|n ns IH]; intros V; [done|]. cbn [eval_nodes]. rewrite IH. do 3 f_equal. unfold eval_node, perform. f_equal.
  unfold op_state. destruct (match _ with Some _ => _ | None => _ end); [|done]. destruct (is_select _); [done|].
  destruct (mapM_opt _ _); [|done]. cbn [mbind option_bind]. by rewrite seq_node_ext.
Qed.
End Ext.

(** ** The whole script *)
Section Script.
Context {T : Type} `{KvTransaction T}.
Context (rmp_to_vec : PrimitiveValue -> bytes) (rmp_from_slice : bytes -> anyhow PrimitiveValue).
Context (root : AstRoot) (vm : TwVm) (infos : list GraphTypeInfo) (txn : T).
Context (Hroot : compile_root root = Ok (vm_script vm)).
Context (Hchecked : forall i g, graphs (vm_script vm) !! i = Some g -> exists info, infos !! i = Some info /\ graph_checked vm g info).
Context (Hdistinct : distinct_script vm = true).

Lemma checked_graph_shape i g info :
  graphs (vm_script vm) !! i = Some g -> infos !! i = Some info -> graph_checked vm g info /\ graph_shape g info.
Proof.
  intros Hg Hi. destruct (Hchecked i g Hg) as (info' & Hi' & Hc). rewrite Hi in Hi'. injection Hi' as <-. split; [done|].
  apply (checked_shape vm); [done|]. unfold distinct_script in Hdistinct. rewrite forallb_forall in Hdistinct.
  apply list_elem_of_lookup_2, list_elem_of_In, Hdistinct in Hg. rewrite forallb_forall in Hg.
  apply Forall_forall. intros n Hn. apply list_elem_of_In, Hg in Hn. by apply bool_decide_eq_true in Hn.
Qed.

Lemma src_run_seq depth_left : forall i args,
  src_run rmp_to_vec rmp_from_slice vm root infos txn depth_left i args =
  seq_run rmp_to_vec rmp_from_slice vm infos txn depth_left i args.
Proof.
  induction depth_left as [|depth IH]; intros i args; [done|]. cbn [src_run seq_run].
  set (op := fun params => perform vm params (seq_node rmp_to_vec rmp_from_slice vm txn (src_run rmp_to_vec rmp_from_slice vm root infos txn depth) args)).
  destruct (root_graphs root !! i) as [g|] eqn:Eg.
  2: { assert (graphs (vm_script vm) !! i = None) as ->; [|done].
       pose proof (compile_root_means (op []) root _ Hroot) as Hm. apply Forall2_length in Hm.
       apply lookup_ge_None. apply lookup_ge_None in Eg. lia. }
  cbn [xunwrap obind]. destruct (infos !! i) as [info|] eqn:Ei; cbn [xunwrap obind]; [|by destruct (graphs (vm_script vm) !! i)].
  pose proof (compile_root_means (op (gi_params info)) root _ Hroot) as Hm.
  destruct (Forall2_lookup_l _ _ _ _ _ Hm Eg) as (x & Hx & out & tr & Hd & He & Ho). rewrite Hx. cbn [xunwrap obind].
  unfold op in Hd. rewrite Hd. destruct (checked_graph_shape i x info Hx Ei) as [Hc Hs].
  apply (outcome_seq vm); [done|done| |done].
  rewrite <- He. unfold op. symmetry. by apply eval_nodes_ext.
Qed.
End Script.

(** The executor runs the compiled script as [src_run] runs the source. *)
Lemma src_run_agrees {T} `{KvTransaction T} rmp_to_vec rmp_from_slice schedule root vm ctx ctx' infos ex (txn : T) depth i args k :
  compile_root root = Ok (vm_script vm) -> sccs_cover vm ctx -> typeck vm ctx = Ok (infos, ctx') ->
  executor_new vm infos = Ok ex -> read_only vm = true -> distinct_script vm = true ->
  agrees txn (recursively_run_graph rmp_to_vec rmp_from_slice schedule vm ex depth i args (MkXState txn k))
    (src_run rmp_to_vec rmp_from_slice vm root infos txn depth i args).
Proof.
  intros Hroot Hcov Htc Hex Hro Hd. pose proof (typeck_checked vm ctx infos ctx' Hcov Htc) as [_ Hck].
  rewrite (src_run_seq rmp_to_vec rmp_from_slice root vm infos txn Hroot Hck Hd).
  apply seq_run_agrees; [done..|]. by eapply checked_script_shape.
Qed.
