(* ===== verification/SourceLaws.v ===== *)
(** * Laws of the semantics of scripts

    What the translation of control flow to conditions and selects amounts to: a
    branch that is not taken performs no operation ([stmt_quiet]), and [l ?? r] is
    [l], or [r] if [l] is null ([or_else_present], [or_else_null]). *)
From stdpp Require Import prelude gmap strings list.
From S2P Require Import Prelude OrdMap Schema SchemaFacts StoragePlan Planner PlannerFacts Value PathWalker WalkerTyping Kv.
From S2P Require Import VmValue Bytecode Typeck Exec ValueTyping NodeSound GraphSound TypeckSound SeqEval SeqSched.
From S2P Require Import AsmAst Codegen CodegenFacts SourceSem SourceRun.

(** The operations that compute conditions; they read no data and write none. *)
Definition is_condition (n : TwGraphNode) : bool := match n with IsNull | NNot | NAnd => true | _ => false end.

(** Idle, or part of a condition. *)
Definition quiet (d : Meaning) : Prop := m_state d = None \/ is_condition (m_op d) = true.

(** The type checker accepts a conjunction. *)
Definition and_typed (d : Meaning) : Prop := m_op d = NAnd -> m_type d = Some TyBool.

Section Laws.
Context {T : Type} `{KvTransaction T}.
Context (rmp_to_vec : PrimitiveValue -> bytes) (rmp_from_slice : bytes -> anyhow PrimitiveValue).
Context (vm : TwVm) (txn : T) (rec : nat -> list VmValue -> xres (option VmValue)) (args : list VmValue).
Context (params : list VmType) (s : TwScript) (aliases : gmap string VmType) (root : AstRoot).

Abbreviation run := (seq_node rmp_to_vec rmp_from_slice vm txn rec args).
Abbreviation op := (perform vm params run).
Abbreviation denote := (denote op s aliases root).
Abbreviation denote_stmt := (denote_stmt op s aliases root).
Abbreviation emit := (emit op).
Abbreviation both := (both op).

(** ** Branches that are not taken *)
Definition quietly {A} (r : Den Meaning A) (Q : A -> Prop) : Prop :=
  forall a tr, r = Some (a, tr) -> Forall and_typed tr -> Forall quiet tr /\ Q a.

Lemma quietly_bind {A B} (r : Den Meaning A) (k : A -> Den Meaning B) P Q :
  quietly r P -> (forall a, P a -> quietly (k a) Q) -> quietly (dbind r k) Q.
Proof.
  intros Hr Hk b tr. unfold dbind. destruct r as [[a tr1]|]; [|done]. destruct (k a) as [[b' tr2]|] eqn:Ek; [|done].
  intros [= -> <-] [H1 H2]%Forall_app. destruct (Hr a tr1 eq_refl H1) as [Hq HP].
  destruct (Hk a HP b tr2 Ek H2) as [Hq2 HQ]. split; [by apply Forall_app|done].
Qed.

Lemma quietly_ret {A} (a : A) (Q : A -> Prop) : Q a -> quietly (dret a) Q.
Proof. intros HQ b tr [= <- <-] _. split; [constructor|done]. Qed.

Lemma quietly_lift {A} (o : option A) : quietly (dlift o) (fun _ => True).
Proof. destruct o; [by apply quietly_ret|by intros ? ?]. Qed.

Lemma quietly_weaken {A} (r : Den Meaning A) (P Q : A -> Prop) : quietly r P -> (forall a, P a -> Q a) -> quietly r Q.
Proof. intros Hr HPQ a tr Ha Ht. destruct (Hr a tr Ha Ht). eauto. Qed.

Lemma quietly_emit n ds p : m_holds p = false -> quietly (emit n ds (Some p)) (fun _ => True).
Proof.
  intros Hp a tr [= <- <-] _. split; [|done]. constructor; [|constructor]. left. unfold SourceRun.perform. cbn [m_state].
  unfold op_state. by rewrite Hp.
Qed.

Lemma quietly_condition n ds : is_condition n = true -> quietly (emit n ds None) (fun _ => True).
Proof. intros Hn a tr [= <- <-] _. split; [|done]. constructor; [by right|constructor]. Qed.

Lemma run_and v w : pre_value (Some w) <> Some true ->
  match run NAnd [v; w] (Some TyBool) with Ok r => pre_value r <> Some true | _ => True end.
Proof.
  intros Hw. unfold seq_node, run_node. cbn [is_optional_chained existsb andb]. destruct (is_null v) eqn:Ev; [done|].
  destruct (is_null w) eqn:Ew; [done|]. cbn [orb param xunwrap lookup list_lookup obind omap_ok fst snd]. unfold node_bool2.
  destruct v; try done; destruct w; try done; cbn in *. destruct b; done.
Qed.

(** The conjunction with a condition that does not hold does not hold. *)
Lemma quietly_both p c : m_holds p = false -> quietly (both (Some p) c) (fun d => m_holds d = false).
Proof.
  intros Hp d tr [= <- <-] Ht. apply Forall_cons in Ht as [Ht _]. specialize (Ht eq_refl).
  split; [constructor; [by right|constructor]|]. unfold m_holds in *. apply bool_decide_eq_false in Hp. apply bool_decide_eq_false.
  revert Ht. unfold SourceRun.perform. unfold m_result at 1. cbn [m_type m_state]. intros ->. unfold op_state. cbn [is_select mapM_opt].
  destruct (m_value c) as [v|]; [|done]. destruct (m_value p) as [w|] eqn:Ew; [|done]. cbn [mbind option_bind].
  assert (Hw : pre_value (Some w) <> Some true).
  { unfold m_value in Ew. destruct (m_result p) as [[w'|]|]; try done. cbn in Ew. by injection Ew as <-. }
  pose proof (run_and v w Hw) as Hr. by destruct (run _ _ _).
Qed.

Lemma quietly_mapM {A B} (f : A -> Den Meaning B) l : Forall (fun x => quietly (f x) (fun _ => True)) l ->
  quietly (mapM_d f l) (fun _ => True).
Proof.
  induction 1 as [|x l Hx _ IH]; cbn [mapM_d]; [by apply quietly_ret|].
  eapply quietly_bind; [exact Hx|]. intros y _. eapply quietly_bind; [exact IH|]. intros ys _. by apply quietly_ret.
Qed.

Lemma quietly_each {A S} (f : A -> S -> Den Meaning S) l : Forall (fun x => forall st, quietly (f x st) (fun _ => True)) l ->
  forall st, quietly (each_d f l st) (fun _ => True).
Proof.
  induction 1 as [|x l Hx _ IH]; intros st; cbn [each_d]; [by apply quietly_ret|].
  eapply quietly_bind; [apply Hx|]. intros st' _. apply IH.
Qed.

Ltac quiet_step IH := first
  [ eapply quietly_bind; [first [by apply IH | apply quietly_lift | by apply quietly_both | by apply quietly_condition | by apply quietly_emit]|]
  | by apply quietly_emit ]; intros; cbn beta in *.

Lemma expr_quiet e : forall env p, m_holds p = false -> quietly (denote env (Some p) e) (fun _ => True).
Proof.
  induction e as [a b k IH] using expr_ind'. intros env p Hp.
  destruct k; cbn [operands] in IH; rewrite ?and_assoc in IH; cbn [SourceSem.denote]; try (repeat quiet_step IH; fail).
  - apply quietly_lift.
  - quiet_step IH. eapply quietly_bind; [apply quietly_mapM; eapply Forall_impl; [exact IH|]; intros x Hx; by apply Hx|].
    intros. by apply quietly_emit.
Qed.

Lemma stmt_quiet x : forall p st, m_holds p = false -> quietly (denote_stmt (Some p) x st) (fun _ => True).
Proof.
  induction x as [a k IH] using stmt_ind'. intros p st Hp. cbn [SourceSem.denote_stmt].
  destruct k as [v|name v|c b e|v]; cbn [bodies] in IH.
  - quiet_step expr_quiet. destruct st.2; [by intros ? ?|by apply quietly_ret].
  - quiet_step expr_quiet. by apply quietly_ret.
  - destruct IH as [Hb He]. do 2 quiet_step expr_quiet.
    eapply quietly_bind; [apply quietly_each; eapply Forall_impl; [exact Hb|]; intros y Hy st'; by apply Hy|]. intros st1 _.
    destruct e as [e|]; [|by apply quietly_ret]. do 2 quiet_step expr_quiet.
    apply quietly_each. eapply Forall_impl; [exact He|]. intros y Hy st'. by apply Hy.
  - do 2 quiet_step expr_quiet. by apply quietly_ret.
Qed.

(** ** [l ?? r] *)
(** An expression that is not a variable is idle under a condition that does not
    hold. *)
Definition idles (r : Den Meaning Meaning) : Prop := forall d tr, r = Some (d, tr) -> m_state d = None.

Lemma idles_bind {A} (r : Den Meaning A) k : (forall a, idles (k a)) -> idles (dbind r k).
Proof.
  intros Hk d tr. unfold dbind. destruct r as [[a tr1]|]; [|done]. destruct (k a) as [[d' tr2]|] eqn:Ek; [|done].
  intros [= -> _]. by eapply Hk.
Qed.

Lemma idles_emit n ds p : m_holds p = false -> idles (emit n ds (Some p)).
Proof. intros Hp d tr [= <- _]. unfold SourceRun.perform. cbn [m_state]. unfold op_state. by rewrite Hp. Qed.

Lemma expr_idles e env p : is_variable e = false -> m_holds p = false -> idles (denote env (Some p) e).
Proof.
  intros He Hp. destruct e as [a b k]. destruct k; try done; cbn [SourceSem.denote];
    repeat (apply idles_bind; intros); by apply idles_emit.
Qed.

Lemma dbind_Some {A B} (r : Den Meaning A) (k : A -> Den Meaning B) b tr :
  dbind r k = Some (b, tr) -> exists a tr1 tr2, r = Some (a, tr1) /\ k a = Some (b, tr2) /\ tr = tr1 ++ tr2.
Proof.
  unfold dbind. destruct r as [[a tr1]|]; [|done]. destruct (k a) as [[b' tr2]|] eqn:Ek; [|done]. intros [= <- <-].
  by exists a, tr1, tr2.
Qed.

(** What an operation that fires makes of the values of its operands. *)
Lemma perform_value n ds vs pre : is_select n = false -> m_value <$> ds = Some <$> vs ->
  match pre with Some p => m_holds p = true | None => True end ->
  m_state (op n ds pre) = Some (run n vs (op_type vm params n ds)).
Proof.
  intros Hn Hv Hp. unfold SourceRun.perform. cbn [m_state]. unfold op_state. rewrite Hn.
  assert (Hm : mapM_opt m_value ds = Some vs).
  { clear -Hv. revert vs Hv. induction ds as [|d ds IH]; intros [|v vs] Hv; try done. csimpl in Hv. injection Hv as Hd Hv.
    cbn [mapM_opt]. by rewrite Hd, (IH vs Hv). }
  rewrite Hm. destruct pre as [p|]; [by rewrite Hp|done].
Qed.

Definition says (d : Meaning) (b : bool) : Prop := m_result d = Some (Some (VmBool b)).

Lemma says_value d b : says d b -> m_value d = Some (VmBool b).
Proof. intros Hd. unfold m_value. by rewrite Hd. Qed.

Lemma says_holds d b : says d b -> m_holds d = b.
Proof. intros Hd. unfold m_holds. rewrite Hd. by destruct b. Qed.

Lemma perform_says n ds vs b : is_select n = false -> m_value <$> ds = Some <$> vs ->
  run n vs (op_type vm params n ds) = Ok (Some (VmBool b)) -> says (op n ds None) b.
Proof. intros Hn Hv Hr. unfold says, m_result. rewrite (perform_value n ds vs); [by rewrite Hr|done..]. Qed.

(** A condition under a condition that holds. *)
Lemma both_says pre c b d tr : match pre with Some p => says p true | None => True end -> says c b ->
  both pre c = Some (d, tr) -> says d b.
Proof.
  intros Hp Hc. destruct pre as [p|]; [|by intros [= <- _]]. intros [= <- _].
  eapply (perform_says _ _ [VmBool b; VmBool true]); [done|by csimpl; rewrite (says_value _ _ Hc), (says_value _ _ Hp)|].
  by destruct b.
Qed.

Lemma or_else_law env pre a b l r d tr dl trl v :
  denote env pre (MkExpr a b (KOrElse l r)) = Some (d, tr) -> denote env pre l = Some (dl, trl) ->
  m_result dl = Some (Some v) -> match pre with Some p => says p true | None => True end -> is_variable r = false ->
  exists c dr trr, denote env (Some c) r = Some (dr, trr) /\ says c (is_null v) /\ trr `sublist_of` tr /\
    if is_null v then m_result d = Some <$> m_value dr else m_result d = Some (Some v) /\ m_state dr = None.
Proof.
  intros Hd Hl Hv Hp Hr. cbn [SourceSem.denote] in Hd.
  apply dbind_Some in Hd as (dl' & t0 & tr' & Hl' & Hd & ->). rewrite Hl in Hl'. injection Hl' as <- <-.
  apply dbind_Some in Hd as (null & t1 & tr1 & [= <- <-] & Hd & ->).
  apply dbind_Some in Hd as (notnull & t2 & tr2 & [= <- <-] & Hd & ->).
  assert (Hvl : m_value dl = Some v) by (unfold m_value; by rewrite Hv).
  assert (Hn : says (op IsNull [dl] None) (is_null v)).
  { eapply (perform_says _ _ [v]); [done|by csimpl; rewrite Hvl|done]. }
  assert (Hnn : says (op NNot [op IsNull [dl] None] None) (negb (is_null v))).
  { eapply (perform_says _ _ [VmBool (is_null v)]); [done|by csimpl; rewrite (says_value _ _ Hn)|done]. }
  apply dbind_Some in Hd as (c & t3 & tr3 & Hc & Hd & ->). pose proof (both_says _ _ _ _ _ Hp Hn Hc) as Hcs.
  apply dbind_Some in Hd as (dr & trr & tr4 & Hdr & Hd & ->).
  apply dbind_Some in Hd as (c' & t5 & tr5 & Hc' & Hd & ->). pose proof (both_says _ _ _ _ _ Hp Hnn Hc') as Hcs'.
  apply dbind_Some in Hd as (nop & t6 & tr6 & [= <- <-] & [= <- <-] & ->).
  exists c, dr, trr. split; [done|]. split; [done|]. split.
  { do 4 apply sublist_inserts_l. by apply sublist_inserts_r. }
  assert (Hpre : match pre with Some p => m_holds p | None => true end = true).
  { destruct pre; [by apply says_holds|done]. }
  assert (Hsel : forall ds, m_result (op Select ds pre) = match omap m_value ds with [v] => Some (Some v) | _ => None end).
  { intros ds. unfold m_result, SourceRun.perform. cbn [m_state]. unfold op_state. rewrite Hpre. cbn [is_select].
    by destruct (omap m_value ds) as [|? []]. }
  set (nop := op Nop [dl] (Some c')). rewrite Hsel. cbn [omap list_omap]. destruct (is_null v) eqn:Ev.
  - assert (m_value nop = None) as ->.
    { unfold m_value, m_result, nop, SourceRun.perform. cbn [m_state]. unfold op_state. by rewrite (says_holds _ _ Hcs'). }
    by destruct (m_value dr).
  - assert (Hidle : m_state dr = None) by (eapply expr_idles; [exact Hr|by rewrite (says_holds _ _ Hcs)|exact Hdr]).
    assert (m_value dr = None) as -> by (unfold m_value, m_result; by rewrite Hidle).
    assert (m_value nop = Some v) as ->; [|done].
    unfold m_value, m_result, nop. rewrite (perform_value Nop [dl] [v]); [done|done|by csimpl; rewrite Hvl|by apply (says_holds _ true)].
Qed.
End Laws.

(** ** The same in the generated code *)
Section Generated.
Context {D : Type} (op : TwGraphNode -> list D -> option D -> D).

Lemma eval_nodes_length V ns : length (eval_nodes op V ns) = length V + length ns.
Proof. revert V. induction ns as [|n ns IH]; intros V; simpl; [lia|]. rewrite IH, length_app. simpl. lia. Qed.

(** What the names, the output and the condition of a state mean. *)
Definition locals_of (c : GraphContext) : gmap string D * option D :=
  let V := eval_nodes op [] (ctx_nodes c) in (omap (V !!.) (names c), output (target c) ≫= (V !!.)).

Definition condition_of (c : GraphContext) : option D := head (condition_stack c) ≫= (eval_nodes op [] (ctx_nodes c) !!.).

Lemma found c i : i < length (ctx_nodes c) -> exists d, eval_nodes op [] (ctx_nodes c) !! i = Some d.
Proof. intros Hi. apply lookup_lt_is_Some_2. by rewrite eval_nodes_length. Qed.

Lemma ctx_ok_locals np ng c : ctx_ok np ng c -> locals_mean op (names c) (target c) (locals_of c).
Proof.
  intros Hc. unfold locals_of. split; cbn [fst snd].
  - intros x i Hi. destruct (found c i) as [d Hd]; [by eapply co_names|]. exists d. split; [|done].
    by rewrite lookup_omap, Hi.
  - intros x Hx. by rewrite lookup_omap, Hx.
  - destruct (output (target c)) as [o|] eqn:Eo; [|done]. destruct (found c o) as [d Hd]; [by eapply co_output|]. by exists d.
Qed.

Lemma ctx_ok_condition np ng c : ctx_ok np ng c -> pre_means op c (head (condition_stack c)) (condition_of c).
Proof.
  intros Hc. unfold condition_of. pose proof (co_stack _ _ _ Hc) as Hs. destruct (condition_stack c) as [|i l]; [done|]. simpl.
  apply Forall_cons in Hs as [Hi _]. destruct (found c i Hi) as [d Hd]. exists d. by rewrite Hd.
Qed.
End Generated.

Section Code.
Context {T : Type} `{KvTransaction T}.
Context (rmp_to_vec : PrimitiveValue -> bytes) (rmp_from_slice : bytes -> anyhow PrimitiveValue).
Context (vm : TwVm) (txn : T) (rec : nat -> list VmValue -> xres (option VmValue)) (args : list VmValue).
Context (params : list VmType) (root : AstRoot) (np : nat).
Abbreviation op := (perform vm params (seq_node rmp_to_vec rmp_from_slice vm txn rec args)).
Abbreviation ng := (length (root_graphs root)).

(** The nodes generated for a statement under a condition that does not hold. *)
Lemma generated_quiet c x c' :
  ctx_ok np ng c -> generate_stmt root x c = Ok (tt, c') -> (exists p, condition_of op c = Some p /\ m_holds p = false) ->
  Forall and_typed (eval_nodes op [] (ctx_nodes c')) ->
  forall j d, length (ctx_nodes c) <= j -> eval_nodes op [] (ctx_nodes c') !! j = Some d -> quiet d.
Proof.
  intros Hc Hg (p & Hp & Hh) Ht j d Hj Hd.
  pose proof (generate_stmt_ok root np x c Hc) as Hok. unfold ok_from in Hok. rewrite Hg in Hok. destruct Hok as (Hc' & _ & _).
  destruct (stmt_means_all op root (emit_pools (builder c') []) (builder c') (co_builder _ _ _ Hc') eq_refl eq_refl eq_refl x
    c (locals_of op c) (condition_of op c) (ctx_ok_locals op np ng c Hc) (ctx_ok_condition op np ng c Hc) tt c' Hg (reflexivity _))
    as (st' & tr & Hr & Htr & _).
  rewrite Hp in Hr. rewrite Htr in *. apply Forall_app in Ht as [_ Ht].
  destruct (stmt_quiet _ _ _ _ _ _ _ _ _ _ x p _ Hh _ _ Hr Ht) as [Hq _].
  rewrite lookup_app_r in Hd by (rewrite eval_nodes_length; exact Hj).
  rewrite Forall_lookup in Hq. by eapply Hq.
Qed.

(** The nodes generated for [l ?? r]. *)
Lemma generated_or_else c name a b l r i c' il c1 d dl v :
  ctx_ok np ng c -> generate_expr root name (MkExpr a b (KOrElse l r)) c = Ok (i, c') ->
  generate_expr root None l c = Ok (il, c1) ->
  eval_nodes op [] (ctx_nodes c') !! i = Some d -> eval_nodes op [] (ctx_nodes c1) !! il = Some dl ->
  m_result dl = Some (Some v) -> match condition_of op c with Some p => says p true | None => True end ->
  is_variable r = false ->
  exists cond dr trr,
    denote op (emit_pools (builder c') []) (type_aliases (builder c')) root (locals_of op c).1 (Some cond) r = Some (dr, trr) /\
    says cond (is_null v) /\ (forall x, x ∈ trr -> x ∈ eval_nodes op [] (ctx_nodes c')) /\
    if is_null v then m_result d = Some <$> m_value dr else m_result d = Some (Some v) /\ m_state dr = None.
Proof.
  intros Hc Hg Hl Hd Hdl Hv Hp Hr.
  assert (Hle : builder_le (builder c1) (builder c')).
  { pose proof Hg as Hg'. cbn [generate_expr] in Hg'. apply gbind_ok in Hg' as (pre & c0 & [= <- <-] & Hg').
    apply gbind_ok in Hg' as (il' & c1' & Hl' & Hg'). rewrite Hl in Hl'. injection Hl' as <- <-.
    assert (Hm : forall m : Gen nat, m c1 = Ok (i, c') -> Mono m -> builder_le (builder c1) (builder c')) by (intros m He Hm; by eapply Hm).
    eapply Hm; [exact Hg'|apply _]. }
  pose proof (generate_expr_ok root np (MkExpr a b (KOrElse l r)) name c Hc) as Hok. unfold ok_from in Hok. rewrite Hg in Hok.
  destruct Hok as (Hc' & _ & _).
  pose proof (locals_ctx op c (locals_of op c) (condition_of op c) (ctx_ok_locals op np ng c Hc) (ctx_ok_condition op np ng c Hc)) as Hctx.
  destruct (expr_means_all op root (emit_pools (builder c') []) (builder c') (co_builder _ _ _ Hc') eq_refl eq_refl eq_refl
    _ name c _ _ Hctx i c' Hg (reflexivity _)) as (d' & tr & Hden & Htr & Hi & _).
  destruct (expr_means_all op root (emit_pools (builder c') []) (builder c') (co_builder _ _ _ Hc') eq_refl eq_refl eq_refl
    _ None c _ _ Hctx il c1 Hl Hle) as (dl' & trl & Hdenl & _ & Hil & _).
  unfold node_means in *. rewrite Hd in Hi. injection Hi as <-. rewrite Hdl in Hil. injection Hil as <-.
  destruct (or_else_law _ _ _ _ _ _ _ _ _ _ _ _ a b l r d tr dl trl v Hden Hdenl Hv Hp Hr) as (cond & dr & trr & H1 & H2 & H3 & H4).
  exists cond, dr, trr. split_and!; [done|done| |done]. intros x Hx. rewrite Htr. apply elem_of_app. right.
  by eapply elem_of_sublist.
Qed.
End Code.
