(* ===== verification/ServerEnv.v ===== *)
(** * What the server stands on: [rdb-server/src/state.rs], [main.rs], [util.rs]

    The crates the server calls, as one class; what a request meets at run time,
    as one record; and the stores the server keeps, as a class over a database
    that holds them all, with its instances for the two back ends. *)
From stdpp Require Import prelude gmap strings list.
From Stdlib Require Import Strings.Byte ZArith.
From S2P Require Import Prelude OrdMap Schema StoragePlan Planner Value Kv VmValue AsmAst Backend Sqlite Foundation.

(** ** Crates *)
Class Crates := {
  parse_schema : string -> anyhow AstSchema;
  parse_script : string -> anyhow AstRoot;
  kosaraju_scc : nat -> list (nat * nat) -> list (list nat);
  value_to_vec : PrimitiveValue -> bytes;
  value_from_slice : bytes -> anyhow PrimitiveValue;
  fmt_f64 : Z -> string;
  base64_encode : bytes -> string;
  base64_decode : string -> option bytes;
  plan_to_vec_named : Plan -> anyhow bytes;
  plan_from_read : bytes -> anyhow Plan;
  frame_encode : bytes -> anyhow bytes;
  frame_decode : bytes -> anyhow bytes;
  yaml_to_string : StoragePlan string -> anyhow string;
  yaml_from_str : string -> anyhow (StoragePlan string);
  string_from_utf8 : bytes -> option string;
  sha256_hex : string -> string
}.

(** What the crates document of their codecs. *)
Class CrateLaws `{Crates} : Prop := {
  plan_codec : forall p b, plan_to_vec_named p = Ok b -> plan_from_read b = Ok p;
  frame_codec : forall x y, frame_encode x = Ok y -> frame_decode y = Ok x;
  yaml_codec : forall p x, yaml_to_string p = Ok x -> yaml_from_str x = Ok p;
  base64_codec : forall b, base64_decode (base64_encode b) = Some b;
  utf8_codec : forall s : string, string_from_utf8 (as_bytes s) = Some s
}.

Abbreviation plan_compressed := (serialize_compressed plan_to_vec_named frame_encode).
Abbreviation plan_decompressed := (deserialize_compressed plan_from_read frame_decode).

Lemma stored_plan_reads_back `{CrateLaws} p b : plan_compressed p = Ok b -> plan_decompressed b = Ok p.
Proof. apply compressed_roundtrip; [apply plan_codec|apply frame_codec]. Qed.

Lemma plan_to_vec_inj `{CrateLaws} p q b : plan_to_vec_named p = Ok b -> plan_to_vec_named q = Ok b -> p = q.
Proof. intros Hp%plan_codec Hq%plan_codec. congruence. Qed.

(** ** Stores *)
(** The three kinds of store over one database: [system_store], the metadata of the
    system schema, and [data_store_generator].  [db_of] is the database of a store
    after a commit. *)
Class Stores (D S : Type) := {
  system_store : D -> S;
  system_metadata_store : D -> S;
  data_store_generator : bytes -> D -> S;
  db_of : S -> D
}.

(** The user data is one map from keys to values, of which the store of a prefix
    shows the keys with that prefix.  A commit to it changes no other key, and not
    the system's store. *)
Class StoresLaws (D S T : Type) `{Stores D S} `{KeyValueStore S T} `{KvTransaction T} `{KvView T} `{KvContents S} := {
  user_data : D -> Contents;
  data_store_contents : forall p d k, kv_contents (data_store_generator p d) k = user_data d (p ++ k);
  data_store_commit : forall p d s1 t0 t s',
    kv_begin (data_store_generator p d) = Ok (s1, t0) -> kv_steps t0 t -> kv_commit s1 t = Ok s' ->
    (forall k, user_data (db_of s') (p ++ k) = kv_contents s' k) /\
    (forall k, (forall r, k <> p ++ r) -> user_data (db_of s') k = user_data d k) /\
    forall k, kv_contents (system_store (db_of s')) k = kv_contents (system_store d) k
}.

(** *** On SQLite: a table each for the system, its metadata and the user data *)
Section OnSqlite.
Context {D X : Type} `{!Sqlite D X}.

#[export] Instance sqlite_stores : Stores D (SqliteKvStore D) := {
  system_store d := MkSqliteKvStore d "system" [];
  system_metadata_store d := MkSqliteKvStore d "system_meta" [];
  data_store_generator namespace d := MkSqliteKvStore d "user_data" namespace;
  db_of := global
}.

#[export] Instance sqlite_stores_laws `{!SqliteLaws D X} : StoresLaws D (SqliteKvStore D) (SqliteKvTxn X).
Proof.
  refine {| user_data d := sq_rows d "user_data" |}; [done|].
  intros p d s1 t0 t s' Hb Hs Hc. destruct (sqlite_begin_inv _ _ _ Hb) as [-> _].
  destruct (sqlite_commit_inv _ _ _ Hc) as (_ & _ & _ & _ & _ & Ht & Hp).
  destruct (sqlite_commit_serial _ _ _ _ _ _ Hb Hs Hc) as (_ & Hend). cbn [db_of sqlite_stores].
  split; [|destruct Hend as [(_ & _ & Hrows)|(_ & _ & Hrows)]].
  - intros k. unfold kv_contents, sqlite_contents. by rewrite Ht, Hp.
  - cbn [global data_store_generator sqlite_stores] in Hrows. unfold kv_contents, sqlite_contents, system_store. cbn [sqlite_stores global store_table store_prefix].
    by rewrite Hrows.
  - cbn [global store_table store_prefix data_store_generator sqlite_stores] in Hrows. split.
    + intros k Hk. apply Hrows. by right.
    + intros k. unfold kv_contents, sqlite_contents, system_store. cbn [sqlite_stores global store_table store_prefix].
      apply Hrows. by left.
Defined.
End OnSqlite.

(** *** On FoundationDB: a subspace each, under the keyspace of the server *)
Section OnFdb.
Context {D R X E : Type} `{!Fdb D R X E}.

(** The bytes of [keyspace.subspace(name)]: none of the three is a prefix of another,
    since a tuple ends each. *)
Class Keyspace := {
  subspace : string -> bytes;
  subspace_apart : forall a b x y, a <> b -> subspace a ++ x <> subspace b ++ y
}.

Definition fdb_stores `{!Keyspace} : Stores D (FdbKvStore D) := {|
  system_store d := MkFdbKvStore d (subspace "System");
  system_metadata_store d := MkFdbKvStore d (subspace "SystemMeta");
  data_store_generator namespace d := MkFdbKvStore d (subspace "D" ++ namespace);
  db_of := db
|}.

Definition fdb_stores_laws `{!FdbLaws D R X E} `{!Keyspace} :
  @StoresLaws D (FdbKvStore D) (FdbTxn X) fdb_stores _ _ _ _.
Proof.
  refine (@Build_StoresLaws D (FdbKvStore D) (FdbTxn X) fdb_stores _ _ _ _
            (fun d k => fdb_rows d (subspace "D" ++ k)) _ _).
  - intros p d k. unfold kv_contents, fdb_contents, with_prefix. cbn. by rewrite (assoc_L (++)).
  - intros p d s1 t0 t s' Hb Hs Hc. destruct (fdb_begin_inv _ _ _ Hb) as [-> _].
    destruct (fdb_commit_inv _ _ _ Hc) as [Hp _]. pose proof (fdb_commit_prefix _ _ _ _ _ _ Hb Hs Hc) as Hout.
    cbn in *. split_and!.
    + intros k. unfold kv_contents, fdb_contents, with_prefix. by rewrite Hp, (assoc_L (++)).
    + intros k Hk. apply Hout. intros r Hr. rewrite <- (assoc_L (++)) in Hr. apply app_inv_head in Hr. by apply (Hk r).
    + intros k. unfold kv_contents, fdb_contents, with_prefix. cbn. apply Hout. intros r.
      rewrite <- (assoc_L (++)). by apply subspace_apart.
Defined.
End OnFdb.

(** ** A request *)
(** What a request meets: the clock ([current_millis]), [Uuid::new_v4], the random
    bytes of [thread_rng], the draws of the planner, for each of its calls
    of graphs whether the timer cuts it off and after how many attempts, the order
    in which the nodes of those graphs complete, and what other clients do to the
    database during their attempts. *)
Record Circumstances (D : Type) := MkCircumstances {
  current_millis : Z;
  new_uuid : string;
  random_prefix : bytes;
  plan_draws : Entropy;
  call_times_out : string -> option nat;
  completion : nat -> nat;
  other_clients : nat -> D -> D
}.
Arguments current_millis {D} _.
Arguments new_uuid {D} _.
Arguments random_prefix {D} _.
Arguments plan_draws {D} _.
Arguments call_times_out {D} _ _.
Arguments completion {D} _ _.
Arguments other_clients {D} _ _ _.
