(* ===== verification/System.v ===== *)
(** * The system schema at start-up: [rdb-server/src/system.rs]

    When the server starts it compiles its own schema, reads the schema text and
    the plan kept in the metadata store and plans again.  It goes on when nothing
    has changed, migrates when the operator has confirmed the change by its hash,
    and aborts otherwise.  A call of [unwrap] that fails is a panic. *)
From stdpp Require Import prelude gmap strings list.
From Stdlib Require Import Strings.Byte ZArith.
From S2P Require Import Prelude OrdMap Schema SchemaFacts StoragePlan Planner PlannerPlan Kv VmValue.
From S2P Require Import AsmAst Codegen Query ServerEnv.

(** [.unwrap()] on a [Result]. *)
Definition unwrap_result {E F A} (c : outcome E A) : outcome F A :=
  match c with
  | Ok a => Ok a
  | Err _ | Panic => Panic
  | NoFuel => NoFuel
  end.

(** The process ends with [abort], after printing the hash to confirm. *)
Inductive StartFail := Aborted (hash : string).

(** [compile(&parse(text))], both of whose errors end up as an [anyhow] error or in
    an [unwrap]; [fuel] is the depth of compiling a syntax tree, for which
    [schema_fuel] is enough without generics. *)
Inductive SchemaTextError := STParse (message : string) | STCompile (e : SchemaCompileError).

Definition compile_text `{Crates} (fuel : AstSchema -> nat) (text : string) : outcome SchemaTextError CompiledSchema :=
  let? ast := map_err STParse (parse_schema text) in map_err STCompile (compile (fuel ast) ast).

Definition plan_text `{Crates} (ent : Entropy) (old_plan : Plan) (old_schema schema : CompiledSchema) : pres Plan :=
  generate_plan_for_schema (plan_fuel schema) ent old_plan old_schema schema.

Section Start.
Context {S T : Type} `{!KeyValueStore S T} `{!KvTransaction T} `{!Crates}.
Context (fuel : AstSchema -> nat) (SCHEMA SYS_RASM : string) (ent : Entropy).

Definition schema_key : bytes := as_bytes "schema".
Definition plan_key : bytes := as_bytes "plan".

(** [txn.get(key).map(..).transpose()]. *)
Definition read_text (txn : T) : outcome StartFail (option string) :=
  let? raw := unwrap_result (kv_get txn schema_key) in
  match raw with
  | None => Ok None
  | Some x => let? text := unwrap (string_from_utf8 x) in Ok (Some text)
  end.

Definition read_plan (txn : T) : outcome StartFail (option Plan) :=
  let? raw := unwrap_result (kv_get txn plan_key) in
  match raw with
  | None => Ok None
  | Some x => let? plan := unwrap_result (plan_decompressed x) in Ok (Some plan)
  end.

(** The two puts and the commit with which both the migration and the first start
    end. *)
Definition write_schema (meta_store : S) (txn : T) (new_plan : Plan) : outcome StartFail S :=
  let? txn := unwrap_result (kv_put txn schema_key (as_bytes SCHEMA)) in
  let? serialized := unwrap_result (plan_compressed new_plan) in
  let? txn := unwrap_result (kv_put txn plan_key serialized) in
  unwrap_result (kv_commit meta_store txn).

Definition system_plan (migration_hash : option string) (meta_store : S) (txn : T) (schema : CompiledSchema)
    (old_schema_text : option string) (old_plan : option Plan) : outcome StartFail (Plan * S) :=
  match old_schema_text with
  | Some old_schema_text =>
      let? old_schema := unwrap_result (compile_text fuel old_schema_text) in
      let? old_plan := unwrap old_plan in
      let? new_plan := unwrap_result (plan_text ent old_plan old_schema schema) in
      let? old_plan_serialized := unwrap_result (plan_to_vec_named old_plan) in
      let? new_plan_serialized := unwrap_result (plan_to_vec_named new_plan) in
      if decide (old_schema_text <> SCHEMA \/ old_plan_serialized <> new_plan_serialized) then
        let hash := sha256_hex SCHEMA in
        if decide (migration_hash <> Some hash) then Err (Aborted hash)
        else let? meta_store := write_schema meta_store txn new_plan in Ok (new_plan, meta_store)
      else Ok (new_plan, meta_store)
  | None =>
      let? new_plan := unwrap_result (plan_text ent empty_plan empty_schema schema) in
      let? meta_store := write_schema meta_store txn new_plan in
      Ok (new_plan, meta_store)
  end.

(** [SystemSchema::new]. *)
Definition system_schema_new (migration_hash : option string) (meta_store : S) : outcome StartFail (ExecContext * S) :=
  let? schema := unwrap_result (compile_text fuel SCHEMA) in
  let? (meta_store, txn) := unwrap_result (kv_begin meta_store) in
  let? old_schema_text := read_text txn in
  let? old_plan := read_plan txn in
  let? (plan, meta_store) := system_plan migration_hash meta_store txn schema old_schema_text old_plan in
  let? exec_ctx := unwrap_result (load (compile_twscript parse_script) kosaraju_scc schema plan SYS_RASM) in
  Ok (exec_ctx, meta_store).
End Start.

(** ** Starting again *)
Lemma unwrap_result_ok {E F A} (c : outcome E A) a : unwrap_result (F := F) c = Ok a -> c = Ok a.
Proof. destruct c; simpl; congruence. Qed.

Lemma unwrap_ok {E A} (o : option A) a : unwrap (E := E) o = Ok a -> o = Some a.
Proof. destruct o; simpl; congruence. Qed.

Lemma compile_text_wf `{Crates} fuel text schema : compile_text fuel text = Ok schema -> wf_schema schema.
Proof.
  intros (ast & _ & Hc)%obind_ok. destruct (compile _ _) eqn:E; try done. injection Hc as ->. by eapply compile_wf_gen.
Qed.

Section Restart.
Context {S T : Type} `{KvStoreLaws S T} `{!KvTransactionLaws T} `{CrateLaws}.
Context (fuel : AstSchema -> nat) (SCHEMA SYS_RASM : string).

(** The metadata store holds the schema text and a plan that the planner made for
    it. *)
Definition meta_holds (meta : S) (schema : CompiledSchema) (plan : Plan) : Prop :=
  (exists x, kv_contents meta schema_key = Some x /\ string_from_utf8 x = Some SCHEMA) /\
  (exists b, kv_contents meta plan_key = Some b /\ plan_decompressed b = Ok plan) /\
  (exists v, plan_to_vec_named plan = Ok v) /\
  exists ent old os, plan_text ent old os schema = Ok plan.

Lemma write_schema_holds meta meta1 txn plan meta' :
  kv_begin meta = Ok (meta1, txn) -> write_schema SCHEMA meta1 txn plan = Ok meta' ->
  (exists x, kv_contents meta' schema_key = Some x /\ string_from_utf8 x = Some SCHEMA) /\
  (exists b, kv_contents meta' plan_key = Some b /\ plan_decompressed b = Ok plan) /\
  exists v, plan_to_vec_named plan = Ok v.
Proof.
  intros Hb (t1 & Ht1%unwrap_result_ok & (b & Hs%unwrap_result_ok & (t2 & Ht2%unwrap_result_ok & Hc%unwrap_result_ok)
    %obind_ok)%obind_ok)%obind_ok.
  assert (Hsteps : kv_steps txn t2).
  { eapply rtc_l; [by eapply write_put|]. eapply rtc_l; [by eapply write_put|]. apply rtc_refl. }
  pose proof (kv_commit_law _ _ _ _ _ Hb Hsteps Hc) as Hcont.
  apply kv_put_law in Ht1 as [_ Hk1], Ht2 as [_ Hk2]. destruct (Hcont schema_key) as [_ ->], (Hcont plan_key) as [_ ->].
  rewrite !Hk2, !Hk1. split; [exists (as_bytes SCHEMA); split; [done|apply utf8_codec]|]. split.
  - exists b. split; [done|]. by apply stored_plan_reads_back.
  - apply obind_ok in Hs as (v & Hv & _). by exists v.
Qed.

Lemma read_text_spec (meta meta1 : S) txn o :
  kv_begin meta = Ok (meta1, txn) -> read_text (T := T) txn = Ok o ->
  o = match kv_contents meta schema_key with Some x => string_from_utf8 x | None => None end.
Proof.
  intros Hb (raw & Hg%unwrap_result_ok & Hr)%obind_ok. rewrite <- (kv_read_law _ _ _ _ _ Hb Hg).
  destruct raw as [x|]; [|by injection Hr as <-]. by apply obind_ok in Hr as (text & ->%unwrap_ok & [= <-]).
Qed.

Lemma read_plan_spec (meta meta1 : S) txn o :
  kv_begin meta = Ok (meta1, txn) -> read_plan (T := T) txn = Ok o ->
  match kv_contents meta plan_key with
  | Some x => exists p, plan_decompressed x = Ok p /\ o = Some p
  | None => o = None
  end.
Proof.
  intros Hb (raw & Hg%unwrap_result_ok & Hr)%obind_ok. rewrite <- (kv_read_law _ _ _ _ _ Hb Hg).
  destruct raw as [x|]; [|by injection Hr as <-]. apply obind_ok in Hr as (p & Hp%unwrap_result_ok & [= <-]). by exists p.
Qed.

(** Whichever way a start goes, it leaves the schema and its plan in the store. *)
Lemma start_leaves_schema ent hash (meta meta' : S) ec :
  system_schema_new (T := T) fuel SCHEMA SYS_RASM ent hash meta = Ok (ec, meta') ->
  exists schema plan, compile_text fuel SCHEMA = Ok schema /\ meta_holds meta' schema plan /\
    load (compile_twscript parse_script) kosaraju_scc schema plan SYS_RASM = Ok ec.
Proof.
  intros (schema & Hsch%unwrap_result_ok & ([meta1 txn] & Hb%unwrap_result_ok & (text & Htext & (old & Hold &
    ([plan meta2] & Hplan & (ec' & Hload%unwrap_result_ok & [= <- <-])%obind_ok)%obind_ok)%obind_ok)%obind_ok)%obind_ok)%obind_ok.
  exists schema, plan. split; [done|]. split; [|done]. unfold system_plan in Hplan.
  pose proof (read_text_spec _ _ _ _ Hb Htext) as Ht. pose proof (read_plan_spec _ _ _ _ Hb Hold) as Ho.
  destruct text as [text|].
  - apply obind_ok in Hplan as (os & _ & (op & ->%unwrap_ok & (np & Hnp%unwrap_result_ok & (ob & Hob%unwrap_result_ok &
      (nb & Hnb%unwrap_result_ok & Hplan)%obind_ok)%obind_ok)%obind_ok)%obind_ok).
    assert (Hgen : exists ent old os, plan_text ent old os schema = Ok np) by by do 3 eexists.
    case_decide as Hchange.
    + case_decide; [done|]. apply obind_ok in Hplan as (m & Hw & [= <- <-]).
      by destruct (write_schema_holds _ _ _ _ _ Hb Hw) as (? & ? & ?).
    + injection Hplan as <- <-. assert (text = SCHEMA /\ ob = nb) as [-> ->].
      { split; apply dec_stable; tauto. }
      rewrite <- (plan_to_vec_inj _ _ _ Hob Hnb) in Hgen |- *.
      unfold meta_holds. rewrite !(kv_begin_law _ _ _ Hb).
      destruct (kv_contents meta schema_key) as [x|]; [|done]. destruct (kv_contents meta plan_key) as [y|]; [|done].
      destruct Ho as (p & Hp & [= ->]). split_and!; [by exists x|by exists y|by exists nb|done].
  - apply obind_ok in Hplan as (np & Hnp%unwrap_result_ok & (m & Hw & [= <- <-])%obind_ok).
    destruct (write_schema_holds _ _ _ _ _ Hb Hw) as (? & ? & ?). split_and!; [done..|]. by do 3 eexists.
Qed.

(** From there every start finds the schema unchanged: it plans the same plan again,
    writes nothing and needs no confirmation. *)
Lemma start_unchanged ent hash (meta meta1 : S) (txn : T) a b schema plan ec :
  compile_text fuel SCHEMA = Ok schema -> meta_holds meta schema plan ->
  load (compile_twscript parse_script) kosaraju_scc schema plan SYS_RASM = Ok ec ->
  kv_begin meta = Ok (meta1, txn) -> kv_get txn schema_key = Ok a -> kv_get txn plan_key = Ok b ->
  system_schema_new fuel SCHEMA SYS_RASM ent hash meta = Ok (ec, meta1).
Proof.
  intros Hsch ((x & Hx & Hxs) & (y & Hy & Hyp) & (v & Hv) & ent0 & old & os & Hgen) Hload Hb Ha Hbp.
  assert (Hst : plan_text ent plan schema schema = Ok plan).
  { apply obind_ok in Hgen as ([p d] & Hg & [= ->]). unfold plan_text, generate_plan_for_schema.
    rewrite (generate_plan_stable _ _ ent _ _ _ _ _) by (try exact Hg; by eapply compile_text_wf). done. }
  unfold system_schema_new, read_text, read_plan. rewrite Hsch. cbn [unwrap_result obind]. rewrite Hb. cbn [unwrap_result obind].
  rewrite Ha, Hbp. apply (kv_read_law _ _ _ _ _ Hb) in Ha as ->, Hbp as ->. rewrite Hx, Hy.
  cbn [unwrap_result obind]. rewrite Hxs, Hyp. cbn [unwrap_result unwrap obind system_plan]. rewrite Hsch.
  cbn [unwrap_result obind]. rewrite Hst. cbn [unwrap_result obind]. rewrite Hv. cbn [unwrap_result obind].
  rewrite decide_False by naive_solver. cbn [obind]. by rewrite Hload.
Qed.

(** Without the hash of the schema a start changes nothing in a store that has one. *)
Lemma start_without_hash ent hash (meta meta' : S) ec :
  system_schema_new (T := T) fuel SCHEMA SYS_RASM ent hash meta = Ok (ec, meta') ->
  kv_contents meta schema_key <> None -> hash <> Some (sha256_hex SCHEMA) ->
  forall k, kv_contents meta' k = kv_contents meta k.
Proof.
  intros (schema & _ & ([meta1 txn] & Hb%unwrap_result_ok & (text & Htext & (old & _ &
    ([plan meta2] & Hplan & (ec' & _ & [= <- <-])%obind_ok)%obind_ok)%obind_ok)%obind_ok)%obind_ok)%obind_ok Hc Hh k.
  rewrite <- (kv_begin_law _ _ _ Hb). apply (read_text_spec _ _ _ _ Hb) in Htext as Ht. unfold system_plan in Hplan.
  destruct text as [text|].
  - apply obind_ok in Hplan as (? & _ & (? & _ & (? & _ & (? & _ & (? & _ & Hplan)%obind_ok)%obind_ok)%obind_ok)%obind_ok).
    case_decide; [by rewrite decide_True in Hplan|]. by injection Hplan as _ <-.
  - exfalso. apply obind_ok in Htext as (raw & Hg%unwrap_result_ok & Hr). apply (kv_read_law _ _ _ _ _ Hb) in Hg as ->.
    destruct (kv_contents meta schema_key); [|done]. by apply obind_ok in Hr as (? & _ & ?).
Qed.
End Restart.
