(* ===== verification/ControlPlane.v ===== *)
(** * The control plane: [rdb-server/src/server.rs], [sysquery.rs]

    The handlers of the gRPC service [RdbControl].  Each runs one or more graphs of
    the system script on the system store, reads the answer, and returns a reply or
    the status made from an error ([translate_err]).  A handler carries the
    database along: what it has committed stays when it fails later.  Of the status
    the model keeps the error it was made from. *)
From stdpp Require Import prelude gmap strings list.
From Stdlib Require Import Strings.Byte ZArith.
From S2P Require Import Prelude OrdMap Schema StoragePlan Planner Value Kv VmValue AsmAst Codegen Serialize Query.
From S2P Require Import ServerEnv System.

(** ** Handlers *)
Inductive SysQueryError := NamespaceNotFound | QueryScriptNotFound.

(** The errors [translate_err] turns into a status. *)
Inductive ServerFail :=
| FQuery (e : QueryError)
| FValue (e : SerializeFail)
| FKv (message : string)
| FCommit (e : KvError)
| FSchema (e : SchemaTextError)
| FText (message : string)
| FConversion (e : StorageKeyConversionError)
| FPlanner (e : PlannerError)
| FLoad (e : QueryError)
| FSysQuery (e : SysQueryError)
| InvalidStoragePlan.

(** A computation on a state: its outcome, and the state after; and one on the state
    of the server. *)
Definition computation (E St A : Type) : Type := St -> outcome E A * St.
Abbreviation handler := (computation ServerFail).

Definition hret {E St A} (a : A) : computation E St A := fun st => (Ok a, st).

Definition hbind {E St A B} (m : computation E St A) (k : A -> computation E St B) : computation E St B := fun st =>
  match m st with
  | (Ok a, st) => k a st
  | (Err e, st) => (Err e, st)
  | (Panic, st) => (Panic, st)
  | (NoFuel, st) => (NoFuel, st)
  end.

(** [c.translate_err()?], for a call that leaves the state alone. *)
Definition try_ {F St E A} (f : E -> F) (c : outcome E A) : computation F St A := fun st => (map_err f c, st).

Notation "'let>' x := c 'in' k" := (hbind c (fun x => k))
  (at level 10, x pattern, c at level 200, k at level 200,
   format "'[v' 'let>'  x  :=  c  'in' '/' k ']'") : rust_scope.

(** [VmValueEncodeConfig::default()], and the one with every representation on. *)
Definition default_config : VmValueEncodeConfig := MkEncodeConfig false false false.
Definition full_config : VmValueEncodeConfig := MkEncodeConfig true true true.

(** What [ExecContext::load] gives a handler: an error, or a panic. *)
Definition of_load {A} (c : qres A) : outcome ServerFail A :=
  match c with
  | Ok a => Ok a
  | Err (QErr e) => Err (FLoad e)
  | Err (QPanic _) | Panic => Panic
  | NoFuel => NoFuel
  end.

Section Server.
Context {D S T : Type} `{!KeyValueStore S T} `{!KvTransaction T} `{!Stores D S} `{!Crates}.
Context (fuel : AstSchema -> nat) (system : ExecContext) (o : Circumstances D).

(** ** Calls of system graphs: [sysquery.rs] *)
(** [system_schema.exec_ctx.run_exported_graph(&*system_store, ..)]. *)
Definition run_system_graph (name : string) (params : list SerializedVmValue) (config : VmValueEncodeConfig)
    : handler D SerializedVmValue := fun d =>
  let '(r, s) := run_exported_graph (T := T) value_to_vec value_from_slice (completion o)
          (fun i s => system_store (other_clients o i (db_of s))) fmt_f64 base64_encode base64_decode system
          (call_times_out o name) name params config (system_store d) in
  (map_err FQuery r, db_of s).

(** [res.check_nonnull()?; res.try_unwrap_bool()?]. *)
Definition bool_answer (res : SerializedVmValue) : handler D bool :=
  let> _ := try_ FValue (check_nonnull res) in try_ FValue (try_unwrap_bool res).

(** [m.get(name).unwrap()] and its accessor. *)
Definition field {A} (f : SerializedVmValue -> sres A) (m : list (string * SerializedVmValue)) (name : string)
    : sres A :=
  let? v := unwrap (bt_get name m) in f v.

Record QueryScript := MkQueryScript {
  qs_id : string;
  qs_create_time : Z;
  qs_associated_deployment : string;
  qs_script : string
}.

Record Deployment := MkDeployment {
  dp_id : string;
  dp_description : string;
  dp_schema : string;
  dp_plan : bytes;
  dp_create_time : Z
}.

Definition ns_to_kv_prefix_with_appended_zero (ns_id : string) : handler D bytes :=
  let> res := run_system_graph "ns_to_kv_prefix" [SNull; SString ns_id] full_config in
  match res with
  | SNull => try_ FSysQuery (Err NamespaceNotFound)
  | _ => let> x := try_ FValue (try_unwrap_bytes res) in hret (x ++ [x00])
  end.

Definition query_script_of (res : SerializedVmValue) : sres QueryScript :=
  let? m := try_unwrap_map ["id"; "create_time"; "associated_deployment"; "script"] res in
  let? id := field try_unwrap_string m "id" in
  let? create_time := field try_unwrap_int64 m "create_time" in
  let? associated_deployment := field try_unwrap_string m "associated_deployment" in
  let? script := field try_unwrap_string m "script" in
  Ok (MkQueryScript id create_time associated_deployment script).

Definition lookup_query_script (ns_id qs_id : string) : handler D QueryScript :=
  let> res := run_system_graph "get_query_script" [SNull; SString ns_id; SString qs_id] full_config in
  match res with
  | SNull => try_ FSysQuery (Err QueryScriptNotFound)
  | _ => try_ FValue (query_script_of res)
  end.

Definition deployment_of (res : SerializedVmValue) : sres Deployment :=
  let? m := try_unwrap_map ["id"; "create_time"; "description"; "schema"; "plan"] res in
  let? id := field try_unwrap_string m "id" in
  let? description := field try_unwrap_string m "description" in
  let? schema := field try_unwrap_string m "schema" in
  let? plan := field try_unwrap_bytes m "plan" in
  let? create_time := field try_unwrap_int64 m "create_time" in
  Ok (MkDeployment id description schema plan create_time).

Definition lookup_deployment (namespace_id deployment_id : string) : handler D Deployment :=
  let> res := run_system_graph "get_deployment" [SNull; SString namespace_id; SString deployment_id] full_config in
  try_ FValue (deployment_of res).

(** ** Namespaces *)
Definition create_namespace (id : string) : handler D bool :=
  let> res := run_system_graph "add_namespace"
    [SNull; SString id; SString (base64_encode (random_prefix o)); SString (fmt_u64 (current_millis o))]
    default_config in
  bool_answer res.

Record NamespaceBasicInfo := MkNamespaceInfo { ni_id : string; ni_create_time : Z }.

Definition namespace_of (x : SerializedVmValue) : sres NamespaceBasicInfo :=
  let? m := try_unwrap_map ["id"; "create_time"] x in
  let? id := field try_unwrap_string m "id" in
  let? create_time := field try_unwrap_int64 m "create_time" in
  Ok (MkNamespaceInfo id create_time).

Definition list_answer {A} (f : SerializedVmValue -> sres A) (res : SerializedVmValue) : handler D (list A) :=
  let> _ := try_ FValue (check_nonnull res) in
  let> res := try_ FValue (try_unwrap_list res) in
  try_ FValue (mapM_o f res).

Definition list_namespace : handler D (list NamespaceBasicInfo) :=
  let> res := run_system_graph "list_namespaces" [SNull] full_config in list_answer namespace_of res.

(** The deletion of the data of a namespace: a transaction of its own, which is
    skipped when the look-up of the prefix fails for whatever reason. *)
Definition delete_data (kv_prefix : bytes) : handler D unit := fun d =>
  match last kv_prefix with
  | None => (Panic, d)
  | Some popped =>
      if decide (popped <> x00) then (Panic, d)
      else
        let full_range := data_store_generator (removelast kv_prefix) d in
        match kv_begin (T := T) full_range with
        | Ok (s, txn) =>
            match kv_delete_range txn [x00] [x01] with
            | Ok txn =>
                match kv_commit s txn with
                | Ok s => (Ok tt, db_of s)
                | c => (let? _ := map_err FCommit c in Ok tt, d)
                end
            | c => (let? _ := map_err FKv c in Ok tt, d)
            end
        | c => (let? _ := map_err FKv c in Ok tt, d)
        end
  end.

Definition delete_namespace_data (id : string) : handler D unit := fun d =>
  match ns_to_kv_prefix_with_appended_zero id d with
  | (Ok kv_prefix, d) => delete_data kv_prefix d
  | (Err _, d) => (Ok tt, d)
  | (Panic, d) => (Panic, d)
  | (NoFuel, d) => (NoFuel, d)
  end.

Definition delete_namespace (id : string) : handler D bool :=
  let> _ := delete_namespace_data id in
  let> res := run_system_graph "delete_namespace" [SNull; SString id] default_config in
  bool_answer res.

(** ** Deployments *)
Record CreateDeploymentRequest := MkCreateDeployment {
  cd_namespace_id : string;
  cd_description : string;
  cd_schema : string;
  cd_plan : string
}.

(** Reading the schema and the plan of a request, and the integrity check: planning
    again from the plan must give the same plan, byte for byte. *)
Definition check_deployment (r : CreateDeploymentRequest) : outcome ServerFail Plan :=
  let? new_schema := map_err FSchema (compile_text fuel (cd_schema r)) in
  let? text := map_err FText (yaml_from_str (cd_plan r)) in
  let? new_plan := map_err FConversion (plan_try_from base64_decode text) in
  let? generated_plan := map_err FPlanner (plan_text (plan_draws o) new_plan new_schema new_schema) in
  let? generated := map_err FText (plan_to_vec_named generated_plan) in
  let? submitted := map_err FText (plan_to_vec_named new_plan) in
  if decide (generated <> submitted) then Err InvalidStoragePlan else Ok generated_plan.

Definition create_deployment (r : CreateDeploymentRequest) : handler D (option string) :=
  let id := new_uuid o in
  let> generated_plan := (fun d => (check_deployment r, d)) in
  let> serialized := try_ FText (plan_compressed generated_plan) in
  let> res := run_system_graph "add_deployment"
    [SNull; SString (cd_namespace_id r);
     STaggedM (bt_collect [("id", SString id); ("description", SString (cd_description r));
                           ("schema", SString (cd_schema r)); ("plan", SString (base64_encode serialized));
                           ("create_time", SString (fmt_u64 (current_millis o)))])]
    default_config in
  let> ok := bool_answer res in
  hret (if ok then Some id else None).

Record DeploymentFullInfo := MkDeploymentInfo {
  di_id : string;
  di_create_time : Z;
  di_description : string;
  di_schema : string;
  di_plan : string
}.

Definition deployment_info_fields (m : list (string * SerializedVmValue)) : handler D DeploymentFullInfo :=
  let> id := try_ FValue (field try_unwrap_string m "id") in
  let> create_time := try_ FValue (field try_unwrap_int64 m "create_time") in
  let> description := try_ FValue (field try_unwrap_string m "description") in
  let> schema := try_ FValue (field try_unwrap_string m "schema") in
  let> raw := try_ FValue (field try_unwrap_bytes m "plan") in
  let> plan := try_ FText (plan_decompressed raw) in
  let> text := try_ FText (yaml_to_string (plan_to_string base64_encode plan)) in
  hret (MkDeploymentInfo id create_time description schema text).

Definition deployment_info_of (res : SerializedVmValue) : handler D DeploymentFullInfo :=
  let> m := try_ FValue (try_unwrap_map ["id"; "create_time"; "description"; "schema"; "plan"] res) in
  deployment_info_fields m.

Definition get_deployment (namespace_id deployment_id : string) : handler D (option DeploymentFullInfo) :=
  let> res := run_system_graph "get_deployment" [SNull; SString namespace_id; SString deployment_id] full_config in
  match res with
  | SNull => hret None
  | _ => let> info := deployment_info_of res in hret (Some info)
  end.

Record DeploymentBasicInfo := MkDeploymentBasic { db_id : string; db_create_time : Z; db_description : string }.

Definition deployment_basic_of (x : SerializedVmValue) : sres DeploymentBasicInfo :=
  let? m := try_unwrap_map ["id"; "create_time"; "description"] x in
  let? id := field try_unwrap_string m "id" in
  let? create_time := field try_unwrap_int64 m "create_time" in
  let? description := field try_unwrap_string m "description" in
  Ok (MkDeploymentBasic id create_time description).

Definition list_deployment (namespace_id : string) : handler D (list DeploymentBasicInfo) :=
  let> res := run_system_graph "list_deployment" [SNull; SString namespace_id] full_config in
  list_answer deployment_basic_of res.

Definition delete_deployment (namespace_id id : string) : handler D bool :=
  let> res := run_system_graph "delete_deployment" [SNull; SString namespace_id; SString id] default_config in
  bool_answer res.

(** ** Query scripts *)
Record CreateQueryScriptRequest := MkCreateQueryScript {
  cq_namespace_id : string;
  cq_id : string;
  cq_associated_deployment : string;
  cq_script : string
}.

(** [compile(&parse(..)?)?], [deserialize_compressed] and [ExecContext::load], with
    which a script is validated here and loaded for a query. *)
Definition load_deployed (schema_text : string) (plan : bytes) (script : string) : outcome ServerFail ExecContext :=
  let? schema := map_err FSchema (compile_text fuel schema_text) in
  let? plan := map_err FText (plan_decompressed plan) in
  of_load (load (compile_twscript parse_script) kosaraju_scc schema plan script).

Definition create_query_script (r : CreateQueryScriptRequest) : handler D bool :=
  let> depl := lookup_deployment (cq_namespace_id r) (cq_associated_deployment r) in
  let> _ := (fun d => (load_deployed (dp_schema depl) (dp_plan depl) (cq_script r), d)) in
  let> res := run_system_graph "add_or_update_query_script"
    [SNull; SString (cq_namespace_id r);
     STaggedM (bt_collect [("id", SString (cq_id r));
                           ("associated_deployment", SString (cq_associated_deployment r));
                           ("script", SString (cq_script r));
                           ("create_time", SString (fmt_u64 (current_millis o)))])]
    default_config in
  bool_answer res.

Definition delete_query_script (namespace_id id : string) : handler D bool :=
  let> res := run_system_graph "delete_query_script" [SNull; SString namespace_id; SString id] default_config in
  bool_answer res.

(** The reply holds the four fields of the script. *)
Definition get_query_script (namespace_id query_script_id : string) : handler D QueryScript :=
  lookup_query_script namespace_id query_script_id.

Record QueryScriptBasicInfo := MkQueryScriptInfo {
  qi_id : string;
  qi_associated_deployment : string;
  qi_create_time : Z
}.

Definition query_script_basic_of (x : SerializedVmValue) : sres QueryScriptBasicInfo :=
  let? m := try_unwrap_map ["id"; "associated_deployment"; "create_time"] x in
  let? id := field try_unwrap_string m "id" in
  let? associated_deployment := field try_unwrap_string m "associated_deployment" in
  let? create_time := field try_unwrap_int64 m "create_time" in
  Ok (MkQueryScriptInfo id associated_deployment create_time).

Definition list_query_script (namespace_id : string) : handler D (list QueryScriptBasicInfo) :=
  let> res := run_system_graph "list_query_script" [SNull; SString namespace_id] full_config in
  list_answer query_script_basic_of res.

(** ** The service *)
(** The calls of the service and their replies. *)
Inductive Request :=
| CreateNamespace (id : string)
| ListNamespace
| DeleteNamespace (id : string)
| CreateDeployment (r : CreateDeploymentRequest)
| GetDeployment (namespace_id deployment_id : string)
| ListDeployment (namespace_id : string)
| DeleteDeployment (namespace_id id : string)
| CreateQueryScript (r : CreateQueryScriptRequest)
| DeleteQueryScript (namespace_id id : string)
| GetQueryScript (namespace_id query_script_id : string)
| ListQueryScript (namespace_id : string).

Inductive Reply :=
| BoolReply (done : bool)
| NamespacesReply (namespaces : list NamespaceBasicInfo)
| DeploymentIdReply (deployment_id : option string)
| DeploymentReply (info : option DeploymentFullInfo)
| DeploymentsReply (deployments : list DeploymentBasicInfo)
| QueryScriptReply (info : QueryScript)
| QueryScriptsReply (query_scripts : list QueryScriptBasicInfo).

Definition hmap {E St A B} (f : A -> B) (m : computation E St A) : computation E St B := let> a := m in hret (f a).

Definition serve (r : Request) : handler D Reply :=
  match r with
  | CreateNamespace id => hmap BoolReply (create_namespace id)
  | ListNamespace => hmap NamespacesReply list_namespace
  | DeleteNamespace id => hmap BoolReply (delete_namespace id)
  | CreateDeployment r => hmap DeploymentIdReply (create_deployment r)
  | GetDeployment namespace_id deployment_id => hmap DeploymentReply (get_deployment namespace_id deployment_id)
  | ListDeployment namespace_id => hmap DeploymentsReply (list_deployment namespace_id)
  | DeleteDeployment namespace_id id => hmap BoolReply (delete_deployment namespace_id id)
  | CreateQueryScript r => hmap BoolReply (create_query_script r)
  | DeleteQueryScript namespace_id id => hmap BoolReply (delete_query_script namespace_id id)
  | GetQueryScript namespace_id query_script_id =>
      hmap QueryScriptReply (get_query_script namespace_id query_script_id)
  | ListQueryScript namespace_id => hmap QueryScriptsReply (list_query_script namespace_id)
  end.
End Server.
