(* ===== verification/HttpApi.v ===== *)
(** * Queries over HTTP: [rdb-server/src/httpapi.rs]

    [do_invoke_query] finds the loaded form of the script a client names, in the hot
    cache, in the cache of loaded queries or by loading it from the system store, and
    runs the graph on the store of the namespace.  The two routes differ in the
    format of the answer. *)
From stdpp Require Import prelude gmap strings list.
From Stdlib Require Import Strings.Byte ZArith.
From S2P Require Import Prelude OrdMap Schema StoragePlan Planner Value Kv VmValue AsmAst Codegen Serialize Query.
From S2P Require Import QueryCache ServerEnv System ControlPlane.

Section Api.
Context {D S T I C : Type} `{!KeyValueStore S T} `{!KvTransaction T} `{!Stores D S} `{!Crates}.
Context `{!Lru QueryCacheKey ExecContext I} `{!Lru (string * string) HotItem C}.
Context (fuel : AstSchema -> nat) (system : ExecContext) (o : Circumstances D).

(** What a request works on: the database, and the cache. *)
Record ServerState := MkServerState { st_db : D; st_query_cache : QueryCache I C }.

(** A handler of the database, and a call of the cache. *)
Definition on_db {A} (m : handler D A) : handler ServerState A := fun st =>
  let '(r, d) := m (st_db st) in (r, MkServerState d (st_query_cache st)).

Definition on_cache {A} (f : QueryCache I C -> A * QueryCache I C) : handler ServerState A := fun st =>
  let '(a, c) := f (st_query_cache st) in (Ok a, MkServerState (st_db st) c).

(** [QueryCache::get]: an item that is found becomes hot. *)
Definition cache_get (now : Z) (key : QueryCacheKey) (c : QueryCache I C) : option ExecContext * QueryCache I C :=
  match get_item c key with
  | Some item => (Some item, insert_hot c key item now)
  | None => (None, c)
  end.

Definition load_query (namespace_id : string) (query_script : QueryScript) (qc_key : QueryCacheKey)
    : handler ServerState ExecContext :=
  let> deployment := on_db (lookup_deployment (T := T) system o namespace_id (qs_associated_deployment query_script)) in
  let> exec_ctx := (fun st => (load_deployed fuel (dp_schema deployment) (dp_plan deployment) (qs_script query_script), st)) in
  let> _ := on_cache (fun c => (tt, cache_put c qc_key exec_ctx)) in
  hret exec_ctx.

(** The context a query runs in; [now] is the instant at which an item becomes hot. *)
Definition find_query (now : Z) (namespace_id query_script_id : string) : handler ServerState ExecContext :=
  let> hot := on_cache (fun c => (get_hot c namespace_id query_script_id, c)) in
  match hot with
  | Some x => hret x
  | None =>
      let> query_script := on_db (lookup_query_script (T := T) system o namespace_id query_script_id) in
      let qc_key := MkQueryCacheKey namespace_id (qs_associated_deployment query_script) query_script_id
                      (qs_create_time query_script) in
      let> item := on_cache (cache_get now qc_key) in
      match item with
      | Some x => hret x
      | None => load_query namespace_id query_script qc_key
      end
  end.

(** [exec_ctx.run_exported_graph(&*kv, ..)] on the store of the namespace. *)
Definition run_query (exec_ctx : ExecContext) (kv_prefix : bytes) (graph_name : string)
    (graph_params : list SerializedVmValue) (serialization_config : VmValueEncodeConfig)
    : handler D SerializedVmValue := fun d =>
  let '(r, s) := run_exported_graph (T := T) value_to_vec value_from_slice (completion o)
          (fun i s => data_store_generator kv_prefix (other_clients o i (db_of s))) fmt_f64 base64_encode base64_decode
          exec_ctx (call_times_out o graph_name) graph_name graph_params serialization_config
          (data_store_generator kv_prefix d) in
  (map_err FQuery r, db_of s).

Definition do_invoke_query (now : Z) (namespace_id query_script_id graph_name : string)
    (graph_params : list SerializedVmValue) (serialization_config : VmValueEncodeConfig)
    : handler ServerState SerializedVmValue :=
  let> kv_prefix := on_db (ns_to_kv_prefix_with_appended_zero (T := T) system o namespace_id) in
  let> exec_ctx := find_query now namespace_id query_script_id in
  on_db (run_query exec_ctx kv_prefix graph_name graph_params serialization_config).

(** The two routes.  The bodies are read and written by generated code of the
    formats, here [read] and [write]. *)
Definition invoke_query (now : Z) (namespace_id query_script_id graph_name : string)
    (graph_params : list SerializedVmValue) : handler ServerState SerializedVmValue :=
  do_invoke_query now namespace_id query_script_id graph_name graph_params default_config.

Definition invoke_query_msgpack (read : bytes -> anyhow (list SerializedVmValue))
    (write : SerializedVmValue -> anyhow bytes) (now : Z) (namespace_id query_script_id graph_name : string)
    (graph_params : bytes) : handler ServerState bytes :=
  let> graph_params := try_ FText (read graph_params) in
  let> x := do_invoke_query now namespace_id query_script_id graph_name graph_params full_config in
  try_ FText (write x).
End Api.
Arguments ServerState D I C : clear implicits.

(** ** What a query runs *)
Section Served.
Context {D S T I C : Type} `{!KeyValueStore S T} `{!KvTransaction T} `{!Stores D S} `{!Crates}.
Context `{!Lru QueryCacheKey ExecContext I} `{!Lru (string * string) HotItem C}.
Context `{!LruLaws QueryCacheKey ExecContext I} `{!LruLaws (string * string) HotItem C}.
Context (fuel : AstSchema -> nat) (system : ExecContext) (o : Circumstances D).

(** [ec] is the loaded form of a script under [key]: of a script created at that
    time for that deployment. *)
Definition loaded_under (key : QueryCacheKey) (ec : ExecContext) : Prop :=
  exists script depl, load_deployed fuel (dp_schema depl) (dp_plan depl) (qs_script script) = Ok ec /\
    query_script_create_time key = qs_create_time script /\ deployment_id key = qs_associated_deployment script.

(** Every query in the cache is the loaded form of a script, and the hot ones are
    under their names. *)
Record cache_loaded (c : QueryCache I C) : Prop := {
  cl_items : forall key ec, (key, ec) ∈ lru_view (items c) -> loaded_under key ec;
  cl_hot : forall ns qs h, ((ns, qs), h) ∈ lru_view (hot_items c) ->
    exists key, namespace_id key = ns /\ query_script_id key = qs /\ loaded_under key (exec_ctx h)
}.

Lemma get_item_loaded c key ec : cache_loaded c -> get_item c key = Some ec -> loaded_under key ec.
Proof. intros Hc. unfold get_item. rewrite lru_peek_view. intros Hf%lru_find_elem. by apply (cl_items _ Hc). Qed.

Lemma cache_new_loaded : cache_loaded cache_new.
Proof. split; cbn [cache_new items hot_items]; rewrite lru_view_unbounded; intros ???; set_solver. Qed.

Lemma put_view {K V L} `{EqDecision K} `{!Lru K V L} `{!LruLaws K V L} (c : L) k v x :
  x ∈ lru_view (lru_put c k v) -> x ∈ lru_view c \/ x = (k, v).
Proof.
  rewrite lru_put_view, elem_of_app, list_elem_of_singleton. intros [[_ Hx]%list_elem_of_filter| ->]; [by left|by right].
Qed.

Lemma cache_put_loaded c key ec : cache_loaded c -> loaded_under key ec -> cache_loaded (cache_put c key ec).
Proof.
  intros [Hi Hh] Hk. split; [|done]. intros key' ec' [He|[= -> ->]]%put_view; [by apply Hi|done].
Qed.

Lemma insert_hot_loaded c key ec now : cache_loaded c -> loaded_under key ec -> cache_loaded (insert_hot c key ec now).
Proof.
  intros [Hi Hh] Hk. split; [done|]. intros ns qs h [He|[= -> -> ->]]%put_view; [by apply Hh|by exists key].
Qed.

(** The collector only drops entries. *)
Lemma pop_view {K V L} `{EqDecision K} `{!Lru K V L} `{!LruLaws K V L} (c : L) x :
  x ∈ lru_view (lru_pop_lru c).2 -> x ∈ lru_view c.
Proof. destruct (lru_pop_lru_view c) as [_ ->]. destruct (lru_view c); [done|]. by right. Qed.

Lemma shrink_loaded c memory threshold : cache_loaded c -> cache_loaded (shrink c memory threshold).
Proof.
  intros [Hi Hh]. unfold shrink. destruct (_ <? _)%Z; [|done]. destruct (decide _); [|done]. split; [|done]. cbn [items].
  intros key ec. rewrite pop_many_view. intros Hin. apply Hi. rewrite <- (take_drop QUERY_CACHE_SHRINK_STEP_SIZE (lru_view (items c))).
  apply elem_of_app. by right.
Qed.

Lemma expire_hot_loaded c now c' : cache_loaded c -> expire_hot c now = Ok c' -> cache_loaded c'.
Proof.
  intros [Hi Hh] (hot & Hl & [= <-])%obind_ok. split; [done|]. cbn [hot_items]. revert Hl. generalize (Datatypes.S (lru_len (hot_items c))).
  assert (Hv : forall x, x ∈ lru_view (hot_items c) -> x ∈ lru_view (hot_items c)) by done. revert Hv.
  generalize (hot_items c) at 1 3. intros hot0 Hv n. revert hot0 Hv. induction n as [|n IH]; intros hot0 Hv Hl; [done|].
  cbn [expire_loop] in Hl. destruct (lru_peek_lru hot0) as [[k v]|]; [|injection Hl as <-; intros ns qs h Hin; by apply Hh, Hv].
  destruct (_ <? _)%Z; [|injection Hl as <-; intros ns qs h Hin; by apply Hh, Hv].
  destruct (lru_pop_lru hot0) as [popped hot1] eqn:Ep. apply obind_ok in Hl as (u & _ & Hl).
  apply (IH hot1); [|done]. intros x Hx. apply Hv. apply pop_view. by rewrite Ep.
Qed.

(** The query found for a name: a hot one of that name, or the loaded form of the
    script the store has under it. *)
Lemma find_query_loaded now ns qs (st : ServerState D I C) r st' :
  cache_loaded (st_query_cache st) -> find_query (T := T) fuel system o now ns qs st = (r, st') ->
  cache_loaded (st_query_cache st') /\
  forall ec, r = Ok ec ->
    get_hot (st_query_cache st) ns qs = Some ec \/
    exists script d, lookup_query_script (T := T) system o ns qs (st_db st) = (Ok script, d) /\
      loaded_under (MkQueryCacheKey ns (qs_associated_deployment script) qs (qs_create_time script)) ec.
Proof.
  intros Hc. unfold find_query, hbind at 1, on_cache at 1. destruct (get_hot _ _ _) as [x|] eqn:Eh.
  { intros [= <- <-]. split; [done|]. intros ec [= <-]. by left. }
  unfold hbind at 1, on_db at 1. cbn [st_db st_query_cache].
  destruct (lookup_query_script _ _ _ _ _) as [[script| | |] d] eqn:El; try (intros [= <- <-]; done).
  unfold hbind at 1, on_cache at 1, cache_get. cbn [st_db st_query_cache].
  set (key := MkQueryCacheKey _ _ _ _). destruct (get_item _ _) as [x|] eqn:Eg.
  { intros [= <- <-]. pose proof (get_item_loaded _ _ _ Hc Eg) as Hl. split; [by apply insert_hot_loaded|].
    intros ec [= <-]. right. by exists script, d. }
  unfold load_query, hbind at 1, on_db at 1. cbn [st_db st_query_cache].
  destruct (lookup_deployment _ _ _ _ _) as [[depl| | |] d'] eqn:Ed; try (intros [= <- <-]; done).
  unfold hbind at 1. destruct (load_deployed _ _ _ _) as [ec| | |] eqn:Ec; try (intros [= <- <-]; done).
  cbn. intros [= <- <-]. assert (Hl : loaded_under key ec) by (by exists script, depl).
  split; [by apply cache_put_loaded|]. intros ec' [= <-]. right. by exists script, d.
Qed.

(** A query that is answered has run the graph on the store of its namespace, in
    such a context. *)
Lemma invoke_query_served now ns qs name params config (st : ServerState D I C) r st' :
  cache_loaded (st_query_cache st) ->
  do_invoke_query (T := T) fuel system o now ns qs name params config st = (r, st') ->
  cache_loaded (st_query_cache st') /\
  forall v, r = Ok v ->
    exists kv_prefix d ec d',
      ns_to_kv_prefix_with_appended_zero (T := T) system o ns (st_db st) = (Ok kv_prefix, d) /\
      run_query (T := T) o ec kv_prefix name params config d' = (Ok v, st_db st') /\
      ((get_hot (st_query_cache st) ns qs = Some ec /\ d' = d) \/
       exists script d1, lookup_query_script (T := T) system o ns qs d = (Ok script, d1) /\
         loaded_under (MkQueryCacheKey ns (qs_associated_deployment script) qs (qs_create_time script)) ec).
Proof.
  intros Hc. unfold do_invoke_query, hbind at 1, on_db at 1.
  destruct (ns_to_kv_prefix_with_appended_zero _ _ _ _) as [[kv_prefix| | |] d] eqn:Ep; try (intros [= <- <-]; done).
  unfold hbind at 1. destruct (find_query _ _ _ _ _ _ _) as [[ec| | |] st1] eqn:Ef;
    destruct (find_query_loaded _ _ _ (MkServerState d (st_query_cache st)) _ _ Hc Ef) as [Hc1 Hec]; try (intros [= <- <-]; done).
  unfold on_db. destruct (run_query _ _ _ _ _ _ _) as [r1 d2] eqn:Er. intros [= <- <-]. split; [done|].
  intros v ->. exists kv_prefix, d, ec, (st_db st1). split; [done|]. split; [done|].
  destruct (Hec ec eq_refl) as [Hh|Hs]; [left|by right]. split; [done|].
  unfold find_query, hbind at 1, on_cache at 1 in Ef. cbn [st_query_cache] in *. rewrite Hh in Ef. by injection Ef as <-.
Qed.
End Served.
