(* ===== verification/ServerMain.v ===== *)
(** * The server process: [rdb-server/src/main.rs], [opt.rs]

    What [run] does before it listens: it selects the one back end the options name,
    opens it, starts the system schema on its metadata store and makes an empty query
    cache.  A selection that is not one back end is a panic.  The options come parsed;
    the listeners are not modelled. *)
From stdpp Require Import prelude gmap strings list.
From Stdlib Require Import Strings.Byte ZArith.
From S2P Require Import Prelude OrdMap Schema StoragePlan Planner Value Kv VmValue AsmAst Backend Sqlite Foundation Query QueryCache.
From S2P Require Import ServerEnv System HttpApi.

Record Opt := MkOpt {
  fdb_cluster : option string;
  fdb_keyspace : option string;
  sqlite_db : option string;
  grpc_listen : string;
  http_listen : string;
  migration_hash : option string;
  process_memory_threshold_kb : Z
}.

(** The errors [run] ends with. *)
Inductive RunFail := ROpen (message : string) | RStart (e : StartFail).

Section Main.
Context {D R X E D' X' : Type} `{!Fdb D R X E} `{!Sqlite D' X'} `{!Crates}.
Context {I C : Type} `{!Lru QueryCacheKey ExecContext I} `{!Lru (string * string) HotItem C}.

(** [Database::new] and [Subspace::from_bytes] of the crate [foundationdb]; a pool of
    the crate [r2d2] on the file of a path, each of whose connections runs a batch of
    statements first. *)
Context (database_new : string -> anyhow D) (subspace_from_bytes : bytes -> Keyspace).
Context (pool_new : string -> list string -> anyhow D').
Context (fuel : AstSchema -> nat) (SCHEMA SYS_RASM : string) (ent : Entropy).

(** [GlobalSqliteStore::open_leaky]: the batch makes the three tables. *)
Definition init_batch : list string :=
  ["PRAGMA journal_mode=WAL";
   "create table if not exists system (k blob primary key, v blob)";
   "create table if not exists system_meta (k blob primary key, v blob)";
   "create table if not exists user_data (k blob primary key, v blob)"].

Definition open_leaky (path : string) : anyhow D' := pool_new path init_batch.

Inductive Selected :=
| OnFoundationdb (db : D) (keyspace : Keyspace)
| OnSqlite (backend : D').

Definition select_backend (opt : Opt) : outcome RunFail Selected :=
  match fdb_cluster opt with
  | Some x =>
      if decide (sqlite_db opt <> None) then Panic
      else
        let? db := map_err ROpen (database_new x) in
        let? keyspace := unwrap (fdb_keyspace opt) in
        Ok (OnFoundationdb db (subspace_from_bytes (as_bytes keyspace)))
  | None =>
      match sqlite_db opt with
      | Some x =>
          if decide (fdb_cluster opt <> None \/ fdb_keyspace opt <> None) then Panic
          else let? backend := map_err ROpen (open_leaky x) in Ok (OnSqlite backend)
      | None => Panic
      end
  end.

(** [SystemSchema::new] on the metadata store of a database, and the state of the
    server on what that leaves. *)
Definition start_on {Db S T} `{!KeyValueStore S T} `{!KvTransaction T} `{!Stores Db S} (opt : Opt) (d : Db)
    : outcome RunFail (ExecContext * ServerState Db I C) :=
  let? (exec_ctx, s) := map_err RStart (system_schema_new (T := T) fuel SCHEMA SYS_RASM ent (migration_hash opt)
                                          (system_metadata_store d)) in
  Ok (exec_ctx, MkServerState (db_of s) cache_new).

(** The server that [run] starts: its system context, and its state over the one
    database or the other. *)
Definition run (opt : Opt) : outcome RunFail (ExecContext * (ServerState D I C + ServerState D' I C)) :=
  let? selected := select_backend opt in
  match selected with
  | OnFoundationdb db keyspace =>
      let? (exec_ctx, st) :=
        start_on (S := FdbKvStore D) (T := FdbTxn X) (Stores0 := fdb_stores (H := keyspace)) opt db in
      Ok (exec_ctx, inl st)
  | OnSqlite backend =>
      let? (exec_ctx, st) := start_on (S := SqliteKvStore D') (T := SqliteKvTxn X') opt backend in
      Ok (exec_ctx, inr st)
  end.

(** ** Which options select a back end *)
(** [run] goes on only when the options name one back end and all of it: a cluster
    with its keyspace, or a database and nothing of the other. *)
Lemma select_backend_spec opt s :
  select_backend opt = Ok s <->
  match s with
  | OnFoundationdb db keyspace => exists x k, fdb_cluster opt = Some x /\ sqlite_db opt = None /\ fdb_keyspace opt = Some k /\
      database_new x = Ok db /\ keyspace = subspace_from_bytes (as_bytes k)
  | OnSqlite backend => exists x, sqlite_db opt = Some x /\ fdb_cluster opt = None /\ fdb_keyspace opt = None /\
      open_leaky x = Ok backend
  end.
Proof.
  unfold select_backend. split.
  - destruct (fdb_cluster opt) as [x|].
    + destruct (sqlite_db opt) as [y|]; [by rewrite decide_True by done|]. rewrite decide_False by tauto.
      intros (db & Hd%map_err_ok & (k & Hk & [= <-])%obind_ok)%obind_ok. exists x, k.
      destruct (fdb_keyspace opt); [by injection Hk as ->|done].
    + destruct (sqlite_db opt) as [x|]; [|done]. case_decide as Hn; [done|].
      intros (b & Hb%map_err_ok & [= <-])%obind_ok. exists x. destruct (fdb_keyspace opt); [by destruct Hn; right|done].
  - destruct s as [db keyspace|backend].
    + intros (x & k & -> & -> & -> & Hd & ->). rewrite decide_False by tauto. by rewrite Hd.
    + intros (x & -> & -> & -> & Hb). rewrite decide_False by tauto. by rewrite Hb.
Qed.
End Main.
