(* ===== verification/SetKeys.v ===== *)
(** * The keys of a set: [data/treewalker/exec.rs]

    A set keeps two keys per member with primary key [v]: under the prefix
    [set_fast_scan_prefix] one key for scans, under [set_data_prefix] one or
    more keys with the data.  Here is what the executor's operations on a set
    do to them: which keys [delete_entry_from_set] removes, and which members a
    [Reduce] over a resident set visits, in which order. *)
From stdpp Require Import prelude gmap strings list.
From Stdlib Require Import Strings.Byte ZArith Sorted.
From S2P Require Import Prelude OrdMap Schema SchemaFacts StoragePlan Planner PlannerFacts Value PathWalker.
From S2P Require Import WalkerTyping Kv VmValue Bytecode Typeck Exec ValueTyping NodeSound.

(** ** Keys *)

(** The keys below the member of a set with primary key [v]. *)
Definition data_key (w : PathWalker) (v : PrimitiveValue) (r : bytes) : bytes :=
  (generate_key w ++ [x00]) ++ serialize_for_key_component v ++ x00 :: r.

Lemma entry_range (q : bytes) k :
  oleb (q ++ [x00]) k && oltb k (q ++ [x01]) = true <-> exists r, k = q ++ x00 :: r.
Proof.
  rewrite andb_true_iff. split.
  - intros [H1 H2]. destruct (prefix_of_range q x00 x01 k eq_refl H1 H2) as [r ->].
    exists r. by rewrite <- app_assoc.
  - intros [r ->]. split.
    + change (x00 :: r) with ([x00] ++ r). rewrite (assoc_L (++)). apply oleb_app_prefix.
    + apply oltb_lt. by rewrite cmp_app_same.
Qed.

(** The key under which a scan finds the member with primary key [v]. *)
Definition fast_key (w : PathWalker) (v : PrimitiveValue) : bytes :=
  (generate_key w ++ [x01]) ++ serialize_for_key_component v.

Lemma fast_key_inj w v v' : prim_ok v -> prim_ok v' -> fast_key w v' = fast_key w v -> v' = v.
Proof. intros Hv Hv' He. apply app_inv_head in He. by apply serialize_inj. Qed.

Lemma data_key_member w v v' r r' :
  prim_ok v -> prim_ok v' -> no_nul v -> no_nul v' -> data_key w v' r = data_key w v r' -> v' = v.
Proof. intros ???? He. unfold data_key in He. apply app_inv_head, serialize_prefix_free in He as [-> _]; done. Qed.

Lemma data_key_fast w v v' r : data_key w v' r <> fast_key w v.
Proof. unfold data_key, fast_key. rewrite <- !app_assoc. intros He%app_inv_head. discriminate He. Qed.

Lemma data_key_entry w v k :
  oleb ((generate_key w ++ [x00]) ++ serialize_for_key_component v ++ [x00]) k &&
  oltb k ((generate_key w ++ [x00]) ++ serialize_for_key_component v ++ [x01]) = true <->
  exists r, k = data_key w v r.
Proof. 
  rewrite !(assoc_L (++)), entry_range. unfold data_key.
  split; intros [r ->]; exists r; by rewrite <- !app_assoc.
Qed.

(** ** Deleting *)
(** What [delete_entry_from_set] does to every key. *)
Lemma delete_entry_effect (T : Type) `{KvTransactionLaws T} (s : CompiledSchema) (p : Plan) (rec : gset string)
    (txn txn' : T) (w : PathWalker) (x : FieldType) (v : PrimitiveValue) (k : bytes) :
  walker_typed s p rec w (FSet x) -> delete_entry_from_set txn w v = Ok txn' ->
  (k = fast_key w v \/ (exists r, k = data_key w v r) -> kv_current txn' k = None) /\
  (k <> fast_key w v -> (forall r, k <> data_key w v r) -> kv_current txn' k = kv_current txn k).
Proof.
  intros Hw Hd. destruct (set_prefix_typed _ _ _ _ _ Hw) as [Hp1 Hp2].
  unfold delete_entry_from_set in Hd. rewrite Hp1, Hp2 in Hd. cbn [xwalk map_err obind] in Hd.
  destruct (kv_delete txn _) as [t1| | |] eqn:E1; try discriminate. cbn [xkv map_err obind] in Hd.
  destruct (kv_delete_range t1 _ _) as [t2| | |] eqn:E2; try discriminate. injection Hd as <-.
  destruct (kv_delete_law _ _ _ E1) as [_ Hc1].
  assert (Hle : oleb ((generate_key w ++ [x00]) ++ serialize_for_key_component v ++ [x00])
                     ((generate_key w ++ [x00]) ++ serialize_for_key_component v ++ [x01]) = true).
  { apply oleb_le. by rewrite !cmp_app_same. }
  destruct (kv_delete_range_law _ _ _ _ Hle E2) as [_ Hc2]. rewrite Hc2, Hc1. fold (fast_key w v).
  pose proof (data_key_entry w v k) as Hk. split.
  - intros [->|Hr]; [rewrite decide_True by done; by destruct (_ && _)|]. by rewrite (proj2 Hk Hr).
  - intros Hf Hr. rewrite decide_False by done. destruct (_ && _); [|done].
    destruct (proj1 Hk eq_refl) as [r ->]. by destruct (Hr r).
Qed.

(** ** Scanning *)
(** A bound of a range: null, or a primary key. *)
Definition bound_value (o : option PrimitiveValue) : VmValue :=
  match o with Some a => VmPrimitive a | None => VmNull TyUnknown end.

Definition range_start (w : PathWalker) (lo : option PrimitiveValue) : bytes :=
  match lo with Some a => fast_key w a | None => generate_key w ++ [x01] end.

Definition range_end (w : PathWalker) (hi : option PrimitiveValue) : bytes :=
  match hi with Some b => fast_key w b | None => generate_key w ++ [x02] end.

Lemma reduce_range_bounds w lo hi x y z :
  reduce_range true [x; y; z; bound_value lo; bound_value hi] (generate_key w ++ [x01]) =
  Ok (range_start w lo, range_end w hi).
Proof. unfold reduce_range. rewrite bump_last_app. cbn [obind]. by destruct lo, hi. Qed.

Lemma reduce_range_all w params :
  reduce_range false params (generate_key w ++ [x01]) = Ok (range_start w None, range_end w None).
Proof. unfold reduce_range. by rewrite bump_last_app. Qed.

(** The primary key [v] lies in the range [lo .. hi). *)
Definition in_range (lo hi : option PrimitiveValue) (v : PrimitiveValue) : Prop :=
  (forall a, lo = Some a -> prim_cmp a v <> Some Gt) /\ (forall b, hi = Some b -> prim_cmp v b = Some Lt).

Definition bound_ok (q : PrimitiveType) (o : option PrimitiveValue) : Prop :=
  forall a, o = Some a -> prim_ok a /\ get_type a = q.

Lemma same_type_cmp a v : get_type a = get_type v -> exists c, prim_cmp a v = Some c.
Proof. destruct a, v; simpl; try done; intros _; by eexists. Qed.

Lemma fast_key_cmp w a v c :
  prim_ok a -> prim_ok v -> prim_cmp a v = Some c -> cmp (fast_key w a) (fast_key w v) = c.
Proof. intros. unfold fast_key. rewrite cmp_app_same. by apply serialize_cmp. Qed.

Lemma fast_key_in_range w lo hi q v :
  bound_ok q lo -> bound_ok q hi -> prim_ok v -> get_type v = q ->
  oleb (range_start w lo) (fast_key w v) = true /\ oltb (fast_key w v) (range_end w hi) = true <-> in_range lo hi v.
Proof.
  intros Hlo Hhi Hv Hq. unfold in_range. split; intros [H1 H2]; split.
  - intros a ->. destruct (Hlo a eq_refl) as [Ha Hqa]. intros Hc. apply oleb_le in H1. apply H1.
    by apply fast_key_cmp.
  - intros b ->. destruct (Hhi b eq_refl) as [Hb Hqb]. destruct (same_type_cmp v b) as [c Hc]; [congruence|].
    apply oltb_lt in H2. rewrite Hc. f_equal. rewrite <- H2. symmetry. by apply fast_key_cmp.
  - destruct lo as [a|]; simpl; [|unfold fast_key; apply oleb_app_prefix].
    destruct (Hlo a eq_refl) as [Ha Hqa]. destruct (same_type_cmp a v) as [c Hc]; [congruence|].
    apply oleb_le. rewrite (fast_key_cmp w a v c) by done. intros ->. by apply (H1 a).
  - destruct hi as [b|]; simpl.
    + destruct (Hhi b eq_refl) as [Hb Hqb]. apply oltb_lt. by rewrite (fast_key_cmp w v b Lt) by auto.
    + apply oltb_lt. unfold fast_key. rewrite <- (assoc_L (++)), cmp_app_same. done.
Qed.

Section Reduce.
Context {T : Type} `{KvTransactionLaws T}.
Context (vm : TwVm) (rec : gset string).
Context (run : nat -> list VmValue -> XState T -> xres (option VmValue * XState T)).

(** A scan lists live keys of the range in order, also when the range is
    inverted. *)
Lemma scan_range (txn : T) lo hi ks :
  kv_scan_keys txn lo hi = Ok ks ->
  StronglySorted (fun x y => cmp x y = Lt) ks /\
  forall k, k ∈ ks <-> oleb lo k = true /\ oltb k hi = true /\ is_Some (kv_scanned txn k).
Proof.
  intros Hs. destruct (oleb lo hi) eqn:E; [by eapply kv_scan_law|].
  assert (Hno : forall k, oleb lo k = true -> oltb k hi = true -> False).
  { intros k Hk1 Hk2%oltb_lt. assert (Hlt : cmp lo hi = Lt) by by eapply oleb_lt_trans.
    unfold oleb in E. by rewrite Hlt in E. }
  assert (ks = []) as ->.
  { destruct ks as [|k ks]; [done|]. destruct (kv_scan_bounds _ _ _ _ Hs k) as [Hk1 Hk2]; [left|].
    by destruct (Hno k). }
  split; [constructor|]. intros k. split; [by intros ?%not_elem_of_nil|]. intros (Hk1 & Hk2 & _). by destruct (Hno k).
Qed.

(** A reduction over a resident set runs its body on the members of the range
    whose scan key is live, in the order of their primary keys. *)
Lemma reduce_over_set subgraph_index w x sty lo hi q p init t (st : XState T) r :
  walker_typed (vm_schema vm) (vm_storage_plan vm) rec w (FSet (FTable x)) ->
  bt_get x (types (vm_schema vm)) = Some sty -> bound_ok q lo -> bound_ok q hi ->
  node_Reduce vm run subgraph_index true
    [p; init; VmSet (TyTable x) (Resident w); bound_value lo; bound_value hi] t st = Ok r ->
  exists ks,
    omap_ok (fun r => (Some r.1, r.2))
      (reduce_loop run (reduce_member (st_name sty) w (generate_key w ++ [x01])) subgraph_index p ks init st) = Ok r /\
    StronglySorted (fun x y => cmp x y = Lt) ks /\
    forall v, prim_ok v -> get_type v = q ->
      fast_key w v ∈ ks <-> is_Some (kv_scanned (xs_txn st) (fast_key w v)) /\ in_range lo hi v.
Proof.
  intros Hw Hx Hlo Hhi Hr. destruct (set_prefix_typed _ _ _ _ _ Hw) as [Hp _].
  unfold node_Reduce in Hr. unfold param in Hr. cbn [lookup list_lookup xunwrap obind is_null] in Hr.
  rewrite Hx, Hp in Hr. cbn [xunwrap obind xwalk map_err] in Hr. rewrite reduce_range_bounds in Hr. cbn [obind] in Hr.
  destruct (kv_scan_keys _ _ _) as [ks| | |] eqn:Es; cbn [xkv map_err obind] in Hr; try done.
  apply scan_range in Es as [Hsort Helem]. exists ks. split; [|split; [done|]].
  - apply obind_ok in Hr as ([v st'] & -> & [= <-]). done.
  - intros v Hv Hq. rewrite Helem. rewrite <- (fast_key_in_range w lo hi q v) by done. tauto.
Qed.
End Reduce.
