(* ===== verification/ControlFacts.v ===== *)
(** * What the control plane does

    That its handlers do not panic, what deleting a namespace does to the database,
    and which deployments pass the integrity check. *)
From stdpp Require Import prelude gmap strings list.
From Stdlib Require Import Strings.Byte ZArith.
From S2P Require Import Prelude OrdMap Schema SchemaFacts StoragePlan Planner PlannerFacts PlannerPlan Value Kv VmValue.
From S2P Require Import AsmAst Codegen Serialize Query ServerEnv System ControlPlane SetKeys.

(** ** No panics *)
Definition never_panics {St A} (m : handler St A) : Prop := forall st, (m st).1 <> Panic.

Lemma hbind_never {St A B} (m : handler St A) (k : A -> handler St B) :
  never_panics m -> (forall a, never_panics (k a)) -> never_panics (hbind m k).
Proof.
  intros Hm Hk st. unfold hbind. specialize (Hm st). destruct (m st) as [[a|e| |] st']; try done. apply Hk.
Qed.

Lemma hret_never {St A} (a : A) : never_panics (hret (St := St) a).
Proof. done. Qed.

Lemma try_never {St E A} (f : E -> ServerFail) (c : outcome E A) : c <> Panic -> never_panics (try_ (St := St) f c).
Proof. intros Hc st. by destruct c. Qed.

Lemma obind_never {E A B} (c : outcome E A) (k : A -> outcome E B) :
  c <> Panic -> (forall a, c = Ok a -> k a <> Panic) -> obind c k <> Panic.
Proof. destruct c; simpl; auto. Qed.

Lemma mapM_o_never {E A B} (f : A -> outcome E B) l : (forall x, f x <> Panic) -> mapM_o f l <> Panic.
Proof.
  intros Hf. induction l as [|x l IH]; [done|]. cbn [mapM_o]. apply obind_never; [apply Hf|]. intros y _.
  by apply obind_never.
Qed.

Create HintDb panics discriminated.
#[export] Hint Resolve hbind_never hret_never try_never : panics.

(** The accessors of a serialized value return. *)
Lemma unwrap_bool_never res : try_unwrap_bool res <> Panic. Proof. by destruct res. Qed.
Lemma unwrap_list_never res : try_unwrap_list res <> Panic. Proof. by destruct res. Qed.
Lemma unwrap_string_never res : try_unwrap_string res <> Panic. Proof. by destruct res. Qed.
Lemma unwrap_bytes_never res : try_unwrap_bytes res <> Panic. Proof. by destruct res. Qed.
Lemma unwrap_int64_never res : try_unwrap_int64 res <> Panic. Proof. by destruct res. Qed.
Lemma check_nonnull_never res : check_nonnull res <> Panic. Proof. by destruct res. Qed.
#[export] Hint Resolve unwrap_bool_never unwrap_list_never unwrap_string_never unwrap_bytes_never unwrap_int64_never
  check_nonnull_never : panics.

(** What [try_unwrap_map] has checked is there. *)
Lemma check_required_spec names m x : check_required names m = Ok x -> forall f, f ∈ names -> is_Some (bt_get f m).
Proof.
  induction names as [|g names IH]; intros Hc f Hf; [by apply not_elem_of_nil in Hf|]. cbn [check_required] in Hc.
  unfold bt_contains in Hc. destruct (bt_get g m) eqn:E; [|done].
  apply elem_of_cons in Hf as [->|Hf]; [by eexists|by apply IH].
Qed.

Lemma check_required_never names m : check_required names m <> Panic.
Proof. induction names as [|g names IH]; [done|]. cbn [check_required]. by destruct (bt_contains g m). Qed.

Lemma unwrap_map_never names res : try_unwrap_map names res <> Panic.
Proof. destruct res; try done. cbn [try_unwrap_map]. apply obind_never; [apply check_required_never|done]. Qed.

Lemma unwrap_map_field {A} (f : SerializedVmValue -> sres A) names res m name :
  try_unwrap_map names res = Ok m -> name ∈ names -> (forall v, f v <> Panic) -> field f m name <> Panic.
Proof.
  intros Hm Hn Hf. destruct res; try done. apply obind_ok in Hm as ([] & Hc & [= ->]).
  destruct (check_required_spec _ _ _ Hc _ Hn) as [v Hv]. unfold field. rewrite Hv. apply Hf.
Qed.

(** The record of a map: the required fields are there. *)
Ltac fields_never :=
  intros res; apply obind_never; [apply unwrap_map_never|]; intros m Hm;
  repeat (apply obind_never;
    [eapply unwrap_map_field; [exact Hm|apply (bool_decide_unpack _); vm_compute; exact I|auto with panics]|]; intros ? _);
  done.

Lemma query_script_of_never : forall res, query_script_of res <> Panic. Proof. fields_never. Qed.
Lemma deployment_of_never : forall res, deployment_of res <> Panic. Proof. fields_never. Qed.
Lemma namespace_of_never : forall res, namespace_of res <> Panic. Proof. fields_never. Qed.
Lemma deployment_basic_of_never : forall res, deployment_basic_of res <> Panic. Proof. fields_never. Qed.
Lemma query_script_basic_of_never : forall res, query_script_basic_of res <> Panic. Proof. fields_never. Qed.
#[export] Hint Resolve query_script_of_never deployment_of_never namespace_of_never deployment_basic_of_never
  query_script_basic_of_never : panics.

Section Handlers.
Context {D S T : Type} `{KvTransactionLaws T} `{!KvReturns T} `{!KeyValueStore S T} `{!Stores D S} `{!Crates}.
Context (fuel : AstSchema -> nat) (system : ExecContext) (o : Circumstances D).

(** A system graph runs behind [catch_unwind]. *)
Lemma run_system_graph_never name params config : never_panics (run_system_graph (T := T) system o name params config).
Proof.
  intros d. unfold run_system_graph, run_exported_graph. destruct (call_times_out o name); [done|].
  by destruct (run_exported_graph_inner _ _ _ _ _ _ _ _ _ _ _ _) as [[v|[e|p]| |] s].
Qed.

Lemma bool_answer_never res : never_panics (bool_answer (D := D) res).
Proof. unfold bool_answer. auto with panics. Qed.

Lemma list_answer_never {A} (f : SerializedVmValue -> sres A) res :
  (forall x, f x <> Panic) -> never_panics (list_answer (D := D) f res).
Proof.
  intros Hf. unfold list_answer. apply hbind_never; [auto with panics|]. intros _.
  apply hbind_never; [auto with panics|]. intros l. apply try_never, mapM_o_never, Hf.
Qed.
#[local] Hint Resolve run_system_graph_never bool_answer_never list_answer_never : panics.

Lemma ns_to_kv_prefix_never id : never_panics (ns_to_kv_prefix_with_appended_zero (T := T) system o id).
Proof.
  unfold ns_to_kv_prefix_with_appended_zero. apply hbind_never; [auto with panics|].
  intros res. destruct res; auto with panics; by apply try_never.
Qed.

Lemma ns_to_kv_prefix_zero id d kv_prefix d' :
  ns_to_kv_prefix_with_appended_zero (T := T) system o id d = (Ok kv_prefix, d') -> exists p, kv_prefix = p ++ [x00].
Proof.
  unfold ns_to_kv_prefix_with_appended_zero, hbind at 1. destruct (run_system_graph _ _ _ _ _ _) as [[res| | |] d1]; try done.
  destruct res; cbn; try done. intros [= <- <-]. by exists x.
Qed.

Lemma lookup_query_script_never ns id : never_panics (lookup_query_script (T := T) system o ns id).
Proof.
  unfold lookup_query_script. apply hbind_never; [auto with panics|]. intros res.
  destruct res; apply try_never; auto with panics; done.
Qed.

Lemma lookup_deployment_never ns id : never_panics (lookup_deployment (T := T) system o ns id).
Proof. unfold lookup_deployment. auto with panics. Qed.

(** The crates return. *)
Definition crates_return : Prop :=
  (forall x, parse_schema x <> Panic) /\ (forall x, parse_script x <> Panic) /\
  (forall p, plan_to_vec_named p <> Panic) /\ (forall b, plan_from_read b <> Panic) /\
  (forall b, frame_encode b <> Panic) /\ (forall b, frame_decode b <> Panic) /\
  (forall p, yaml_to_string p <> Panic) /\ (forall x, yaml_from_str x <> Panic).

Lemma deployment_info_never res : crates_return -> never_panics (deployment_info_of (D := D) res).
Proof.
  intros (_ & _ & _ & Hr & _ & Hf & Hy & _) st. unfold deployment_info_of, hbind at 1, try_ at 1.
  destruct (try_unwrap_map _ res) as [m| | |] eqn:Hm; try done; [|by destruct (unwrap_map_never _ _ Hm)]. cbn [map_err].
  revert st. fold (never_panics (St := D) (deployment_info_fields (D := D) m)). unfold deployment_info_fields.
  do 5 (apply hbind_never; [apply try_never; eapply unwrap_map_field; [exact Hm|apply (bool_decide_unpack _); vm_compute; exact I|auto with panics]|]; intros ?).
  apply hbind_never; [apply try_never, obind_never; auto|]. intros plan. auto with panics.
Qed.

(** The store begins and commits without a panic. *)
Definition store_returns : Prop :=
  (forall s, kv_begin (S := S) (T := T) s <> Panic) /\ (forall s t, kv_commit (S := S) (T := T) s t <> Panic).

Lemma delete_data_never p : store_returns -> never_panics (delete_data (S := S) (T := T) (p ++ [x00])).
Proof.
  intros [Hb Hc] d. unfold delete_data. rewrite last_snoc. destruct (decide (x00 <> x00)) as [Hn|_]; [by destruct Hn|].
  specialize (Hb (data_store_generator (removelast (p ++ [x00])) d)).
  destruct (kv_begin _) as [[s txn]| | |]; try done.
  pose proof (kv_delete_range_returns txn [x00] [x01] eq_refl) as Hr. destruct (kv_delete_range _ _ _) as [txn'| | |]; try done.
  specialize (Hc s txn'). by destruct (kv_commit _ _).
Qed.

Lemma delete_namespace_data_never id : store_returns -> never_panics (delete_namespace_data (T := T) system o id).
Proof.
  intros Hs d. unfold delete_namespace_data. pose proof (ns_to_kv_prefix_never id d) as Hn.
  destruct (ns_to_kv_prefix_with_appended_zero _ _ _ _) as [[kv_prefix| | |] d1] eqn:E; try done.
  destruct (ns_to_kv_prefix_zero _ _ _ _ E) as [p ->]. by apply delete_data_never.
Qed.

(** Requests that neither compile a schema nor load a script. *)
Definition compiles (r : Request) : bool :=
  match r with CreateDeployment _ | CreateQueryScript _ => true | _ => false end.

Lemma serve_never r : compiles r = false -> crates_return -> store_returns ->
  never_panics (serve (T := T) fuel system o r).
Proof.
  intros Hr Hcr Hst. destruct r; try done; cbn [serve]; unfold hmap; (apply hbind_never; [|intros; apply hret_never]).
  - unfold create_namespace. auto with panics.
  - unfold list_namespace. auto with panics.
  - unfold delete_namespace. apply hbind_never; [by apply delete_namespace_data_never|]. auto with panics.
  - unfold get_deployment. apply hbind_never; [auto with panics|]. intros res.
    assert (Hi : never_panics (let> info := deployment_info_of (D := D) res in hret (Some info))).
    { apply hbind_never; [by apply deployment_info_never|]. auto with panics. }
    destruct res; auto with panics.
  - unfold list_deployment. auto with panics.
  - unfold delete_deployment. auto with panics.
  - unfold delete_query_script. auto with panics.
  - apply lookup_query_script_never.
  - unfold list_query_script. auto with panics.
Qed.
End Handlers.

(** ** Deleting a namespace *)
Section DeleteNamespace.
Context {D S T : Type} `{StoresLaws D S T} `{!KvStoreLaws S T} `{!KvTransactionLaws T} `{!Crates}.
Context (system : ExecContext) (o : Circumstances D).

(** The deletion removes the keys under the prefix, with its final zero, and
    nothing else. *)
Lemma delete_data_effect p d d' :
  delete_data (S := S) (T := T) (p ++ [x00]) d = (Ok tt, d') ->
  (forall r, user_data d' ((p ++ [x00]) ++ r) = None) /\
  (forall k, (forall r, k <> (p ++ [x00]) ++ r) -> user_data d' k = user_data d k) /\
  forall k, kv_contents (system_store (S := S) d') k = kv_contents (system_store (S := S) d) k.
Proof.
  unfold delete_data. rewrite last_snoc. destruct (decide (x00 <> x00)) as [Hn|_]; [by destruct Hn|].
  rewrite removelast_last.
  destruct (kv_begin _) as [[s txn]| | |] eqn:Eb; try done.
  destruct (kv_delete_range _ _ _) as [txn'| | |] eqn:Er; try done.
  destruct (kv_commit _ _) as [s'| | |] eqn:Ec; try done. intros [= <-].
  assert (Hsteps : kv_steps txn txn') by exact (rtc_once _ _ (write_delete_range _ _ [x00] [x01] eq_refl Er)).
  destruct (data_store_commit _ _ _ _ _ _ Eb Hsteps Ec) as (Hin & Hout & Hsys).
  apply kv_delete_range_law in Er as [_ Hcur]; [|done].
  assert (Hval : forall k, user_data (db_of s') (p ++ k) =
    if oleb [x00] k && oltb k [x01] then None else user_data d (p ++ k)).
  { intros k. destruct (kv_commit_law _ _ _ _ _ Eb Hsteps Ec k) as [H0k Hk]. rewrite Hin, Hk, Hcur, H0k.
    by rewrite data_store_contents. }
  pose proof (fun k => entry_range [] k) as Hrange. cbn [app] in Hrange. split_and!; [| |done].
  - intros r. rewrite <- (assoc_L (++)), Hval. by rewrite (proj2 (Hrange _)) by (by exists r).
  - intros k Hk. destruct (decide (take (length p) k = p)) as [Hp|Hp].
    + rewrite <- (take_drop (length p) k), Hp, Hval. destruct (_ && _) eqn:E; [|done].
      apply Hrange in E as [r Hr]. destruct (Hk r). rewrite <- (take_drop (length p) k), Hp, Hr. by rewrite <- (assoc_L (++)).
    + apply Hout. intros r ->. destruct Hp. by rewrite take_app_length.
Qed.

(** When the look-up of the prefix fails, for whatever reason, nothing is deleted
    and the call goes on to delete the namespace itself. *)
Lemma failed_lookup_leaves_data id d d1 e :
  ns_to_kv_prefix_with_appended_zero (T := T) system o id d = (Err e, d1) ->
  delete_namespace_data (T := T) system o id d = (Ok tt, d1).
Proof. unfold delete_namespace_data. by intros ->. Qed.

Lemma delete_namespace_data_effect id d d1 d2 kv_prefix :
  ns_to_kv_prefix_with_appended_zero (T := T) system o id d = (Ok kv_prefix, d1) ->
  delete_namespace_data (T := T) system o id d = (Ok tt, d2) ->
  (forall k, kv_contents (data_store_generator (S := S) kv_prefix d2) k = None) /\
  (forall q k, length q = length kv_prefix -> q <> kv_prefix ->
     kv_contents (data_store_generator (S := S) q d2) k = kv_contents (data_store_generator (S := S) q d1) k) /\
  forall k, kv_contents (system_store (S := S) d2) k = kv_contents (system_store (S := S) d1) k.
Proof.
  intros Hp Hd. unfold delete_namespace_data in Hd. rewrite Hp in Hd.
  destruct (ns_to_kv_prefix_zero _ _ _ _ _ _ Hp) as [p ->]. destruct (delete_data_effect _ _ _ Hd) as (Hin & Hout & Hsys).
  split_and!; [| |done].
  - intros k. by rewrite data_store_contents.
  - intros q k Hl Hq. rewrite !data_store_contents. apply Hout. intros r He. apply app_inj_1 in He as [-> _]; done.
Qed.
End DeleteNamespace.

(** ** The integrity check of a deployment *)
Section CheckDeployment.
Context {D : Type} `{CrateLaws} (fuel : AstSchema -> nat) (o : Circumstances D).

(** A deployment that passes has the plan that was submitted, and it conforms to
    the schema. *)
Lemma check_deployment_sound r p :
  check_deployment fuel o r = Ok p ->
  exists schema text rec, compile_text fuel (cd_schema r) = Ok schema /\ yaml_from_str (cd_plan r) = Ok text /\
    plan_try_from base64_decode text = Ok p /\
    Forall2 (fun e n => e.1 = n.1 /\ node_for schema rec ∅ e.2 n.2) (exports schema) (nodes p).
Proof.
  unfold check_deployment. intros (schema & Hs & (text & Ht & (np & Hp & (gp & Hg & (a & Ha & (b & Hb & Hd)
    %obind_ok)%obind_ok)%obind_ok)%obind_ok)%obind_ok)%obind_ok.
  apply map_err_ok in Hs, Ht, Hp, Hg, Ha, Hb. case_decide as E; [done|]. injection Hd as ->.
  subst b. assert (np = p) as -> by by eapply plan_to_vec_inj.
  apply obind_ok in Hg as ([p' d] & Hg & [= ->]).
  destruct (generated_plan_conforms _ _ _ _ _ _ _ (compile_text_wf _ _ _ Hs) Hg) as [rec Hc].
  by exists schema, text, rec.
Qed.

(** A plan the planner made for the schema passes, from its text. *)
Lemma check_deployment_complete r schema ent old os p :
  compile_text fuel (cd_schema r) = Ok schema -> plan_text ent old os schema = Ok p ->
  yaml_from_str (cd_plan r) = Ok (plan_to_string base64_encode p) -> Forall (fun q => node_all key_ok q.2) (nodes old) ->
  check_deployment fuel o r = let? _ := map_err FText (plan_to_vec_named p) in Ok p.
Proof.
  intros Hs Hg Ht Hold. apply obind_ok in Hg as ([p' d] & Hg & [= ->]). pose proof (compile_text_wf _ _ _ Hs) as Hwf.
  pose proof (generate_plan_keys_ok _ _ _ _ _ _ _ Hwf Hg Hold) as Hk.
  unfold check_deployment. rewrite Hs. cbn [map_err obind]. rewrite Ht. cbn [map_err obind].
  rewrite plan_try_from_to_string by (exact base64_codec || exact Hk). cbn [map_err obind].
  unfold plan_text, generate_plan_for_schema.
  rewrite (generate_plan_stable _ _ (plan_draws o) _ _ _ _ _ Hwf Hg). cbn [map_err obind].
  destruct (plan_to_vec_named p) as [v| | |]; cbn [map_err obind]; try done.
  by destruct (decide (v <> v)) as [Hn|_]; [destruct Hn|].
Qed.
End CheckDeployment.
