(* ===== verification/Words.v ===== *)
(** * Integers keep their width

    Every integer that a script computes with is a 64-bit one, whether or not the
    script has been checked: no node of the executor, no argument of a client and no
    value of the store puts an integer outside the range of [i64] into a value, and so
    none is in an answer. *)
From stdpp Require Import prelude gmap strings list.
From Stdlib Require Import Strings.Byte ZArith.
From S2P Require Import Prelude OrdMap Schema StoragePlan Planner Value PathWalker Kv VmValue Bytecode F64 Typeck Exec ValueTyping.
From S2P Require Import Serialize Query.

(** ** Values *)
Definition int_ok (x : PrimitiveValue) : Prop := match x with VInt64 z => is_i64 z | _ => True end.

(** All the integers in a value, those of fresh tables and sets included. *)
Fixpoint ints_ok (v : VmValue) : Prop :=
  match v with
  | VmPrimitive x => int_ok x
  | VmTable _ (Fresh fields) => allP (fun e => ints_ok e.2) fields
  | VmSet _ (Fresh members) => allP (fun e => ints_ok e.2) members
  | VmMap els => allP (fun e => ints_ok e.2) els
  | VmList _ node => allP ints_ok node
  | _ => True
  end.

Abbreviation entries_ok := (Forall (fun e => ints_ok e.2)).
Abbreviation result_ok := (from_option ints_ok True).

Lemma i64_wrap_range z : is_i64 (i64_wrap z).
Proof. unfold is_i64, i64_wrap. pose proof (Z.mod_pos_bound (z + 2 ^ 63) (2 ^ 64) ltac:(lia)). lia. Qed.

(** The wrapped result is the exact one when that is in range, and differs from it by
    a multiple of [2^64] otherwise. *)
Lemma i64_wrap_exact z : i64_wrap z = z <-> is_i64 z.
Proof.
  split; [intros <-; apply i64_wrap_range|]. unfold is_i64, i64_wrap. intros Hz. rewrite Z.mod_small; lia.
Qed.

Lemma i64_wrap_congruent z : exists k, i64_wrap z = (z + k * 2 ^ 64)%Z.
Proof.
  exists (- ((z + 2 ^ 63) / 2 ^ 64))%Z. unfold i64_wrap. pose proof (Z.div_mod (z + 2 ^ 63) (2 ^ 64) ltac:(lia)). lia.
Qed.

Lemma f64_as_i64_range x : is_i64 (f64_as_i64 x).
Proof.
  unfold f64_as_i64, is_i64. destruct (f64_from_bits x) as [|[]| |[]]; unfold clamp_i64; try lia; case_match; lia.
Qed.


(** ** Nodes *)
Lemma yields_xunwrap {A} (Q : A -> Prop) p (o : option A) : (forall a, o = Some a -> Q a) -> yields Q (xunwrap p o).
Proof. intros Ho a. destruct o; simpl; [intros [= ->]; auto|done]. Qed.

Section Run.
Context {T : Type} `{KvTransaction T}.
Context (rmp_to_vec : PrimitiveValue -> bytes) (rmp_from_slice : bytes -> anyhow PrimitiveValue) (schedule : nat -> nat).
Context (vm : TwVm).

(** What the store is read with, and what the script loads, is of the right width. *)
Context (Hrmp : forall b, yields int_ok (rmp_from_slice b)) (Hconsts : Forall ints_ok (vm_consts vm)).

Lemma param_ok params i : Forall ints_ok params -> yields ints_ok (param params i).
Proof. intros Hp. apply yields_xunwrap. intros v Hv. by eapply Forall_lookup_1. Qed.

Lemma bt_get_ok {K} `{Ord K, !OrdLaws K} (m : list (K * VmValue)) k v : entries_ok m -> bt_get k m = Some v -> ints_ok v.
Proof. intros Hm Hk. exact (bt_get_forall (fun e => ints_ok e.2) _ _ _ Hm Hk). Qed.

Lemma read_table_element_ok txn ty kind key :
  kind_all entries_ok kind -> yields ints_ok (read_table_element rmp_from_slice vm txn ty kind key).
Proof.
  intros Hk. destruct kind as [w|fields]; cbn [read_table_element].
  - eapply yields_bind; [apply yields_any|]. intros sty _. eapply yields_bind; [apply yields_any|]. intros field _.
    eapply yields_bind; [apply yields_any|]. intros w' _. destruct field.1; try by apply yields_ok.
    eapply yields_bind; [apply yields_any|]. intros [raw|] _; [|by apply yields_ok].
    eapply yields_bind; [apply yields_err, Hrmp|]. intros x Hx. by apply yields_ok.
  - apply yields_xunwrap. intros v Hv. by eapply bt_get_ok.
Qed.

Lemma node_BuildSet_ok p0 : ints_ok p0 -> yields result_ok (node_BuildSet vm p0).
Proof.
  intros Hp. destruct p0; try done. cbn [node_BuildSet]. apply allP_Forall in Hp.
  eapply yields_bind; [apply yields_any|]. intros pk _. eapply (yields_bind entries_ok).
  - eapply (yields_foldM ints_ok); [exact Hp|constructor|]. intros members n Hn Hm.
    eapply yields_bind; [apply yields_any|]. intros [ty [w|x]] _; [done|].
    do 2 (eapply yields_bind; [apply yields_any|]; intros ? _). apply yields_ok. by apply bt_insert_forall.
  - intros members Hm. apply yields_ok. by apply allP_Forall.
Qed.

Lemma node_BuildTable_ok i p0 : ints_ok p0 -> yields result_ok (node_BuildTable vm i p0).
Proof.
  intros Hp. destruct p0; try done. cbn [node_BuildTable]. apply allP_Forall in Hp.
  eapply yields_bind; [apply yields_any|]. intros tyn _. eapply yields_bind; [apply yields_any|]. intros sty _.
  apply yields_ok, allP_Forall. generalize (st_fields sty). assert (Hn : entries_ok ([] : list (string * VmValue))) by constructor.
  revert Hn. generalize ([] : list (string * VmValue)). intros acc Ha fs. revert acc Ha.
  induction fs as [|f fs IH]; intros acc Ha; [done|]. cbn [foldl]. apply IH, bt_insert_forall; [|done]. cbn [snd].
  destruct (bt_get f.1 elements) as [v|] eqn:E; [exact (bt_get_ok _ _ _ Hp E)|done].
Qed.

Lemma node_Add_ok p0 p1 : yields result_ok (node_Add p0 p1).
Proof. destruct p0 as [[]| | | | | |], p1 as [[]| | | | | |]; try done; apply yields_ok; try done. apply i64_wrap_range. Qed.

Lemma node_Sub_ok p0 p1 : yields result_ok (node_Sub p0 p1).
Proof. destruct p0 as [[]| | | | | |], p1 as [[]| | | | | |]; try done; apply yields_ok; try done. apply i64_wrap_range. Qed.

Lemma node_map_ok p0 i : ints_ok p0 -> yields result_ok (node_DeleteFromMap vm i p0).
Proof.
  intros Hp. destruct p0; try done; cbn [node_DeleteFromMap]; [|by apply yields_ok].
  eapply yields_bind; [apply yields_any|]. intros k _. apply yields_ok, allP_Forall. by apply bt_remove_forall, allP_Forall.
Qed.

Lemma node_InsertIntoMap_ok i p0 p1 : ints_ok p0 -> ints_ok p1 -> yields result_ok (node_InsertIntoMap vm i p0 p1).
Proof.
  intros H0 H1. destruct p1; try done; cbn [node_InsertIntoMap]; [|by apply yields_ok].
  eapply yields_bind; [apply yields_any|]. intros k _. apply yields_ok, allP_Forall. apply bt_insert_forall; [done|by apply allP_Forall].
Qed.

Lemma node_GetField_ok txn i p0 : ints_ok p0 -> yields result_ok (node_GetField rmp_from_slice vm txn i p0).
Proof.
  intros Hp. unfold node_GetField. eapply yields_bind; [apply yields_any|]. intros k _. destruct p0; try done.
  - eapply yields_bind; [apply read_table_element_ok|intros v Hv; by apply yields_ok].
    destruct kind; [done|by apply allP_Forall].
  - eapply yields_bind; [apply yields_xunwrap; intros v Hv; apply allP_Forall in Hp; by eapply bt_get_ok|].
    intros v Hv. by apply yields_ok.
Qed.

Lemma node_list_ok p0 : ints_ok p0 ->
  yields result_ok (node_PopFromList p0) /\ yields result_ok (node_ListHead p0) /\
  forall v, ints_ok v -> yields result_ok (node_PrependToList v p0).
Proof.
  intros Hp. destruct p0 as [| | | | | |t [|x l]]; try (split_and!; done); destruct_and?; split_and!;
    try (intros; apply yields_ok; done); cbn in Hp; destruct Hp; by apply yields_ok.
Qed.
(** ** Runs *)
Abbreviation run_result_fits := (yields (fun r : option VmValue * XState T => result_ok r.1)).

Section Rec.
Context (rec : nat -> list VmValue -> XState T -> xres (option VmValue * XState T)).
Context (Hrec : forall i args st, Forall ints_ok args -> run_result_fits (rec i args st)).

Lemma reduce_loop_ok {A} (P : A -> Prop) (element : A -> xres VmValue) i p l acc st :
  Forall P l -> (forall x, P x -> yields ints_ok (element x)) -> ints_ok p -> ints_ok acc ->
  yields (fun r => ints_ok r.1) (reduce_loop rec element i p l acc st).
Proof.
  intros Hl He Hp. revert acc st. induction Hl as [|x l Hx _ IH]; intros acc st Ha; [by apply yields_ok|].
  cbn [reduce_loop]. eapply yields_bind; [by apply He|]. intros v Hv.
  eapply yields_bind; [apply Hrec; by repeat constructor|]. intros [out st'] Hout. cbn [fst] in Hout.
  apply (yields_bind ints_ok); [apply yields_xunwrap; by intros y ->|]. intros y Hy.
  destruct (is_null y); [by apply yields_ok|by apply IH].
Qed.

Lemma node_Reduce_ok i has_range params ty st :
  Forall ints_ok params -> run_result_fits (node_Reduce vm rec i has_range params ty st).
Proof.
  intros Hp. unfold node_Reduce. do 3 (eapply yields_bind; [by apply param_ok|]; intros ? ?).
  destruct (is_null _); [apply yields_ok; by destruct ty|].
  match goal with |- context [match ?v with _ => _ end] => destruct v as [| |m [w|x]| | | |m node]; try done end.
  - do 3 (eapply yields_bind; [apply yields_any|]; intros ? _). match goal with |- context [let (_, _) := ?r in _] => destruct r end.
    eapply yields_bind; [apply yields_any|]. intros keys _.
    eapply yields_bind; [eapply (reduce_loop_ok (fun _ => True)); [by apply Forall_true| |done..]|].
    { intros k _. unfold reduce_member. do 2 (eapply yields_bind; [apply yields_any|]; intros ? _). by apply yields_ok. }
    intros [v st'] Hv. by apply yields_ok.
  - eapply yields_bind; [eapply (reduce_loop_ok ints_ok); [by apply allP_Forall|intros y Hy; by apply yields_ok|done..]|].
    intros [v st'] Hv. by apply yields_ok.
Qed.

(** A node that leaves the transaction alone, and one without a result. *)
Lemma pure_fits st (c : xres (option VmValue)) : yields result_ok c -> run_result_fits (omap_ok (fun v => (v, st)) c).
Proof. intros Hc. destruct c as [v| | |]; try done. apply yields_ok. by apply (Hc v). Qed.

Lemma effect_fits st (c : xres T) : run_result_fits (omap_ok (fun txn => (None, with_txn st txn)) c).
Proof. destruct c; try done. by apply yields_ok. Qed.

Lemma one_fits params (f : VmValue -> xres (option VmValue)) :
  Forall ints_ok params -> (forall v, ints_ok v -> yields result_ok (f v)) ->
  yields result_ok (let? a := param params 0 in f a).
Proof. intros Hp Hf. eapply yields_bind; [by apply param_ok|exact Hf]. Qed.

Lemma two_fits params (f : VmValue -> VmValue -> xres (option VmValue)) :
  Forall ints_ok params -> (forall v w, ints_ok v -> ints_ok w -> yields result_ok (f v w)) ->
  yields result_ok (let? a := param params 0 in let? b := param params 1 in f a b).
Proof.
  intros Hp Hf. eapply yields_bind; [by apply param_ok|]. intros v Hv. eapply yields_bind; [by apply param_ok|]. auto.
Qed.

Lemma run_node_ok n params args ty st :
  Forall ints_ok params -> Forall ints_ok args ->
  run_result_fits (run_node rmp_to_vec rmp_from_slice vm rec n params args ty st).
Proof.
  intros Hp Ha. unfold run_node. destruct (_ && _); [apply yields_ok; by destruct ty|].
  destruct n; try (apply effect_fits); try done; try (by apply Hrec); try (by apply node_Reduce_ok); try (by apply yields_ok);
    apply pure_fits; try (apply two_fits; [done|]; intros v w Hv Hw); try (apply one_fits; [done|]; intros v Hv).
  all: try (by apply yields_ok).
  all: try (apply (yields_bind ints_ok); [apply yields_xunwrap; intros v Hv; eapply Forall_lookup_1; [|exact Hv]; assumption|intros v Hv; by apply yields_ok]).
  all: try (first [apply node_Add_ok|apply node_Sub_ok|by apply node_BuildSet_ok|by apply node_BuildTable_ok|by apply node_map_ok
    |by apply node_GetField_ok|by apply node_InsertIntoMap_ok|by apply node_list_ok]).
  all: try (unfold node_bool2, node_CreateList; repeat (eapply yields_bind; [apply yields_any|]; intros ? _); by apply yields_ok).
  - destruct v, w as [| |[] []| | | |]; try done. cbn [node_GetSetElement].
    eapply yields_bind; [apply yields_any|]. intros w' _. by apply yields_ok.
  - destruct v as [|? []|? []| | | |]; try done; cbn [node_IsPresent]; try (by apply yields_ok);
      (eapply yields_bind; [apply yields_any|]; intros b _; by apply yields_ok).
  - unfold node_Throw. destruct (is_null v); [done|]. by destruct (unwrap_primitive v) as [[]|].
Qed.

(** A frame whose values fit. *)
Definition task_fits (t : nat * Task) : Prop :=
  match t.2 with TaskRun params => Forall ints_ok params | TaskSelect v => ints_ok v end.

Record frame_fits (fr : Frame) : Prop := {
  ff_deps : Forall (Forall result_ok) (deps_satisfied fr);
  ff_futures : Forall task_fits (futures fr);
  ff_ret : result_ok (fr_ret fr)
}.

Lemma initial_frame_fits g : frame_fits (initial_frame g).
Proof.
  split; cbn; [| |done].
  - apply Forall_fmap, Forall_forall. intros n _. cbn. apply Forall_replicate. done.
  - apply Forall_concat, Forall_lookup_2. intros i l Hl. apply list_lookup_imap_Some in Hl as (n & _ & ->).
    destruct (_ && _); by repeat constructor.
Qed.

Lemma fire_fits fr t task : frame_fits fr -> task_fits (t, task) -> frame_fits (fire fr t task).
Proof.
  intros [Hd Hf Hr] Ht. split; cbn; [by apply Forall_insert|by apply Forall_app_2; [|constructor]|done].
Qed.

Lemma record_result_fits result fr item :
  result_ok result -> frame_fits fr -> yields frame_fits (record_result result fr item).
Proof.
  intros Hv [Hd Hf Hr]. unfold record_result. destruct (fr_kind item) as [position|].
  - apply (yields_bind ints_ok); [apply yields_xunwrap; by intros v ->|]. intros v Hv'.
    eapply (yields_bind (Forall result_ok)); [apply yields_xunwrap; intros l Hl; by eapply Forall_lookup_1|]. intros deps Hdeps.
    eapply yields_bind; [apply yields_any|]. intros _ _. apply yields_ok. split; cbn; [|done..].
    apply Forall_insert; [done|]. by apply Forall_insert.
  - do 2 (eapply yields_bind; [apply yields_any|]; intros ? _). apply yields_ok. by split.
Qed.

Lemma first_some_ok l v : Forall result_ok l -> first_some l = Some v -> ints_ok v.
Proof. induction 1 as [|[w|] l Hw _ IH]; cbn; [done| |done]. by intros [= <-]. Qed.

Lemma all_some_ok l vs : Forall result_ok l -> mapM_opt id l = Some vs -> Forall ints_ok vs.
Proof.
  intros Hl. revert vs. induction Hl as [|o l Ho _ IH]; intros vs; cbn; [by intros [= <-]|].
  destruct o as [v|]; [|done]. cbn. destruct (mapM_opt id l) as [ys|]; [|done]. intros [= <-]. constructor; [done|by apply IH].
Qed.

Lemma fire_ready_fits g fr item : frame_fits fr -> yields frame_fits (fire_ready g fr item).
Proof.
  intros Hfr. unfold fire_ready. eapply yields_bind; [apply yields_any|]. intros n _.
  eapply yields_bind; [apply yields_any|]. intros [] _; [|by apply yields_ok].
  eapply (yields_bind (Forall result_ok)); [apply yields_xunwrap; intros l Hl; eapply Forall_lookup_1; [apply Hfr|done]|].
  intros deps Hdeps. destruct (is_select _).
  - destruct deps as [|d deps]; [done|]. apply yields_ok. destruct (first_some _) as [v|] eqn:E; [|done].
    apply fire_fits; [done|]. by eapply first_some_ok.
  - apply yields_ok. destruct (mapM_opt id deps) as [vs|] eqn:E; [|done]. apply fire_fits; [done|]. by eapply all_some_ok.
Qed.

Lemma complete_fits g rules i result fr : result_ok result -> frame_fits fr -> yields frame_fits (complete g rules i result fr).
Proof.
  intros Hv [Hd Hf Hr]. unfold complete. eapply yields_bind; [apply yields_any|]. intros to_fire _.
  eapply (yields_bind frame_fits).
  - apply (yields_foldM (fun _ => True)); [by apply Forall_true| |intros fr1 x _ Hfr1; by apply record_result_fits].
    split; cbn; [done..|]. by case_decide.
  - intros fr' Hfr'. apply (yields_foldM (fun _ => True)); [by apply Forall_true|done|intros fr1 x _ Hfr1; by apply fire_ready_fits].
Qed.

Lemma pick_fits {A} (P : A -> Prop) i (l : list A) x rest : pick i l = Some (x, rest) -> Forall P l -> P x /\ Forall P rest.
Proof.
  intros Hp Hl. assert (Hx : exists j, l !! j = Some x /\ rest = take j l ++ drop (S j) l).
  { destruct l as [|y l]; [done|]. apply bind_Some in Hp as (z & E & [= <- <-]). by eexists. }
  destruct Hx as (j & Hj & ->).
  split; [by eapply Forall_lookup_1|]. apply Forall_app_2; [by apply Forall_take|by apply Forall_drop].
Qed.

Lemma graph_loop_fits fuel g info rules args fr st :
  frame_fits fr -> Forall ints_ok args ->
  run_result_fits (graph_loop rmp_to_vec rmp_from_slice schedule vm rec fuel g info rules args fr st).
Proof.
  revert fr st. induction fuel as [|fuel IH]; intros fr st Hfr Ha; cbn [graph_loop];
    destruct (pick _ _) as [[[i task] rest]|] eqn:Ep; try (apply yields_ok; apply Hfr); [done|].
  destruct Hfr as [Hd Hf Hr]. destruct (pick_fits task_fits _ _ _ _ Ep Hf) as [Ht Hrest].
  apply (yields_bind (fun r => result_ok r.1)).
  - unfold run_task. destruct task as [params|v]; [|by apply yields_ok].
    do 2 (eapply yields_bind; [apply yields_any|]; intros ? _). by apply run_node_ok.
  - intros [result st'] Hv. eapply yields_bind; [by apply complete_fits|]. intros fr' Hfr'. by apply IH.
Qed.
End Rec.

Lemma run_fits ex depth i args st : Forall ints_ok args ->
  run_result_fits (recursively_run_graph rmp_to_vec rmp_from_slice schedule vm ex depth i args st).
Proof.
  revert i args st. induction depth as [|depth IH]; intros i args st Ha; [done|]. cbn [recursively_run_graph].
  do 3 (eapply yields_bind; [apply yields_any|]; intros ? _). apply graph_loop_fits; [exact IH|apply initial_frame_fits|done].
Qed.
End Run.

(** ** Arguments and answers *)
(** The integers of a value on the wire; the JSON and MessagePack readers give
    nothing wider. *)
Fixpoint wire_ints_ok (x : SerializedVmValue) : Prop :=
  match x with
  | SInt64 z => is_i64 z
  | STaggedM m => allP (fun e => wire_ints_ok e.2) m
  | STaggedL l => allP wire_ints_ok l
  | _ => True
  end.

Section Codec.
Context (fmt_f64 : Z -> string) (base64_encode : bytes -> string) (base64_decode : string -> option bytes).

Lemma parse_i64_range s z : parse_i64 s = Some z -> is_i64 z.
Proof.
  assert (Hb : forall m, in_bounds (- 2 ^ 63) (2 ^ 63 - 1) m = Some z -> is_i64 z).
  { unfold in_bounds, is_i64. intros m. case_decide; [|done]. intros [= <-]. lia. }
  unfold parse_i64. intros Hs. repeat case_match; apply bind_Some in Hs as (m & _ & Hz); eauto.
Qed.

Lemma decode_primitive_ok x p : wire_ints_ok x -> yields int_ok (decode_primitive base64_decode x p).
Proof.
  intros Hx. destruct x, p; try done; cbn [decode_primitive]; try (by apply yields_ok);
    try (intros a (z & Hz%ok_or_ok & [= <-])%obind_ok; by first [eapply parse_i64_range|cbn]).
  apply yields_ok, f64_as_i64_range.
Qed.

Lemma decode_ints_ok x ty : wire_ints_ok x -> yields ints_ok (decode base64_decode x ty).
Proof.
  revert x. induction ty as [p|n|t IH| |t IH|m IH| |] using vmtype_ind'; intros x Hx;
    destruct x as [| | | | | |es|l]; try done; try (by apply yields_ok).
  all: cbn [decode]; try (eapply yields_bind; [by apply decode_primitive_ok|]; intros y Hy; by apply yields_ok).
  - eapply yields_bind; [|intros node Hn; by apply yields_ok, allP_Forall, Hn].
    eapply yields_mapM; [by apply allP_Forall|]. intros y Hy. by apply IH.
  - eapply (yields_bind entries_ok); [|intros res Hr; by apply yields_ok, allP_Forall].
    eapply yields_foldM; [exact IH|constructor|]. intros res p Hp Hr. cbn beta in Hp.
    apply allP_Forall in Hx. destruct (bt_get p.1 es) as [v|] eqn:E; [|by apply yields_ok, bt_insert_forall].
    eapply yields_bind; [apply Hp; exact (bt_get_forall (fun e => wire_ints_ok e.2) _ _ _ Hx E)|].
    intros w Hw. by apply yields_ok, bt_insert_forall.
Qed.

Lemma encode_ints_ok config v : ints_ok v -> yields wire_ints_ok (encode fmt_f64 base64_encode config v).
Proof.
  induction v as [p|n k _|t k _|b|m IH|t|t l IH] using vmvalue_ind'; intros Hv; try done; try (by apply yields_ok).
  - apply yields_ok. destruct p; cbn; try done; by case_match.
  - cbn [encode]. eapply yields_bind; [|intros x Hx; by apply yields_ok, allP_Forall, Hx].
    eapply (yields_mapM (fun e => yields wire_ints_ok (encode fmt_f64 base64_encode config e.2))).
    + apply allP_Forall in Hv. rewrite !Forall_forall in IH, Hv |- *. intros e He. by apply IH, Hv.
    + intros e He. eapply yields_bind; [exact He|]. intros y Hy. by apply yields_ok.
  - cbn [encode]. eapply yields_bind; [|intros x Hx; by apply yields_ok, allP_Forall, Hx].
    eapply yields_mapM; [|intros y Hy; exact Hy]. apply allP_Forall in Hv.
    rewrite !Forall_forall in IH, Hv |- *. intros y Hy. by apply IH, Hv.
Qed.
End Codec.

(** ** Queries *)
Section Answers.
Context {S T : Type} `{KvTransaction T} `{!KeyValueStore S T}.
Context (rmp_to_vec : PrimitiveValue -> bytes) (rmp_from_slice : bytes -> anyhow PrimitiveValue).
Context (schedule : nat -> nat) (others : nat -> S -> S).
Context (fmt_f64 : Z -> string) (base64_encode : bytes -> string) (base64_decode : string -> option bytes).
Context (Hrmp : forall b, yields int_ok (rmp_from_slice b)).

Lemma run_attempts_fits vm infos ex n i g args s :
  executor_new vm infos = Ok ex -> Forall ints_ok (vm_consts vm) -> Forall ints_ok args ->
  yields result_ok (run_attempts (T := T) rmp_to_vec rmp_from_slice schedule others n i ex g args s).1.
Proof.
  intros He Hc Ha. assert (Hvm : ex_vm ex = vm) by (by apply obind_ok in He as (t & _ & [= <-])).
  revert i s. induction n as [|n IH]; intros i s; [done|]. cbn [run_attempts].
  destruct (kv_begin s) as [[s1 txn]| | |]; try done.
  destruct (recursively_run_graph _ _ _ _ _ _ _ _ _) as [[ret st]| | |] eqn:Er; try done.
  rewrite Hvm in Er. apply (run_fits rmp_to_vec rmp_from_slice schedule vm Hrmp Hc ex _ _ _ _ Ha) in Er.
  destruct (kv_commit _ _) as [s2|[]| |]; try done; by apply yields_ok.
Qed.

Lemma run_exported_graph_fits ec timer name params config s :
  Forall ints_ok (vm_consts (ec_vm ec)) -> ints_ok (ec_root_map ec) -> Forall wire_ints_ok params ->
  yields wire_ints_ok (run_exported_graph (T := T) rmp_to_vec rmp_from_slice schedule others fmt_f64 base64_encode base64_decode
    ec timer name params config s).1.
Proof.
  intros Hc Hroot Hp. unfold run_exported_graph. destruct timer as [n|]; [done|].
  unfold run_exported_graph_inner, run_for.
  destruct (prepare_call base64_decode ec name params) as [[[ex g] args]|[]| |] eqn:Epc; try done.
  assert (Hargs : executor_new (ec_vm ec) (ec_type_info ec) = Ok ex /\ Forall ints_ok args).
  { unfold prepare_call in Epc. apply obind_ok in Epc as (gi & _ & Epc). apply obind_ok in Epc as (info & _ & Epc).
    apply obind_ok in Epc as (gr & _ & Epc). apply obind_ok in Epc as (raw & _ & Epc).
    destruct (decide _); [done|]. destruct (decide _); [done|].
    apply obind_ok in Epc as (ex' & Hex & Epc). apply obind_ok in Epc as (args' & Hargs & [= -> -> ->]).
    split; [unfold of_exec, failed in Hex; destruct (executor_new _ _) as [|[]| |]; naive_solver|].
    revert args Hargs. apply (yields_mapM (fun q => wire_ints_ok q.1.1)).
    - apply Forall_forall. intros [[x t] r] (j & Hj)%list_elem_of_lookup.
      apply lookup_zip_with_Some in Hj as (? & ? & [= <- <-] & (? & ? & [= <- <-] & Hx & _)%lookup_zip_with_Some & _).
      by eapply Forall_lookup_1.
    - intros [[x t] r] Hx. unfold decode_param. cbn [fst snd].
      assert (Hd : yields ints_ok (map_err (fun e => QErr (E := QueryError) (QSerialize e)) (decode base64_decode x t)))
        by (by apply yields_err, decode_ints_ok).
      destruct r; try exact Hd. by apply yields_ok. }
  destruct Hargs as [Hex Hargs]. pose proof (run_attempts_fits _ _ _ MAX_ATTEMPTS 0 g args s Hex Hc Hargs) as Hrun.
  destruct (run_attempts _ _ _ _ _ _ _ _ _ _) as [output s']. cbn [fst] in Hrun.
  intros v. destruct output as [out|[]| |]; try done. cbn [of_exec failed map_err obind].
  specialize (Hrun out eq_refl). destruct out as [w|]; cbn [encode_output]; [|by intros [= <-]].
  pose proof (encode_ints_ok fmt_f64 base64_encode config w Hrun) as He.
  destruct (encode _ _ _ _) as [x|[]| |]; try done. cbn. intros [= <-]. by apply He.
Qed.
End Answers.

(** The root map of a loaded script holds resident tables and sets. *)
Lemma root_map_fits schema plan : yields ints_ok (generate_root_map schema plan).
Proof.
  unfold generate_root_map. eapply (yields_bind entries_ok); [|intros m Hm; by apply yields_ok, allP_Forall].
  apply (yields_foldM (fun _ => True)); [by apply Forall_true|constructor|]. intros m [name t] _ Hm. unfold root_entry. cbn [fst snd].
  destruct t; try done; (eapply yields_bind; [apply yields_any|]; intros w _; apply yields_ok; by apply bt_insert_forall).
Qed.

Lemma load_root_fits compile_twscript kosaraju schema plan text ec :
  load compile_twscript kosaraju schema plan text = Ok ec -> ints_ok (ec_root_map ec).
Proof.
  intros Hl. destruct (load_inv _ _ _ _ _ _ Hl) as (script & ctx & ctx' & _ & _ & _ & _ & Hr). exact (root_map_fits _ _ _ Hr).
Qed.

(** The sum of the executor: a 64-bit integer, exact unless it overflows. *)
Definition sum_fits (z : Z) (c : xres (option VmValue)) : Prop :=
  exists s, c = Ok (Some (VmPrimitive (VInt64 s))) /\ is_i64 s /\ (exists k, s = (z + k * 2 ^ 64)%Z) /\ (is_i64 z -> s = z).

Lemma add_sub_fits l r :
  sum_fits (l + r) (node_Add (VmPrimitive (VInt64 l)) (VmPrimitive (VInt64 r))) /\
  sum_fits (l - r) (node_Sub (VmPrimitive (VInt64 l)) (VmPrimitive (VInt64 r))).
Proof.
  split; (eexists; split; [reflexivity|]; split; [apply i64_wrap_range|]; split; [apply i64_wrap_congruent|]; apply i64_wrap_exact).
Qed.
