(* ===== verification/Confined.v ===== *)
(** * What a run writes

    A run reaches the store through the operations of its transaction only, and on
    SQLite these stay in one table, under one prefix.  So a query changes nothing
    outside the data of its namespace, whatever its script is: it may be ill typed,
    panic or time out. *)
From stdpp Require Import prelude gmap strings list.
From Stdlib Require Import Strings.Byte ZArith.
From S2P Require Import Prelude OrdMap Schema StoragePlan Planner Value PathWalker Kv VmValue Bytecode Typeck Exec.
From S2P Require Import AsmAst Serialize Query Backend Sqlite ServerEnv System ControlPlane HttpApi.

(** ** Runs are operations *)
Create HintDb writes discriminated.

Section Runs.
Context {T : Type} `{KvTransaction T}.

(** A preorder on transactions that has the three writes. *)
Context (R : relation T) `{!PreOrder R}.
Context (Hput : forall t k v, yields (R t) (kv_put t k v)) (Hdelete : forall t k, yields (R t) (kv_delete t k)).
Context (Hrange : forall t lo hi, yields (R t) (kv_delete_range t lo hi)).

Context (rmp_to_vec : PrimitiveValue -> bytes) (rmp_from_slice : bytes -> anyhow PrimitiveValue) (schedule : nat -> nat).
Context (vm : TwVm).

Lemma then_writes {E A} t t' (c : outcome E A) (f : A -> T) :
  R t t' -> yields (fun a => R t' (f a)) c -> yields (fun a => R t (f a)) c.
Proof. intros Ht Hc a Ha. by transitivity t'; [|apply Hc]. Qed.

Lemma put_writes t k v : yields (R t) (xkv (kv_put t k v)). Proof. apply yields_err, Hput. Qed.
Lemma delete_writes t k : yields (R t) (xkv (kv_delete t k)). Proof. apply yields_err, Hdelete. Qed.
Lemma range_writes t lo hi : yields (R t) (xkv (kv_delete_range t lo hi)). Proof. apply yields_err, Hrange. Qed.
#[local] Hint Resolve put_writes delete_writes range_writes : writes.

(** One write after another. *)
Lemma bind_writes {E} t (c : outcome E T) (k : T -> outcome E T) :
  yields (R t) c -> (forall t', yields (R t') (k t')) -> yields (R t) (obind c k).
Proof. intros Hc Hk. eapply yields_bind; [exact Hc|]. intros t' Ht. eapply (then_writes _ _ _ id); [exact Ht|apply Hk]. Qed.

Lemma read_writes {E A} t (c : outcome E A) (k : A -> outcome E T) :
  (forall a, yields (R t) (k a)) -> yields (R t) (obind c k).
Proof. intros Hk. eapply yields_bind; [apply yields_any|auto]. Qed.

Lemma foldM_writes {E A} (P : A -> Prop) (f : T -> A -> outcome E T) l t :
  Forall P l -> (forall t x, P x -> yields (R t) (f t x)) -> yields (R t) (foldM_o f t l).
Proof.
  intros Hl Hf. eapply (yields_foldM P (R t)); [exact Hl|reflexivity|]. intros t' x Hx Ht.
  eapply (then_writes _ _ _ id); [exact Ht|by apply Hf].
Qed.

Lemma delete_set_writes t w : yields (R t) (delete_set t w).
Proof. unfold delete_set. do 4 (apply read_writes; intros ?). apply bind_writes; auto with writes. Qed.

Lemma delete_entry_writes t w v : yields (R t) (delete_entry_from_set t w v).
Proof. unfold delete_entry_from_set. do 2 (apply read_writes; intros ?). apply bind_writes; auto with writes. Qed.
#[local] Hint Resolve delete_set_writes delete_entry_writes : writes.

Lemma walk_and_insert_writes v w t : yields (R t) (walk_and_insert rmp_to_vec t w v).
Proof.
  revert w t. induction v as [x|n kind IH|ty kind IH|b|els IH|ty|ty l IH] using vmvalue_ind';
    intros w t; cbn [walk_and_insert]; auto with writes; try done.
  - apply bind_writes; [auto with writes|]. intros t1. destruct kind as [|fields]; [done|].
    eapply foldM_writes; [exact IH|]. intros t2 e He. apply read_writes. intros w'. apply He.
  - apply bind_writes; [auto with writes|]. intros t1. destruct kind as [|members]; [done|].
    apply bind_writes; [auto with writes|]. intros t2. eapply foldM_writes; [exact IH|]. intros t3 e He.
    apply read_writes. intros p. apply bind_writes; [auto with writes|]. intros t4. apply read_writes. intros w'. apply He.
Qed.
#[local] Hint Resolve walk_and_insert_writes : writes.

Lemma InsertIntoSet_writes t v s : yields (R t) (node_InsertIntoSet rmp_to_vec rmp_from_slice vm t v s).
Proof.
  unfold node_InsertIntoSet. do 5 (apply read_writes; intros ?). destruct (_.2); [|done].
  apply read_writes. intros p. apply bind_writes; [auto with writes|]. intros t1. apply read_writes. intros w'. auto with writes.
Qed.

Lemma InsertIntoTable_writes t i v s : yields (R t) (node_InsertIntoTable rmp_to_vec vm t i v s).
Proof.
  unfold node_InsertIntoTable. do 2 (apply read_writes; intros ?). destruct (_.2); [|done].
  apply read_writes. intros w'. auto with writes.
Qed.

Lemma DeleteFromSet_writes t v s : yields (R t) (node_DeleteFromSet t v s).
Proof. destruct v, s as [| |m []| | | |]; try done. cbn [node_DeleteFromSet]. auto with writes. Qed.

(** A computation of the executor from a state. *)
Definition st_writes {A} (st : XState T) (c : xres (A * XState T)) : Prop := yields (fun r => R (xs_txn st) (xs_txn r.2)) c.

Lemma pure_writes {A} st (c : xres A) : st_writes st (omap_ok (fun v => (v, st)) c).
Proof. destruct c; try done. by apply yields_ok. Qed.

Lemma effect_writes {A} st (c : xres T) (a : A) :
  yields (R (xs_txn st)) c -> st_writes st (omap_ok (fun txn => (a, with_txn st txn)) c).
Proof. intros Hc. destruct c as [t| | |]; try done. apply yields_ok, (Hc t eq_refl). Qed.

Lemma bind_st_writes {A B} st (c : xres (A * XState T)) (k : A * XState T -> xres (B * XState T)) :
  st_writes st c -> (forall r, st_writes r.2 (k r)) -> st_writes st (obind c k).
Proof. intros Hc Hk. eapply yields_bind; [exact Hc|]. intros r Hr. eapply then_writes; [exact Hr|apply Hk]. Qed.

Lemma read_st_writes {A B} st (c : xres A) (k : A -> xres (B * XState T)) :
  (forall a, st_writes st (k a)) -> st_writes st (obind c k).
Proof. intros Hk. eapply yields_bind; [apply yields_any|]. intros a _. apply Hk. Qed.

Section Rec.
Context (rec : nat -> list VmValue -> XState T -> xres (option VmValue * XState T)).
Context (Hrec : forall i args st, st_writes st (rec i args st)).

Lemma reduce_loop_writes {A} (element : A -> xres VmValue) i p l acc st :
  st_writes st (reduce_loop rec element i p l acc st).
Proof.
  revert acc st. induction l as [|x l IH]; intros acc st; [by apply yields_ok|]. cbn [reduce_loop].
  apply read_st_writes. intros v. apply bind_st_writes; [apply Hrec|]. intros [out st']. cbn [snd].
  apply read_st_writes. intros y. destruct (is_null y); [by apply yields_ok|apply IH].
Qed.

Lemma node_Reduce_writes i has_range params ty st : st_writes st (node_Reduce vm rec i has_range params ty st).
Proof.
  unfold node_Reduce. do 3 (apply read_st_writes; intros ?). destruct (is_null _); [by apply yields_ok|].
  match goal with |- context [match ?v with _ => _ end] => destruct v as [| |m [w|x]| | | |m node]; try done end.
  - do 3 (apply read_st_writes; intros ?). match goal with |- context [let (_, _) := ?r in _] => destruct r end.
    apply read_st_writes. intros keys. apply bind_st_writes; [apply reduce_loop_writes|]. intros [v st']. by apply yields_ok.
  - apply bind_st_writes; [apply reduce_loop_writes|]. intros [v st']. by apply yields_ok.
Qed.

Lemma run_node_writes n params args ty st :
  st_writes st (run_node rmp_to_vec rmp_from_slice vm rec n params args ty st).
Proof.
  unfold run_node. destruct (_ && _); [by apply yields_ok|].
  destruct n; try done; try apply pure_writes; try (by apply yields_ok); try apply Hrec; try apply node_Reduce_writes;
    apply effect_writes; do 2 (apply read_writes; intros ?);
    [apply InsertIntoTable_writes||apply InsertIntoSet_writes||apply DeleteFromSet_writes..].
Qed.

Lemma graph_loop_writes fuel g info rules args fr st :
  st_writes st (graph_loop rmp_to_vec rmp_from_slice schedule vm rec fuel g info rules args fr st).
Proof.
  revert fr st. induction fuel as [|fuel IH]; intros fr st; cbn [graph_loop];
    destruct (pick _ _) as [[[i task] rest]|]; try (by apply yields_ok); [done|].
  apply (bind_st_writes (MkXState (xs_txn st) (S (xs_clock st)))).
  - unfold run_task. destruct task as [params|v]; [|by apply yields_ok].
    do 2 (apply read_st_writes; intros ?). apply run_node_writes.
  - intros [result st']. cbn [snd]. apply read_st_writes. intros fr'. apply IH.
Qed.
End Rec.

Lemma run_writes ex depth i args st :
  st_writes st (recursively_run_graph rmp_to_vec rmp_from_slice schedule vm ex depth i args st).
Proof.
  revert i args st. induction depth as [|depth IH]; intros i args st; [done|]. cbn [recursively_run_graph].
  do 3 (apply read_st_writes; intros ?). apply graph_loop_writes, IH.
Qed.
End Runs.

(** ** On SQLite *)
Section OnSqlite.
Context {D X : Type} `{!Sqlite D X} `{!SqliteLaws D X}.

(** What the operations of a transaction do to it: they push writes under its
    prefix. *)
Definition pushed (t t' : SqliteKvTxn X) : Prop :=
  worker t' = worker t /\ table t' = table t /\ prefix t' = prefix t /\
  exists ops, log t' = log t ++ (op_with_prefix (prefix t) <$> ops).

#[export] Instance pushed_preorder : PreOrder pushed.
Proof.
  split.
  - intros t. split_and!; try done. exists []. by rewrite app_nil_r.
  - intros t1 t2 t3 (Hw & Ht & Hp & ops & Hl) (Hw' & Ht' & Hp' & ops' & Hl'). split_and!; [congruence..|].
    exists (ops ++ ops'). by rewrite Hl', Hl, Hp, fmap_app, (assoc_L (++)).
Qed.

Lemma pushed_op t op : pushed t (push_op t (op_with_prefix (prefix t) op)).
Proof. split_and!; try done. by exists [op]. Qed.

Lemma sqlite_run_pushes rmp_to_vec rmp_from_slice schedule vm ex depth i args st :
  st_writes pushed st (recursively_run_graph (T := SqliteKvTxn X) rmp_to_vec rmp_from_slice schedule vm ex depth i args st).
Proof.
  apply (run_writes pushed).
  - intros t k v. apply yields_ok. apply (pushed_op t (MPut k v)).
  - intros t k. apply yields_ok. apply (pushed_op t (MDelete k)).
  - intros t lo hi. apply yields_ok. apply (pushed_op t (MDeleteRange lo hi)).
Qed.

Context (tbl : string) (pre : bytes).

(** The same rows outside the keys of the prefix in the table. *)
Definition same_outside (d d' : D) : Prop :=
  forall tb k, (tb = tbl -> forall r, k <> pre ++ r) -> sq_rows d' tb k = sq_rows d tb k.

Lemma sqlite_commit_outside s s1 t0 t s2 s' :
  kv_begin s = Ok (s1, t0) -> store_table s = tbl -> store_prefix s = pre -> pushed t0 t ->
  sqlite_commit s2 t = Ok s' -> same_outside (global s2) (global s').
Proof.
  intros (-> & Hl & Ht & Hp & Hx)%sqlite_begin_inv Hst Hsp (Hw & Htt & Hpp & ops & Hops) Hc tb k Hk.
  apply sqlite_commit_inv in Hc as (x & x' & Hwx & Hr & Hc & _). rewrite Hw in Hwx.
  destruct (Hx x Hwx) as (_ & Hb & Hreads). destruct (replay_spec _ _ _ _ _ Hr) as (_ & Hb' & Hrows).
  apply sq_commit_law in Hc. destruct (sq_wrote x'); [|by rewrite Hc]. destruct Hc as [Hbg ->]. rewrite Hrows, Hreads, <- Hb, <- Hb', Hbg.
  case_decide as Et; [|done]. apply (apply_log_outside pre); [|apply Hk; congruence].
  exists ops. by rewrite Hops, Hl, Hp, Hsp.
Qed.

(** What does not depend on these keys is kept by a run, if other clients keep it. *)
Context (P : D -> Prop) (HP : forall d d', same_outside d d' -> P d -> P d').

Definition store_keeps (s : SqliteKvStore D) : Prop := P (global s) /\ store_table s = tbl /\ store_prefix s = pre.

Section Query.
Context (rmp_to_vec : PrimitiveValue -> bytes) (rmp_from_slice : bytes -> anyhow PrimitiveValue).
Context (schedule : nat -> nat) (others : nat -> SqliteKvStore D -> SqliteKvStore D).
Context (fmt_f64 : Z -> string) (base64_encode : bytes -> string) (base64_decode : string -> option bytes).
Context (Hothers : forall i s, store_keeps s -> store_keeps (others i s)).

Lemma run_attempts_keeps ex n i g args s : store_keeps s ->
  store_keeps (run_attempts (T := SqliteKvTxn X) rmp_to_vec rmp_from_slice schedule others n i ex g args s).2.
Proof.
  revert i s. induction n as [|n IH]; intros i s Hs; [done|]. cbn [run_attempts].
  destruct (kv_begin s) as [[s1 t0]| | |] eqn:Eb; try done.
  destruct (sqlite_begin_inv _ _ _ Eb) as [-> _]. pose proof (Hothers i s Hs) as Hs1.
  destruct (recursively_run_graph _ _ _ _ _ _ _ _ _) as [[ret st]| | |] eqn:Er; try done.
  apply sqlite_run_pushes in Er. destruct (kv_commit _ _) as [s2|[]| |] eqn:Ec; try done; cbn [snd]; [|by apply IH].
  destruct Hs as (_ & Hst & Hsp), Hs1 as (HP1 & Hst1 & Hsp1).
  pose proof (sqlite_commit_outside _ _ _ _ _ _ Eb Hst Hsp Er Ec) as Hout.
  destruct (sqlite_commit_inv _ _ _ Ec) as (_ & _ & _ & _ & _ & Hst2 & Hsp2).
  split_and!; [by eapply HP|congruence|congruence].
Qed.

Lemma run_exported_graph_keeps ec timer name params config s : store_keeps s ->
  store_keeps (run_exported_graph (T := SqliteKvTxn X) rmp_to_vec rmp_from_slice schedule others fmt_f64 base64_encode
    base64_decode ec timer name params config s).2.
Proof.
  intros Hs. assert (Hfor : forall n, store_keeps (run_for (T := SqliteKvTxn X) rmp_to_vec rmp_from_slice schedule others
    fmt_f64 base64_encode base64_decode ec n name params config s).2).
  { intros n. unfold run_for. destruct (prepare_call _ _ _ _) as [[[ex g] args]|e| |]; try done.
    pose proof (run_attempts_keeps ex n 0 g args s Hs) as Hk. by destruct (run_attempts _ _ _ _ _ _ _ _ _ _). }
  unfold run_exported_graph, run_exported_graph_inner. destruct timer as [n|]; [apply Hfor|].
  specialize (Hfor MAX_ATTEMPTS). by destruct (run_for _ _ _ _ _ _ _ _ _ _ _ _ _).
Qed.
End Query.
End OnSqlite.

(** ** Queries of a namespace *)
Section Namespaces.
Context {D X : Type} `{!Sqlite D X} `{!SqliteLaws D X} `{!Crates}.

(** Whatever holds of the database regardless of the data of the namespace still does
    after a query, if other clients keep it. *)
Lemma run_query_confined (o : Circumstances D) (P : D -> Prop) ec kv_prefix name params config d :
  (forall d d', same_outside "user_data" kv_prefix d d' -> P d -> P d') ->
  (forall i d, P d -> P (other_clients o i d)) -> P d ->
  P (run_query (T := SqliteKvTxn X) o ec kv_prefix name params config d).2.
Proof.
  intros HP Ho Hd. unfold run_query.
  pose proof (run_exported_graph_keeps "user_data" kv_prefix P HP value_to_vec value_from_slice (completion o)
    (fun i s => data_store_generator kv_prefix (other_clients o i (db_of s))) fmt_f64 base64_encode base64_decode) as Hk.
  specialize (Hk ltac:(intros i s (Hp & _ & _); split_and!; [by apply Ho|done..]) ec (call_times_out o name) name params config
    (data_store_generator kv_prefix d) ltac:(by split_and!)).
  destruct (run_exported_graph _ _ _ _ _ _ _ _ _ _ _ _ _). apply Hk.
Qed.
End Namespaces.
