(* ===== verification/Session.v ===== *)
(** * A running server

    Everything that happens to a server on SQLite, as steps on its database and its
    cache: the calls of the control plane, queries over HTTP, passes of the collector
    and commits of others.  The tables of the server itself stay well typed through
    all of it, and what the caches hold stays loaded from scripts. *)
From stdpp Require Import prelude gmap strings list.
From Stdlib Require Import Strings.Byte ZArith.
From S2P Require Import Prelude OrdMap Schema SchemaFacts StoragePlan Planner Value PathWalker WalkerTyping Kv VmValue Bytecode Typeck Exec.
From S2P Require Import ValueTyping NodeSound GraphSound TypeckSound RunGraph AsmAst Serialize SerializeFacts Query QueryCache Backend Sqlite BackendSound.
From S2P Require Import ServerEnv System ControlPlane HttpApi Confined.

Section Session.
Context {D X : Type} `{!Sqlite D X} `{!SqliteLaws D X} `{!Crates}.
Context {I C : Type} `{!Lru QueryCacheKey ExecContext I} `{!Lru (string * string) HotItem C}.
Context `{!LruLaws QueryCacheKey ExecContext I} `{!LruLaws (string * string) HotItem C}.
Context (fuel : AstSchema -> nat).

(** The system context: the system script, loaded against the system schema. *)
Context (system : ExecContext) (schema : CompiledSchema) (plan : Plan) (rec : gset string).

Abbreviation State := (ServerState D I C).
Abbreviation Db := (SqliteKvStore D).
Abbreviation DbTxn := (SqliteKvTxn X).

(** The tables of the server hold well-typed data. *)
Definition system_typed (d : D) : Prop := holds_typed value_from_slice (ec_vm system) rec (system_store d).

(** Other clients of the database keep them so. *)
Definition considerate (o : Circumstances D) : Prop := forall i d, system_typed d -> system_typed (other_clients o i d).

Inductive server_step (st : State) : State -> Prop :=
| step_call o r : considerate o ->
    server_step st (MkServerState (serve (T := DbTxn) fuel system o r (st_db st)).2 (st_query_cache st))
| step_query o now ns qs name params config : considerate o ->
    server_step st (do_invoke_query (T := DbTxn) fuel system o now ns qs name params config st).2
| step_collect_hot now c : expire_hot (st_query_cache st) now = Ok c -> server_step st (MkServerState (st_db st) c)
| step_collect memory threshold : server_step st (MkServerState (st_db st) (shrink (st_query_cache st) memory threshold))
| step_other d : (system_typed (st_db st) -> system_typed d) -> server_step st (MkServerState d (st_query_cache st)).

(** ** Handlers keep the server's tables *)
Context (Hwf : wf_schema schema) (Hcodec : codec_ok value_to_vec value_from_slice).
Context (Hload : exists compile_twscript kosaraju text,
  load compile_twscript kosaraju schema plan text = Ok system /\ covers kosaraju).
Context (Hvm : vm_ok value_from_slice (ec_vm system) rec) (Hexact : exact_script (ec_vm system) (ec_type_info system) = true).
Context (Hparams : Forall (fun info => Forall ty_wf (gi_params info)) (ec_type_info system)).

Definition keeps_tables {St A} (db : St -> D) (m : St -> A * St) : Prop :=
  forall st, system_typed (db st) -> system_typed (db (m st).2).

Lemma hbind_keeps {St E A B} (db : St -> D) (m : computation E St A) (k : A -> computation E St B) :
  keeps_tables db m -> (forall a, keeps_tables db (k a)) -> keeps_tables db (hbind m k).
Proof.
  intros Hm Hk st Hst. unfold hbind. specialize (Hm st Hst). destruct (m st) as [[a|e| |] st']; try done. by apply Hk.
Qed.

Lemma hret_keeps {St E A} (db : St -> D) (a : A) : keeps_tables db (hret (E := E) (St := St) a).
Proof. by intros st. Qed.

Lemma try_keeps {St F E A} (db : St -> D) (f : E -> F) (c : outcome E A) : keeps_tables db (try_ (St := St) f c).
Proof. by intros st. Qed.

Lemma pure_keeps {St E A} (db : St -> D) (c : outcome E A) : keeps_tables db (fun st => (c, st)).
Proof. by intros st. Qed.

Create HintDb tables discriminated.
#[local] Hint Resolve hbind_keeps hret_keeps try_keeps pure_keeps : tables.

(** A store with the same rows in the system's table. *)
Lemma system_typed_rows d d' :
  (forall k, sq_rows d' "system" k = sq_rows d "system" k) -> system_typed d -> system_typed d'.
Proof.
  intros Hr Hd w q bs v Hw Hk. apply (Hd w q bs v Hw). rewrite <- Hk. symmetry. apply Hr.
Qed.

Section Handlers.
Context (o : Circumstances D) (Ho : considerate o).

Definition system_good : Db -> Prop := sqlite_good value_from_slice (ec_vm system) rec "system" [].

Lemma system_client : client_ok (T := DbTxn) value_from_slice
  (fun i s => system_store (other_clients o i (db_of s))) schema plan rec system_good (sqlite_open "system" []) system.
Proof.
  split; [done..|]. apply sqlite_store_ok. intros i s (Hs & Ht & Hp). split_and!; [|done..]. apply Ho.
  intros w q bs v Hw Hk. apply (Hs w q bs v Hw). revert Hk. unfold kv_contents, sqlite_contents. by rewrite Ht, Hp.
Qed.

Lemma run_system_graph_keeps name params config :
  keeps_tables id (run_system_graph (T := DbTxn) system o name params config).
Proof.
  intros d Hd. unfold run_system_graph.
  assert (Hg : system_good (system_store d)) by (by split_and!).
  pose proof (query_keeps_good value_to_vec value_from_slice (completion o) _ fmt_f64 base64_encode base64_decode schema plan rec
    system_good (sqlite_open "system" []) system (call_times_out o name) name params config (system_store d) Hwf Hcodec
    system_client Hg) as (Hs & Ht & Hp).
  destruct (run_exported_graph _ _ _ _ _ _ _ _ _ _ _ _ _) as [r s]. cbn [snd id] in *.
  intros w q bs v Hw Hk. apply (Hs w q bs v Hw). revert Hk. unfold kv_contents, sqlite_contents. by rewrite Ht, Hp.
Qed.
#[local] Hint Resolve run_system_graph_keeps : tables.

Lemma bool_answer_keeps res : keeps_tables id (bool_answer (D := D) res).
Proof. unfold bool_answer. auto with tables. Qed.

Lemma list_answer_keeps {A} (f : SerializedVmValue -> sres A) res : keeps_tables id (list_answer (D := D) f res).
Proof. unfold list_answer. auto 6 with tables. Qed.
#[local] Hint Resolve bool_answer_keeps list_answer_keeps : tables.

Lemma ns_to_kv_prefix_keeps id_ : keeps_tables id (ns_to_kv_prefix_with_appended_zero (T := DbTxn) system o id_).
Proof.
  unfold ns_to_kv_prefix_with_appended_zero. apply hbind_keeps; [auto with tables|]. intros res. destruct res; auto with tables.
Qed.

Lemma delete_data_keeps p : keeps_tables id (delete_data (S := Db) (T := DbTxn) p).
Proof.
  intros d Hd. unfold delete_data. destruct (last p); [|done]. destruct (decide _); [done|].
  destruct (kv_begin _) as [[s txn]| | |] eqn:Eb; try done. destruct (kv_delete_range _ _ _) as [txn'| | |] eqn:Er; try done.
  destruct (kv_commit s txn') as [s'| | |] eqn:Ec; try done. cbn [snd id].
  assert (Hsteps : kv_steps txn txn') by exact (rtc_once _ _ (write_delete_range _ _ [x00] [x01] eq_refl Er)).
  destruct (data_store_commit _ _ _ _ _ _ Eb Hsteps Ec) as (_ & _ & Hsys). eapply system_typed_rows; [|exact Hd].
  intros k. exact (Hsys k).
Qed.

Lemma delete_namespace_data_keeps id_ : keeps_tables id (delete_namespace_data (T := DbTxn) system o id_).
Proof.
  intros d Hd. unfold delete_namespace_data. pose proof (ns_to_kv_prefix_keeps id_ d Hd) as Hn.
  destruct (ns_to_kv_prefix_with_appended_zero _ _ _ _) as [[p|e| |] d1]; try done. by apply delete_data_keeps.
Qed.
#[local] Hint Resolve ns_to_kv_prefix_keeps delete_namespace_data_keeps : tables.

Lemma lookup_query_script_keeps ns qs : keeps_tables id (lookup_query_script (T := DbTxn) system o ns qs).
Proof. unfold lookup_query_script. apply hbind_keeps; [auto with tables|]. intros res. destruct res; auto with tables. Qed.

Lemma lookup_deployment_keeps ns i : keeps_tables id (lookup_deployment (T := DbTxn) system o ns i).
Proof. unfold lookup_deployment. auto with tables. Qed.
#[local] Hint Resolve lookup_query_script_keeps lookup_deployment_keeps : tables.

Lemma deployment_info_keeps res : keeps_tables id (deployment_info_of (D := D) res).
Proof.
  unfold deployment_info_of, deployment_info_fields. repeat first [apply hbind_keeps; [|intros ?]|apply try_keeps|apply hret_keeps].
Qed.

Lemma serve_keeps r : keeps_tables id (serve (T := DbTxn) fuel system o r).
Proof.
  destruct r; cbn [serve]; unfold hmap; (apply hbind_keeps; [|auto with tables]).
  - unfold create_namespace. auto with tables.
  - unfold list_namespace. auto with tables.
  - unfold delete_namespace. auto with tables.
  - unfold create_deployment. auto 8 with tables.
  - unfold get_deployment. apply hbind_keeps; [auto with tables|]. intros res.
    destruct res; auto with tables; (apply hbind_keeps; [apply deployment_info_keeps|auto with tables]).
  - unfold list_deployment. auto with tables.
  - unfold delete_deployment. auto with tables.
  - unfold create_query_script. auto 8 with tables.
  - unfold delete_query_script. auto with tables.
  - unfold get_query_script. auto with tables.
  - unfold list_query_script. auto with tables.
Qed.

(** ** Queries keep them *)
Lemma on_db_keeps {A} (m : handler D A) : keeps_tables id m -> keeps_tables st_db (on_db (I := I) (C := C) m).
Proof. intros Hm st Hst. unfold on_db. specialize (Hm (st_db st) Hst). by destruct (m (st_db st)). Qed.

Lemma on_cache_keeps {A} (f : QueryCache I C -> A * QueryCache I C) : keeps_tables st_db (on_cache (D := D) f).
Proof. intros st Hst. unfold on_cache. by destruct (f _). Qed.
#[local] Hint Resolve on_db_keeps on_cache_keeps : tables.

Lemma find_query_keeps now ns qs : keeps_tables st_db (find_query (I := I) (C := C) (T := DbTxn) fuel system o now ns qs).
Proof.
  unfold find_query. apply hbind_keeps; [auto with tables|]. intros [x|]; [auto with tables|].
  apply hbind_keeps; [auto with tables|]. intros script. apply hbind_keeps; [auto with tables|].
  intros [x|]; [auto with tables|]. unfold load_query. auto 8 with tables.
Qed.

Lemma run_query_keeps ec p name params config : keeps_tables id (run_query (T := DbTxn) o ec p name params config).
Proof.
  intros d Hd. apply run_query_confined; [|exact Ho|exact Hd]. intros d1 d2 Hout. apply system_typed_rows.
  intros k. by apply Hout.
Qed.

Lemma do_invoke_query_keeps now ns qs name params config :
  keeps_tables st_db (do_invoke_query (I := I) (C := C) (T := DbTxn) fuel system o now ns qs name params config).
Proof.
  unfold do_invoke_query. apply hbind_keeps; [auto with tables|]. intros p. apply hbind_keeps; [apply find_query_keeps|].
  intros ec. apply on_db_keeps, run_query_keeps.
Qed.
End Handlers.

(** ** Sessions *)
(** What holds of a running server. *)
Definition server_ok (st : State) : Prop := system_typed (st_db st) /\ cache_loaded fuel (st_query_cache st).

Lemma server_step_ok st st' : server_step st st' -> server_ok st -> server_ok st'.
Proof.
  intros Hst [Hd Hc]. destruct Hst as [o r Ho|o now ns qs name params config Ho|now c He|memory threshold|d Hd'].
  - split; [|done]. by apply (serve_keeps o Ho r).
  - split; [by apply do_invoke_query_keeps|].
    destruct (do_invoke_query _ _ _ _ _ _ _ _ _ _) as [r st'] eqn:E. by eapply (invoke_query_served fuel system) in E as [Hc' _].
  - split; [done|]. by eapply expire_hot_loaded.
  - split; [done|]. by apply shrink_loaded.
  - split; [by apply Hd'|done].
Qed.

Lemma session_ok st st' : rtc server_step st st' -> server_ok st -> server_ok st'.
Proof. induction 1 as [|st st1 st2 Hs _ IH]; [done|]. intros Hst. by apply IH, (server_step_ok _ _ Hs). Qed.

(** A call of a system graph on such a server answers. *)
Lemma system_graph_answers o d attempts name params config : considerate o -> system_typed d ->
  answer_ok value_to_vec value_from_slice fmt_f64 base64_encode system rec system_good name config
    (run_for (T := DbTxn) value_to_vec value_from_slice (completion o) (fun i s => system_store (other_clients o i (db_of s)))
       fmt_f64 base64_encode base64_decode system attempts name params config (system_store d)).
Proof.
  intros Ho Hd. eapply (client_answers _ _ _ _ _ _ _ schema plan); [exact Hwf|by apply system_client|by split_and!].
Qed.
End Session.
