(* ===== verification/Client.v ===== *)
(** * The command line client: [rdbctl/src/main.rs], [diff.rs]

    One subcommand per call of the service [RdbControl].  Creating a deployment
    compiles the schema, plans it from the deployment to migrate from and shows what
    changes in the plan before it is submitted.  The calls are an interface, which
    the handlers of the server implement. *)
From stdpp Require Import prelude gmap strings list.
From Stdlib Require Import Strings.Byte Strings.Ascii ZArith.
From S2P Require Import Prelude OrdMap Schema SchemaFacts StoragePlan Planner PlannerPlan Value Kv VmValue AsmAst Codegen Serialize Query.
From S2P Require Import ServerEnv System ControlPlane ControlFacts.

(** ** The service, seen from a client *)
(** A call fails with the status the server made of an error, or because the
    connection broke. *)
Inductive RpcFail := RpcStatus (e : ServerFail) | RpcBroken.

(** [RdbControlClient]: the calls the client makes, each on a state of the world
    behind the connection. *)
Class RdbControl (W : Type) := {
  rpc_create_namespace : string -> computation RpcFail W bool;
  rpc_list_namespace : computation RpcFail W (list NamespaceBasicInfo);
  rpc_delete_namespace : string -> computation RpcFail W bool;
  rpc_create_deployment : CreateDeploymentRequest -> computation RpcFail W (option string);
  rpc_get_deployment : string -> string -> computation RpcFail W (option DeploymentFullInfo);
  rpc_list_deployment : string -> computation RpcFail W (list DeploymentBasicInfo);
  rpc_create_query_script : CreateQueryScriptRequest -> computation RpcFail W bool;
  rpc_delete_query_script : string -> string -> computation RpcFail W bool;
  rpc_get_query_script : string -> string -> computation RpcFail W (option QueryScript);
  rpc_list_query_script : string -> computation RpcFail W (list QueryScriptBasicInfo)
}.

(** The answer of a handler as the client gets it: a handler that panics takes its
    connection down. *)
Definition over_the_wire {D A} (m : handler D A) : computation RpcFail D A := fun d =>
  match m d with
  | (Ok a, d) => (Ok a, d)
  | (Err e, d) => (Err (RpcStatus e), d)
  | (Panic, d) => (Err RpcBroken, d)
  | (NoFuel, d) => (NoFuel, d)
  end.

(** The server at the other end. *)
Definition server_control {D S T} `{!KeyValueStore S T} `{!KvTransaction T} `{!Stores D S} `{!Crates}
    (fuel : AstSchema -> nat) (system : ExecContext) (o : Circumstances D) : RdbControl D := {|
  rpc_create_namespace id := over_the_wire (create_namespace (T := T) system o id);
  rpc_list_namespace := over_the_wire (list_namespace (T := T) system o);
  rpc_delete_namespace id := over_the_wire (delete_namespace (T := T) system o id);
  rpc_create_deployment r := over_the_wire (create_deployment (T := T) fuel system o r);
  rpc_get_deployment ns id := over_the_wire (get_deployment (T := T) system o ns id);
  rpc_list_deployment ns := over_the_wire (list_deployment (T := T) system o ns);
  rpc_create_query_script r := over_the_wire (create_query_script (T := T) fuel system o r);
  rpc_delete_query_script ns id := over_the_wire (delete_query_script (T := T) system o ns id);
  rpc_get_query_script ns id := over_the_wire (hmap Some (get_query_script (T := T) system o ns id));
  rpc_list_query_script ns := over_the_wire (list_query_script (T := T) system o ns)
|}.

(** ** The difference of two plans: [diff.rs] *)
(** A change of a line: the crate [similar] numbers the lines of the two texts from
    0 and gives the pieces of a line with whether they are emphasized. *)
Inductive ChangeTag := ChangeDelete | ChangeInsert | ChangeEqual.
#[export] Instance ChangeTag_eq_dec : EqDecision ChangeTag.
Proof. solve_decision. Defined.

Record Change := MkChange {
  change_tag : ChangeTag;
  old_index : option nat;
  new_index : option nat;
  pieces : list (bool * string);
  missing_newline : bool
}.

(** [TextDiff::from_lines(a, b).grouped_ops(3)], each operation with its
    [iter_inline_changes]. *)
Class TextDiff := { grouped_changes : string -> string -> list (list (list Change)) }.

(** Only lines that both texts have are left out of the groups. *)
Class TextDiffLaws `{TextDiff} : Prop := {
  unchanged_texts : forall a b,
    (forall c, c ∈ concat (concat (grouped_changes a b)) -> change_tag c = ChangeEqual) <-> a = b
}.

(** [Display for Line]: four columns. *)
Definition fmt_line (l : option nat) : string :=
  match l with
  | None => "    "
  | Some idx =>
      let digits := fmt_u64 (Z.of_nat idx + 1) in
      digits +:+ Nat.iter (4 - String.length digits) (String " "%char) ""
  end.

(** What a loop has written, and its two counters. *)
Abbreviation DiffState := (string * nat * nat)%type.

Definition new_line : string := String (Ascii.ascii_of_nat 10) "".

(** One change, written without the colours of a terminal. *)
Definition print_change (st : DiffState) (change : Change) : DiffState :=
  let '(out, num_insert, num_delete) := st in
  let '(sign, num_insert, num_delete) :=
    match change_tag change with
    | ChangeDelete => ("-", num_insert, Datatypes.S num_delete)
    | ChangeInsert => ("+", Datatypes.S num_insert, num_delete)
    | ChangeEqual => (" ", num_insert, num_delete)
    end in
  let out := out +:+ fmt_line (old_index change) +:+ fmt_line (new_index change) +:+ " |" +:+ sign in
  let out := foldl (fun out piece => out +:+ piece.2) out (pieces change) in
  (if missing_newline change then out +:+ new_line else out, num_insert, num_delete).

Definition print_group (st : DiffState) (idx : nat) (group : list (list Change)) : DiffState :=
  let '(out, num_insert, num_delete) := st in
  let out := if decide (0 < idx) then out +:+ Nat.iter 80 (String "-"%char) "" +:+ new_line else out in
  foldl (foldl print_change) (out, num_insert, num_delete) group.

Definition print_diff `{!Crates} `{!TextDiff} {F} (plan1 plan2 : Plan) : outcome F DiffState :=
  let? plan1 := unwrap_result (yaml_to_string (plan_to_string base64_encode plan1)) in
  let? plan2 := unwrap_result (yaml_to_string (plan_to_string base64_encode plan2)) in
  Ok (foldl (fun st ig => print_group st ig.1 ig.2) ("", 0, 0) (imap pair (grouped_changes plan1 plan2))).

(** ** The commands *)
Record CreateDeploymentOpts := MkCreateDeploymentOpts {
  migrate_from : option string;
  schema_path : string;
  description : option string;
  namespace : string
}.

Inductive SubCommand :=
| CreateNamespace (namespace_id : string)
| ListNamespace
| DeleteNamespace (namespace_id : string)
| CreateDeployment (opts : CreateDeploymentOpts)
| ListDeployment (namespace_id : string)
| CreateQueryScript (namespace id deployment script_path : string)
| GetQueryScript (namespace id : string)
| DeleteQueryScript (namespace id : string)
| ListQueryScript (namespace : string).

Inductive CliError := ReferenceDeploymentNotFound | DeploymentNotCreated | AbortedByUser | CliQueryScriptNotFound.

(** The errors a command ends with. *)
Inductive CliFail :=
| CliErr (e : CliError)
| CliRpc (e : RpcFail)
| CliIo (message : string)
| CliSchema (e : SchemaTextError)
| CliText (message : string)
| CliConversion (e : StorageKeyConversionError)
| CliPlanner (e : PlannerError).

(** [serde_json::Value], as far as the client prints it; an object is a [BTreeMap]. *)
Inductive Json :=
| JBool (b : bool)
| JInt (x : Z)
| JString (x : string)
| JArray (l : list Json)
| JObject (m : list (string * Json)).

Definition json_object (m : list (string * Json)) : Json := JObject (bt_collect m).

Section Cli.
Context {W : Type} `{!RdbControl W} `{!Crates} `{!TextDiff}.

(** Where the client runs: the files it can read, the answer to a prompt, the random
    draws of the planner, and the JSON printer. *)
Context (fuel : AstSchema -> nat) (read_to_string : string -> anyhow string) (interact : anyhow bool) (ent : Entropy)
  (json_to_string : Json -> anyhow string).

Abbreviation command := (computation CliFail W).

Definition rpc {A} (m : computation RpcFail W A) : command A := fun w =>
  let '(r, w) := m w in (map_err CliRpc r, w).

(** A step that stays on this side of the connection. *)
Definition local {A} (c : outcome CliFail A) : command A := fun w => (c, w).

Definition print_json (x : Json) : command string := local (map_err CliText (json_to_string x)).

(** [compile(&parse(&Bump::new(), text)?)?]. *)
Definition cli_schema (text : string) : outcome CliFail CompiledSchema := map_err CliSchema (compile_text fuel text).

(** The plan of the deployment that is migrated from, as the server has it. *)
Definition reference_plan (info : DeploymentFullInfo) : outcome CliFail Plan :=
  let? text := map_err CliText (yaml_from_str (di_plan info)) in
  map_err CliConversion (plan_try_from base64_decode text).

(** The new plan, if the user agrees to the difference. *)
Definition consent (reference_plan new_plan : Plan) : outcome CliFail Plan :=
  let? d := print_diff reference_plan new_plan in
  let '(_, n_insert, n_delete) := d in
  if negb (n_insert =? 0)%nat || negb (n_delete =? 0)%nat then
    let? proceed := map_err CliIo interact in
    if negb proceed then Err (CliErr AbortedByUser) else Ok new_plan
  else Ok new_plan.

Definition migrated_plan (info : DeploymentFullInfo) (new_schema : CompiledSchema) : outcome CliFail Plan :=
  let? reference_schema := cli_schema (di_schema info) in
  let? reference := reference_plan info in
  let? new_plan := map_err CliPlanner (plan_text ent reference reference_schema new_schema) in
  consent reference new_plan.

Definition new_deployment_plan (subopts : CreateDeploymentOpts) (new_schema : CompiledSchema) : command Plan :=
  match migrate_from subopts with
  | Some reference =>
      let> info := rpc (rpc_get_deployment (namespace subopts) reference) in
      let> info := local (ok_or info (CliErr ReferenceDeploymentNotFound)) in
      local (migrated_plan info new_schema)
  | None => local (map_err CliPlanner (plan_text ent empty_plan empty_schema new_schema))
  end.

(** The request [create-deployment] submits. *)
Definition plan_deployment (subopts : CreateDeploymentOpts) : command CreateDeploymentRequest :=
  let> schema_text := local (map_err CliIo (read_to_string (schema_path subopts))) in
  let> new_schema := local (cli_schema schema_text) in
  let> new_plan := new_deployment_plan subopts new_schema in
  let> plan := local (map_err CliText (yaml_to_string (plan_to_string base64_encode new_plan))) in
  hret (MkCreateDeployment (namespace subopts) (default "" (description subopts)) schema_text plan).

Definition run_create_deployment (subopts : CreateDeploymentOpts) : command string :=
  let> r := plan_deployment subopts in
  let> res := rpc (rpc_create_deployment r) in
  let> deployment_id := local (ok_or res (CliErr DeploymentNotCreated)) in
  print_json (json_object [("id", JString deployment_id)]).

Definition run_create_query_script (namespace id deployment script_path : string) : command string :=
  let> script := local (map_err CliIo (read_to_string script_path)) in
  let> res := rpc (rpc_create_query_script (MkCreateQueryScript namespace id deployment script)) in
  print_json (json_object [("created", JBool res)]).

Definition run_get_query_script (namespace id : string) : command string :=
  let> res := rpc (rpc_get_query_script namespace id) in
  let> info := local (ok_or res (CliErr CliQueryScriptNotFound)) in
  print_json (json_object [("id", JString (qs_id info)); ("script", JString (qs_script info));
                           ("associated_deployment", JString (qs_associated_deployment info));
                           ("create_time", JInt (qs_create_time info))]).

(** [main], after the arguments are read and the connection is made: the line on the
    standard output. *)
Definition run_command (subcmd : SubCommand) : command string :=
  match subcmd with
  | CreateNamespace namespace_id =>
      let> res := rpc (rpc_create_namespace namespace_id) in
      print_json (json_object [("created", JBool res)])
  | ListNamespace =>
      let> res := rpc rpc_list_namespace in
      print_json (JArray (map (fun x => json_object [("id", JString (ni_id x)); ("create_time", JInt (ni_create_time x))]) res))
  | DeleteNamespace namespace_id =>
      let> res := rpc (rpc_delete_namespace namespace_id) in
      print_json (json_object [("deleted", JBool res)])
  | CreateDeployment subopts => run_create_deployment subopts
  | ListDeployment namespace_id =>
      let> res := rpc (rpc_list_deployment namespace_id) in
      print_json (JArray (map (fun x => json_object [("id", JString (db_id x)); ("create_time", JInt (db_create_time x));
                                                     ("description", JString (db_description x))]) res))
  | CreateQueryScript namespace id deployment script_path => run_create_query_script namespace id deployment script_path
  | ListQueryScript namespace =>
      let> res := rpc (rpc_list_query_script namespace) in
      print_json (JArray (map (fun x => json_object [("id", JString (qi_id x));
                                                     ("associated_deployment", JString (qi_associated_deployment x));
                                                     ("create_time", JInt (qi_create_time x))]) res))
  | DeleteQueryScript namespace id =>
      let> res := rpc (rpc_delete_query_script namespace id) in
      print_json (json_object [("deleted", JBool res)])
  | GetQueryScript namespace id => run_get_query_script namespace id
  end.
End Cli.

(** ** Sequencing *)
Lemma hbind_ok {E St A B} (m : computation E St A) (k : A -> computation E St B) st b st' :
  hbind m k st = (Ok b, st') -> exists a st1, m st = (Ok a, st1) /\ k a st1 = (Ok b, st').
Proof. unfold hbind. destruct (m st) as [[a| | |] st1]; try done. eauto. Qed.

Lemma hbind_err {E St A B} (m : computation E St A) (k : A -> computation E St B) st e st' :
  hbind m k st = (Err e, st') ->
  m st = (Err e, st') \/ exists a st1, m st = (Ok a, st1) /\ k a st1 = (Err e, st').
Proof. unfold hbind. destruct (m st) as [[a|e1| |] st1]; try done; [eauto|]. intros [= -> ->]. by left. Qed.

Lemma hbind_run {E St A B} (m : computation E St A) (k : A -> computation E St B) st a st1 :
  m st = (Ok a, st1) -> hbind m k st = k a st1.
Proof. unfold hbind. by intros ->. Qed.

Lemma rpc_ok {W A} (m : computation RpcFail W A) w a w' : rpc m w = (Ok a, w') -> m w = (Ok a, w').
Proof. unfold rpc. destruct (m w) as [[b| | |] w1]; try done. by intros [= -> ->]. Qed.

(** ** What the difference counts *)
Section DiffFacts.
Context `{!Crates} `{TextDiffLaws}.

Definition count_tag (t : ChangeTag) (l : list Change) : nat := length (filter (fun c => change_tag c = t) l).

Lemma count_tag_zero t l : count_tag t l = 0 <-> forall c, c ∈ l -> change_tag c <> t.
Proof.
  unfold count_tag. rewrite length_zero_iff_nil. split.
  - intros Hn c Hc Ht. assert (Hf : c ∈ filter (fun c => change_tag c = t) l) by by apply list_elem_of_filter.
    rewrite Hn in Hf. by apply not_elem_of_nil in Hf.
  - intros Hl. apply elem_of_nil_inv. intros c [Ht Hc]%list_elem_of_filter. by destruct (Hl c Hc).
Qed.

(** The two counters after some changes. *)
Definition counted (l : list Change) (st st' : DiffState) : Prop :=
  st'.1.2 = st.1.2 + count_tag ChangeInsert l /\ st'.2 = st.2 + count_tag ChangeDelete l.

Lemma counted_trans l1 l2 st st1 st2 : counted l1 st st1 -> counted l2 st1 st2 -> counted (l1 ++ l2) st st2.
Proof. unfold counted, count_tag. rewrite !filter_app, !length_app. intros [-> ->] [-> ->]. lia. Qed.

Lemma print_change_counted st c : counted [c] st (print_change st c).
Proof.
  destruct st as [[out i] d]. unfold counted, count_tag, print_change. destruct (change_tag c) eqn:E; rewrite !filter_cons, !E;
    repeat case_decide; simplify_eq; cbn; lia.
Qed.

Lemma foldl_counted {A} (f : DiffState -> A -> DiffState) (changes : A -> list Change) l st :
  (forall st x, counted (changes x) st (f st x)) -> counted (concat (map changes l)) st (foldl f st l).
Proof.
  intros Hf. revert st. induction l as [|x l IH]; intros st; [unfold counted; cbn; lia|].
  cbn [foldl map concat]. eapply counted_trans; [apply Hf|apply IH].
Qed.

Lemma print_changes_counted st op : counted op st (foldl print_change st op).
Proof.
  pose proof (foldl_counted print_change (fun c => [c]) op st print_change_counted) as Hc.
  replace op with (concat (map (fun c => [c]) op)) at 1; [done|]. clear. induction op as [|c op IH]; [done|]. cbn. by rewrite IH.
Qed.

Lemma print_group_counted st idx group : counted (concat group) st (print_group st idx group).
Proof.
  destruct st as [[out i] d]. unfold print_group.
  set (out' := if decide (0 < idx) then _ else out). change (counted (concat group) (out', i, d) (foldl (foldl print_change) (out', i, d) group)).
  rewrite <- (map_id group) at 1. apply foldl_counted. intros st op. apply print_changes_counted.
Qed.

(** The difference is empty when the two plans have the same text. *)
Lemma print_diff_counts {F} plan1 plan2 out i d :
  print_diff (F := F) plan1 plan2 = Ok (out, i, d) ->
  exists x1 x2, yaml_to_string (plan_to_string base64_encode plan1) = Ok x1 /\
    yaml_to_string (plan_to_string base64_encode plan2) = Ok x2 /\ (i = 0 /\ d = 0 <-> x1 = x2).
Proof.
  unfold print_diff. destruct (yaml_to_string (_ plan1)) as [x1| | |]; try done. cbn [unwrap_result obind].
  destruct (yaml_to_string (_ plan2)) as [x2| | |]; try done. cbn [unwrap_result obind]. intros [= Hd]. exists x1, x2.
  split_and!; [done..|]. rewrite <- unchanged_texts.
  assert (Hc : counted (concat (concat (grouped_changes x1 x2))) ("", 0, 0) (out, i, d)).
  { rewrite <- Hd. set (st0 := ("", 0, 0)). generalize (grouped_changes x1 x2) st0. clear. intros gs st.
    assert (Hg : forall l, counted (concat (concat l.*2)) st (foldl (fun st ig => print_group st ig.1 ig.2) st l)).
    { intros l. pose proof (foldl_counted (fun st ig => print_group st ig.1 ig.2) (fun ig => concat ig.2) l st
        (fun st ig => print_group_counted st ig.1 ig.2)) as Hc.
      replace (concat (concat l.*2)) with (concat (map (fun ig : nat * _ => concat ig.2) l)); [done|].
      clear. induction l as [|ig l IH]; [done|]. cbn. by rewrite concat_app, IH. }
    specialize (Hg (imap pair gs)). rewrite fmap_imap in Hg. change (imap _ gs) with (imap (const id) gs) in Hg at 1.
    by rewrite imap_const, list_fmap_id in Hg. }
  destruct Hc as [Hi Hdl]. cbn in Hi, Hdl. subst i d. rewrite !count_tag_zero. split.
  - intros [Hi Hdl] c Hc. destruct (change_tag c) eqn:E; [by destruct (Hdl c Hc)|by destruct (Hi c Hc)|done].
  - intros He. split; intros c Hc; rewrite (He c Hc); done.
Qed.
End DiffFacts.

(** ** Deployments *)
Section Deployments.
Context {W : Type} `{!RdbControl W} `{CrateLaws} `{TextDiffLaws}.
Context (fuel : AstSchema -> nat) (read_to_string : string -> anyhow string) (interact : anyhow bool) (ent : Entropy)
  (json_to_string : Json -> anyhow string).

(** A plan the planner made from a plan with keys of twelve bytes. *)
Definition planner_made (schema : CompiledSchema) (p : Plan) : Prop :=
  exists ent old os, plan_text ent old os schema = Ok p /\ Forall (fun q => node_all key_ok q.2) (nodes old).

Lemma consent_ok reference new p :
  consent interact reference new = Ok p ->
  p = new /\ (interact = Ok true \/
    exists x, yaml_to_string (plan_to_string base64_encode reference) = Ok x /\
      yaml_to_string (plan_to_string base64_encode new) = Ok x).
Proof.
  unfold consent. intros ([[out i] d] & Hd & Hc)%obind_ok. destruct (print_diff_counts _ _ _ _ _ Hd) as (x1 & x2 & Hx1 & Hx2 & Hx).
  destruct (negb (i =? 0) || negb (d =? 0))%nat eqn:E.
  - apply obind_ok in Hc as (b & Hb%map_err_ok & Hp). destruct b; [|done]. injection Hp as <-. auto.
  - injection Hc as <-. split; [done|]. right. exists x1. split; [done|].
    apply orb_false_iff in E as [->%negb_false_iff%Nat.eqb_eq ->%negb_false_iff%Nat.eqb_eq].
    by rewrite (proj1 Hx (conj eq_refl eq_refl)).
Qed.

Lemma migrated_plan_ok info schema p :
  migrated_plan fuel interact ent info schema = Ok p ->
  planner_made schema p /\ exists reference, reference_plan info = Ok reference /\
    (interact = Ok true \/ exists x, yaml_to_string (plan_to_string base64_encode reference) = Ok x /\
                                     yaml_to_string (plan_to_string base64_encode p) = Ok x).
Proof.
  unfold migrated_plan. intros (os & _ & (reference & Hr & (new & Hn%map_err_ok & [-> Hc]%consent_ok)%obind_ok)%obind_ok)%obind_ok.
  split; [|eauto]. exists ent, reference, os. split; [done|].
  apply obind_ok in Hr as (text & _ & Ht%map_err_ok). by eapply plan_try_from_ok.
Qed.

Lemma new_deployment_plan_ok subopts schema w p w' :
  new_deployment_plan fuel interact ent subopts schema w = (Ok p, w') ->
  planner_made schema p /\ match migrate_from subopts with
  | None => w' = w
  | Some from => exists info reference, rpc_get_deployment (namespace subopts) from w = (Ok (Some info), w') /\
      reference_plan info = Ok reference /\
      (interact = Ok true \/ exists x, yaml_to_string (plan_to_string base64_encode reference) = Ok x /\
                                       yaml_to_string (plan_to_string base64_encode p) = Ok x)
  end.
Proof.
  unfold new_deployment_plan. destruct (migrate_from subopts) as [from|].
  - intros (info & w1 & Hi%rpc_ok & (i & w2 & [= Hs <-] & [= Hm <-])%hbind_ok)%hbind_ok.
    destruct info as [info|]; [|done]. injection Hs as <-. apply migrated_plan_ok in Hm as (Hp & reference & Hr & Hc).
    split; [done|]. by exists info, reference.
  - intros [= Hp%map_err_ok <-]. split; [|done]. exists ent, empty_plan, empty_schema. split; [done|constructor].
Qed.

Lemma plan_deployment_ok subopts w r w' :
  plan_deployment fuel read_to_string interact ent subopts w = (Ok r, w') ->
  exists schema p, read_to_string (schema_path subopts) = Ok (cd_schema r) /\
    compile_text fuel (cd_schema r) = Ok schema /\
    new_deployment_plan fuel interact ent subopts schema w = (Ok p, w') /\
    yaml_to_string (plan_to_string base64_encode p) = Ok (cd_plan r).
Proof.
  unfold plan_deployment. intros (text & w1 & [= Ht%map_err_ok <-] & (schema & w2 & [= Hs%map_err_ok <-] &
    (p & w3 & Hp & (x & w4 & [= Hx%map_err_ok <-] & [= <- <-])%hbind_ok)%hbind_ok)%hbind_ok)%hbind_ok.
  by exists schema, p.
Qed.

(** What the client submits passes the integrity check of the server. *)
Lemma planned_request_passes {D} (o : Circumstances D) subopts w r w' :
  plan_deployment fuel read_to_string interact ent subopts w = (Ok r, w') ->
  exists schema p, compile_text fuel (cd_schema r) = Ok schema /\ planner_made schema p /\
    yaml_to_string (plan_to_string base64_encode p) = Ok (cd_plan r) /\
    check_deployment fuel o r = (let? _ := map_err FText (plan_to_vec_named p) in Ok p).
Proof.
  intros (schema & p & _ & Hs & [(ent0 & old & os & Hg & Hold) _]%new_deployment_plan_ok & Hx)%plan_deployment_ok.
  exists schema, p. split_and!; [done|by exists ent0, old, os|done|]. apply yaml_codec in Hx. by eapply check_deployment_complete.
Qed.

(** Planning the same schema again from the deployment the server has. *)
Lemma planning_again subopts from info schema p x w w1 :
  migrate_from subopts = Some from -> rpc_get_deployment (namespace subopts) from w = (Ok (Some info), w1) ->
  read_to_string (schema_path subopts) = Ok (di_schema info) -> compile_text fuel (di_schema info) = Ok schema ->
  planner_made schema p -> yaml_to_string (plan_to_string base64_encode p) = Ok x -> di_plan info = x ->
  plan_deployment fuel read_to_string interact ent subopts w =
    (Ok (MkCreateDeployment (namespace subopts) (default "" (description subopts)) (di_schema info) x), w1).
Proof.
  intros Hf Hi Hr Hs (ent0 & old & os & Hg & Hold) Hx Hd.
  assert (Hk : Forall (fun q => node_all key_ok q.2) (nodes p) /\ plan_text ent p schema schema = Ok p).
  { apply obind_ok in Hg as ([p' d] & Hg & [= ->]). pose proof (compile_text_wf _ _ _ Hs) as Hwf.
    split; [by eapply generate_plan_keys_ok|]. unfold plan_text, generate_plan_for_schema.
    by rewrite (generate_plan_stable _ _ ent _ _ _ _ _ Hwf Hg). }
  destruct Hk as [Hk Hp]. pose proof (yaml_codec _ _ Hx) as Hy.
  assert (Hm : migrated_plan fuel interact ent info schema = Ok p).
  { unfold migrated_plan, cli_schema, reference_plan. rewrite Hs, Hd, Hy. cbn [map_err obind].
    rewrite plan_try_from_to_string by (exact base64_codec || exact Hk). cbn [map_err obind]. rewrite Hp. cbn [map_err obind].
    unfold consent. destruct (print_diff (F := CliFail) p p) as [[[out i] dl]| | |] eqn:E.
    - destruct (print_diff_counts _ _ _ _ _ E) as (x1 & x2 & Hx1 & Hx2 & Hn). assert (Hxx : x1 = x2) by congruence.
      destruct (proj2 Hn Hxx) as [-> ->]. done.
    - unfold print_diff in E. by rewrite Hx in E.
    - unfold print_diff in E. by rewrite Hx in E.
    - unfold print_diff in E. by rewrite Hx in E. }
  unfold plan_deployment, new_deployment_plan, hbind, local, rpc, cli_schema, hret.
  rewrite Hr. cbn [map_err]. rewrite Hs. cbn [map_err]. rewrite Hf, Hi. cbn [map_err ok_or]. rewrite Hm, Hx. done.
Qed.
End Deployments.

(** ** With the server at the other end *)
(** The errors a computation can end with. *)
Definition fails_with {E St A} (P : E -> Prop) (m : computation E St A) : Prop :=
  forall st e st', m st = (Err e, st') -> P e.

Lemma hbind_fails {E St A B} (P : E -> Prop) (m : computation E St A) (k : A -> computation E St B) :
  fails_with P m -> (forall a, fails_with P (k a)) -> fails_with P (hbind m k).
Proof. intros Hm Hk st e st' [He|(a & st1 & _ & He)]%hbind_err; [by eapply Hm|by eapply Hk]. Qed.

Lemma try_fails {F St E A} (P : F -> Prop) (f : E -> F) (c : outcome E A) :
  (forall e, P (f e)) -> fails_with P (try_ (St := St) f c).
Proof. intros Hf st e st' [= He]. destruct c; try done. by injection He as <-. Qed.

Lemma hret_fails {E St A} (P : E -> Prop) (a : A) : fails_with P (hret (St := St) a).
Proof. by intros st e st'. Qed.

Section WithServer.
Context {D S T : Type} `{!KeyValueStore S T} `{!KvTransaction T} `{!Stores D S} `{CrateLaws} `{TextDiffLaws}.
Context (fuel : AstSchema -> nat) (system : ExecContext) (o : Circumstances D).

(** The errors of running a system graph and of reading its answer: the text of a
    deployment is not at fault. *)
Definition store_fault (e : ServerFail) : Prop :=
  match e with FQuery _ | FValue _ | FText _ => True | _ => False end.

Lemma system_graph_fault name params config :
  fails_with store_fault (run_system_graph (T := T) system o name params config).
Proof.
  intros d e d'. unfold run_system_graph. destruct (run_exported_graph _ _ _ _ _ _ _ _ _ _ _ _ _) as [r s].
  intros [= He _]. destruct r; try done. by injection He as <-.
Qed.

Lemma get_deployment_fault ns id : fails_with store_fault (get_deployment (T := T) system o ns id).
Proof.
  unfold get_deployment. apply hbind_fails; [apply system_graph_fault|]. intros res.
  assert (Hi : fails_with store_fault (let> info := deployment_info_of (D := D) res in hret (Some info))).
  { unfold deployment_info_of, deployment_info_fields.
    repeat first [apply hbind_fails; [|intros ?]|by apply try_fails|apply hret_fails]. }
  destruct res; try exact Hi. apply hret_fails.
Qed.

(** A deployment that passes the check. *)
Lemma create_deployment_fault r p d e d' :
  check_deployment fuel o r = (let? _ := map_err FText (plan_to_vec_named p) in Ok p) ->
  create_deployment (T := T) fuel system o r d = (Err e, d') -> store_fault e.
Proof.
  intros Hc. revert d e d'. change (fails_with store_fault (create_deployment (T := T) fuel system o r)).
  unfold create_deployment. apply hbind_fails.
  { intros d e d' [= He _]. rewrite Hc in He. destruct (plan_to_vec_named p); try done. by injection He as <-. }
  intros q. apply hbind_fails; [by apply try_fails|]. intros x. apply hbind_fails; [apply system_graph_fault|]. intros res.
  apply hbind_fails; [|intros; apply hret_fails]. unfold bool_answer.
  apply hbind_fails; [by apply try_fails|]. intros _. by apply try_fails.
Qed.

(** The errors a command ends with: those of the server are faults of its store. *)
Definition own_fault (e : CliFail) : Prop := match e with CliRpc (RpcStatus e) => store_fault e | _ => True end.

Definition own_faults {A} (c : outcome CliFail A) : Prop := forall e, c = Err e -> own_fault e.

Lemma local_faults {A} (c : outcome CliFail A) : own_faults c -> fails_with own_fault (local (W := D) c).
Proof. intros Hc d e d' [= He _]. by apply Hc. Qed.

Lemma map_err_faults {E A} (f : E -> CliFail) (c : outcome E A) : (forall e, own_fault (f e)) -> own_faults (map_err f c).
Proof. intros Hf e He. destruct c; try done. by injection He as <-. Qed.

Lemma obind_faults {A B} (c : outcome CliFail A) (k : A -> outcome CliFail B) :
  own_faults c -> (forall a, own_faults (k a)) -> own_faults (obind c k).
Proof. intros Hc Hk e He. destruct c; try done; [by eapply Hk|]. injection He as <-. by apply Hc. Qed.

Lemma wire_faults {A} (m : handler D A) : fails_with store_fault m -> fails_with own_fault (rpc (over_the_wire m)).
Proof.
  intros Hm d e d'. unfold rpc, over_the_wire. destruct (m d) as [[a|e'| |] d1] eqn:E; try done; intros [= <- <-]; [|done].
  by eapply Hm.
Qed.

Lemma migrated_plan_faults interact ent info schema : own_faults (migrated_plan fuel interact ent info schema).
Proof.
  unfold migrated_plan. apply obind_faults; [by apply map_err_faults|]. intros os. apply obind_faults.
  { apply obind_faults; [by apply map_err_faults|]. intros text. by apply map_err_faults. }
  intros reference. apply obind_faults; [by apply map_err_faults|]. intros new. unfold consent. apply obind_faults.
  { intros e He. unfold print_diff in He. by do 2 destruct (yaml_to_string _). }
  intros [[out i] dl]. destruct (_ || _); [|done]. apply obind_faults; [by apply map_err_faults|]. intros []; [done|].
  by intros e [= <-].
Qed.

#[local] Instance at_the_server : RdbControl D := server_control (T := T) fuel system o.

Lemma plan_deployment_faults read_to_string interact ent subopts :
  fails_with own_fault (plan_deployment fuel read_to_string interact ent subopts).
Proof.
  unfold plan_deployment. apply hbind_fails; [by apply local_faults, map_err_faults|]. intros text.
  apply hbind_fails; [by apply local_faults, map_err_faults|]. intros schema.
  apply hbind_fails; [|intros p; apply hbind_fails; [by apply local_faults, map_err_faults|intros; apply hret_fails]].
  unfold new_deployment_plan. destruct (migrate_from subopts) as [from|]; [|by apply local_faults, map_err_faults].
  apply hbind_fails; [apply wire_faults, get_deployment_fault|]. intros info.
  apply hbind_fails; [apply local_faults; intros e He; destruct info; [done|by injection He as <-]|].
  intros i. apply local_faults, migrated_plan_faults.
Qed.

(** Creating a deployment is never refused by the server for what the client has
    submitted. *)
Lemma client_never_refused read_to_string interact ent json_to_string subopts :
  fails_with own_fault (run_create_deployment fuel read_to_string interact ent json_to_string subopts).
Proof.
  intros d e d'. unfold run_create_deployment. intros [Hp|(r & d1 & Hp & Hr)]%hbind_err.
  { by eapply plan_deployment_faults. }
  destruct (planned_request_passes fuel read_to_string interact ent o _ _ _ _ Hp) as (schema & p & _ & _ & _ & Hc).
  clear Hp. revert d1 e d' Hr.
  apply hbind_fails; [apply wire_faults; intros d1 e d'; by eapply create_deployment_fault|]. intros res.
  apply hbind_fails; [apply local_faults; intros e He; destruct res; [done|by injection He as <-]|].
  intros id. by apply local_faults, map_err_faults.
Qed.
End WithServer.
