(* ===== verification/Limits.v ===== *)
(** * Where the promises end: concrete scripts and schemas

    Each script here is accepted by the type checker and evaluated by the
    executor of the model on the in-memory store; each shows why a hypothesis of
    the soundness theorem is there, or a behaviour the code does not mean to
    have. *)
From stdpp Require Import prelude gmap strings list.
From Stdlib Require Import Strings.Byte ZArith.
From S2P Require Import Prelude OrdMap Schema StoragePlan Planner Value PathWalker Kv MemKv VmValue Bytecode.
From S2P Require Import Typeck Exec TypeckSound.

(** ** A concrete environment *)
Definition demo_store : MockStore (btree bytes) := store_new.
Definition demo_txn : MockTransaction (btree bytes) := (begin_transaction demo_store).2.
Definition demo_state : XState (MockTransaction (btree bytes)) := MkXState demo_txn 0.

(** A codec for primitive values that keeps the type. *)
Fixpoint be_value (acc : Z) (b : bytes) : Z :=
  match b with [] => acc | c :: b => be_value (acc * 256 + u8 c)%Z b end.

Definition demo_to_vec (v : PrimitiveValue) : bytes :=
  match v with
  | VString s => x02 :: as_bytes s
  | VBytes b => x01 :: b
  | VInt64 z => x03 :: be_bytes 8 (u64_wrap z)
  | VDouble z => x04 :: be_bytes 8 z
  end.

Definition demo_from_slice (b : bytes) : anyhow PrimitiveValue :=
  match b with
  | x01 :: b => Ok (VBytes b)
  | x02 :: b => Ok (VString (of_bytes b))
  | x03 :: b => Ok (VInt64 (i64_wrap (be_value 0 b)))
  | x04 :: b => Ok (VDouble (be_value 0 b))
  | _ => Err "bad data"
  end.

(** Every graph is a component of its own, in the order given. *)
Definition singletons (l : list nat) (n : nat) (edges : list (nat * nat)) : list (list nat) :=
  (fun i => [i]) <$> l.

Definition demo_vm (consts : list VmValue) (idents : list string) (types : list VmType) (gs : list TwGraph) : TwVm :=
  MkVm empty_schema empty_plan (MkScript gs 0 [] idents types) consts types ∅.

Definition graph_of (nodes : list GNode) (out : option nat) (params : list nat) (ot : option nat) : TwGraph :=
  MkGraph "g" true nodes out params ot.

Definition node (n : TwGraphNode) (edges : list nat) : GNode := MkGNode n edges None.

Definition check (sccs : list nat) (vm : TwVm) : outcome TypeckError (list GraphTypeInfo) :=
  let? ctx := tyck_new (singletons sccs) vm in let? r := typeck vm ctx in Ok r.1.

(** The value a graph gives on the empty store. *)
Definition run_value (sccs : list nat) (vm : TwVm) (i : nat) (args : list VmValue) : xres (option VmValue) :=
  match check sccs vm with
  | Ok infos =>
      let? ex := executor_new vm infos in
      let? r := recursively_run_graph demo_to_vec demo_from_slice (fun _ => 0) vm ex MAX_RECURSION_DEPTH i args demo_state in
      Ok r.1
  | _ => Err (XErr (Anyhow "type error"))
  end.

(** ** [x == x]: the node fires twice *)
Definition double_fire_vm : TwVm :=
  demo_vm [VmPrimitive (VInt64 1)] [] [TyBool]
    [graph_of [node (LoadConst 0) []; node NEq [0; 0]] (Some 1) [] (Some 0)].

(** The same comparison of two nodes is fine. *)
Definition single_fire_vm : TwVm :=
  demo_vm [VmPrimitive (VInt64 1)] [] [TyBool]
    [graph_of [node (LoadConst 0) []; node (LoadConst 0) []; node NEq [0; 1]] (Some 2) [] (Some 0)].

Example single_fire_runs : run_value [0] single_fire_vm 0 [] = Ok (Some (VmBool true)).
Proof. vm_compute. reflexivity. Qed.

(** ** A select with two results *)
Definition two_candidates_vm : TwVm :=
  demo_vm [VmPrimitive (VInt64 1); VmPrimitive (VInt64 2)] [] [TyPrimitive Int64]
    [graph_of [node (LoadConst 0) []; node (LoadConst 1) []; node Select [0; 1]] (Some 2) [] (Some 0)].

(** ** A reduction of an empty list has the type of its result *)
(** [reduce(_, {}, [] : list<int64>, f)] with [f] giving [{a: int64}], then the
    field [a] of the result. *)
Definition reduce_vm : TwVm :=
  demo_vm [VmPrimitive (VInt64 1)] ["a"]
    [TyPrimitive Int64; TyMap []; TyMap [("a", TyPrimitive Int64)]]
    [graph_of [node (LoadConst 0) []; node CreateMap []; node (CreateList 0) [];
               node (Reduce 1 false) [0; 1; 2]; node (GetField 0) [3]] (Some 4) [] (Some 0);
     graph_of [node (LoadConst 0) []; node CreateMap []; node (InsertIntoMap 0) [0; 1]]
       (Some 2) [0; 1; 0] (Some 2)].

(** ** Calls inside a component are not checked *)
(** A graph that calls itself with a string where it takes an integer. *)
Definition recursive_vm : TwVm :=
  demo_vm [VmPrimitive (VInt64 1); VmPrimitive (VString "s")] [] [TyPrimitive Int64]
    [graph_of [node (LoadParam 0) []; node (LoadConst 0) []; node NAdd [0; 1];
               node (LoadConst 1) []; MkGNode (Call 0) [3] None] (Some 2) [0] (Some 0)].

(** ** A table built from a map with more fields than its type *)
Definition item_schema : CompiledSchema :=
  MkCompiledSchema [("T", MkSpecializedType "T" [("id", (FPrimitive String_, []))])] [].

Definition build_vm : TwVm :=
  MkVm item_schema empty_plan
    (MkScript
       [graph_of [node (LoadConst 0) []; node CreateMap []; node (InsertIntoMap 0) [0; 1]; node (Call 1) [2];
                  node (LoadConst 1) []; node NAdd [3; 4]]
          (Some 5) [] (Some 2);
        graph_of [node (LoadParam 0) []; node (BuildTable 1) [0]; node (GetField 0) [1]]
          (Some 2) [0] (Some 2)]
       0 [] ["id"; "T"] [TyMap []; TyPrimitive Int64; TyPrimitive String_])
    [VmPrimitive (VInt64 7); VmPrimitive (VString "x")] [TyMap []; TyPrimitive Int64; TyPrimitive String_] ∅.
