(* ===== verification/Demo.v ===== *)
(** * A sample deployment

    A small schema with a plan, on which the theorems are instantiated, and the
    decision procedures that discharge their hypotheses. *)
From stdpp Require Import prelude gmap strings list.
From Stdlib Require Import Strings.Byte ZArith.
From S2P Require Import Prelude OrdMap Schema SchemaFacts SchemaTermination StoragePlan Planner PlannerFacts.
From S2P Require Import PlannerPlan WalkerTyping.

(** ** Entropy *)
(** A clock that stands still and a counter in place of the random bytes. *)
Definition counter_entropy : Entropy := fun i => (1000%Z, (Z.of_nat i mod 2 ^ 48)%Z).

Lemma counter_key i : storage_key_of (counter_entropy i) =
  Some ([x00; x00; x00; x00; x03; xe8] ++ be_bytes 6 (Z.of_nat i mod 2 ^ 48)).
Proof. reflexivity. Qed.

Lemma counter_entropy_ok cap : (Z.of_nat cap < 2 ^ 48)%Z -> entropy_ok cap counter_entropy.
Proof.
  intros Hcap. split.
  - intros i. rewrite counter_key. by eexists.
  - intros i j Hij. rewrite !counter_key. intros He. apply (inj Some) in He. apply app_inv_head in He.
    apply be_bytes_inj in He; [|change (8 * Z.of_nat 6)%Z with 48%Z; apply Z.mod_pos_bound; lia..].
    pose proof (Z.div_mod (Z.of_nat i) (2 ^ 48) ltac:(lia)) as H1.
    pose proof (Z.div_mod (Z.of_nat j) (2 ^ 48) ltac:(lia)) as H2. rewrite He in H1. nia.
Qed.

(** ** The schema *)
Definition primary_ann : Annotation := MkAnnotation "primary" [].
Definition field_of (anns : list Annotation) (name : string) (ty : TypeExpr) : TypeField :=
  MkTypeField anns 0 name ty.
Definition type_of (name : string) (fields : list TypeField) : SchemaItem :=
  ItemType (MkTypeItem [] 0 name [] fields).
Definition export_of (ty : TypeExpr) (name : string) : SchemaItem := ItemExport (MkExportItem 0 ty name).

(** [type Tag { @primary name: string }]
    [type Item { @primary id: string, count: int64, tags: set<Tag> }]
    [export set<Item> items] *)
Definition demo_ast : AstSchema := MkAstSchema [
  type_of "Tag" [field_of [primary_ann] "name" (TUnit "string")];
  type_of "Item" [field_of [primary_ann] "id" (TUnit "string"); field_of [] "count" (TUnit "int64");
                  field_of [] "tags" (TSpecialize "set" [TUnit "Tag"])];
  export_of (TSpecialize "set" [TUnit "Item"]) "items"].

Definition ok_default {E A} (d : A) (c : outcome E A) : A := match c with Ok a => a | _ => d end.

Definition demo_schema : CompiledSchema :=
  Eval vm_compute in ok_default empty_schema (compile (schema_fuel demo_ast) demo_ast).

Example demo_compiles : compile (schema_fuel demo_ast) demo_ast = Ok demo_schema.
Proof. vm_compute. reflexivity. Qed.

Lemma demo_schema_wf : wf_schema demo_schema.
Proof. exact (compile_wf_gen _ _ _ demo_compiles). Qed.

Definition demo_generated : pres (Plan * nat) :=
  generate_plan (plan_fuel demo_schema) counter_entropy empty_plan empty_schema demo_schema.

Definition demo_plan : Plan := Eval vm_compute in (ok_default (empty_plan, 0) demo_generated).1.

Example demo_plan_generated :
  generate_plan (plan_fuel demo_schema) counter_entropy empty_plan empty_schema demo_schema = Ok (demo_plan, 7).
Proof. vm_compute. reflexivity. Qed.

Lemma demo_plan_ok : exists rec, plan_ok demo_schema demo_plan rec.
Proof.
  eapply generated_plan_ok; [exact demo_schema_wf|exact demo_plan_generated|]. vm_compute. reflexivity.
Qed.
