(* ===== verification/DemoScript.v ===== *)
(** * A sample script

    On the sample deployment ([Demo]), a script with two graphs: [add] inserts
    an item into the set of items, [get] reads a field of an item.  It is
    checked, executed on the in-memory store, and used to instantiate the
    theorems about scripts. *)
From stdpp Require Import prelude gmap strings list.
From Stdlib Require Import Strings.Byte ZArith.
From S2P Require Import Prelude OrdMap Schema SchemaFacts StoragePlan Planner Value PathWalker WalkerTyping Kv.
From S2P Require Import MemKv VmValue Bytecode Typeck Exec ValueTyping NodeSound GraphSound TypeckSound RunGraph.
From S2P Require Import Serialize Query Limits Demo.

(** [add(root) { insert Item { id: "a", count: 1, tags: set([]) } into root.items }] *)
Definition add_graph : TwGraph := MkGraph "add" true
  [node (LoadParam 0) []; node (GetField 0) [0];
   node (LoadConst 0) []; node (LoadConst 1) []; node (CreateList 1) []; node BuildSet [4];
   node CreateMap []; node (InsertIntoMap 1) [2; 6]; node (InsertIntoMap 2) [3; 7]; node (InsertIntoMap 3) [5; 8];
   node (BuildTable 4) [9]; node InsertIntoSet [10; 1]] None [0] None.

(** [get(root): int64 { root.items["a"].count }] *)
Definition get_graph : TwGraph := MkGraph "get" true
  [node (LoadParam 0) []; node (GetField 0) [0]; node (LoadConst 0) []; node GetSetElement [2; 1];
   node (GetField 2) [3]] (Some 4) [0] (Some 2).

Definition items_script : TwScript :=
  MkScript [add_graph; get_graph] 0 [CPrimitive (VString "a"); CPrimitive (VInt64 1)]
    ["items"; "id"; "count"; "tags"; "Item<>"] [TySchema; TyTable "Tag<>"; TyPrimitive Int64].

Definition items_vm : TwVm :=
  ok_default (MkVm empty_schema empty_plan items_script [] [] ∅) (vm_new demo_schema demo_plan items_script).

Example items_vm_loads : vm_new demo_schema demo_plan items_script = Ok items_vm.
Proof. vm_compute. reflexivity. Qed.

Definition items_ctx : GlobalTyckContext := ok_default (MkTyck [] []) (tyck_new (singletons [0; 1]) items_vm).

Definition items_checked : list GraphTypeInfo * GlobalTyckContext :=
  ok_default ([], items_ctx) (typeck items_vm items_ctx).

Definition items_infos : list GraphTypeInfo := items_checked.1.

Example items_typecheck : typeck items_vm items_ctx = Ok items_checked.
Proof. vm_compute. reflexivity. Qed.

Lemma items_cover : sccs_cover items_vm items_ctx.
Proof.
  intros [|[|i]] Hi; [..|exfalso; vm_compute in Hi; lia]; apply (bool_decide_unpack _); vm_compute; exact I.
Qed.

Lemma items_exact : exact_script items_vm items_infos = true.
Proof. vm_compute. reflexivity. Qed.

Definition items_executor : Executor := ok_default (MkExecutor items_vm [] []) (executor_new items_vm items_infos).

Lemma items_executor_new : executor_new items_vm items_infos = Ok items_executor.
Proof. vm_compute. reflexivity. Qed.

(** The root map, its type, and the environment of the script. *)
Definition items_root : VmValue := ok_default (VmNull TyUnknown) (generate_root_map demo_schema demo_plan).

Lemma demo_from_slice_returns x : returns (demo_from_slice x).
Proof. destruct x as [|[] x]; exact I. Qed.

Lemma items_vm_ok rec : plan_ok demo_schema demo_plan rec -> vm_ok demo_from_slice items_vm rec.
Proof.
  intros Hp. split.
  - exact demo_schema_wf.
  - exact Hp.
  - repeat constructor.
  - exact demo_from_slice_returns.
Qed.

Lemma items_root_typed rec : plan_ok demo_schema demo_plan rec ->
  has_type demo_schema demo_plan rec items_root (ty_of_schema demo_schema).
Proof.
  intros Hp. destruct (root_map_typed demo_schema demo_plan rec demo_schema_wf Hp) as (v & Hv & Ht).
  - intros e q. unfold demo_schema. cbn [exports bt_get]. by destruct (cmp e "items").
  - assert (v = items_root) as <- by (unfold items_root; by rewrite Hv). done.
Qed.

(** The environment of the runs: an empty store that no one else uses. *)
Definition alone (i : nat) (s : MockStore (btree bytes)) : MockStore (btree bytes) := s.

Definition run_items (i : nat) (s : MockStore (btree bytes)) : xres (option VmValue) * MockStore (btree bytes) :=
  run_graph (S := MockStore (btree bytes)) (T := MockTransaction (btree bytes))
    (H0 := mem_store map_to_list) demo_to_vec demo_from_slice (fun _ => 0) alone items_executor i [items_root] s.

Definition get_info : GraphTypeInfo := Eval vm_compute in default default_info (items_infos !! 1).

Lemma get_checked : items_infos !! 1 = Some get_info.
Proof. vm_compute. reflexivity. Qed.

Lemma items_args_typed rec : plan_ok demo_schema demo_plan rec ->
  Forall2 (has_type demo_schema demo_plan rec) [items_root] (gi_params get_info).
Proof. intros Hp. constructor; [exact (items_root_typed rec Hp)|constructor]. Qed.

(** ** A store with data *)
Lemma demo_codec_ok : codec_ok demo_to_vec demo_from_slice.
Proof. split; [|done]. by intros [] v [= <-]. Qed.

Definition add_info : GraphTypeInfo := Eval vm_compute in default default_info (items_infos !! 0).

Lemma add_checked : items_infos !! 0 = Some add_info.
Proof. vm_compute. reflexivity. Qed.

(** What [add] commits. *)
Definition filled_store : MockStore (btree bytes) :=
  (run_items 0 demo_store).2.

(** The item is there, and read back. *)
Example filled_store_read :
  (run_items 1 filled_store).1 = Ok (Some (VmPrimitive (VInt64 1))).
Proof. vm_compute. reflexivity. Qed.

Lemma items_store_ok rec :
  store_ok (KeyValueStore0 := mem_store map_to_list) demo_from_slice alone items_vm rec
    (mem_good demo_from_slice items_vm rec) mem_open.
Proof. by apply mem_store_ok. Qed.

Lemma filled_store_good rec : plan_ok demo_schema demo_plan rec -> mem_good demo_from_slice items_vm rec filled_store.
Proof.
  intros Hp. assert (Hargs : Forall2 (has_type demo_schema demo_plan rec) [items_root] (gi_params add_info)).
  { constructor; [exact (items_root_typed rec Hp)|constructor]. }
  pose proof (run_attempts_sound demo_to_vec demo_from_slice (fun _ => 0) alone items_vm rec _ _ items_ctx items_infos
    items_checked.2 items_executor 0 add_graph add_info [items_root] 10 0 demo_store (items_store_ok rec)
    (items_vm_ok rec Hp) items_cover items_typecheck items_exact items_executor_new eq_refl add_checked Hargs
    (mem_good_new _ _ _)) as Hr.
  exact (proj2 Hr demo_codec_ok).
Qed.

(** ** Crates for queries *)
(** Every graph a component of its own; text codecs that keep the bytes. *)
Definition every_graph (n : nat) (edges : list (nat * nat)) : list (list nat) := (fun i => [i]) <$> seq 0 n.

Lemma every_graph_covers : covers every_graph.
Proof.
  intros n edges i Hi. apply list_elem_of_In, in_concat. exists [i]. split; [|by left].
  apply list_elem_of_In, list_elem_of_fmap. exists i. split; [done|]. apply elem_of_seq. lia.
Qed.

Definition no_text (x : Z) : string := "".
Definition hex_text (b : bytes) : string := of_bytes b.
Definition hex_read (s : string) : option bytes := Some (as_bytes s).
