(* ===== verification/SystemScript.v ===== *)
(** * The system schema and script: [system_schema.rschema], [sys.rasm]

    The two texts the server carries, as the syntax trees their parsers give,
    without the positions; and the system compiled, planned, checked and loaded. *)
From stdpp Require Import prelude gmap strings list.
From Stdlib Require Import Strings.Byte ZArith.
From S2P Require Import Prelude OrdMap Schema SchemaFacts SchemaTermination StoragePlan Planner Value Kv VmValue Bytecode.
From S2P Require Import Typeck AsmAst Codegen Query Demo.

(** ** The schema *)
Definition plain (name ty : string) : TypeField := field_of [] name (TUnit ty).
Definition primary (name ty : string) : TypeField := field_of [primary_ann] name (TUnit ty).
Definition set_field (name member : string) : TypeField := field_of [] name (TSpecialize "set" [TUnit member]).

Definition system_schema_ast : AstSchema := MkAstSchema [
  type_of "System" [set_field "namespaces" "Namespace"];
  type_of "Namespace" [primary "id" "string"; plain "kv_prefix" "bytes"; set_field "deployments" "Deployment";
                       set_field "query_scripts" "QueryScript"; plain "create_time" "int64"];
  type_of "Deployment" [primary "id" "string"; plain "description" "string"; plain "schema" "string";
                        plain "plan" "bytes"; plain "create_time" "int64"];
  type_of "QueryScript" [primary "id" "string"; plain "associated_deployment" "string"; plain "script" "string";
                         plain "create_time" "int64"];
  export_of (TUnit "System") "system"].

Definition system_schema : CompiledSchema :=
  Eval vm_compute in ok_default empty_schema (compile (schema_fuel system_schema_ast) system_schema_ast).

Example system_schema_compiles : compile (schema_fuel system_schema_ast) system_schema_ast = Ok system_schema.
Proof. vm_compute. reflexivity. Qed.

Definition system_plan_generated : pres (Plan * nat) :=
  generate_plan (plan_fuel system_schema) counter_entropy empty_plan empty_schema system_schema.

Definition system_plan_made : Plan := Eval vm_compute in (ok_default (empty_plan, 0) system_plan_generated).1.

(** ** The script *)
Definition exp (k : ExprKind) : Expr := MkExpr 0 0 k.
Definition var_ (x : string) : Expr := exp (KNode x).
Definition dot (x : Expr) (field : string) : Expr := exp (KGetField field x).
Definition point_get (set key : Expr) : Expr := exp (KGetSetElement set key).
Definition is_present (x : Expr) : Expr := exp (KIsPresent x).
Definition not_ (x : Expr) : Expr := exp (KNot x).
Definition select_ (x y : Expr) : Expr := exp (KSelect x y).
Definition bool_ (b : bool) : Expr := exp (KLoadConst (LBool b)).
Definition null_ (t : AstType) : Expr := exp (KLoadConst (LNull t)).
Definition empty_set_ (t : AstType) : Expr := exp (KLoadConst (LEmptySet t)).
Definition create_list_ (t : AstType) : Expr := exp (KCreateList t).
Definition create_map_ : Expr := exp KCreateMap.
Definition named (t : string) : AstType := ATable t [].
Definition str : AstType := APrimitive String_.
Definition i64_ : AstType := APrimitive Int64.
Definition byt : AstType := APrimitive Bytes_.

(** [m_insert(f1) e1 $ .. $ m_insert(fn) en $ create_map]. *)
Definition map_ (fields : list (string * Expr)) : Expr :=
  foldr (fun p m => exp (KInsertIntoMap p.1 p.2 m)) create_map_ fields.

Definition set_ (x : string) (e : Expr) : Stmt := MkStmt 0 (SNode (Some x) e).
Definition do_ (e : Expr) : Stmt := MkStmt 0 (SNode None e).
Definition return_ (e : Expr) : Stmt := MkStmt 0 (SReturn e).
Definition if_ (c : Expr) (a b : list Stmt) : Stmt := MkStmt 0 (SIf c a (Some b)).

Definition graph_ (exported : bool) (name : string) (params : list (string * AstType)) (ret : AstType)
    (stmts : list Stmt) : AstGraph :=
  MkAstGraph name exported ((fun p => (p.1, Some p.2)) <$> params) (Some ret) stmts.

Definition namespaces : Expr := dot (dot (var_ "root") "system") "namespaces".
Definition the_namespace : Expr := point_get namespaces (var_ "namespace_id").
Definition copied (x : string) (fields : list string) : Expr := map_ ((fun f => (f, dot (var_ x) f)) <$> fields).

Definition system_aliases : list TypeAlias := [
  MkTypeAlias "DeploymentBasicInfoMap" (AMap [("id", str); ("create_time", i64_); ("description", str)]);
  MkTypeAlias "DeploymentFullMap"
    (AMap [("id", str); ("description", str); ("schema", str); ("plan", byt); ("create_time", i64_)]);
  MkTypeAlias "NamespaceMap" (AMap [("id", str); ("kv_prefix", byt); ("create_time", i64_)]);
  MkTypeAlias "QueryScriptFullMap"
    (AMap [("id", str); ("associated_deployment", str); ("script", str); ("create_time", i64_)]);
  MkTypeAlias "QueryScriptBasicInfoMap" (AMap [("id", str); ("associated_deployment", str); ("create_time", i64_)])].

Definition g_ns_to_kv_prefix : AstGraph :=
  graph_ true "ns_to_kv_prefix" [("root", ASchema); ("namespace_id", str)] byt
    [return_ (dot the_namespace "kv_prefix")].

Definition g_add_namespace : AstGraph :=
  graph_ true "add_namespace"
    [("root", ASchema); ("namespace_id", str); ("kv_prefix", byt); ("create_time", i64_)] ABool
    [set_ "ns" namespaces;
     if_ (is_present (point_get (var_ "ns") (var_ "namespace_id")))
       [set_ "r1" (bool_ false)]
       [do_ (exp (KInsertIntoSet namespaces (exp (KBuildTable (named "Namespace")
          (map_ [("id", var_ "namespace_id"); ("kv_prefix", var_ "kv_prefix");
                 ("deployments", empty_set_ (named "Deployment")); ("query_scripts", empty_set_ (named "QueryScript"));
                 ("create_time", var_ "create_time")])))));
        set_ "r2" (bool_ true)];
     return_ (select_ (var_ "r1") (var_ "r2"))].

Definition g_add_deployment : AstGraph :=
  graph_ true "add_deployment"
    [("root", ASchema); ("namespace_id", str); ("deployment", named "DeploymentFullMap")] ABool
    [set_ "ns" the_namespace;
     if_ (not_ (is_present (var_ "ns")))
       [set_ "r1" (bool_ false)]
       [if_ (is_present (point_get (dot (var_ "ns") "deployments") (dot (var_ "deployment") "id")))
          [set_ "r2" (bool_ false)]
          [do_ (exp (KInsertIntoSet (dot (var_ "ns") "deployments")
                       (exp (KBuildTable (named "Deployment") (var_ "deployment")))));
           set_ "r3" (bool_ true)]];
     return_ (select_ (var_ "r1") (select_ (var_ "r2") (var_ "r3")))].

(** [get_deployment] and [get_query_script]: a null map of the type, twice, or the
    fields of the member. *)
Definition get_member (name key set_name member full : string) (fields : list string) : AstGraph :=
  graph_ true name [("root", ASchema); ("namespace_id", str); (key, str)] (named full)
    [set_ "ns" the_namespace;
     if_ (not_ (is_present (var_ "ns")))
       [set_ "r1" (null_ (named full))]
       [set_ member (point_get (dot (var_ "ns") set_name) (var_ key));
        if_ (not_ (is_present (var_ member)))
          [set_ "r2" (null_ (named full))]
          [set_ "r3" (copied member fields)]];
     return_ (select_ (var_ "r1") (select_ (var_ "r2") (var_ "r3")))].

Definition g_get_deployment : AstGraph :=
  get_member "get_deployment" "deployment_id" "deployments" "depl" "DeploymentFullMap"
    ["id"; "create_time"; "description"; "schema"; "plan"].

Definition g_list_namespaces : AstGraph :=
  graph_ true "list_namespaces" [("root", ASchema)] (AList (named "NamespaceMap"))
    [return_ (exp (KReduce "fold_namespaces" create_map_ (create_list_ (named "NamespaceMap")) namespaces))].

(** The three folds: the fields of an item before the list so far. *)
Definition fold_graph (name basic item : string) (fields : list string) : AstGraph :=
  graph_ false name [("_unused", AMap []); ("current", AList (named basic)); ("item", named item)] (AList (named basic))
    [return_ (exp (KPrepend (copied "item" fields) (var_ "current")))].

Definition g_fold_namespaces : AstGraph :=
  fold_graph "fold_namespaces" "NamespaceMap" "Namespace" ["id"; "create_time"; "kv_prefix"].

(** [list_deployment] and [list_query_script]. *)
Definition list_members (name fold set_name basic : string) : AstGraph :=
  graph_ true name [("root", ASchema); ("namespace_id", str)] (AList (named basic))
    [set_ "ns" the_namespace;
     if_ (not_ (is_present (var_ "ns")))
       [set_ "r1" (null_ (AList (named basic)))]
       [set_ "r2" (exp (KReduce fold create_map_ (create_list_ (named basic)) (dot (var_ "ns") set_name)))];
     return_ (select_ (var_ "r1") (var_ "r2"))].

Definition g_list_deployment : AstGraph :=
  list_members "list_deployment" "fold_deployments" "deployments" "DeploymentBasicInfoMap".

(** [delete_deployment] and [delete_query_script]. *)
Definition delete_member (name key set_name : string) : AstGraph :=
  graph_ true name [("root", ASchema); ("namespace_id", str); (key, str)] ABool
    [set_ "ns" the_namespace;
     if_ (not_ (is_present (var_ "ns")))
       [set_ "r1" (bool_ false)]
       [if_ (is_present (point_get (dot (var_ "ns") set_name) (var_ key)))
          [do_ (exp (KDeleteFromSet (dot (var_ "ns") set_name) (var_ key))); set_ "r2" (bool_ true)]
          [set_ "r3" (bool_ false)]];
     return_ (select_ (var_ "r1") (select_ (var_ "r2") (var_ "r3")))].

Definition g_delete_deployment : AstGraph := delete_member "delete_deployment" "deployment_id" "deployments".

Definition g_fold_deployments : AstGraph :=
  fold_graph "fold_deployments" "DeploymentBasicInfoMap" "Deployment" ["id"; "create_time"; "description"].

Definition g_delete_namespace : AstGraph :=
  graph_ true "delete_namespace" [("root", ASchema); ("namespace_id", str)] ABool
    [set_ "ns" namespaces;
     if_ (is_present (point_get (var_ "ns") (var_ "namespace_id")))
       [do_ (exp (KDeleteFromSet (var_ "ns") (var_ "namespace_id"))); set_ "r1" (bool_ true)]
       [set_ "r2" (bool_ false)];
     return_ (select_ (var_ "r1") (var_ "r2"))].

Definition g_add_or_update_query_script : AstGraph :=
  graph_ true "add_or_update_query_script"
    [("root", ASchema); ("namespace_id", str); ("qs", named "QueryScriptFullMap")] ABool
    [set_ "ns" the_namespace;
     if_ (not_ (is_present (var_ "ns")))
       [set_ "r1" (bool_ false)]
       [do_ (exp (KInsertIntoSet (dot (var_ "ns") "query_scripts")
                    (exp (KBuildTable (named "QueryScript") (var_ "qs")))));
        set_ "r2" (bool_ true)];
     return_ (select_ (var_ "r1") (var_ "r2"))].

Definition g_get_query_script : AstGraph :=
  get_member "get_query_script" "qs_id" "query_scripts" "qs" "QueryScriptFullMap"
    ["id"; "create_time"; "associated_deployment"; "script"].

Definition g_delete_query_script : AstGraph := delete_member "delete_query_script" "qs_id" "query_scripts".

Definition g_list_query_script : AstGraph :=
  list_members "list_query_script" "fold_query_scripts" "query_scripts" "QueryScriptBasicInfoMap".

Definition g_fold_query_scripts : AstGraph :=
  fold_graph "fold_query_scripts" "QueryScriptBasicInfoMap" "QueryScript"
    ["id"; "associated_deployment"; "create_time"].

Definition system_root : AstRoot := MkAstRoot [
  g_ns_to_kv_prefix; g_add_namespace; g_add_deployment; g_get_deployment; g_list_namespaces; g_fold_namespaces;
  g_list_deployment; g_delete_deployment; g_fold_deployments; g_delete_namespace; g_add_or_update_query_script;
  g_get_query_script; g_delete_query_script; g_list_query_script; g_fold_query_scripts] system_aliases.
