(* ===== verification/DemoPipeline.v ===== *)
(** * A sample deployment from its source

    The script of [DemoScript] as a syntax tree: it is compiled, loaded against the
    sample plan and checked; one query adds the item and the next reads it. *)
From stdpp Require Import prelude gmap strings list.
From Stdlib Require Import Strings.Byte ZArith.
From S2P Require Import Prelude OrdMap Schema SchemaFacts StoragePlan Planner Value PathWalker WalkerTyping Kv.
From S2P Require Import MemKv VmValue Bytecode Typeck Exec ValueTyping NodeSound GraphSound TypeckSound RunGraph.
From S2P Require Import AsmAst Codegen Serialize SerializeFacts Query Pipeline Limits Demo DemoScript SystemScript.

(** [export graph add(root: schema) { s_insert Item { id: "a", count: 1, tags: {} } root.items }]
    [export graph get(root: schema): int64 { return root.items["a"].count }] *)
Definition text_ (x : string) : Expr := exp (KLoadConst (LString x)).

Definition items_root_ast : AstRoot := MkAstRoot [
  graph_ true "get" [("root", ASchema)] i64_
    [return_ (dot (point_get (dot (var_ "root") "items") (text_ "a")) "count")];
  MkAstGraph "add" true [("root", Some ASchema)] None
    [do_ (exp (KInsertIntoSet (dot (var_ "root") "items") (exp (KBuildTable (named "Item")
       (map_ [("id", text_ "a"); ("count", exp (KLoadConst (LInteger 1))); ("tags", empty_set_ (named "Tag"))])))))]] [].

Definition items_parse (text : string) : anyhow AstRoot := Ok items_root_ast.

Definition source_ec : ExecContext :=
  Eval vm_compute in ok_default (MkExecContext items_vm [] (VmNull TyUnknown))
    (load (compile_twscript items_parse) every_graph demo_schema demo_plan "").

Lemma source_ec_loads : load (compile_twscript items_parse) every_graph demo_schema demo_plan "" = Ok source_ec.
Proof. vm_compute. reflexivity. Qed.

Lemma source_ec_compiled : compiled_client demo_schema demo_plan source_ec.
Proof.
  exists items_parse, every_graph, "". split; [exact source_ec_loads|]. split; [exact every_graph_covers|].
  vm_compute. reflexivity.
Qed.

Definition demo_config : VmValueEncodeConfig := MkEncodeConfig true true true.

Abbreviation MemStore := (MockStore (btree bytes)).
Abbreviation MemTxn := (MockTransaction (btree bytes)).

Definition source_query (name : string) (s : MemStore) : qres SerializedVmValue * MemStore :=
  run_exported_graph_inner (S := MemStore) (T := MemTxn) (KeyValueStore0 := mem_store map_to_list) demo_to_vec
    demo_from_slice (fun _ => 0) alone no_text hex_text hex_read source_ec name [SNull] demo_config s.

(** The same behind the timer. *)
Definition source_call (timer : option nat) (name : string) (s : MemStore) : outcome QueryError SerializedVmValue * MemStore :=
  run_exported_graph (S := MemStore) (T := MemTxn) (KeyValueStore0 := mem_store map_to_list) demo_to_vec
    demo_from_slice (fun _ => 0) alone no_text hex_text hex_read source_ec timer name [SNull] demo_config s.

(** The store after [add]. *)
Definition added_store : MemStore := (source_call None "add" demo_store).2.

Example item_added : (source_call None "add" demo_store).1 = Ok SNull.
Proof. vm_compute. reflexivity. Qed.

Example item_read : (source_query "get" added_store).1 = Ok (SInt64 1).
Proof. vm_compute. reflexivity. Qed.

(** A query whose timer fires while its first attempt commits. *)
Example item_added_late : source_call (Some 1) "add" demo_store = (Err Timeout, added_store).
Proof. vm_compute. reflexivity. Qed.
