(* ===== verification/DemoBackends.v ===== *)
(** * Sample databases under the two back ends

    A small SQLite and a small FoundationDB on lists of pairs, which have the laws the
    back ends rely on.  The second serves scans in batches of two keys. *)
From stdpp Require Import prelude gmap strings list sorting.
From Stdlib Require Import Strings.Byte ZArith Sorted.
From S2P Require Import Prelude OrdMap Kv Backend Sqlite Foundation.

(** ** Lists of pairs as contents *)
Abbreviation Rows := (list (bytes * bytes)).

Definition rows_op (m : Rows) (op : ModOp) : Rows :=
  match op with
  | MPut k v => bt_insert k v m
  | MDelete k => bt_remove k m
  | MDeleteRange lo hi => List.filter (fun p => negb (oleb lo p.1 && oltb p.1 hi)) m
  end.

Lemma bt_get_filter_keys (f : bytes -> bool) (m : Rows) k :
  bt_get k (List.filter (fun p => f p.1) m) = if f k then bt_get k m else None.
Proof.
  induction m as [|[k' v'] m IH]; cbn [List.filter bt_get fst]; [by destruct (f k)|].
  destruct (cmp k k') eqn:E; [apply cmp_eq in E as ->|..]; destruct (f k') eqn:Ef; cbn [bt_get]; rewrite ?E, ?cmp_refl, ?IH;
    try done; by rewrite Ef.
Qed.

Lemma rows_op_lookup m op k : bt_get k (rows_op m op) = apply_op (fun k => bt_get k m) op k.
Proof.
  destruct op as [k0 v|k0|lo hi]; simpl.
  - case_decide as E; [subst; apply bt_get_insert_eq|by apply bt_get_insert_ne].
  - case_decide as E; [subst; apply bt_get_remove_eq|by apply bt_get_remove_ne].
  - rewrite (bt_get_filter_keys (fun k => negb (oleb lo k && oltb k hi))). by destruct (oleb lo k && oltb k hi).
Qed.

(** The keys in the order of the database. *)
Definition rows_keys (p : bytes -> bool) (m : Rows) : list bytes := List.filter p (bt_collect m).*1.

Lemma bt_collect_keys (l : list (bytes * bytes)) : bt_sorted (bt_collect l) /\ forall k, k ∈ (bt_collect l).*1 <-> k ∈ l.*1.
Proof.
  unfold bt_collect. induction l as [|[k0 v0] l [IHs IHk]] using rev_ind; [split; [constructor|done]|].
  rewrite foldl_app. cbn [foldl fst snd]. split; [by apply bt_insert_sorted|]. intros k.
  rewrite bt_insert_keys, IHk, fmap_app, elem_of_app. cbn. rewrite list_elem_of_singleton. tauto.
Qed.

Lemma rows_keys_spec p m :
  StronglySorted (fun x y => cmp x y = Lt) (rows_keys p m) /\
  forall k, k ∈ rows_keys p m <-> p k = true /\ is_Some (bt_get k m).
Proof.
  destruct (bt_collect_keys m) as [Hs Hk]. unfold rows_keys. split.
  - clear Hk. apply bt_sorted_keys in Hs. induction Hs as [|k l _ IH Hl]; [constructor|]. cbn [List.filter].
    destruct (p k); [|done]. constructor; [done|]. apply List.Forall_forall. intros x [Hx _]%filter_In.
    rewrite List.Forall_forall in Hl. by apply Hl.
  - intros k. rewrite list_elem_of_In, filter_In, <- list_elem_of_In, Hk, <- not_eq_None_Some, bt_get_none_keys.
    split; [intros [Hin Hp]; split; [done|by intros Hn]|].
    intros [Hp Hn]. split; [|done]. destruct (decide (k ∈ m.*1)); [done|by destruct Hn].
Qed.

(** ** SQLite *)
Abbreviation Tables := (list (string * Rows)).

Record SqlTxn := MkSqlTxn { st_began : Tables; st_now : Tables; st_wrote : bool }.

Definition table_of (d : Tables) (t : string) : Rows := default [] (bt_get t d).

Definition sql_write (x : SqlTxn) (t : string) (op : ModOp) : SqlTxn :=
  MkSqlTxn (st_began x) (bt_insert t (rows_op (table_of (st_now x) t) op) (st_now x)) true.

#[export] Instance sample_sqlite : Sqlite Tables SqlTxn := {
  pool_get d := inl tt;
  sq_transaction d := inl (MkSqlTxn d d false);
  sq_select_v x t k := inl (bt_get k (table_of (st_now x) t));
  sq_select_k_desc x t lo hi := inl (reverse (rows_keys (fun k => oleb lo k && oltb k hi) (table_of (st_now x) t)));
  sq_upsert d x t k v := inl (sql_write x t (MPut k v));
  sq_delete d x t k := inl (sql_write x t (MDelete k));
  sq_delete_range d x t lo hi := inl (sql_write x t (MDeleteRange lo hi));
  sq_commit d x :=
    if st_wrote x then
      if decide (st_began x = d) then inl (st_now x) else inr (SqliteFailure 5 (Some "database is locked"))
    else inl d;
  sq_message e := "error"
}.

Definition table_rows (d : Tables) (t : string) : Contents := fun k => bt_get k (table_of d t).

Lemma sql_write_reads x t op t' k :
  table_rows (st_now (sql_write x t op)) t' k =
  if decide (t' = t) then apply_op (table_rows (st_now x) t') op k else table_rows (st_now x) t' k.
Proof.
  unfold table_rows, table_of at 1. cbn [st_now sql_write]. case_decide as E.
  - subst. rewrite bt_get_insert_eq. cbn [default]. apply rows_op_lookup.
  - by rewrite bt_get_insert_ne.
Qed.

#[export] Instance sample_sqlite_laws : SqliteLaws Tables SqlTxn.
Proof.
  refine {| sq_rows := table_rows; sq_began x := table_rows (st_began x); sq_reads x := table_rows (st_now x);
            sq_wrote := st_wrote |}.
  - by intros d x [= <-].
  - by intros x t k r [= <-].
  - intros x t lo hi ks [= <-]. destruct (rows_keys_spec (fun k => oleb lo k && oltb k hi) (table_of (st_now x) t)) as [Hs Hk].
    split; [by apply StronglySorted_reverse|]. intros k. rewrite elem_of_reverse, Hk, andb_true_iff. tauto.
  - intros d x t k v x' [= <-]. split_and!; [done..|]. intros. apply sql_write_reads.
  - intros d x t k x' [= <-]. split_and!; [done..|]. intros. apply sql_write_reads.
  - intros d x t lo hi x' [= <-]. split_and!; [done..|]. intros. apply sql_write_reads.
  - intros d x d'. cbn [sq_commit sample_sqlite]. destruct (st_wrote x); [|by intros [= <-]].
    case_decide as E; [|done]. intros [= <-]. by rewrite E.
Defined.

(** ** FoundationDB *)
#[export] Instance sample_fdb : Fdb Rows Rows (Rows * list ModOp) string := {
  fdb_create_trx d := inl d;
  fdb_disable_ryw r := inl (r, []);
  fdb_get x k := inl (bt_get k x.1);
  fdb_set x k v := (x.1, x.2 ++ [MPut k v]);
  fdb_clear x k := (x.1, x.2 ++ [MDelete k]);
  fdb_clear_range x lo hi := (x.1, x.2 ++ [MDeleteRange lo hi]);
  fdb_get_range x r i :=
    inl (take 2 (rows_keys (fun k => after_begin (range_begin r) k && before_end (range_end r) k) x.1));
  fdb_commit d x := inl (foldl rows_op d x.2);
  fdb_is_retryable_not_committed e := false;
  fdb_message e := e;
  fdb_size x := length x.1
}.

#[export] Instance sample_fdb_laws : FdbLaws Rows Rows (Rows * list ModOp) string.
Proof.
  refine {| fdb_rows d := fun k => bt_get k d; fdb_began x := fun k => bt_get k x.1; fdb_writes x := x.2 |}; try done.
  - by intros d r x [= <-] [= <-].
  - by intros x k r [= <-].
  - intros x r i batch [= <-]. set (l := rows_keys _ x.1). exists (drop 2 l). rewrite take_drop. split.
    + subst l. destruct (rows_keys_spec (fun k => after_begin (range_begin r) k && before_end (range_end r) k) x.1) as [Hs Hk].
      split; [done|]. intros k. rewrite Hk, andb_true_iff. tauto.
    + by destruct l as [|a [|b l]].
  - intros x l Hl Hin. cbn [fdb_size sample_fdb]. rewrite <- (length_fmap fst x.1).
    apply submseteq_length, NoDup_submseteq; [done|]. intros k Hk%Hin. apply not_eq_None_Some in Hk.
    rewrite bt_get_none_keys in Hk. destruct (decide (k ∈ x.1.*1)); [done|by destruct Hk].
  - intros d [m log] d' [= <-] k. cbn [snd]. unfold apply_log. revert d k. induction log as [|op log IH]; intros d k; [done|].
    cbn [foldl]. rewrite IH. apply apply_log_ext. intros k'. apply rows_op_lookup.
Defined.
