(* ===== verification/SystemDemo.v ===== *)
(** * A sample server

    The server on the sample SQLite database: crates that know a few texts, the
    system script loaded, and requests served by it. *)
From stdpp Require Import prelude gmap strings list.
From Stdlib Require Import Strings.Byte ZArith.
From S2P Require Import Prelude OrdMap Schema SchemaFacts SchemaTermination StoragePlan Planner Value Kv VmValue Bytecode.
From S2P Require Import WalkerTyping Typeck Exec ValueTyping NodeSound GraphSound TypeckSound SerializeFacts AsmAst Codegen Serialize Query QueryCache Backend Sqlite DemoBackends.
From S2P Require Import ServerEnv System ControlPlane ControlFacts HttpApi Limits Demo DemoScript SystemScript.

(** ** Equality of plans *)
Section NodeEq.
Context {SK : Type} `{EqDecision SK}.

Fixpoint node_eqb (x y : StorageNode SK) : bool :=
  bool_decide (key x = key y) && bool_decide (flattened x = flattened y) &&
  bool_decide (subspace_reference x = subspace_reference y) &&
  match node_set x, node_set y with
  | Some a, Some b => node_eqb a b
  | None, None => true
  | _, _ => false
  end &&
  (fix go (l : list (string * StorageNode SK)) (l' : list (string * StorageNode SK)) : bool :=
     match l, l' with
     | [], [] => true
     | p :: l, p' :: l' => bool_decide (p.1 = p'.1) && node_eqb p.2 p'.2 && go l l'
     | _, _ => false
     end) (children x) (children y).

Lemma node_eqb_eq x y : node_eqb x y = true -> x = y.
Proof.
  revert y. induction x as [k f r s c Hs Hc] using node_ind'. intros [k' f' r' s' c'].
  cbn [node_eqb key flattened subspace_reference node_set children]. rewrite !andb_true_iff.
  intros ((((->%bool_decide_eq_true & ->%bool_decide_eq_true) & ->%bool_decide_eq_true) & Hs') & Hc').
  assert (s = s') as ->.
  { destruct s as [a|], s' as [b|]; try done. f_equal. by apply Hs. }
  f_equal. clear Hs Hs'. revert c' Hc'. induction Hc as [|[n x] c Hx _ IH]; intros [|[n' x'] c']; try done.
  rewrite !andb_true_iff. cbn [fst snd]. intros ((->%bool_decide_eq_true & <-%Hx) & Hc'). by rewrite (IH _ Hc').
Qed.

Fixpoint nodes_eqb (l l' : list (string * StorageNode SK)) : bool :=
  match l, l' with
  | [], [] => true
  | p :: l, p' :: l' => bool_decide (p.1 = p'.1) && node_eqb p.2 p'.2 && nodes_eqb l l'
  | _, _ => false
  end.

Lemma nodes_eqb_eq l l' : nodes_eqb l l' = true -> l = l'.
Proof.
  revert l'. induction l as [|[n x] l IH]; intros [|[n' x'] l']; try done. cbn [nodes_eqb]. rewrite !andb_true_iff.
  cbn [fst snd]. intros ((->%bool_decide_eq_true & <-%node_eqb_eq) & Hl). by rewrite (IH _ Hl).
Qed.
End NodeEq.

(** ** Crates *)
(** A script with one graph, which returns [1]. *)
Definition one_root : AstRoot :=
  MkAstRoot [graph_ true "one" [("root", ASchema)] i64_ [return_ (exp (KLoadConst (LInteger 1)))]] [].

Definition the_plans : list (bytes * Plan) := [([x01], demo_plan); ([x02], system_plan_made)].

#[export] Instance sample_crates : Crates := {|
  parse_schema text :=
    if decide (text = "system") then Ok system_schema_ast
    else if decide (text = "items") then Ok demo_ast else Err "syntax error";
  parse_script text :=
    if decide (text = "sys") then Ok system_root
    else if decide (text = "one") then Ok one_root else Err "syntax error";
  kosaraju_scc := every_graph;
  value_to_vec := demo_to_vec;
  value_from_slice := demo_from_slice;
  fmt_f64 := no_text;
  base64_encode := hex_text;
  base64_decode := hex_read;
  plan_to_vec_named p :=
    match List.find (fun q => nodes_eqb (nodes p) (nodes q.2)) the_plans with
    | Some q => Ok q.1 | None => Err "unknown plan" end;
  plan_from_read b :=
    match List.find (fun q => bool_decide (b = q.1)) the_plans with Some q => Ok q.2 | None => Err "unknown plan" end;
  frame_encode b := Ok b;
  frame_decode b := Ok b;
  yaml_to_string p :=
    if nodes_eqb (nodes p) (nodes (plan_to_string hex_text demo_plan)) then Ok "items plan" else Err "unknown plan";
  yaml_from_str text :=
    if decide (text = "items plan") then Ok (plan_to_string hex_text demo_plan) else Err "syntax error";
  string_from_utf8 b := Some (of_bytes b);
  sha256_hex text := "hash"
|}.

#[export] Instance sample_crate_laws : CrateLaws.
Proof.
  split.
  - intros [ns] b. cbn [plan_to_vec_named sample_crates]. unfold the_plans. cbn [List.find snd nodes].
    destruct (nodes_eqb ns (nodes demo_plan)) eqn:E1.
    { intros [= <-]. apply nodes_eqb_eq in E1 as ->. reflexivity. }
    destruct (nodes_eqb ns (nodes system_plan_made)) eqn:E2; [|done].
    intros [= <-]. apply nodes_eqb_eq in E2 as ->. reflexivity.
  - by intros x y [= <-].
  - intros [ns] x. cbn [yaml_to_string yaml_from_str sample_crates nodes].
    destruct (nodes_eqb ns _) eqn:E; [|done]. intros [= <-]. apply nodes_eqb_eq in E as ->. reflexivity.
  - intros b. cbn. unfold hex_read, hex_text. by rewrite as_bytes_of_bytes.
  - intros s. cbn. by rewrite of_bytes_as_bytes.
Qed.

(** ** The server *)
Definition start_fuel : AstSchema -> nat := schema_fuel.

Abbreviation Store := (SqliteKvStore Tables).
Abbreviation Txn := (SqliteKvTxn SqlTxn).

(** Nothing times out, and nobody interferes. *)
Definition calm : Circumstances Tables :=
  MkCircumstances Tables 1700000000000 "uuid" (replicate 16 x07) counter_entropy (fun _ => None) (fun _ => 0)
    (fun _ d => d).

Definition started : outcome StartFail (ExecContext * Store) :=
  system_schema_new (S := Store) (T := Txn) start_fuel "system" "sys" counter_entropy None
    (system_metadata_store []).

Definition no_ec : ExecContext := MkExecContext items_vm [] (VmNull TyUnknown).
Definition system_ec : ExecContext := Eval vm_compute in (ok_default (no_ec, system_metadata_store []) started).1.
Definition started_db : Tables := Eval vm_compute in db_of (ok_default (no_ec, system_metadata_store []) started).2.

Example server_starts : started = Ok (system_ec, system_metadata_store started_db).
Proof. vm_compute. reflexivity. Qed.

(** Requests in turn. *)
Definition ask (r : Request) (d : Tables) : outcome ServerFail Reply * Tables :=
  serve (S := Store) (T := Txn) start_fuel system_ec calm r d.

(** ** What the system context has *)
Definition system_compile (text : string) : anyhow TwScript := map_err fmt_asm_error (compile_root system_root).

Lemma system_schema_wf : wf_schema system_schema.
Proof. exact (compile_wf_gen _ _ _ system_schema_compiles). Qed.

Lemma system_ec_loads : load system_compile every_graph system_schema system_plan_made "" = Ok system_ec.
Proof. vm_compute. reflexivity. Qed.

Lemma system_plan_ok : exists rec, plan_ok system_schema system_plan_made rec.
Proof.
  eapply (generated_plan_ok (plan_fuel system_schema) counter_entropy empty_schema); [exact system_schema_wf| |].
  - vm_compute. reflexivity.
  - vm_compute. reflexivity.
Qed.

Lemma system_vm_ok rmp_from_slice rec :
  (forall x, returns (rmp_from_slice x)) -> plan_ok system_schema system_plan_made rec ->
  vm_ok rmp_from_slice (ec_vm system_ec) rec.
Proof.
  intros Hr Hp. split; [exact system_schema_wf|exact Hp| |exact Hr].
  repeat constructor; (eexists; split; [reflexivity|split; [eexists; reflexivity|exact I]]).
Qed.

Lemma system_exact : exact_script (ec_vm system_ec) (ec_type_info system_ec) = true.
Proof. vm_compute. reflexivity. Qed.

Lemma system_params_wf : Forall (fun info => Forall ty_wf (gi_params info)) (ec_type_info system_ec).
Proof.
  repeat constructor.
Qed.

Lemma sample_crates_return : crates_return.
Proof.
  unfold crates_return. split_and!; intros x; cbn; repeat case_match; simplify_eq; done.
Qed.

Lemma sample_store_returns : store_returns (S := Store) (T := Txn).
Proof.
  split; [done|]. intros s t. cbn [kv_commit sqlite_store]. intros Hc. pose proof (sqlite_commit_returns s t) as Hr.
  by rewrite Hc in Hr.
Qed.

(** ** A session *)
Definition with_namespace : Tables := Eval vm_compute in (ask (CreateNamespace "ns") started_db).2.

Example namespace_listed :
  (ask ListNamespace with_namespace).1 = Ok (NamespacesReply [MkNamespaceInfo "ns" 1700000000000]).
Proof. vm_compute. reflexivity. Qed.

(** A key in the namespace, and one in another. *)
Definition filled_db : Tables := Eval vm_compute in
  bt_insert "user_data" [(replicate 16 x07 ++ [x00; x01], [x05]); (replicate 16 x08 ++ [x00; x01], [x06])] with_namespace.

Definition deleted_db : Tables := Eval vm_compute in
  (delete_namespace_data (S := Store) (T := Txn) system_ec calm "ns" filled_db).2.

Lemma filled_prefix :
  ns_to_kv_prefix_with_appended_zero (S := Store) (T := Txn) system_ec calm "ns" filled_db =
  (Ok (replicate 16 x07 ++ [x00]), filled_db).
Proof. vm_compute. reflexivity. Qed.

Lemma filled_deleted :
  delete_namespace_data (S := Store) (T := Txn) system_ec calm "ns" filled_db = (Ok tt, deleted_db).
Proof. vm_compute. reflexivity. Qed.

(** A deployment, a script for it, and two queries of the script. *)
Definition with_deployment : Tables := Eval vm_compute in
  (ask (CreateDeployment (MkCreateDeployment "ns" "first" "items" "items plan")) with_namespace).2.

Definition deployed_db : Tables := Eval vm_compute in
  (ask (CreateQueryScript (MkCreateQueryScript "ns" "q" "uuid" "one")) with_deployment).2.

#[export] Instance item_lru : Lru QueryCacheKey ExecContext (list (QueryCacheKey * ExecContext)) := list_lru.
#[export] Instance hot_lru : Lru (string * string) HotItem (list ((string * string) * HotItem)) := list_lru.
#[export] Instance item_lru_laws : LruLaws QueryCacheKey ExecContext (list (QueryCacheKey * ExecContext)) := list_lru_laws.
#[export] Instance hot_lru_laws : LruLaws (string * string) HotItem (list ((string * string) * HotItem)) := list_lru_laws.

Abbreviation Cached := (ServerState Tables (list (QueryCacheKey * ExecContext)) (list ((string * string) * HotItem))).

Definition no_cache : QueryCache (list (QueryCacheKey * ExecContext)) (list ((string * string) * HotItem)) := cache_new.

Definition query_one (now : Z) (st : Cached) : outcome ServerFail SerializedVmValue * Cached :=
  do_invoke_query (S := Store) (T := Txn) start_fuel system_ec calm now "ns" "q" "one" [SNull] full_config st.

Definition queried_once : outcome ServerFail SerializedVmValue * Cached :=
  Eval vm_compute in query_one 5 (MkServerState deployed_db no_cache).
Definition queried_twice : outcome ServerFail SerializedVmValue * Cached :=
  Eval vm_compute in query_one 6 queried_once.2.

Lemma queried_once_runs : query_one 5 (MkServerState deployed_db no_cache) = (queried_once.1, queried_once.2).
Proof. vm_compute. reflexivity. Qed.

Lemma queried_twice_runs : query_one 6 queried_once.2 = (queried_twice.1, queried_twice.2).
Proof. vm_compute. reflexivity. Qed.

Example answers : queried_once.1 = Ok (SInt64 1) /\ queried_twice.1 = Ok (SInt64 1).
Proof. by split. Qed.

(** A deployment that does not exist is reported as a mismatch of types. *)
Example missing_deployment :
  (ask (CreateQueryScript (MkCreateQueryScript "ns" "q" "other" "one")) with_deployment).1 =
  Err (FValue (SErr UnwrapTypeMismatch)).
Proof. vm_compute. reflexivity. Qed.

(** ** A set without a primary key *)
(** Looking up a member of a set whose type has no primary key panics in the type
    checker, so a script that is loaded for a query can do so. *)
Definition keyless_root : AstRoot :=
  MkAstRoot [graph_ true "main" [("root", ASchema)] (named "System")
    [return_ (point_get (exp (KBuildSet (create_list_ (named "System")))) (exp (KLoadConst (LString "x"))))]] [].

Example keyless_set_panics :
  load (fun _ => map_err fmt_asm_error (compile_root keyless_root)) every_graph system_schema system_plan_made "" = Panic.
Proof. vm_compute. reflexivity. Qed.
