(* ===== verification/SchemaProperties.v ===== *)
(** * Properties of schemas and storage plans

    The theorems about [schema/compile.rs], [storage_plan/planner.rs] and
    [storage_plan/conversion.rs], each followed by an instance on the sample
    deployment ([Demo]) where it has hypotheses. *)
From stdpp Require Import prelude gmap strings list.
From Stdlib Require Import Strings.Byte ZArith.
From S2P Require Import Prelude OrdMap Schema SchemaFacts SchemaTermination StoragePlan Planner PlannerFacts.
From S2P Require Import PlannerPlan WalkerTyping Demo.

(** ** The compiler *)

(** C28: a schema the compiler returns is well formed: its tables are sorted and
    named after their keys, every type a field, a set or an export mentions is
    defined, sets contain tables only, an index annotation sits on a primitive
    field and a type has at most one primary key. *)
Theorem compile_well_formed (fuel : nat) (input : AstSchema) (s : CompiledSchema) :
  compile fuel input = Ok s -> wf_schema s.
Proof. apply compile_wf_gen. Qed.

Lemma compile_well_formed_witness : wf_schema demo_schema.
Proof. exact (compile_well_formed (schema_fuel demo_ast) demo_ast demo_schema demo_compiles). Defined.

(** C36: on a schema without generic types the compiler returns, with a schema or
    an error: resolving types terminates within the stated depth. *)
Theorem compile_terminates (fuel : nat) (s : AstSchema) :
  monomorphic s -> schema_fuel s <= fuel -> returns (compile fuel s).
Proof. apply compile_returns_mono. Qed.

Lemma compile_terminates_witness : returns (compile (schema_fuel demo_ast) demo_ast).
Proof. apply (compile_terminates (schema_fuel demo_ast) demo_ast); [repeat constructor|lia]. Defined.

(** On [type A<T> { x: A<A<T>> }] with an export of [A<int64>] the compiler
    never returns, whatever depth it is given: each specialization asks for a
    larger one, and no recursion check stops it. *)
Lemma compile_diverges (fuel : nat) : compile fuel growing_schema = NoFuel.
Proof. apply compile_growing_no_fuel. Qed.

(** ** The planner *)

(** C32: planning a well-formed schema returns for every old plan: a plan, or the
    error that a set member has no primary key. *)
Theorem plan_returns (fuel : nat) (ent : Entropy) (old : Plan) (os s : CompiledSchema) :
  wf_schema s -> entropy_ok (plan_bound fuel old s) ent -> plan_fuel s <= fuel ->
  returns_with missing_primary_key (generate_plan fuel ent old os s).
Proof. apply generate_plan_returns. Qed.

Lemma plan_returns_witness :
  returns_with missing_primary_key
    (generate_plan (plan_fuel demo_schema) counter_entropy demo_plan demo_schema demo_schema).
Proof.
  apply (plan_returns (plan_fuel demo_schema) counter_entropy demo_plan demo_schema demo_schema).
  - exact demo_schema_wf.
  - apply counter_entropy_ok. vm_compute. reflexivity.
  - exact (le_n _).
Defined.

(** C15: a generated plan conforms to its schema, whatever the old plan: it has
    one node per export, and under each the tree the type asks for, with a
    reference to the enclosing table exactly where a recursive type comes
    back. *)
Theorem plan_conforms (fuel : nat) (ent : Entropy) (old : Plan) (os s : CompiledSchema) (p : Plan) (d : nat) :
  wf_schema s -> generate_plan fuel ent old os s = Ok (p, d) ->
  exists rec, Forall2 (fun e n => e.1 = n.1 /\ node_for s rec ∅ e.2 n.2) (exports s) (nodes p).
Proof. apply generated_plan_conforms. Qed.

Lemma plan_conforms_witness :
  exists rec, Forall2 (fun e n => e.1 = n.1 /\ node_for demo_schema rec ∅ e.2 n.2)
    (exports demo_schema) (nodes demo_plan).
Proof.
  exact (plan_conforms (plan_fuel demo_schema) counter_entropy empty_plan empty_schema demo_schema demo_plan 7
           demo_schema_wf demo_plan_generated).
Defined.

(** C40: the storage keys of a plan made from scratch are pairwise distinct. *)
Theorem fresh_plan_keys_distinct (fuel : nat) (ent : Entropy) (os s : CompiledSchema) (p : Plan) (d : nat) :
  wf_schema s -> generate_plan fuel ent empty_plan os s = Ok (p, d) -> NoDup (plan_keys p).
Proof. apply generated_plan_fresh. Qed.

Lemma fresh_plan_keys_distinct_witness : NoDup (plan_keys demo_plan).
Proof.
  exact (fresh_plan_keys_distinct (plan_fuel demo_schema) counter_entropy empty_schema demo_schema demo_plan 7
           demo_schema_wf demo_plan_generated).
Defined.

(** C16: planning the schema of a plan again changes nothing and draws no key, so
    the integrity check of a deployment (plan again, compare) accepts the plan
    the planner made. *)
Theorem replan_is_stable (fuel : nat) (ent ent' : Entropy) (old : Plan) (os s : CompiledSchema) (p : Plan) (d : nat) :
  wf_schema s -> generate_plan fuel ent old os s = Ok (p, d) -> generate_plan fuel ent' p s s = Ok (p, 0).
Proof. apply generate_plan_stable. Qed.

Lemma replan_is_stable_witness :
  generate_plan (plan_fuel demo_schema) (fun _ => (0, 0)%Z) demo_plan demo_schema demo_schema = Ok (demo_plan, 0).
Proof.
  exact (replan_is_stable (plan_fuel demo_schema) counter_entropy (fun _ => (0, 0)%Z) empty_plan empty_schema
           demo_schema demo_plan 7 demo_schema_wf demo_plan_generated).
Defined.

(** A field for which the planner found a point in the old plan keeps the
    storage key of that point, so the data stays reachable. *)
Lemma field_keeps_storage_key (fuel : nat) (ent : Entropy) (os s : CompiledSchema) (st st' : PlanState)
    (t : FieldType) (anns : list FieldAnnotation) (q : OldTreePoint) (n : Node) :
  schema_sorted s -> generate_field fuel ent os s st t anns (Some q) = Ok (n, st') -> key n = key (op_node q).
Proof. apply generate_field_key. Qed.

Lemma field_keeps_storage_key_witness :
  key (MkNode [x07] false None None []) = [x07].
Proof.
  exact (field_keeps_storage_key 1 counter_entropy demo_schema demo_schema (MkPlanState ∅ ∅ ∅ ∅ 0) (MkPlanState ∅ ∅ ∅ ∅ 0)
    (FPrimitive Int64) [] (MkOldTreePoint "count" (FPrimitive Int64) [] (MkNode [x07] false None None []))
    (MkNode [x07] false None None []) (wf_schema_sorted _ demo_schema_wf) eq_refl).
Defined.

(** ** The textual form of plans *)

(** A plan comes back unchanged from its base64 form, when its keys have
    twelve bytes. *)
Lemma plan_text_roundtrip (encode : bytes -> string) (decode : string -> option bytes) (p : Plan) :
  (forall b, decode (encode b) = Some b) -> Forall (fun q => node_all key_ok q.2) (nodes p) ->
  plan_try_from decode (plan_to_string encode p) = Ok p.
Proof. apply plan_try_from_to_string. Qed.

(** In place of base64: one character per byte. *)
Lemma plan_text_roundtrip_witness :
  plan_try_from (fun s => Some (as_bytes s)) (plan_to_string of_bytes demo_plan) = Ok demo_plan.
Proof.
  apply (plan_text_roundtrip of_bytes (fun s => Some (as_bytes s)) demo_plan).
  - intros b. f_equal. apply as_bytes_of_bytes.
  - repeat constructor.
Defined.

(** ** Renamed fields *)
(** [type T { @primary id: string, a: string }], and the same with a second
    field that says it was renamed from [a]. *)
Definition rename_ast (new_fields : list TypeField) : AstSchema := MkAstSchema [
  type_of "T" ([field_of [primary_ann] "id" (TUnit "string"); field_of [] "a" (TUnit "string")] ++ new_fields);
  export_of (TUnit "T") "t"].

Definition renamed_field : TypeField :=
  field_of [MkAnnotation "rename_from" [LitString "a"]] "b" (TUnit "string").

Definition schema_before : CompiledSchema := ok_default empty_schema (compile 10 (rename_ast [])).
Definition schema_after : CompiledSchema := ok_default empty_schema (compile 10 (rename_ast [renamed_field])).
Definition plan_before : Plan :=
  (ok_default (empty_plan, 0) (generate_plan 10 counter_entropy empty_plan empty_schema schema_before)).1.
Definition plan_after : Plan :=
  (ok_default (empty_plan, 0) (generate_plan 10 counter_entropy plan_before schema_before schema_after)).1.

(** A field renamed from one that is still there gets the storage key of
    that field: both compile, the migration is accepted, planning again
    reproduces the plan (so the integrity check passes), and two fields of one
    table share their storage. *)
Lemma renamed_field_shares_storage :
  compile 10 (rename_ast [renamed_field]) = Ok schema_after /\
  generate_plan 10 counter_entropy plan_before schema_before schema_after = Ok (plan_after, 0) /\
  generate_plan 10 counter_entropy plan_after schema_after schema_after = Ok (plan_after, 0) /\
  ~ NoDup (plan_keys plan_after).
Proof.
  split; [vm_compute; reflexivity|]. split; [vm_compute; reflexivity|]. split; [vm_compute; reflexivity|].
  assert (Hd : bool_decide (NoDup (plan_keys plan_after)) = false) by (vm_compute; reflexivity).
  by apply bool_decide_eq_false_1 in Hd.
Qed.
