(* ===== verification/StoreProperties.v ===== *)
(** * Properties of keys, walkers and the in-memory store

    The theorems about [data/value.rs], [data/pathwalker.rs], [data/mock_kv.rs]
    and the storage side of [data/treewalker/exec.rs]. *)
From stdpp Require Import prelude gmap strings list.
From Stdlib Require Import Strings.Byte ZArith Sorted.
From S2P Require Import Prelude OrdMap Schema SchemaFacts StoragePlan Planner PlannerFacts Value PathWalker.
From S2P Require Import WalkerTyping Kv MemKv MemKvIsolation VmValue Bytecode Typeck Exec ValueTyping NodeSound.
From S2P Require Import SetKeys Demo.

(** ** The in-memory store *)

(** C3: for every sequence of operations of any number of transactions, the
    in-memory store answers what the snapshot-isolation machine answers: reads
    see the database as it was when the transaction began, scans also see its
    own writes, and a commit succeeds exactly when no transaction committed
    since then a key it wrote. The order in which the hash map of modified keys
    is iterated does not matter. *)
Theorem store_is_snapshot_isolation (M : Type -> Type) (OM : OrderedMap bytes M) (OML : OrderedMapLaws bytes M)
    (hash_iter : gmap bytes Z -> list (bytes * Z)) (ops : list KvOp) :
  (forall m, hash_iter m ≡ₚ map_to_list m) -> (Z.of_nat (length ops) < 2 ^ 64)%Z -> Forall op_ok ops ->
  kv_run (M := M) hash_iter sys_new ops = si_run si_new ops.
Proof. intros Hh Hn Hops. apply (sim_run hash_iter Hh 0); [done|lia|done|apply sim_new]. Qed.

(** Two transactions write the same key; the second to commit loses. *)
Definition race : list KvOp :=
  [OpBegin 0; OpBegin 1; OpPut 0 [x61] [x01]; OpPut 1 [x61] [x02]; OpGet 0 [x61]; OpScan 0 [] [xff];
   OpCommit 0; OpCommit 1; OpBegin 2; OpGet 2 [x61]].

Lemma store_is_snapshot_isolation_witness :
  kv_run (M := btree bytes) map_to_list sys_new race = si_run si_new race.
Proof.
  apply (store_is_snapshot_isolation (btree bytes) _ _ map_to_list race); [done|vm_compute; reflexivity|repeat constructor].
Defined.

(** The race above: the first commit succeeds, the second is refused with a
    conflict, the losing write is not visible afterwards, and a transaction does
    not read its own write although a scan lists the key. *)
Lemma first_committer_wins :
  kv_run (M := btree bytes) map_to_list sys_new race =
  [RDone; RDone; RDone; RDone; RValue None; RKeys {[ [x61] ]}; RCommit (Ok tt); RCommit (Err Conflict);
   RDone; RValue (Some [x01])].
Proof. vm_compute. reflexivity. Qed.

(** Draining the iterator of [scan_keys] gives the live keys of the range,
    in increasing order, each once. *)
Lemma scan_lists_live_keys (M : Type -> Type) (OM : OrderedMap bytes M) (OML : OrderedMapLaws bytes M)
    (t : MockTransaction M) (lo hi : bytes) (fuel : nat) :
  oleb lo hi = true -> length (om_range lo hi (buffer t)) < fuel ->
  exists ks, drain fuel (scan_keys t lo hi) = Some ks /\ StronglySorted (fun x y => cmp x y = Lt) ks /\
    forall k, k ∈ ks <-> oleb lo k = true /\ oltb k hi = true /\ is_Some (value_of (buffer t) k).
Proof.
  intros Hle Hf. exists (live_keys (buffer t) lo hi). split_and!.
  - by eapply drain_live.
  - by apply live_keys_sorted.
  - intros k. by apply live_keys_elem.
Qed.

Definition demo_txn0 : MockTransaction (btree bytes) := (begin_transaction store_new).2.

Lemma scan_lists_live_keys_witness :
  exists ks, drain 9 (scan_keys (put demo_txn0 [x61] []) [] [xff]) = Some ks /\
    StronglySorted (fun x y => cmp x y = Lt) ks /\
    forall k, k ∈ ks <-> oleb [] k = true /\ oltb k [xff] = true /\ is_Some (value_of (buffer (put demo_txn0 [x61] [])) k).
Proof.
  apply (scan_lists_live_keys (btree bytes) _ _ (put demo_txn0 [x61] []) [] [xff] 9); [reflexivity|].
  vm_compute. repeat constructor.
Defined.

(** ** Key components *)

(** C38: the bytes of two primary keys of one type compare as the keys do, so a
    scan visits the members of a set in the order of their keys. *)
Theorem key_component_order (v w : PrimitiveValue) (c : comparison) :
  prim_ok v -> prim_ok w -> prim_cmp v w = Some c ->
  cmp (serialize_for_key_component v) (serialize_for_key_component w) = c.
Proof. apply serialize_cmp. Qed.

Lemma key_component_order_witness :
  cmp (serialize_for_key_component (VInt64 (-5))) (serialize_for_key_component (VInt64 3)) = Lt.
Proof. apply (key_component_order (VInt64 (-5)) (VInt64 3) Lt); [split; lia|split; lia|reflexivity]. Defined.

(** Two primary keys with the same bytes are equal, across types. *)
Lemma key_component_injective (v w : PrimitiveValue) :
  prim_ok v -> prim_ok w -> serialize_for_key_component v = serialize_for_key_component w -> v = w.
Proof. apply serialize_inj. Qed.

Lemma key_component_injective_witness : VBytes [x00; x01] = VBytes [x00; x01].
Proof. exact (key_component_injective (VBytes [x00; x01]) (VBytes [x00; x01]) I I eq_refl). Defined.

(** The order of finite doubles is the order of their encoded words, across
    signs and exponents. *)
Lemma double_order (x y : Z) :
  is_u64 x -> is_u64 y -> (double_value x < double_value y)%Z -> (double_word x < double_word y)%Z.
Proof. apply double_value_cmp. Qed.

Lemma double_order_witness : (double_word (2 ^ 63 + 5) < double_word 7)%Z.
Proof. apply (double_order (2 ^ 63 + 5) 7); [split; lia|split; lia|vm_compute; reflexivity]. Defined.

(** ** Walkers *)

(** C37: in a plan that conforms to the schema, a walker that stands for a table
    can enter every declared field, recursive references included, and then
    stands for the type of the field; the depth limit is the only failure. *)
Theorem walker_enters_field (s : CompiledSchema) (p : Plan) (rec : gset string) (w : PathWalker) (t name : string)
    (ty : SpecializedType) (f : FieldType * list FieldAnnotation) :
  plan_ok s p rec -> walker_typed s p rec w (FTable t) -> bt_get t (types s) = Some ty ->
  bt_get name (st_fields ty) = Some f ->
  (exists w', enter_field w name = Ok w' /\ walker_typed s p rec w' f.1) \/ enter_field w name = Err PathTooDeep.
Proof. intros Hp. by apply enter_field_typed. Qed.

(** Likewise a walker that stands for a set can enter any member. *)
Lemma walker_enters_set (s : CompiledSchema) (p : Plan) (rec : gset string) (w : PathWalker) (x : FieldType) (pk : bytes) :
  plan_ok s p rec -> walker_typed s p rec w (FSet x) ->
  (exists w', enter_set_raw w pk = Ok w' /\ walker_typed s p rec w' x) \/ enter_set_raw w pk = Err PathTooDeep.
Proof. intros Hp. by apply enter_set_raw_typed. Qed.

Definition items_walker : PathWalker :=
  ok_default (MkWalker (MkNode [] false None None []) [] None 0 false false None) (from_export demo_plan "items").

Lemma items_walker_typed rec : plan_ok demo_schema demo_plan rec ->
  walker_typed demo_schema demo_plan rec items_walker (FSet (FTable "Item<>")).
Proof.
  intros Hp. destruct (from_export_typed demo_schema demo_plan rec Hp "items" (FSet (FTable "Item<>"))) as (w & Hw & Ht).
  { vm_compute. reflexivity. }
  assert (w = items_walker) as -> by (unfold items_walker; by rewrite Hw). done.
Qed.

Definition item_walker : PathWalker := ok_default items_walker (enter_set_raw items_walker [x61]).

Lemma walker_enters_set_witness :
  exists rec, walker_typed demo_schema demo_plan rec item_walker (FTable "Item<>").
Proof.
  destruct demo_plan_ok as [rec Hp]. exists rec.
  destruct (walker_enters_set demo_schema demo_plan rec items_walker (FTable "Item<>") [x61] Hp (items_walker_typed rec Hp))
    as [(w & Hw & Ht)|He].
  - assert (w = item_walker) as -> by (unfold item_walker; by rewrite Hw). exact Ht.
  - vm_compute in He. discriminate He.
Defined.

Lemma item_walker_typed rec : plan_ok demo_schema demo_plan rec ->
  walker_typed demo_schema demo_plan rec item_walker (FTable "Item<>").
Proof.
  intros Hp. destruct (enter_set_raw_typed demo_schema demo_plan rec Hp items_walker (FTable "Item<>") [x61]
    (items_walker_typed rec Hp)) as [(w & Hw & Ht)|He].
  - assert (w = item_walker) as -> by (unfold item_walker; by rewrite Hw). exact Ht.
  - vm_compute in He. discriminate He.
Qed.

Definition item_type : SpecializedType :=
  Eval vm_compute in default (MkSpecializedType "" []) (bt_get "Item<>" (types demo_schema)).

Lemma walker_enters_field_witness :
  exists rec w', enter_field item_walker "count" = Ok w' /\
    walker_typed demo_schema demo_plan rec w' (FPrimitive Int64).
Proof.
  destruct demo_plan_ok as [rec Hp]. exists rec.
  destruct (walker_enters_field demo_schema demo_plan rec item_walker "Item<>" "count"
    item_type (FPrimitive Int64, [])
    Hp (item_walker_typed rec Hp) ltac:(vm_compute; reflexivity) ltac:(vm_compute; reflexivity)) as [(w & Hw & Ht)|He].
  - exists w. by split.
  - vm_compute in He. discriminate He.
Defined.

(** The depth a walker records is the length of its path, at most 64. *)
Lemma walker_depth_bounded (p : Plan) (w : PathWalker) :
  reaches p w -> pw_depth w = chain_length w /\ pw_depth w <= MAX_DEPTH.
Proof. apply reaches_depth. Qed.

Lemma walker_depth_bounded_witness : pw_depth items_walker = 1 /\ pw_depth items_walker <= MAX_DEPTH.
Proof.
  apply (walker_depth_bounded demo_plan items_walker). apply (reach_export demo_plan "items"). vm_compute. reflexivity.
Defined.

(** ** Recursive sets *)
(** [type Node { @primary id: string, kids: set<Node> }], [export set<Node> nodes]. *)
Definition kids_ast : AstSchema := MkAstSchema [
  type_of "Node" [field_of [primary_ann] "id" (TUnit "string");
                  field_of [] "kids" (TSpecialize "set" [TUnit "Node"])];
  export_of (TSpecialize "set" [TUnit "Node"]) "nodes"].
Definition kids_schema : CompiledSchema := ok_default empty_schema (compile 10 kids_ast).
Definition kids_plan : Plan :=
  (ok_default (empty_plan, 0) (generate_plan 10 counter_entropy empty_plan empty_schema kids_schema)).1.

(** The walker of the field [id] of a member of the set [kids] of a node. *)
Definition kid_id : wres PathWalker :=
  let? w := from_export kids_plan "nodes" in
  let? w := enter_set_raw w [x61] in
  let? w := enter_field w "kids" in
  let? w := enter_set_raw w [x62] in
  enter_field w "id".

(** A set whose members are of the enclosing table type compiles and gets a
    plan, but the members of the inner set have no fields: [enter_set_raw]
    does not follow the subspace reference of the member node. *)
Lemma recursive_set_has_no_fields :
  is_ok (compile 10 kids_ast) = true /\
  is_ok (generate_plan 10 counter_entropy empty_plan empty_schema kids_schema) = true /\
  kid_id = Err (FieldNotFound "id").
Proof. vm_compute. split_and!; reflexivity. Qed.

(** ** Deleting a member of a set *)





(** ** A primary key with a zero byte *)
(** String keys are neither escaped nor terminated: deleting the member with
    key ["a"] also deletes the data of the member with key ["a\0b"], whose bytes lie
    in the deleted range, and leaves the scan key of that member, so that it is
    still listed. *)
Lemma nul_key_is_swept_away :
  let v := VString "a" in
  let v' := VString ("a" ++ String Ascii.zero "b") in
  let txn := put (put demo_txn0 (fast_key items_walker v') []) (data_key items_walker v' [x07]) [x02] in
  match delete_entry_from_set txn items_walker v with
  | Ok txn' => kv_current txn' (fast_key items_walker v') = Some [] /\
               kv_current txn' (data_key items_walker v' [x07]) = None
  | _ => False
  end.
Proof. vm_compute. by split. Qed.
