(* ===== verification/ScriptProperties.v ===== *)
(** * Properties of scripts

    The theorems about the type checker ([data/treewalker/typeck.rs]), the
    executor ([exec.rs]), run-time values ([vm_value.rs]) and the VM ([vm.rs]),
    with instances on the sample script ([DemoScript]), and the scripts at which
    the guarantees end ([Limits]). *)
From stdpp Require Import prelude gmap strings list.
From Stdlib Require Import Strings.Byte ZArith Sorted.
From S2P Require Import Prelude OrdMap Schema SchemaFacts StoragePlan Planner Value PathWalker WalkerTyping Kv.
From S2P Require Import MemKv VmValue Bytecode Typeck Exec ValueTyping NodeSound GraphSound TypeckSound RunGraph.
From S2P Require Import SetKeys Limits Demo DemoScript.

(** ** Soundness *)




(** ** The retry loop *)





(** What [run_graph] returns is the value of exactly one run, of a
    transaction that then committed; every attempt before it ended in a conflict
    and left nothing behind, and there are fewer than ten of them. *)
Lemma run_graph_commits_one_attempt (S T : Type) `{KvTransaction T} `{!KeyValueStore S T}
    (rmp_to_vec : PrimitiveValue -> bytes) (rmp_from_slice : bytes -> anyhow PrimitiveValue) (schedule : nat -> nat)
    (others : nat -> S -> S) (ex : Executor) (i : nat) (args : list VmValue) (s s' : S) (ret : option VmValue) :
  run_graph rmp_to_vec rmp_from_slice schedule others ex i args s = (Ok ret, s') <->
  exists j sj s1 txn, j < 10 /\
    conflicts_until rmp_to_vec rmp_from_slice schedule others ex i args 0 s j sj /\
    attempt rmp_to_vec rmp_from_slice schedule others ex i args j sj ret s1 txn /\
    kv_commit (T := T) s1 txn = Ok s'.
Proof. apply run_attempts_commits. Qed.

(** Ten conflicts in a row are an error. *)
Lemma run_graph_gives_up (S T : Type) `{KvTransaction T} `{!KeyValueStore S T}
    (rmp_to_vec : PrimitiveValue -> bytes) (rmp_from_slice : bytes -> anyhow PrimitiveValue) (schedule : nat -> nat)
    (others : nat -> S -> S) (ex : Executor) (i : nat) (args : list VmValue) (s s' : S) :
  conflicts_until (T := T) rmp_to_vec rmp_from_slice schedule others ex i args 0 s 10 s' ->
  run_graph rmp_to_vec rmp_from_slice schedule others ex i args s = (Err (XErr ConflictAfterRetries), s').
Proof. exact (run_attempts_exhausted rmp_to_vec rmp_from_slice schedule others ex i args 10 0 s s'). Qed.

(** A client that bumps the version of the member's scan key in every attempt. *)
Definition item_key : bytes :=
  Eval vm_compute in fast_key (ok_default (MkWalker (MkNode [] false None None []) [] None 0 false false None)
                                 (from_export demo_plan "items")) (VString "a").

Definition meddler (i : nat) (s : MockStore (btree bytes)) : MockStore (btree bytes) :=
  let '(s, t) := begin_transaction s in
  match commit map_to_list s (put t item_key [x01]) with Ok s => s | _ => s end.

Definition meddled (n : nat) : option (MockStore (btree bytes)) :=
  conflict_run (S := MockStore (btree bytes)) (T := MockTransaction (btree bytes)) (H0 := mem_store map_to_list)
    demo_to_vec demo_from_slice (fun _ => 0) meddler items_executor 0 [items_root] n 0 demo_store.

Lemma meddled_conflicts : is_Some (meddled 10).
Proof. apply (bool_decide_unpack _). vm_compute. exact I. Qed.

Lemma run_graph_gives_up_witness : run_graph (S := MockStore (btree bytes)) (T := MockTransaction (btree bytes))
  (H0 := mem_store map_to_list) demo_to_vec demo_from_slice (fun _ => 0) meddler items_executor 0 [items_root] demo_store
  = (Err (XErr ConflictAfterRetries), default demo_store (meddled 10)).
Proof.
  destruct meddled_conflicts as [s' Hs]. rewrite Hs.
  apply (run_graph_gives_up (MockStore (btree bytes)) (MockTransaction (btree bytes)) demo_to_vec demo_from_slice (fun _ => 0)
    meddler items_executor 0 [items_root] demo_store s').
  exact (conflict_run_until demo_to_vec demo_from_slice (fun _ => 0) meddler items_executor 0 [items_root] 10 0
           demo_store s' Hs).
Defined.

(** The sample script, end to end: on the empty store [get] gives null (there
    is no item), [add] inserts the item and commits, and [get] then reads the
    stored field. *)
Lemma add_then_get :
  (run_items 1 demo_store).1 = Ok (Some (VmNull (TyPrimitive Int64))) /\
  (run_items 0 demo_store).1 = Ok None /\
  (run_items 1 (run_items 0 demo_store).2).1 = Ok (Some (VmPrimitive (VInt64 1))).
Proof. vm_compute. split_and!; reflexivity. Qed.

(** ** The type checker *)

(** C39: an accepted script is annotated node by node: every graph has one type
    per node and per parameter, the type of a node is what its arm computes from
    the types of earlier nodes, every edge and precondition comes from an earlier
    node, and the output type is covariant from the type of the output node. *)
Theorem typeck_annotates_every_node (vm : TwVm) (ctx ctx' : GlobalTyckContext) (infos : list GraphTypeInfo) :
  sccs_cover vm ctx -> typeck vm ctx = Ok (infos, ctx') ->
  length infos = length (graphs (vm_script vm)) /\
  forall i g, graphs (vm_script vm) !! i = Some g ->
    exists info, infos !! i = Some info /\ graph_checked vm g info.
Proof. apply typeck_checked. Qed.

Lemma typeck_annotates_every_node_witness : graph_checked items_vm get_graph get_info.
Proof.
  destruct (typeck_annotates_every_node items_vm items_ctx items_checked.2 items_infos items_cover items_typecheck)
    as [_ Hall].
  destruct (Hall 1 get_graph eq_refl) as (info & Hi & Hc).
  assert (info = get_info) as -> by (rewrite get_checked in Hi; congruence). exact Hc.
Defined.

(** The root map the executor hands to a script has the type the checker
    gives to a parameter of type schema, when no primitive is exported. *)
Lemma root_map_has_schema_type (s : CompiledSchema) (p : Plan) (rec : gset string) :
  wf_schema s -> plan_ok s p rec -> (forall e q, bt_get e (exports s) <> Some (FPrimitive q)) ->
  exists v, generate_root_map s p = Ok v /\ has_type s p rec v (ty_of_schema s).
Proof. apply root_map_typed. Qed.

Lemma root_map_has_schema_type_witness :
  exists rec v, generate_root_map demo_schema demo_plan = Ok v /\ has_type demo_schema demo_plan rec v (ty_of_schema demo_schema).
Proof.
  destruct demo_plan_ok as [rec Hp]. exists rec. apply (root_map_has_schema_type demo_schema demo_plan rec demo_schema_wf Hp).
  intros e q. unfold demo_schema. cbn [exports bt_get]. by destruct (cmp e "items").
Defined.

(** Covariance is a preorder, and relates different types only if both are
    maps. *)
Lemma covariance_preorder :
  (forall t, is_covariant_from t t = true) /\
  (forall s t u, is_covariant_from s t = true -> is_covariant_from t u = true -> is_covariant_from s u = true) /\
  (forall s t, is_covariant_from s t = true -> s = t \/ exists x y, s = TyMap x /\ t = TyMap y).
Proof.
  split_and!; [exact cov_refl|exact cov_trans|]. intros s t [->|(x & y & ? & ? & _)]%cov_iff; [by left|]. right. eauto.
Qed.

(** The default value of a type, where there is one, is of that type. *)
Lemma default_value_of_type (t : VmType) (v : VmValue) : default_value t = Some v -> ty_of_value v = t.
Proof. apply default_value_type_gen. Qed.

Lemma default_value_of_type_witness : ty_of_value (VmMap [("a", VmPrimitive (VInt64 0))]) = TyMap [("a", TyPrimitive Int64)].
Proof.
  exact (default_value_of_type (TyMap [("a", TyPrimitive Int64)]) (VmMap [("a", VmPrimitive (VInt64 0))]) eq_refl).
Defined.

(** Looking up an exported graph gives an exported graph of that name. *)
Lemma exported_graph_lookup (schema : CompiledSchema) (plan : Plan) (script : TwScript) (vm : TwVm) (name : string) (i : nat) :
  vm_new schema plan script = Ok vm -> lookup_exported_graph_by_name vm name = Ok i ->
  exists g, graphs script !! i = Some g /\ exported g = true /\ g_name g = name.
Proof. apply lookup_exported_found. Qed.

Lemma exported_graph_lookup_witness :
  exists g, graphs items_script !! 1 = Some g /\ exported g = true /\ g_name g = "get".
Proof.
  apply (exported_graph_lookup demo_schema demo_plan items_script items_vm "get" 1 items_vm_loads). vm_compute. reflexivity.
Defined.

(** ** Reductions over sets *)








(** ** Where the guarantees end *)

(** In [x == x] with one node for [x], the comparison fires when the node
    completes as its first parameter, and again as its second, and the second
    firing finds no parameters: a checked script panics. *)
Lemma same_source_twice_panics :
  is_ok (check [0] double_fire_vm) = true /\ run_value [0] double_fire_vm 0 [] = Err (XPanic PInconsistent) /\
  run_value [0] single_fire_vm 0 [] = Ok (Some (VmBool true)).
Proof. vm_compute. split_and!; reflexivity. Qed.

(** A select both of whose candidates complete does not report
    [BothSelectCandidatesFired]: recording the second result indexes an empty
    list and panics. *)
Lemma second_candidate_panics :
  is_ok (check [0] two_candidates_vm) = true /\ run_value [0] two_candidates_vm 0 [] = Err (XPanic PDepsIndex).
Proof. vm_compute. split; reflexivity. Qed.

(** The checker gives a reduction the type of its subgraph's result, but on an
    empty list the value is the initial one, of which only covariance was
    checked: reading a field it lacks panics. *)
Lemma empty_reduction_is_ill_typed :
  is_ok (check [1; 0] reduce_vm) = true /\ run_value [1; 0] reduce_vm 0 [] = Err (XPanic PInconsistent).
Proof. vm_compute. split; reflexivity. Qed.

(** A recursive call is not checked against the parameter types of its own
    graph: adding a string to an integer panics. *)
Lemma recursive_call_is_unchecked :
  is_ok (check [0] recursive_vm) = true /\
  run_value [0] recursive_vm 0 [VmPrimitive (VInt64 1)] = Err (XPanic PInconsistent).
Proof. vm_compute. split; reflexivity. Qed.

(** A map passed where a map type with fewer fields is expected keeps its
    fields, and building a table from it takes them, unchecked, for fields of the
    table. *)
Lemma covariant_map_builds_ill_typed_table :
  is_ok (check [1; 0] build_vm) = true /\ run_value [1; 0] build_vm 0 [] = Err (XPanic PInconsistent).
Proof. vm_compute. split; reflexivity. Qed.
