(* ===== verification/QueryProperties.v ===== *)
(** * Properties of queries

    The theorems about queries end to end ([Query]: loading a script and
    answering calls), about values on the wire ([Serialize]) and about the cache of
    loaded queries ([QueryCache]), with instances on the sample script. *)
From stdpp Require Import prelude gmap strings list.
From Stdlib Require Import Strings.Byte ZArith Sorted.
From S2P Require Import Prelude OrdMap Schema SchemaFacts StoragePlan Planner Value PathWalker WalkerTyping Kv.
From S2P Require Import MemKv VmValue Bytecode Typeck Exec ValueTyping NodeSound GraphSound TypeckSound RunGraph.
From S2P Require Import AsmAst Codegen Serialize SerializeFacts Query CodegenFacts CodegenTypes Pipeline QueryCache Words.
From S2P Require Import Limits Demo DemoScript SystemScript DemoPipeline.







(** The bits of 3.0 and of 1.5. *)
Definition three : Z := 0x4008000000000000.
Definition one_and_a_half : Z := 0x3ff8000000000000.

(** A double written as text is not read back.  The reader parses the text as
    an unsigned integer and takes that for the bits of the double, so 3.0,
    printed "3", comes back as the third smallest positive double, and 1.5 is refused. *)
Lemma double_text_is_misread (fmt_f64 : Z -> string) (base64_encode : bytes -> string)
    (base64_decode : string -> option bytes) (config : VmValueEncodeConfig) :
  fmt_f64 three = "3" -> fmt_f64 one_and_a_half = "1.5" -> enable_double config = false ->
  let read v := let? x := encode fmt_f64 base64_encode config (VmPrimitive v) in
                decode base64_decode x (TyPrimitive Double) in
  read (VDouble three) = Ok (VmPrimitive (VDouble 3)) /\ read (VDouble one_and_a_half) = Err SParseInt /\
  read (VInt64 3) = (if enable_int64 config then Ok (VmPrimitive (VDouble three)) else Ok (VmPrimitive (VDouble 3))).
Proof.
  intros H3 H15 Hd. cbn [encode encode_primitive obind]. rewrite Hd, H3, H15.
  split_and!; [done..|]. destruct (enable_int64 config); [|done]. vm_compute. reflexivity.
Qed.

Definition demo_fmt (x : Z) : string := if decide (x = three) then "3" else "1.5".

Lemma double_text_is_misread_witness :
  (let? x := encode demo_fmt hex_text (MkEncodeConfig false false false) (VmPrimitive (VDouble three)) in
   decode hex_read x (TyPrimitive Double)) = Ok (VmPrimitive (VDouble 3)).
Proof.
  apply (double_text_is_misread demo_fmt hex_text hex_read (MkEncodeConfig false false false)
           eq_refl eq_refl eq_refl).
Defined.

(** C23: integers keep their width.  The executor adds and subtracts 64-bit integers
    to a 64-bit integer, the exact result unless it overflows and the one that is
    congruent to it modulo [2^64] if it does; and no call of a loaded script, whatever
    it does, checked exactly or not, under whatever schedule, answers with an integer
    out of the range of [i64], provided the arguments, the script's constants and the
    values read from the store have none. *)
Theorem integers_keep_width (S T : Type) `{KvTransaction T} `{!KeyValueStore S T}
    (rmp_to_vec : PrimitiveValue -> bytes) (rmp_from_slice : bytes -> anyhow PrimitiveValue) (schedule : nat -> nat)
    (others : nat -> S -> S) (fmt_f64 : Z -> string) (base64_encode : bytes -> string)
    (base64_decode : string -> option bytes) (compile_twscript : string -> anyhow TwScript)
    (kosaraju_scc : nat -> list (nat * nat) -> list (list nat)) (schema : CompiledSchema) (plan : Plan) (text : string)
    (ec : ExecContext) :
  (forall b, yields int_ok (rmp_from_slice b)) -> load compile_twscript kosaraju_scc schema plan text = Ok ec ->
  Forall ints_ok (vm_consts (ec_vm ec)) ->
  (forall l r, sum_fits (l + r) (node_Add (VmPrimitive (VInt64 l)) (VmPrimitive (VInt64 r))) /\
               sum_fits (l - r) (node_Sub (VmPrimitive (VInt64 l)) (VmPrimitive (VInt64 r)))) /\
  forall timer name params config s answer s', Forall wire_ints_ok params ->
    run_exported_graph (T := T) rmp_to_vec rmp_from_slice schedule others fmt_f64 base64_encode base64_decode ec timer name
      params config s = (Ok answer, s') ->
    wire_ints_ok answer.
Proof.
  intros Hrmp Hload Hc. split; [exact add_sub_fits|]. intros timer name params config s answer s' Hp Hr.
  apply (run_exported_graph_fits rmp_to_vec rmp_from_slice schedule others fmt_f64 base64_encode base64_decode Hrmp ec timer
    name params config s Hc (load_root_fits _ _ _ _ _ _ Hload) Hp). by rewrite Hr.
Qed.

Lemma demo_from_slice_fits b : yields int_ok (demo_from_slice b).
Proof.
  intros v. unfold demo_from_slice. repeat case_match; intros [= <-]; try exact I. apply i64_wrap_range.
Qed.

Lemma integers_keep_width_witness : is_i64 1.
Proof.
  destruct (integers_keep_width MemStore MemTxn (KeyValueStore0 := mem_store map_to_list) demo_to_vec demo_from_slice
    (fun _ => 0) alone no_text hex_text hex_read (compile_twscript items_parse) every_graph demo_schema demo_plan "" source_ec
    demo_from_slice_fits source_ec_loads) as [_ Ha].
  - cbn [ec_vm source_ec vm_consts]. repeat (apply List.Forall_cons; [first [exact I|cbn; unfold is_i64; lia]|]). apply List.Forall_nil.
  - refine (Ha None "get" [SNull] demo_config added_store (SInt64 1) (source_call None "get" added_store).2 _ _).
    + apply List.Forall_cons; [exact I|apply List.Forall_nil].
    + vm_compute. reflexivity.
Defined.

(** ** The cache of loaded queries *)
(** C34: in every interleaving of clients with the collector, a pass of the
    collector over the hot queries ends and keeps exactly those that are at most
    three seconds old, although it stops at the first that is: the LRU order of the
    hot cache is the order of creation, because look-ups do not touch it. *)
Theorem hot_expiry_exact (I C : Type) `{!Lru QueryCacheKey ExecContext I, !Lru (string * string) HotItem C}
    `{!LruLaws QueryCacheKey ExecContext I, !LruLaws (string * string) HotItem C} (st : CacheState I C) (now : Z) :
  cache_reachable st ->
  exists c, expire_hot (st_cache st) now = Ok c /\ items c = items (st_cache st) /\
    forall p, p ∈ lru_view (hot_items c) <->
      p ∈ lru_view (hot_items (st_cache st)) /\ (now - create_time p.2 <= HOT_ITEM_TTL)%Z.
Proof.
  intros Hr%cache_reachable_ok. destruct (expire_hot_view (st_cache st) now (co_sorted _ Hr)) as (c & He & Hi & Hv).
  exists c. split; [done|]. split; [done|]. intros p. rewrite Hv, list_elem_of_filter. unfold live. naive_solver.
Qed.

#[local] Existing Instances list_lru list_lru_laws.
Abbreviation ItemList := (list (QueryCacheKey * ExecContext)).
Abbreviation HotList := (list ((string * string) * HotItem)).

Definition demo_key (name : string) : QueryCacheKey := MkQueryCacheKey "ns" "d1" name 7.

(** Two queries made hot, at 0 and at 2 seconds. *)
Definition demo_cache : CacheState ItemList HotList :=
  let c := cache_put (cache_put cache_new (demo_key "a") source_ec) (demo_key "b") source_ec in
  MkCacheState (insert_hot (insert_hot c (demo_key "a") source_ec 0) (demo_key "b") source_ec 2000000000) []
    2000000000 [(demo_key "b", source_ec); (demo_key "a", source_ec)].

Lemma demo_cache_reachable : cache_reachable demo_cache.
Proof.
  exists 0%Z. eapply rtc_l; [apply (step_put _ _ _ _ (demo_key "a") source_ec)|].
  eapply rtc_l; [apply (step_put _ _ _ _ (demo_key "b") source_ec)|].
  eapply rtc_l; [by apply (step_get_item _ _ _ _ (demo_key "a") source_ec)|].
  eapply rtc_l; [by apply (step_insert_hot _ [] [] _ _ _ _ 0)|].
  eapply rtc_l; [by apply (step_get_item _ _ _ _ (demo_key "b") source_ec)|].
  eapply rtc_l; [by apply (step_insert_hot _ [] [] _ _ _ _ 2000000000)|]. apply rtc_refl.
Qed.

Lemma hot_expiry_exact_witness :
  exists c, expire_hot (st_cache demo_cache) 4000000000 = Ok c /\ items c = items (st_cache demo_cache) /\
    forall p, p ∈ lru_view (hot_items c) <->
      p ∈ lru_view (hot_items (st_cache demo_cache)) /\ (4000000000 - create_time p.2 <= HOT_ITEM_TTL)%Z.
Proof. apply (hot_expiry_exact ItemList HotList demo_cache 4000000000 demo_cache_reachable). Defined.

(** C35: in every interleaving, what the hot cache answers for a namespace and a
    script name is a query that was put for that namespace and name, though maybe
    of an earlier deployment or version.  What the main cache answers for a key was put for that key, and a
    pass of the collector that shrinks it drops the sixteen queries put longest
    ago, if there are more than 64. *)
Theorem cached_query_was_put (I C : Type) `{!Lru QueryCacheKey ExecContext I, !Lru (string * string) HotItem C}
    `{!LruLaws QueryCacheKey ExecContext I, !LruLaws (string * string) HotItem C} (st : CacheState I C) :
  cache_reachable st ->
  (forall namespace name ctx, get_hot (st_cache st) namespace name = Some ctx ->
    exists key, (key, ctx) ∈ st_put st /\ namespace_id key = namespace /\ query_script_id key = name) /\
  (forall key ctx, get_item (st_cache st) key = Some ctx -> (key, ctx) ∈ st_put st) /\
  (forall memory threshold, (threshold < memory)%Z ->
    lru_view (items (shrink (st_cache st) memory threshold)) =
      if decide (64 < length (lru_view (items (st_cache st)))) then drop 16 (lru_view (items (st_cache st)))
      else lru_view (items (st_cache st))).
Proof.
  intros Hr%cache_reachable_ok. split_and!.
  - intros namespace name ctx. by apply get_hot_was_put.
  - intros key ctx Hg. unfold get_item in Hg. rewrite lru_peek_view in Hg. by apply (co_items _ Hr), lru_find_elem.
  - intros memory threshold Hlt. destruct (shrink_view (st_cache st) memory threshold) as [_ ->].
    repeat case_decide; naive_solver.
Qed.

Lemma cached_query_was_put_witness :
  exists key, (key, source_ec) ∈ st_put demo_cache /\ namespace_id key = "ns" /\ query_script_id key = "b".
Proof. apply (cached_query_was_put ItemList HotList demo_cache demo_cache_reachable). reflexivity. Defined.
