(* ===== verification/CodegenProperties.v ===== *)
(** * Properties of compiled scripts

    The theorems about what the code generator emits ([CodegenFacts]), about the
    meaning of read-only scripts without a scheduler ([SeqEval], [SeqSched]), and
    scripts from source text on which the guarantees end. *)
From stdpp Require Import prelude gmap strings list.
From Stdlib Require Import Strings.Byte ZArith.
From S2P Require Import Prelude OrdMap Schema SchemaFacts StoragePlan Planner Value PathWalker WalkerTyping Kv.
From S2P Require Import MemKv VmValue Bytecode Typeck Exec ValueTyping NodeSound GraphSound TypeckSound RunGraph.
From S2P Require Import SeqEval SeqSched AsmAst Codegen CodegenFacts SourceSem SourceRun SourceLaws.
From S2P Require Import Limits Demo DemoScript.

(** ** The shape of compiled scripts *)
(** C13: compiling a script never panics, the conditions it pushes and pops
    included, and the script it gives is well formed: in every graph the edges and
    preconditions go to earlier nodes, an operation has the operands the executor
    takes from it, its constants, identifiers, types and subgraphs exist, a
    parameter is loaded only if there is one; and the graphs are those of the
    source, in order, under distinct names. *)
Theorem compiled_script_is_well_formed (root : AstRoot) :
  match compile_root root with
  | Ok s =>
      script_wf s /\ NoDup (g_name <$> graphs s) /\
      Forall2 (fun g x => g_name x = ag_name g /\ exported x = ag_exported g /\
                 length (param_types x) = length (ag_params g)) (root_graphs root) (graphs s)
  | Err _ => True
  | Panic | NoFuel => False
  end.
Proof. pose proof (compile_root_ok root) as H. destruct (compile_root root); naive_solver. Qed.


(** [x ?? y + 1] with its constant, in the source. *)
Definition ex (k : ExprKind) : Expr := MkExpr 0 0 k.
Definition var (x : string) : Expr := ex (KNode x).
Definition int : option AstType := Some (APrimitive Int64).
Definition graph_g (params : list (string * option AstType)) (l : list StmtKind) : AstGraph :=
  MkAstGraph "g" true params int (MkStmt 0 <$> l).
Definition i64 (x : Z) : VmValue := VmPrimitive (VInt64 x).

Definition or_else_source : AstGraph :=
  graph_g [("x", int); ("y", int)]
    [SReturn (ex (KOrElse (var "x") (ex (KAdd (var "y") (ex (KLoadConst (LInteger 1)))))))].

(** The program of a script, on the empty schema. *)
Definition source_vm (gs : list AstGraph) : TwVm :=
  ok_default (demo_vm [] [] [] [])
    (let? s := map_err (fun e => TypeNotFound (fmt_asm_error e)) (compile_root (MkAstRoot gs [])) in
     vm_new empty_schema empty_plan s).








(** The meanings of the nodes of a graph under construction. *)
Section Meanings.
Context {T : Type} `{KvTransaction T}.
Context (rmp_to_vec : PrimitiveValue -> bytes) (rmp_from_slice : bytes -> anyhow PrimitiveValue).
Context (vm : TwVm) (txn : T) (rec : nat -> list VmValue -> xres (option VmValue)) (args : list VmValue) (params : list VmType).

Definition node_op : TwGraphNode -> list Meaning -> option Meaning -> Meaning :=
  perform vm params (seq_node rmp_to_vec rmp_from_slice vm txn rec args).

Definition node_meanings (c : GraphContext) : list Meaning := eval_nodes node_op [] (g_nodes (target c)).
End Meanings.


(** A nested [if] whose two branches throw, under a parameter that is false. *)
Definition no_graph (i : nat) (args : list VmValue) : xres (option VmValue) := Err (XPanic PInconsistent).


Definition under_false : GraphContext :=
  MkGraphContext {["c" := 0]} (MkBuilder [] [] [] ∅)
    (MkGraph "g" true [MkGNode (LoadParam 0) [] None; MkGNode (LoadParam 1) [] None] None [0; 0] None) [1].


Abbreviation demo_meanings := (node_meanings demo_to_vec demo_from_slice items_vm demo_txn no_graph [VmBool true; VmBool false] [TyBool; TyBool]).

Lemma under_false_ok : ctx_ok 2 0 under_false.
Proof.
  split; simpl.
  - split; apply pool_ok_nil.
  - intros [|[|i]] n Hn; try done; injection Hn as <-; split; simpl; try done; try lia; intros s Hs; by apply elem_of_nil in Hs.
  - intros x i. rewrite lookup_singleton_Some. intros [_ <-]. lia.
  - constructor; [lia|constructor].
  - done.
Qed.


(** The node generated for [l ?? r], where [r] is not a bare variable, has the
    value of [l] if that is there, and then nothing of [r] is reached; and it has
    the value that [r] means if [l] is null.  This holds at the top of a graph and
    under a condition that is true. *)
Lemma or_else_chooses (T : Type) `{KvTransaction T} (rmp_to_vec : PrimitiveValue -> bytes)
    (rmp_from_slice : bytes -> anyhow PrimitiveValue) (vm : TwVm) (txn : T)
    (rec : nat -> list VmValue -> xres (option VmValue)) (args : list VmValue) (params : list VmType)
    (root : AstRoot) (np : nat) (name : option string) (l r : Expr) (c c1 c' : GraphContext) (i il : nat) (d dl : Meaning)
    (v : VmValue) :
  let meanings := node_meanings rmp_to_vec rmp_from_slice vm txn rec args params in
  let meaning_of c' := denote (node_op rmp_to_vec rmp_from_slice vm txn rec args params) (emit_pools (builder c') [])
                         (type_aliases (builder c')) root (omap (meanings c !!.) (names c)) in
  ctx_ok np (length (root_graphs root)) c ->
  generate_expr root name (MkExpr 0 0 (KOrElse l r)) c = Ok (i, c') -> generate_expr root None l c = Ok (il, c1) ->
  meanings c' !! i = Some d -> meanings c1 !! il = Some dl -> m_result dl = Some (Some v) ->
  match head (condition_stack c) ≫= (meanings c !!.) with Some p => says p true | None => True end ->
  is_variable r = false ->
  exists cond dr trr,
    meaning_of c' (Some cond) r = Some (dr, trr) /\ says cond (is_null v) /\ (forall x, x ∈ trr -> x ∈ meanings c') /\
    if is_null v then m_result d = Some <$> m_value dr else m_result d = Some (Some v) /\ m_state dr = None.
Proof. intros meanings meaning_of. apply (generated_or_else rmp_to_vec rmp_from_slice vm txn rec args params root np c name 0 0). Qed.

(** [c ?? false] in the same graph, at its top. *)
Definition at_top : GraphContext := MkGraphContext (names under_false) (builder under_false) (target under_false) [].

Definition at_top' : GraphContext :=
  Eval vm_compute in from_option snd at_top (option_ok
    (generate_expr (MkAstRoot [] []) None (ex (KOrElse (var "c") (ex (KLoadConst (LBool false))))) at_top)).

Lemma or_else_chooses_witness :
  (demo_meanings at_top' !! 6) ≫= m_result = Some (Some (VmBool true)).
Proof.
  assert (Hc : ctx_ok 2 0 at_top) by (destruct under_false_ok; split; [done..|constructor|done]).
  set (d := default (MkMeaning Nop None None false) (demo_meanings at_top' !! 6)).
  assert (Hd : demo_meanings at_top' !! 6 = Some d) by (vm_compute; reflexivity).
  destruct (or_else_chooses (MockTransaction (btree bytes)) demo_to_vec demo_from_slice items_vm demo_txn
    no_graph [VmBool true; VmBool false] [TyBool; TyBool] (MkAstRoot [] []) 2 None (var "c") (ex (KLoadConst (LBool false)))
    at_top at_top at_top' 6 0 d (MkMeaning (LoadParam 0) (Some TyBool) (Some (Ok (Some (VmBool true)))) false) (VmBool true)
    Hc eq_refl eq_refl Hd eq_refl eq_refl I eq_refl) as (cond & dr & trr & _ & _ & _ & Hv & _).
  rewrite Hd. exact Hv.
Defined.

(** ** Where the guarantees end *)
Definition run_source (gs : list AstGraph) (args : list VmValue) : xres (option VmValue) :=
  run_value (seq 0 (length gs)) (source_vm gs) 0 args.

(** In [x ?? y] the alternative [y] is not put under the condition that [x] is
    null when it is a variable: when both are there, both candidates of the
    select complete, and the second indexes an emptied list of dependencies and
    panics, instead of reporting [BothSelectCandidatesFired].  With a computed
    alternative, as [y + 1], the expression works. *)
Lemma or_else_variable_panics :
  let plain := graph_g [("x", int); ("y", int)] [SReturn (ex (KOrElse (var "x") (var "y")))] in
  is_ok (check [0] (source_vm [plain])) = true /\
  run_source [plain] [i64 1; i64 2] = Err (XPanic PDepsIndex) /\
  run_source [or_else_source] [i64 1; i64 2] = Ok (Some (i64 1)) /\
  run_source [or_else_source] [VmNull (TyPrimitive Int64); i64 2] = Ok (Some (i64 3)).
Proof. vm_compute. split_and!; reflexivity. Qed.

(** In [x + x] the addition fires when [x] completes as its first operand, and
    again as its second, and the second time finds no operands: a checked script
    panics. *)
Lemma same_operand_twice_panics :
  let double := graph_g [("x", int)] [SReturn (ex (KAdd (var "x") (var "x")))] in
  is_ok (check [0] (source_vm [double])) = true /\
  run_source [double] [i64 1] = Err (XPanic PInconsistent).
Proof. vm_compute. split; reflexivity. Qed.

(** A variable that is defined as, or returned as, another variable does not
    get a node of its own, so that the definition [z = x] is forgotten, and
    [if c { return x; }] returns [x] also when [c] is false. *)
Lemma variable_gets_no_node :
  let alias := graph_g [("x", int)] [SNode (Some "z") (var "x"); SReturn (var "z")] in
  let guarded r := graph_g [("x", int); ("c", Some ABool)] [SIf (var "c") [MkStmt 0 (SReturn r)] None] in
  compile_root (MkAstRoot [alias] []) = Err (NodeNotFound "z") /\
  run_source [guarded (var "x")] [i64 1; VmBool false] = Ok (Some (i64 1)) /\
  run_source [guarded (ex (KLoadConst (LInteger 1)))] [i64 1; VmBool false] = Ok None.
Proof. vm_compute. split_and!; reflexivity. Qed.
