(* ===== verification/ServerProperties.v ===== *)
(** * Properties of the server

    The theorems about the back ends ([Sqlite], [Foundation]), the start of the
    server ([System]), its control plane ([ControlPlane]) and its queries
    ([HttpApi]), with instances on the sample server. *)
From stdpp Require Import prelude gmap strings list.
From Stdlib Require Import Strings.Byte ZArith Sorted.
From S2P Require Import Prelude OrdMap Schema SchemaFacts StoragePlan Planner PlannerFacts Value PathWalker WalkerTyping.
From S2P Require Import Kv VmValue Bytecode Typeck Exec ValueTyping NodeSound GraphSound TypeckSound RunGraph.
From S2P Require Import Backend Sqlite Foundation BackendSound AsmAst Codegen Serialize SerializeFacts Query QueryCache ServerEnv System.
From S2P Require Import ControlPlane ControlFacts HttpApi Confined Session Limits Demo DemoScript SystemScript DemoPipeline DemoBackends SystemDemo.

(** ** The back ends *)




(** C20: a scan of the FoundationDB back end yields exactly the keys of the range
    that the transaction read when it began, in order and without the prefix of the
    store, however the database cuts the range into batches; a batch that fails is
    an error, and the iterator neither panics nor loops. *)
Theorem fdb_scan_pages (D R X E : Type) `{FdbLaws D R X E} (t : FdbTxn X) (lo hi : bytes) :
  match kv_scan_keys t lo hi with
  | Ok ks => StronglySorted (fun x y => cmp x y = Lt) ks /\
      forall k, k ∈ ks <-> oleb lo k = true /\ oltb k hi = true /\ is_Some (kv_snapshot t k)
  | Err _ => True
  | Panic | NoFuel => False
  end.
Proof. apply fdb_scan_spec. Qed.

(** Five keys under a prefix, served in three batches. *)
Definition five_keys : FdbTxn (Rows * list ModOp) :=
  MkFdbTxn ((fun b => ([x07; b], [])) <$> [x05; x01; x04; x02; x03], []) [x07].

Example fdb_scans_five : kv_scan_keys five_keys [x01] [x05] = Ok [[x01]; [x02]; [x03]; [x04]].
Proof. vm_compute. reflexivity. Qed.

Lemma fdb_scan_pages_witness : [x03] ∈ [[x01]; [x02]; [x03]; [x04]] <-> is_Some (kv_snapshot five_keys [x03]).
Proof.
  pose proof (fdb_scan_pages Rows Rows (Rows * list ModOp) string five_keys [x01] [x05]) as H.
  rewrite fdb_scans_five in H. destruct H as [_ H]. rewrite H. split; [by intros (_ & _ & Hs)|].
  intros Hs. by split_and!.
Defined.

(** ** Starting *)

(** C17: a server that has started leaves its schema and plan in the metadata store,
    and the next start finds them: whatever random bytes it draws and whether or not
    it is given a hash, it loads the same context, asks for no migration and writes
    nothing, provided the store can be read. *)
Theorem restart_keeps_plan (S T : Type) `{KvStoreLaws S T} `{!KvTransactionLaws T} `{CrateLaws}
    (fuel : AstSchema -> nat) (SCHEMA SYS_RASM : string) (ent ent' : Entropy) (hash hash' : option string)
    (meta meta' meta1 : S) (txn : T) (ec : ExecContext) (a b : option bytes) :
  system_schema_new (T := T) fuel SCHEMA SYS_RASM ent hash meta = Ok (ec, meta') ->
  kv_begin meta' = Ok (meta1, txn) -> kv_get txn schema_key = Ok a -> kv_get txn plan_key = Ok b ->
  system_schema_new (T := T) fuel SCHEMA SYS_RASM ent' hash' meta' = Ok (ec, meta1).
Proof.
  intros Hn Hb Ha Hp. apply start_leaves_schema in Hn as (schema & plan & Hs & Hm & Hl).
  by eapply start_unchanged.
Qed.

Lemma restart_keeps_plan_witness :
  system_schema_new (S := Store) (T := Txn) start_fuel "system" "sys" (fun _ => (0, 0)%Z) None
    (system_metadata_store started_db) = Ok (system_ec, system_metadata_store started_db).
Proof.
  assert (Hb : kv_begin (S := Store) (system_metadata_store started_db) = Ok (system_metadata_store started_db,
    MkSqliteKvTxn (txn_worker (X := SqlTxn) started_db) [] "system_meta" [])) by reflexivity.
  pose proof server_starts as Hs. unfold started in Hs.
  refine (restart_keeps_plan Store Txn start_fuel "system" "sys" counter_entropy (fun _ => (0, 0)%Z) None None
    (system_metadata_store []) (system_metadata_store started_db) (system_metadata_store started_db)
    (MkSqliteKvTxn (txn_worker (X := SqlTxn) started_db) [] "system_meta" []) system_ec
    (Some (as_bytes "system")) (Some [x02]) Hs Hb _ _); vm_compute; reflexivity.
Defined.

(** C31: no unattended migration: a start without the hash of the new schema leaves
    a metadata store that has a schema as it is, or does not succeed. *)
Theorem no_unattended_migration (S T : Type) `{KvStoreLaws S T} `{!KvTransactionLaws T} `{CrateLaws}
    (fuel : AstSchema -> nat) (SCHEMA SYS_RASM : string) (ent : Entropy) (hash : option string) (meta meta' : S)
    (ec : ExecContext) :
  system_schema_new (T := T) fuel SCHEMA SYS_RASM ent hash meta = Ok (ec, meta') ->
  kv_contents meta schema_key <> None -> hash <> Some (sha256_hex SCHEMA) ->
  forall k, kv_contents meta' k = kv_contents meta k.
Proof. apply start_without_hash. Qed.

Lemma no_unattended_migration_witness :
  kv_contents (system_metadata_store started_db) plan_key = Some [x02].
Proof.
  assert (Hn : system_schema_new (S := Store) (T := Txn) start_fuel "system" "sys" counter_entropy None
    (system_metadata_store started_db) = Ok (system_ec, system_metadata_store started_db)) by (vm_compute; reflexivity).
  refine (eq_trans (no_unattended_migration Store Txn start_fuel "system" "sys" counter_entropy None
    (system_metadata_store started_db) (system_metadata_store started_db) system_ec Hn _ _ plan_key) _).
  - vm_compute. discriminate.
  - discriminate.
  - vm_compute. reflexivity.
Defined.

(** ** A running server *)




(** C8: a query stays in its namespace.  On SQLite, running any graph of any script in
    the store of a namespace, checked or not and however it ends, keeps everything
    about the database that does not depend on the keys of the user data under the
    prefix of the namespace (the tables of the system, the data of the other
    namespaces), provided other clients keep it. *)
Theorem queries_are_confined (D X : Type) `{SqliteLaws D X} `{!Crates} (o : Circumstances D) (P : D -> Prop)
    (ec : ExecContext) (kv_prefix : bytes) (name : string) (params : list SerializedVmValue)
    (config : VmValueEncodeConfig) (d : D) :
  (forall d d', same_outside "user_data" kv_prefix d d' -> P d -> P d') ->
  (forall i d, P d -> P (other_clients o i d)) -> P d ->
  P (run_query (T := SqliteKvTxn X) o ec kv_prefix name params config d).2.
Proof. apply run_query_confined. Qed.

(** An item is added in a namespace, next to the data of another. *)
Lemma queries_are_confined_witness :
  sq_rows (X := SqlTxn) (run_query (S := Store) (T := Txn) calm source_ec (replicate 16 x07 ++ [x00]) "add" [SNull]
    full_config filled_db).2 "user_data" (replicate 16 x08 ++ [x00; x01]) = Some [x06].
Proof.
  refine (queries_are_confined Tables SqlTxn calm
    (fun d => sq_rows (X := SqlTxn) d "user_data" (replicate 16 x08 ++ [x00; x01]) = Some [x06]) source_ec
    (replicate 16 x07 ++ [x00]) "add" [SNull] full_config filled_db _ _ _).
  - intros d d' Hout Hd. rewrite (Hout "user_data"); [exact Hd|]. intros _ r Hr. discriminate Hr.
  - intros i d Hd. exact Hd.
  - vm_compute. reflexivity.
Defined.

(** ** The control plane *)

(** The calls the control plane makes of its own script are sound on SQLite: the
    system script, compiled from its source and checked against the system schema,
    answers every call on a well-typed system store, for every schedule and whatever
    well-typed data other clients commit meanwhile, with an encoded value of the
    graph's type, an error, or one of the four panics of the executor, which the
    server catches; and it leaves the system store well typed. *)
Lemma system_calls_answer (D X : Type) `{SqliteLaws D X} (rmp_to_vec : PrimitiveValue -> bytes)
    (rmp_from_slice : bytes -> anyhow PrimitiveValue) (schedule : nat -> nat)
    (others : nat -> SqliteKvStore D -> SqliteKvStore D) (fmt_f64 : Z -> string) (base64_encode : bytes -> string)
    (base64_decode : string -> option bytes) :
  (forall x, returns (rmp_from_slice x)) ->
  exists rec, plan_ok system_schema system_plan_made rec /\
    forall name params config s,
      let good := sqlite_good rmp_from_slice (ec_vm system_ec) rec (store_table s) (Sqlite.store_prefix s) in
      (forall i s, good s -> good (others i s)) -> holds_typed rmp_from_slice (ec_vm system_ec) rec s ->
      answer_ok rmp_to_vec rmp_from_slice fmt_f64 base64_encode system_ec rec good name config
        (run_exported_graph_inner (T := SqliteKvTxn X) rmp_to_vec rmp_from_slice schedule others fmt_f64 base64_encode
           base64_decode system_ec name params config s).
Proof.
  intros Hrmp. destruct system_plan_ok as [rec Hp]. exists rec. split; [done|]. intros name params config s good Ho Hs.
  eapply (run_for_answers rmp_to_vec rmp_from_slice schedule others fmt_f64 base64_encode base64_decode
    system_ec rec system_compile every_graph system_schema system_plan_made "");
    [exact system_schema_wf|exact system_ec_loads|exact every_graph_covers|by apply system_vm_ok|exact system_exact
    |exact system_params_wf|by apply sqlite_store_ok|by split_and!].
Qed.

(** A namespace is added to an empty system store, and listed. *)
Definition system_call (name : string) (params : list SerializedVmValue) (s : Store)
    : qres SerializedVmValue * Store :=
  run_exported_graph_inner (T := Txn) demo_to_vec demo_from_slice (fun _ => 0) (fun _ s => s) no_text hex_text hex_read
    system_ec name params full_config s.

Definition add_one (s : Store) : qres SerializedVmValue * Store :=
  system_call "add_namespace" [SNull; SString "ns"; SBytes [x07]; SInt64 5] s.

Definition one_namespace : Store := Eval vm_compute in (add_one (system_store [])).2.

Lemma one_added : add_one (system_store []) = (Ok (SBool true), one_namespace).
Proof. vm_compute. reflexivity. Qed.

Lemma system_calls_answer_witness :
  exists rec, answer_ok demo_to_vec demo_from_slice no_text hex_text system_ec rec
      (sqlite_good demo_from_slice (ec_vm system_ec) rec "system" []) "list_namespaces" full_config
    (system_call "list_namespaces" [SNull] one_namespace).
Proof.
  destruct (system_calls_answer Tables SqlTxn demo_to_vec demo_from_slice (fun _ => 0) (fun _ s => s) no_text hex_text
    hex_read demo_from_slice_returns) as (rec & _ & Ha).
  exists rec. apply (Ha "list_namespaces" [SNull] full_config one_namespace); [auto|].
  assert (H0 : holds_typed demo_from_slice (ec_vm system_ec) rec (system_store [] : Store)).
  { intros w q bs v _ Hk. discriminate Hk. }
  destruct (Ha "add_namespace" [SNull; SString "ns"; SBytes [x07]; SInt64 5] full_config (system_store [])
    (fun _ _ H => H) H0 : answer_ok _ _ _ _ _ _ _ _ _ (add_one (system_store []))) as [_ Hadd].
  rewrite one_added in Hadd. exact (proj1 (Hadd demo_codec_ok)).
Defined.

(** C30: none of the calls of the service that neither compile a schema nor load a
    script panics, whatever the stores return and whatever the system graphs answer:
    every unwrap of a required field and the assertion on the popped zero hold. *)
Theorem control_plane_never_panics (D S T : Type) `{KvTransactionLaws T} `{!KvReturns T} `{!KeyValueStore S T}
    `{!Stores D S} `{!Crates} (fuel : AstSchema -> nat) (system : ExecContext) (o : Circumstances D) (r : Request) (d : D) :
  compiles r = false -> crates_return -> store_returns (S := S) (T := T) ->
  (serve (T := T) fuel system o r d).1 <> Panic.
Proof. intros. by apply serve_never. Qed.

Lemma control_plane_never_panics_witness : (ask (DeleteNamespace "ns") started_db).1 <> Panic.
Proof.
  apply (control_plane_never_panics Tables Store Txn start_fuel system_ec calm (DeleteNamespace "ns") started_db eq_refl).
  - exact sample_crates_return.
  - exact sample_store_returns.
Defined.



(** C19: a deployment that passes the integrity check is sound: its plan is the one
    that was submitted, byte for byte, and conforms to the schema that was
    submitted with it. *)
Theorem accepted_deployment_conforms (D : Type) `{CrateLaws} (fuel : AstSchema -> nat) (o : Circumstances D)
    (r : CreateDeploymentRequest) (p : Plan) :
  check_deployment fuel o r = Ok p ->
  exists schema text rec, compile_text fuel (cd_schema r) = Ok schema /\ yaml_from_str (cd_plan r) = Ok text /\
    plan_try_from base64_decode text = Ok p /\
    Forall2 (fun e n => e.1 = n.1 /\ node_for schema rec ∅ e.2 n.2) (exports schema) (nodes p).
Proof. apply check_deployment_sound. Qed.

Definition sample_deployment : CreateDeploymentRequest := MkCreateDeployment "ns" "first" "items" "items plan".

Lemma accepted_deployment_conforms_witness :
  exists schema rec, compile_text start_fuel "items" = Ok schema /\
    Forall2 (fun e n => e.1 = n.1 /\ node_for schema rec ∅ e.2 n.2) (exports schema) (nodes demo_plan).
Proof.
  assert (Hc : check_deployment start_fuel calm sample_deployment = Ok demo_plan) by (vm_compute; reflexivity).
  destruct (accepted_deployment_conforms Tables start_fuel calm sample_deployment demo_plan Hc)
    as (schema & text & rec & Hs & _ & _ & Hf).
  exists schema, rec. split; [exact Hs|exact Hf].
Defined.

(** And the check is complete: a plan the planner made for the schema, from any
    old plan, is accepted from its text, whatever the server draws when it plans
    again. *)
Lemma planned_deployment_is_accepted (D : Type) `{CrateLaws} (fuel : AstSchema -> nat) (o : Circumstances D)
    (r : CreateDeploymentRequest) (schema os : CompiledSchema) (ent : Entropy) (old p : Plan) (v : bytes) :
  compile_text fuel (cd_schema r) = Ok schema -> plan_text ent old os schema = Ok p ->
  yaml_from_str (cd_plan r) = Ok (plan_to_string base64_encode p) -> Forall (fun q => node_all key_ok q.2) (nodes old) ->
  plan_to_vec_named p = Ok v -> check_deployment fuel o r = Ok p.
Proof.
  intros Hs Hg Ht Hold Hv. rewrite (check_deployment_complete fuel o r schema ent old os p Hs Hg Ht Hold). by rewrite Hv.
Qed.

Lemma planned_deployment_is_accepted_witness : check_deployment start_fuel calm sample_deployment = Ok demo_plan.
Proof.
  apply (planned_deployment_is_accepted Tables start_fuel calm sample_deployment demo_schema empty_schema counter_entropy
    empty_plan demo_plan [x01]); try (vm_compute; reflexivity). constructor.
Defined.

(** ** Queries *)


