(* ===== verification/PlaygroundProperties.v ===== *)
(** * Properties of the playground

    The theorems about queries ([Playground]) and drawings ([Visualize]) of scripts in
    the playground, with instances on the sample script. *)
From stdpp Require Import prelude gmap strings list.
From Stdlib Require Import Strings.Byte ZArith.
From S2P Require Import Prelude OrdMap Schema SchemaFacts StoragePlan Planner Value PathWalker WalkerTyping Kv.
From S2P Require Import MemKv VmValue Bytecode Typeck Exec ValueTyping NodeSound GraphSound TypeckSound TypeckWf RunGraph.
From S2P Require Import AsmAst Codegen Serialize SerializeFacts Query CodegenFacts CodegenTypes Visualize Pipeline Playground.
From S2P Require Import Limits Demo DemoScript SystemScript DemoPipeline.

(** ** Queries *)


Definition sample_vm : TwVm := ec_vm source_ec.
Definition sample_infos : list GraphTypeInfo := ec_type_info source_ec.
Definition sample_script : TwScript := vm_script sample_vm.
Definition sample_ctx : GlobalTyckContext := ok_default (MkTyck [] []) (tyck_new every_graph sample_vm).
Definition sample_ctx' : GlobalTyckContext := (ok_default ([], sample_ctx) (typeck sample_vm sample_ctx)).2.

Lemma sample_compiles : compile_root items_root_ast = Ok sample_script.
Proof. vm_compute. reflexivity. Qed.
Lemma sample_loads : vm_new demo_schema demo_plan sample_script = Ok sample_vm.
Proof. vm_compute. reflexivity. Qed.
Lemma sample_context : tyck_new every_graph sample_vm = Ok sample_ctx.
Proof. vm_compute. reflexivity. Qed.
Lemma sample_checks : typeck sample_vm sample_ctx = Ok (sample_infos, sample_ctx').
Proof. vm_compute. reflexivity. Qed.
Lemma sample_exact : exact_script sample_vm sample_infos = true.
Proof. vm_compute. reflexivity. Qed.

Definition play (name : string) (s : MemStore) : gres (option SerializedVmValue) * MemStore :=
  run_vm_query (S := MemStore) (T := MemTxn) (KeyValueStore0 := mem_store map_to_list) demo_to_vec demo_from_slice
    (fun _ => 0) alone no_text hex_text hex_read sample_vm sample_infos (MkVmGraphQuery name [SNull]) s.

Definition played_store : MemStore := (play "add" demo_store).2.

Example played : (play "get" played_store).1 = Ok (Some (SString "1")).
Proof. vm_compute. reflexivity. Qed.


(** C25: the example query that the playground shows for a graph can be run: for a
    compiled script that passed the checker, and a graph none of whose declared
    parameter types has a double in it, the example is of that graph and its
    arguments decode. *)
Theorem example_query_is_accepted (base64_decode : string -> option bytes)
    (kosaraju_scc : nat -> list (nat * nat) -> list (list nat)) (schema : CompiledSchema) (plan : Plan) (rec : gset string)
    (root : AstRoot) (script : TwScript) (vm : TwVm) (ctx ctx' : GlobalTyckContext) (infos : list GraphTypeInfo) (i : nat)
    (g : TwGraph) (raw : list VmType) (root_map : VmValue) :
  base64_decode "" = Some [] -> wf_schema schema -> plan_ok schema plan rec -> compile_root root = Ok script ->
  vm_new schema plan script = Ok vm -> tyck_new kosaraju_scc vm = Ok ctx -> covers kosaraju_scc ->
  typeck vm ctx = Ok (infos, ctx') -> exact_script vm infos = true -> generate_root_map schema plan = Ok root_map ->
  graphs script !! i = Some g -> mapM_opt (fun x => vm_types vm !! x) (param_types g) = Some raw -> Forall no_double raw ->
  exists q ex args, generate_example_query vm g = Ok q /\ vq_graph q = g_name g /\
    prepare_query base64_decode vm infos q = Ok (ex, i, args).
Proof.
  intros Hb64 Hwf Hp Hroot Hvm Hctx Hcov Htc Hex Hrm Hg Hraw Hd.
  destruct (compiled_vm_ok schema plan rec Hwf (fun _ => Err "") root script vm Hroot Hvm Hp (fun _ => I)) as [_ Hw].
  destruct (vm_new_inv _ _ _ _ Hvm) as (Hs & Hpl & Hscr & _ & _).
  apply (example_query_prepared base64_decode Hb64 vm infos ctx ctx' Hw (tyck_new_cover _ _ _ Hcov Hctx) Htc Hex) with raw root_map;
    rewrite ?Hs, ?Hpl, ?Hscr; try done.
  pose proof (compile_root_ok root) as Hc. rewrite Hroot in Hc. apply Hc.
Qed.

Definition sample_get : TwGraph := default (MkGraph "" false [] None [] None) (graphs sample_script !! 0).

Lemma example_query_is_accepted_witness :
  exists ex args, prepare_query hex_read sample_vm sample_infos (MkVmGraphQuery "get" [SNull]) = Ok (ex, 0, args).
Proof.
  destruct demo_plan_ok as [rec Hp].
  destruct (example_query_is_accepted hex_read every_graph demo_schema demo_plan rec items_root_ast sample_script sample_vm
    sample_ctx sample_ctx' sample_infos 0 sample_get [TySchema] items_root eq_refl demo_schema_wf Hp sample_compiles sample_loads
    sample_context every_graph_covers sample_checks sample_exact) as (q & ex & args & Hq & _ & Hr).
  - vm_compute. reflexivity.
  - vm_compute. reflexivity.
  - vm_compute. reflexivity.
  - constructor; [exact I|constructor].
  - exists ex, args. assert (q = MkVmGraphQuery "get" [SNull]) as <-; [|exact Hr].
    assert (He : generate_example_query sample_vm sample_get = Ok (MkVmGraphQuery "get" [SNull])) by (vm_compute; reflexivity).
    rewrite He in Hq. by injection Hq.
Defined.

(** The playground lists only exported graphs, but runs any. *)
Definition hidden_root_ast : AstRoot := MkAstRoot [
  graph_ false "secret" [("root", ASchema)] i64_ [return_ (exp (KLoadConst (LInteger 7)))]] [].

Definition hidden_vm : TwVm :=
  ok_default sample_vm (let? s := map_err (fun _ => MissingPrimaryKey) (compile_root hidden_root_ast) in vm_new demo_schema demo_plan s).

Definition hidden_infos : list GraphTypeInfo :=
  match tyck_new every_graph hidden_vm with
  | Ok ctx => match typeck hidden_vm ctx with Ok r => r.1 | _ => [] end
  | _ => []
  end.

Lemma hidden_graph_runs :
  get_vm_graphs (fun _ => Ok "") hidden_vm = Ok [] /\
  lookup_exported_graph_by_name hidden_vm "secret" = Err (ExportedGraphNotFound "secret") /\
  (run_vm_query (S := MemStore) (T := MemTxn) (KeyValueStore0 := mem_store map_to_list) demo_to_vec demo_from_slice
     (fun _ => 0) alone no_text hex_text hex_read hidden_vm hidden_infos (MkVmGraphQuery "secret" [SNull]) demo_store).1
  = Ok (Some (SString "7")).
Proof. vm_compute. split_and!; reflexivity. Qed.

(** ** Drawings *)

(** C24: every compiled script is drawn, without a panic: the picture has a vertex
    for each graph and for each node of each graph, numbered in order, and exactly
    these edges: to a node from each of its operands, in order, from its condition,
    or from its graph if it has neither, and from it to each graph it refers to; and
    both ends of every edge are vertices of the picture. *)
Theorem compiled_script_is_drawn (root : AstRoot) (s : TwScript) :
  compile_root root = Ok s ->
  visualize (graphs s) = Ok (drawing (graphs s)) /\
  vn_id <$> vis_nodes (drawing (graphs s)) = seq 0 (length (vis_nodes (drawing (graphs s)))) /\
  Forall (edge_below (length (vis_nodes (drawing (graphs s))))) (vis_edges (drawing (graphs s))).
Proof.
  intros Hc. pose proof (compile_root_ok root) as Hs. rewrite Hc in Hs. destruct Hs as [Hw _].
  split_and!; [by apply visualize_drawn, script_wf_back|apply drawing_ids|by apply drawing_closed].
Qed.

Lemma compiled_script_is_drawn_witness :
  visualize (graphs sample_script) = Ok (drawing (graphs sample_script)) /\
  length (vis_nodes (drawing (graphs sample_script))) = 18.
Proof. split; [apply (compiled_script_is_drawn items_root_ast sample_script sample_compiles)|vm_compute; reflexivity]. Defined.
