(* ===== verification/ClientProperties.v ===== *)
(** * Properties of the command line client

    The client on any connection, and connected to the server: what it submits is
    accepted, what it changes has been agreed to, and what has not changed is
    submitted as it was. *)
From stdpp Require Import prelude gmap strings list.
From Stdlib Require Import Strings.Byte ZArith.
From S2P Require Import Prelude OrdMap Schema SchemaTermination StoragePlan Planner Value Kv VmValue AsmAst Codegen Serialize Query Backend Sqlite DemoBackends.
From S2P Require Import ServerEnv System ControlPlane ControlFacts Client Limits Demo DemoScript SystemDemo.

(** ** A session with the sample server *)
(** A difference that takes each text as one line. *)
#[local] Instance sample_diff : TextDiff := {|
  grouped_changes a b :=
    if decide (a = b) then []
    else [[[MkChange ChangeDelete (Some 0) None [(false, a)] true; MkChange ChangeInsert None (Some 0) [(false, b)] true]]]
|}.

#[local] Instance sample_diff_laws : TextDiffLaws.
Proof.
  split. intros a b. cbn. destruct (decide (a = b)) as [->|Hn].
  - split; [done|]. intros _ c Hc. by apply not_elem_of_nil in Hc.
  - split; [|done]. intros Hc. specialize (Hc (MkChange ChangeDelete (Some 0) None [(false, a)] true)).
    discriminate Hc. cbn. constructor.
Qed.

(** One file, nobody at the prompt. *)
Definition sample_file (path : string) : anyhow string :=
  if decide (path = "items.rschema") then Ok "items" else Err "no such file".
Definition nobody : anyhow bool := Err "not a terminal".
Definition sample_json (x : Json) : anyhow string :=
  match x with JObject [(k, JString v)] => Ok (k +:+ "=" +:+ v) | _ => Err "unknown value" end.

(** The server as each of two commands meets it: it draws another id. *)
Definition meeting (uuid : string) : Circumstances Tables :=
  MkCircumstances Tables 1700000000000 uuid (replicate 16 x07) counter_entropy (fun _ => None) (fun _ => 0) (fun _ d => d).

Definition create_opts (from : option string) : CreateDeploymentOpts :=
  MkCreateDeploymentOpts from "items.rschema" None "ns".

Definition sample_create (uuid : string) (from : option string) (d : Tables) : outcome CliFail string * Tables :=
  run_create_deployment (RdbControl0 := server_control (S := Store) (T := Txn) start_fuel system_ec (meeting uuid))
    start_fuel sample_file nobody counter_entropy sample_json (create_opts from) d.

(** The first deployment of the namespace, and a migration from it. *)
Definition client_created : Tables := Eval vm_compute in (sample_create "uuid" None with_namespace).2.

Lemma sample_created : sample_create "uuid" None with_namespace = (Ok "id=uuid", client_created).
Proof. vm_compute. reflexivity. Qed.

Definition client_migrated : Tables := Eval vm_compute in (sample_create "uuid2" (Some "uuid") client_created).2.

Lemma sample_migrated : sample_create "uuid2" (Some "uuid") client_created = (Ok "id=uuid2", client_migrated).
Proof. vm_compute. reflexivity. Qed.

(** ** Creating a deployment *)

(** C12: what the client submits, the server accepts.  For every schema file, every
    deployment to migrate from and whatever the two ends draw, the request that
    [create-deployment] makes passes the integrity check of the server and comes out
    as the plan the client has shown; so with the server at the other end the
    command is never refused for its schema or its plan, only for a fault of the
    server's store, of its serializer, or of the client's own side. *)
Theorem client_deployment_is_accepted (D S T : Type) `{!KeyValueStore S T} `{!KvTransaction T} `{!Stores D S}
    `{CrateLaws} `{TextDiffLaws} (fuel : AstSchema -> nat) (system : ExecContext) (o : Circumstances D)
    (read_to_string : string -> anyhow string) (interact : anyhow bool) (ent : Entropy)
    (json_to_string : Json -> anyhow string) (subopts : CreateDeploymentOpts) (d : D) :
  let connection := server_control (T := T) fuel system o in
  (forall r d', plan_deployment fuel read_to_string interact ent subopts d = (Ok r, d') ->
     exists schema p, compile_text fuel (cd_schema r) = Ok schema /\ planner_made schema p /\
       yaml_to_string (plan_to_string base64_encode p) = Ok (cd_plan r) /\
       check_deployment fuel o r = (let? _ := map_err FText (plan_to_vec_named p) in Ok p)) /\
  match (run_create_deployment fuel read_to_string interact ent json_to_string subopts d).1 with
  | Err (CliRpc (RpcStatus e)) => store_fault e
  | _ => True
  end.
Proof.
  intros connection. split; [intros r d'; apply planned_request_passes|].
  destruct (run_create_deployment _ _ _ _ _ _ _) as [[line|e| |] d'] eqn:E; try done.
  exact (client_never_refused fuel system o _ _ _ _ _ _ _ _ E).
Qed.

Lemma client_deployment_is_accepted_witness :
  exists p, yaml_to_string (plan_to_string hex_text p) = Ok "items plan" /\
    check_deployment start_fuel (meeting "uuid2") (MkCreateDeployment "ns" "" "items" "items plan") =
      (let? _ := map_err FText (plan_to_vec_named p) in Ok p).
Proof.
  destruct (client_deployment_is_accepted Tables Store Txn start_fuel system_ec (meeting "uuid2") sample_file nobody
    counter_entropy sample_json (create_opts (Some "uuid")) client_created) as [Hp _].
  destruct (Hp (MkCreateDeployment "ns" "" "items" "items plan") client_created) as (schema & p & _ & _ & Hy & Hc).
  - vm_compute. reflexivity.
  - exists p. split; [exact Hy|exact Hc].
Defined.

(** C21: a migration changes the plan only with consent.  When [create-deployment]
    has migrated from a deployment, it submitted one request after reading that
    deployment, and either the user has agreed at the prompt or the plan it submitted
    is, as a text, the plan it has read. *)
Theorem migration_needs_consent (W : Type) `{!RdbControl W} `{CrateLaws} `{TextDiffLaws} (fuel : AstSchema -> nat)
    (read_to_string : string -> anyhow string) (interact : anyhow bool) (ent : Entropy)
    (json_to_string : Json -> anyhow string) (subopts : CreateDeploymentOpts) (from line : string) (w w' : W) :
  migrate_from subopts = Some from ->
  run_create_deployment fuel read_to_string interact ent json_to_string subopts w = (Ok line, w') ->
  exists info reference r w1 id,
    rpc_get_deployment (namespace subopts) from w = (Ok (Some info), w1) /\
    reference_plan info = Ok reference /\ rpc_create_deployment r w1 = (Ok (Some id), w') /\
    read_to_string (schema_path subopts) = Ok (cd_schema r) /\
    (interact = Ok true \/ yaml_to_string (plan_to_string base64_encode reference) = Ok (cd_plan r)).
Proof.
  unfold run_create_deployment.
  intros Hf (r & w1 & Hp & (res & w2 & Hc%rpc_ok & (id & w3 & [= Hi <-] & [= _ <-])%hbind_ok)%hbind_ok)%hbind_ok.
  apply plan_deployment_ok in Hp as (schema & p & Ht & _ & [_ Hn]%new_deployment_plan_ok & Hx). rewrite Hf in Hn.
  destruct Hn as (info & reference & Hg & Hr & Hn). destruct res as [i|]; [|done].
  exists info, reference, r, w1, i. split_and!; [done..|]. destruct Hn as [Hn|(x & H1x & H2x)]; [by left|right; congruence].
Qed.

Lemma migration_needs_consent_witness :
  exists r w1 id, rpc_create_deployment (RdbControl := server_control (S := Store) (T := Txn) start_fuel system_ec
    (meeting "uuid2")) r w1 = (Ok (Some id), client_migrated) /\ cd_schema r = "items".
Proof.
  destruct (migration_needs_consent Tables (RdbControl0 := server_control (S := Store) (T := Txn) start_fuel system_ec
    (meeting "uuid2")) start_fuel sample_file nobody counter_entropy sample_json (create_opts (Some "uuid")) "uuid" "id=uuid2"
    client_created client_migrated eq_refl sample_migrated) as (info & reference & r & w1 & id & _ & _ & Hc & Hs & _).
  exists r, w1, id. split; [exact Hc|]. injection Hs as <-. reflexivity.
Defined.

(** C22: deploying the same schema again changes nothing: from a deployment with the
    schema of the file and a plan the planner made for it, however long ago and from
    whatever plan, the request has the same schema and the same plan as the
    deployment, whatever the client draws and whether or not there is anyone to
    answer a prompt. *)
Theorem redeploying_changes_nothing (W : Type) `{!RdbControl W} `{CrateLaws} `{TextDiffLaws} (fuel : AstSchema -> nat)
    (read_to_string : string -> anyhow string) (interact : anyhow bool) (ent : Entropy)
    (subopts : CreateDeploymentOpts) (from : string) (info : DeploymentFullInfo) (schema : CompiledSchema) (p : Plan)
    (w w1 : W) :
  migrate_from subopts = Some from -> rpc_get_deployment (namespace subopts) from w = (Ok (Some info), w1) ->
  read_to_string (schema_path subopts) = Ok (di_schema info) -> compile_text fuel (di_schema info) = Ok schema ->
  planner_made schema p -> yaml_to_string (plan_to_string base64_encode p) = Ok (di_plan info) ->
  plan_deployment fuel read_to_string interact ent subopts w =
    (Ok (MkCreateDeployment (namespace subopts) (default "" (description subopts)) (di_schema info) (di_plan info)), w1).
Proof. intros. by eapply planning_again. Qed.

Definition client_info : DeploymentFullInfo := MkDeploymentInfo "uuid" 1700000000000 "" "items" "items plan".

Lemma redeploying_changes_nothing_witness :
  plan_deployment (RdbControl0 := server_control (S := Store) (T := Txn) start_fuel system_ec calm) start_fuel sample_file
    nobody (fun _ => (5, 6)%Z) (create_opts (Some "uuid")) client_created =
  (Ok (MkCreateDeployment "ns" "" "items" "items plan"), client_created).
Proof.
  refine (redeploying_changes_nothing Tables (RdbControl0 := server_control (S := Store) (T := Txn) start_fuel system_ec calm)
    start_fuel sample_file nobody (fun _ => (5, 6)%Z) (create_opts (Some "uuid")) "uuid" client_info demo_schema demo_plan
    client_created client_created eq_refl _ eq_refl _ _ eq_refl).
  - vm_compute. reflexivity.
  - vm_compute. reflexivity.
  - exists counter_entropy, empty_plan, empty_schema. split; [vm_compute; reflexivity|constructor].
Defined.
